(* ===== verification/_CoqProject ===== *)
-Q . S2P
Prelude.v
RustStr.v
RustNet.v
AsyncIo.v
ConfigAuto.v
Config.v
Padding.v
PaddingStream.v
QuicheStream.v
Relay.v
RelayEnd.v
PaddingEnd.v
Wakeup.v
TunnelH3.v
Bridge.v
TunnelH2.v
Connection.v
Address.v
IpFilter.v
Routing.v
Acl.v
Connect.v
Uot.v
UotStream.v
UotTunnel.v
Server.v
Handler.v
Lifecycle.v
Accounting.v
Egress.v
Runner.v
Main.v
DgramBuffer.v
Datagram.v
DgramSockets.v
SocketStats.v
TestsCore.v
TestsConfig.v
TestsDgram.v
TestsRequests.v
TestsStreams.v
