(* ===== verification/Prelude.v ===== *)
(** * Verification of the server-naive proxy agent

    The program is a CONNECT proxy.  A client opens a tunnel over HTTP/2
    (pingora) or HTTP/3 (tokio-quiche); the request is authenticated and routed;
    the bytes of the tunnel pass through the naive padding transport to a relay
    with the target, or to UDP sockets when the target is the magic name of UDP
    over TCP.  A panel gives the users and takes the statistics; a connection
    manager lets a user's tunnels be cancelled.  This library models that
    program in Gallina, operation by operation, and proves what its parts
    promise and what they give together.

    ** Files

    What the repository takes from Rust:
    - [Prelude]: results, polls, errors, bytes, integers of 64 bits, the
      tactics and the hint databases of the library;
    - [RustStr], [RustNet]: the operations of [str], integer parsing and
      [std::net] that the sources call, written out;
    - [AsyncIo]: [AsyncRead] and [AsyncWrite] as classes of operations, and the
      classes [ReadSpec], [WriteSpec], [DuplexSpec], [ReadFinite] that say what a
      stream promises.  Every adapter is proved against them and implements them.

    The path of the bytes:
    - [Padding] (src/src/transport/padding.rs): the generator of padding, the
      poll functions of [NaivePaddedTransport] over any stream, the reference
      decoding [strip];
    - [PaddingStream], [PaddingEnd]: the transport as an implementation of the
      interfaces of [AsyncIo] and [RelayEnd];
    - [QuicheStream] (src/src/transport/quiche_stream.rs): the frame channels of
      an HTTP/3 stream as a byte stream;
    - [Bridge] (src/src/transport/pingora_session.rs): the task that copies the
      body of an HTTP/2 session to and from a pipe, as a step relation;
    - [Relay] (src/src/core/relay.rs): one direction ([poll_copy]) and the
      bidirectional copy ([relay_poll]); [relay_runs] is a run of the task in an
      environment; [RelayEnd]: what a relay that completes has seen and done;
    - [Wakeup]: a pending poll of any of these layers has registered the task
      with a stream below;
    - [TunnelH3], [TunnelH2]: the layers put together as the two entry points of
      src/src/handler.rs do.

    Requests and routing:
    - [Address], [IpFilter] (core/address.rs, core/ip_filter.rs);
    - [Routing] (core/dns.rs, core/hooks.rs), [Acl] (acl.rs): the two routers,
      behind the class [OutboundRouter]; [ClosedRouter] is what a router
      promises when private addresses are blocked;
    - [Connect] (handler.rs from line 511): the outbound connections;
    - [Handler] (handler.rs to line 510): authentication, the two entry points,
      their common specification [decide_request], [process_tunnel], [relay];
    - [Egress]: [Handler] and [Connect] put together, from the bytes of a request
      to the addresses that are dialled for it, where it is a TCP tunnel;
    - [Lifecycle]: the tasks of the tunnels, their registrations ([Connection]) and
      their relays or sessions together, with tasks that kick users beside them;
    - [Accounting]: what the statistics are after a run of [Lifecycle].

    UDP over TCP (uot.rs), in three refinements of [handle_uot_stream]:
    - [Uot]: the codecs, and a session whose steps are the branches of its
      [select!]s and whose reads are functions of the bytes still to come;
    - [UotStream]: the futures that the code awaits, as programs of reads and
      resolutions, polled on a stream that both loops share;
    - [UotTunnel]: the request and the sockets before the session, and all of it
      on the streams of the two kinds of tunnel.

    The process:
    - [Connection] (core/connection.rs): the manager, sequentially and as an
      interleaving of atomic accesses, each under the guards of the concurrent maps;
    - [ConfigAuto], [Config] (config_auto.rs, config.rs, logger.rs);
    - [Server] (core/server.rs, business/mod.rs, error.rs);
    - [Runner] (pingora_runner.rs, quiche_runner.rs, transport/quiche_tls.rs);
    - [Main] (main.rs).

    The crate under src/patches/datagram-socket:
    - [DgramBuffer] (buffer.rs), [Datagram] (mmsg.rs), [DgramSockets]
      (datagram.rs, lib.rs), [SocketStats] (socket_stats.rs, shutdown.rs).

    The unit tests of the repository, each a boolean definition that carries the
    test's name and computes its assertions in the model; an example per module
    evaluates all of them to [true]:
    - [TestsCore] (address.rs, ip_filter.rs, dns.rs, hooks.rs, connection.rs,
      error.rs, server.rs, business/mod.rs);
    - [TestsConfig] (config.rs, config_auto.rs, logger.rs, acl.rs), with a small
      JSON reader and a rule engine for what the tests write;
    - [TestsStreams] (padding.rs, relay.rs): the tasks of a test as a schedule of
      polls on two halves of a pipe, its clock as the times of the polls;
    - [TestsRequests] (handler.rs, uot.rs, quiche_stream.rs, the runners);
    - [TestsDgram] (buffer.rs, mmsg.rs).
    They hold the model to what the authors expect of the code, where the
    theorems say what holds of every input.

    ** Model

    A [poll_*] function is a function from a state to a [poll] of a [result] and
    the state after; wakers are left out, but for the count of pending polls in
    [Wakeup].  A byte is an integer of 0..255 and a
    string is its bytes.  Integers of the machine are [Z] with their wrapping,
    saturation or overflow written out where the code can reach it; lengths that
    memory bounds are [nat].  Code that several tasks run is a step relation
    whose steps are the atomic accesses or the branches of a [select!].  Streams
    keep ghost logs ([rd_log], [wr_log]) of what was read and written: nothing
    in the operations depends on them.

    ** Theorems

    - Tunnels, end to end: a tunnel whose relay completes sent the target exactly
      the payload the client sent, and the client exactly what the target sent,
      whatever the sizes, the polls and the interleaving (C1, C2).
    - Padding: both sides against the reference wire format, the round trip,
      progress and shutdown (C3 to C5, C31).
    - Relay: conservation in every reachable state; a relay that completes took
      both readers to their ends and ended both writers, for streams whose ends
      mean something ([RelayEnd.Ends]); idle timeout, termination of each poll
      (C6, C7, C28, C29); through the padding, no wakeup is lost (C30).
    - Requests: a tunnel is opened exactly for an authenticated request that is
      not rejected, the two entry points refine one specification (C9, C10); what
      a closed router decides, by what the rules, the resolver and the filter say
      of the target (C11, C12), and that a server with one dials no private
      address for a TCP tunnel that it connects directly (C8) - what UDP over TCP
      sends to is not checked ([Egress.uot_sends_unchecked]); the order of
      dialling (C26).
    - Connections: the manager under interleaving (C13 to C15, C25, C27); the
      cancellation of a tunnel (C22); in a server of many tunnels, relays and
      sessions of UDP over TCP, a kick ends those of its user and no other: a
      relay at its next poll, a session by steps that only its token enables
      ([Lifecycle.quiet_needs_kick]) (C18, C23, C33), and the statistics of every user are those of the tunnels, each
      counted once (C21).
    - UDP over TCP: end to end in both kinds of tunnel (C16, C17), by way of the
      refinement of the futures on a stream to the session (C20); and packets cut
      short (C38).
    - The bridge below the padding of HTTP/2 (C19).
    - The process: start, limits, shutdown (C24, C35 to C37).
    - Data: the private ranges as lists of networks, the address round trip, the
      datagram buffer and batches (C32, C34, C39, C40).
    Lemmas outside this list prove the behaviours at the edge: mapped addresses
    and the filter ([IpFilter.is_private_ipv6_mapped]), buffers of size zero
    ([Relay.relay_zero_buffer]), a kick that meets a registration half done
    ([Connection.kick_misses_pending_register]), and others named in the files.

    ** Fuel and bounds

    Loops that are not structural take fuel, and a theorem says how much is
    enough: the loop of a padded read needs one turn more than a measure of the
    state and of the bytes available ([read_measure]); the loop of [poll_copy]
    needs what its reader has available and two turns ([relay_poll_returns]); the
    poll loops of the datagram macros one turn more than the readiness events to
    come ([poll_mmsg_returns]); batches as many chunks as buffers; the drain loop
    of the shutdown the deadline over its interval; printing an integer 64
    digits, which no integer of the program reaches.  Theorems on runs hold for
    every fuel with which the poll returned.

    ** Parameters

    The resolver, which may answer every query differently; the kernel
    (connections, datagrams, files, limits of the machine); the clock; the duplex
    pipe and the readiness of tokio; the compiler of rules, the outbounds and the
    dialers of the ACL engine; clap, serde, humantime and base64; pingora and
    tokio-quiche, as what they report of a request and of a connection; the
    panel, whose collector adds up what it is told ([CountingCollector]).  Hypotheses on them are laws of classes, each with an instance.

    ** Not modelled

    - The outbounds of the ACL engine, the panel's client with its background
      tasks, pingora and tokio-quiche: libraries.  What they are given, what the
      program makes of their answers and what they call are modelled.
    - The subscriber of the logger, and every message logged.
    - In the datagram crate: access to descriptors and plain records that are
      only carried.
    - The timeouts of tokio other than the relay's idle deadline, as times: what
      runs under one ends at its deadline or before, in any state of the stream.
    - The future of the body bridge being dropped in the middle of a write, which
      happens only when pingora drops the request itself.
    - Module files and benchmarks.
    - Of the tests: those that need a peer of TLS or QUIC or start a server, the
      one that reads YAML, and those that look at the spare capacity of a vector,
      the format of the time in the log, or write through a mutable slice. *)

From Stdlib Require Export ZArith Lia String Ascii ZifyNat ZifyBool.
From stdpp Require Export prelude gmap strings list.

Open Scope list_scope.
Open Scope nat_scope.

(** ** Results and polls *)

(** Rust's [Result<A, E>]. *)
Inductive result (A E : Type) : Type :=
  | Ok (a : A)
  | Err (e : E).
Arguments Ok {A E} a.
Arguments Err {A E} e.

(** Rust's [std::task::Poll<A>]. *)
Inductive poll (A : Type) : Type :=
  | Pending
  | Ready (a : A).
Arguments Pending {A}.
Arguments Ready {A} a.

#[export] Instance result_eq_dec {A E} `{!EqDecision A, !EqDecision E} : EqDecision (result A E).
Proof. solve_decision. Defined.

#[export] Instance poll_eq_dec {A} `{!EqDecision A} : EqDecision (poll A).
Proof. solve_decision. Defined.

(** The members of [std::io::ErrorKind] that the program names; every other
    kind an operation of the system may report is [OtherKind]. *)
Inductive ErrorKind : Type :=
  | NotFound
  | TimedOut
  | InvalidInput
  | BrokenPipe
  | WriteZero
  | UnexpectedEof
  | Unsupported
  | WouldBlock
  | OtherKind (code : Z).

#[export] Instance ErrorKind_eq_dec : EqDecision ErrorKind.
Proof. solve_decision. Defined.

(** A byte is an integer of [0..255].  A Rust [str] is its UTF-8 encoding, so
    strings and byte buffers share one representation; [str] turns a literal
    of the sources into it. *)
Abbreviation bytes := (list Z).
Abbreviation rstr := (list Z).

Definition str (s : string) : rstr :=
  map (fun a => Z.of_N (N_of_ascii a)) (list_ascii_of_string s).

(** [std::io::Error]: its kind and its message. *)
Record io_error : Type := mk_io_error { ek : ErrorKind; emsg : rstr }.

#[export] Instance io_error_eq_dec : EqDecision io_error.
Proof. solve_decision. Defined.

Definition io_result (A : Type) : Type := result A io_error.

Declare Scope rust_scope.
Delimit Scope rust_scope with rust.
Open Scope rust_scope.

Definition result_bind {A B E} (r : result A E) (f : A -> result B E) : result B E :=
  match r with Ok a => f a | Err e => Err e end.

(** [let? x := r in k] is [let x = r?; k]. *)
Notation "'let?' x := r 'in' k" := (result_bind r (fun x => k))
  (at level 10, x pattern, r at level 100, k at level 200) : rust_scope.

Definition result_map_err {A E F} (f : E -> F) (r : result A E) : result A F :=
  match r with Ok a => Ok a | Err e => Err (f e) end.

Definition result_ok {A E} (r : result A E) : option A :=
  match r with Ok a => Some a | Err _ => None end.

Definition is_err {A E} (r : result A E) : bool :=
  match r with Ok _ => false | Err _ => true end.

(** ** Machine integers *)

Definition u8_max : Z := 255.
Definition u16_max : Z := 65535.
Definition u64_max : Z := 18446744073709551615.

Definition is_u8 (z : Z) : Prop := (0 <= z <= u8_max)%Z.
Definition is_u16 (z : Z) : Prop := (0 <= z <= u16_max)%Z.
Definition is_u64 (z : Z) : Prop := (0 <= z <= u64_max)%Z.

(** [wrapping] arithmetic on [u64]: what [fetch_add] does, and [<<] keeps. *)
Definition u64_wrap (z : Z) : Z := (z mod 2 ^ 64)%Z.

(** [u64::saturating_mul] and [u64::saturating_sub]. *)
Definition u64_saturating_mul (a b : Z) : Z := Z.min (a * b) u64_max.
Definition u64_saturating_sub (a b : Z) : Z := Z.max (a - b) 0.

Lemma u64_wrap_range z : is_u64 (u64_wrap z).
Proof.
  unfold is_u64, u64_wrap, u64_max.
  pose proof (Z.mod_pos_bound z (2 ^ 64) eq_refl) as H.
  change (2 ^ 64)%Z with 18446744073709551616%Z in *. lia.
Qed.

Lemma u64_wrap_small z : is_u64 z -> u64_wrap z = z.
Proof.
  unfold is_u64, u64_wrap, u64_max. intros H. apply Z.mod_small.
  change (2 ^ 64)%Z with 18446744073709551616%Z. lia.
Qed.

(** ** Generic list lemmas *)

Lemma take_drop_split {A} (n m : nat) (l : list A) :
  take n l ++ take m (drop n l) = take (n + m) l.
Proof. by rewrite take_take_drop. Qed.

Lemma take_app_le' {A} (n : nat) (l k : list A) :
  n <= length l -> take n (l ++ k) = take n l.
Proof. intros. by rewrite take_app_le. Qed.

Lemma take_app_ge' {A} (n : nat) (l k : list A) :
  length l <= n -> take n (l ++ k) = l ++ take (n - length l) k.
Proof. intros. by rewrite take_app_ge. Qed.

Lemma drop_app_ge' {A} (n : nat) (l k : list A) :
  length l <= n -> drop n (l ++ k) = drop (n - length l) k.
Proof. intros. by rewrite drop_app_ge. Qed.

Lemma take_drop_swap {A} (i j : nat) (l : list A) :
  i <= j -> take (j - i) (drop i l) = drop i (take j l).
Proof. intros H. symmetry. apply skipn_firstn_comm. Qed.

Lemma length_zero_nil {A} (l : list A) : length l = 0 <-> l = [].
Proof. by destruct l. Qed.

(** ** Automation *)

Create HintDb naive discriminated.
Create Rewrite HintDb naive.
#[export] Hint Resolve u64_wrap_range : naive.
#[export] Hint Rewrite @u64_wrap_small using assumption : naive.

(** Destruct the boolean tests, matches and pairs of hypotheses one at a time
    and let [simplify_eq] use the equations that appear. *)
Ltac break_match :=
  match goal with
  | H : context [match ?x with _ => _ end] |- _ =>
      lazymatch x with context [match _ with _ => _ end] => fail | _ => destruct x eqn:? end
  | |- context [match ?x with _ => _ end] =>
      lazymatch x with context [match _ with _ => _ end] => fail | _ => destruct x eqn:? end
  end.

Ltac break := repeat (break_match; simplify_eq/=).

(** Turn boolean comparisons of hypotheses into propositions. *)
Ltac bool_facts :=
  repeat match goal with
  | H : (_ && _)%bool = true |- _ => apply andb_true_iff in H as [? ?]
  | H : (_ || _)%bool = false |- _ => apply orb_false_iff in H as [? ?]
  | H : negb _ = true |- _ => apply negb_true_iff in H
  | H : negb _ = false |- _ => apply negb_false_iff in H
  | H : (_ <? _)%nat = true |- _ => apply Nat.ltb_lt in H
  | H : (_ <? _)%nat = false |- _ => apply Nat.ltb_ge in H
  | H : (_ <=? _)%nat = true |- _ => apply Nat.leb_le in H
  | H : (_ <=? _)%nat = false |- _ => apply Nat.leb_gt in H
  | H : (_ =? _)%nat = true |- _ => apply Nat.eqb_eq in H
  | H : (_ =? _)%nat = false |- _ => apply Nat.eqb_neq in H
  | H : (_ <? _)%Z = true |- _ => apply Z.ltb_lt in H
  | H : (_ <? _)%Z = false |- _ => apply Z.ltb_ge in H
  | H : (_ <=? _)%Z = true |- _ => apply Z.leb_le in H
  | H : (_ <=? _)%Z = false |- _ => apply Z.leb_gt in H
  | H : (_ =? _)%Z = true |- _ => apply Z.eqb_eq in H
  | H : (_ =? _)%Z = false |- _ => apply Z.eqb_neq in H
  end.

(** ** Buffers *)

(** Write [bs] into the buffer [l] at offset [i]. *)
Definition splice {A} (i : nat) (bs l : list A) : list A :=
  take i l ++ bs ++ drop (i + length bs) l.

Lemma splice_length {A} i (bs l : list A) :
  i + length bs <= length l -> length (splice i bs l) = length l.
Proof. intros. unfold splice. rewrite !length_app, length_take, length_drop. lia. Qed.

Lemma take_splice {A} i (bs l : list A) :
  i + length bs <= length l -> take (i + length bs) (splice i bs l) = take i l ++ bs.
Proof.
  intros. unfold splice. rewrite app_assoc. apply take_app_length'.
  rewrite length_app, length_take. lia.
Qed.

Lemma Forall_splice {A} (P : A -> Prop) i (bs l : list A) :
  Forall P bs -> Forall P l -> Forall P (splice i bs l).
Proof.
  intros. unfold splice. rewrite !Forall_app.
  split_and!; [by apply Forall_take|done|by apply Forall_drop].
Qed.
