(* ===== verification/RustStr.v ===== *)
(** * The part of Rust's [str], [u8], [char] and integer parsing the program uses

    Strings are lists of UTF-8 bytes ([rstr]).  Nothing here comes from a file
    of the repository: these are the standard library's operations
    ([eq_ignore_ascii_case], [find], [rfind], [strip_prefix], [trim],
    [from_utf8], [parse::<uN>], [to_string] of an integer). *)

From S2P Require Import Prelude.
Open Scope Z_scope.

(** ** Comparison and search *)

Definition ascii_lower (b : Z) : Z := if (65 <=? b) && (b <=? 90) then b + 32 else b.

Definition to_ascii_lowercase (s : rstr) : rstr := map ascii_lower s.

Definition str_eqb (a b : rstr) : bool := bool_decide (a = b).

Definition eq_ignore_ascii_case (a b : rstr) : bool :=
  str_eqb (to_ascii_lowercase a) (to_ascii_lowercase b).

(** [str::to_lowercase] maps the ASCII letters as above and every other
    character by the Unicode tables.  The program only compares the result with
    ASCII literals without the letter "k"; the lower-case form of a non-ASCII
    character consists of non-ASCII bytes, but for U+212A ("k") and U+0130
    (which keeps a non-ASCII combining mark), so those comparisons have the
    same answer on the byte-wise map. *)
Definition to_lowercase (s : rstr) : rstr := to_ascii_lowercase s.

(** [str::find] and [str::rfind] of an ASCII character: a byte offset. *)
Fixpoint find_byte (c : Z) (s : rstr) : option nat :=
  match s with
  | [] => None
  | b :: s' => if b =? c then Some 0%nat else S <$> find_byte c s'
  end.

Fixpoint rfind_byte (c : Z) (s : rstr) : option nat :=
  match s with
  | [] => None
  | b :: s' =>
      match rfind_byte c s' with
      | Some i => Some (S i)
      | None => if b =? c then Some 0%nat else None
      end
  end.

Fixpoint strip_prefix (p s : rstr) : option rstr :=
  match p, s with
  | [], _ => Some s
  | a :: p', b :: s' => if a =? b then strip_prefix p' s' else None
  | _ :: _, [] => None
  end.

Definition starts_with (p s : rstr) : bool :=
  match strip_prefix p s with Some _ => true | None => false end.

(** [str::contains] of a literal. *)
Fixpoint contains (p s : rstr) : bool :=
  starts_with p s ||
  match s with [] => false | _ :: s' => contains p s' end.

Definition is_empty {A} (l : list A) : bool := match l with [] => true | _ => false end.

(** ** [str::trim]: the characters of Unicode's White_Space property *)

Definition is_ascii_ws (b : Z) : bool := ((9 <=? b) && (b <=? 13)) || (b =? 32).

Definition is_ws2 (a b : Z) : bool := (a =? 194) && ((b =? 133) || (b =? 160)).

Definition is_ws3 (a b c : Z) : bool :=
  ((a =? 225) && (b =? 154) && (c =? 128))
  || ((a =? 226) && (b =? 128)
      && (((128 <=? c) && (c <=? 138)) || (c =? 168) || (c =? 169) || (c =? 175)))
  || ((a =? 226) && (b =? 129) && (c =? 159))
  || ((a =? 227) && (b =? 128) && (c =? 128)).

Fixpoint trim_start (s : rstr) : rstr :=
  match s with
  | [] => []
  | a :: s1 =>
      if is_ascii_ws a then trim_start s1
      else match s1 with
      | [] => s
      | b :: s2 =>
          if is_ws2 a b then trim_start s2
          else match s2 with
          | [] => s
          | c :: s3 => if is_ws3 a b c then trim_start s3 else s
          end
      end
  end.

(** The same from the end: [s] is the reversed string. *)
Fixpoint trim_start_rev (s : rstr) : rstr :=
  match s with
  | [] => []
  | a :: s1 =>
      if is_ascii_ws a then trim_start_rev s1
      else match s1 with
      | [] => s
      | b :: s2 =>
          if is_ws2 b a then trim_start_rev s2
          else match s2 with
          | [] => s
          | c :: s3 => if is_ws3 c b a then trim_start_rev s3 else s
          end
      end
  end.

Definition trim (s : rstr) : rstr := rev (trim_start_rev (rev (trim_start s))).

(** ** [str::from_utf8] *)

Definition between (lo hi b : Z) : bool := (lo <=? b) && (b <=? hi).

Definition is_cont (b : Z) : bool := between 128 191 b.

Fixpoint utf8_valid (s : bytes) : bool :=
  match s with
  | [] => true
  | a :: s1 =>
      if between 0 127 a then utf8_valid s1
      else match s1 with
      | [] => false
      | b :: s2 =>
          if between 194 223 a then is_cont b && utf8_valid s2
          else match s2 with
          | [] => false
          | c :: s3 =>
              if a =? 224 then between 160 191 b && is_cont c && utf8_valid s3
              else if a =? 237 then between 128 159 b && is_cont c && utf8_valid s3
              else if between 225 239 a then is_cont b && is_cont c && utf8_valid s3
              else match s3 with
              | [] => false
              | d :: s4 =>
                  if a =? 240 then between 144 191 b && is_cont c && is_cont d && utf8_valid s4
                  else if a =? 244 then between 128 143 b && is_cont c && is_cont d && utf8_valid s4
                  else between 241 243 a && is_cont b && is_cont c && is_cont d && utf8_valid s4
              end
          end
      end
  end.

Definition from_utf8 (s : bytes) : option rstr := if utf8_valid s then Some s else None.

Lemma from_utf8_Some s t : from_utf8 s = Some t -> t = s.
Proof. unfold from_utf8. destruct (utf8_valid s); [|done]. by intros [= <-]. Qed.

(** ** Integers *)

(** [char::to_digit] and the inverse the formatting machinery uses. *)
Definition to_digit (radix b : Z) : option Z :=
  let d :=
    if between 48 57 b then b - 48
    else if between 97 122 b then b - 87
    else if between 65 90 b then b - 55
    else 255 in
  if d <? radix then Some d else None.

Definition digit_char (d : Z) : Z := if d <? 10 then 48 + d else 87 + d.

Fixpoint digits_fuel (fuel : nat) (radix z : Z) : list Z :=
  match fuel with
  | O => []
  | S f => if z <? radix then [z] else digits_fuel f radix (z / radix) ++ [z mod radix]
  end.

(** 64 digits are enough for every 64-bit number in every radix. *)
Definition digits (radix z : Z) : list Z := digits_fuel 64 radix z.

(** [format!("{}", z)] (radix 10) and [format!("{:x}", z)] (radix 16). *)
Definition show_radix (radix z : Z) : rstr := map digit_char (digits radix z).
Definition show_dec (z : Z) : rstr := show_radix 10 z.
Definition show_hex (z : Z) : rstr := show_radix 16 z.

(** [from_str_radix]'s loop: every character a digit, no overflow past [max]. *)
Fixpoint parse_digits (radix max acc : Z) (s : rstr) : option Z :=
  match s with
  | [] => Some acc
  | b :: s' =>
      match to_digit radix b with
      | None => None
      | Some d =>
          let acc' := acc * radix + d in
          if max <? acc' then None else parse_digits radix max acc' s'
      end
  end.

(** [str::parse::<uN>()] with [max] the largest value of the type: one leading
    ["+"] is accepted, the empty string and a lone sign are not. *)
Definition parse_uint (max : Z) (s : rstr) : option Z :=
  match s with
  | [] => None
  | 43 :: s' => if is_empty s' then None else parse_digits 10 max 0 s'
  | _ => parse_digits 10 max 0 s
  end.

Definition parse_u16 (s : rstr) : option Z := parse_uint u16_max s.
Definition parse_u64 (s : rstr) : option Z := parse_uint u64_max s.
(** [usize] is 64 bits wide on the platforms the agent is built for. *)
Definition parse_usize (s : rstr) : option Z := parse_uint u64_max s.

(** ** Printing then parsing an integer *)

Definition digits_val (radix acc : Z) (ds : list Z) : Z :=
  fold_left (fun a d => a * radix + d) ds acc.

Definition is_digit_of (radix d : Z) : Prop := 0 <= d < radix.

Lemma to_digit_char radix d :
  radix <= 16 -> is_digit_of radix d -> to_digit radix (digit_char d) = Some d.
Proof.
  unfold is_digit_of, to_digit, digit_char, between. intros Hr Hd.
  destruct (d <? 10) eqn:E; bool_facts.
  - replace ((48 <=? 48 + d) && (48 + d <=? 57)) with true by lia.
    replace (48 + d - 48) with d by lia. by replace (d <? radix) with true by lia.
  - replace ((48 <=? 87 + d) && (87 + d <=? 57)) with false by lia.
    replace ((97 <=? 87 + d) && (87 + d <=? 122)) with true by lia.
    replace (87 + d - 87) with d by lia. by replace (d <? radix) with true by lia.
Qed.

Lemma digits_val_app radix acc ds d :
  digits_val radix acc (ds ++ [d]) = digits_val radix acc ds * radix + d.
Proof. unfold digits_val. by rewrite fold_left_app. Qed.

Lemma digits_val_ge radix acc ds :
  1 <= radix -> 0 <= acc -> Forall (is_digit_of radix) ds -> acc <= digits_val radix acc ds.
Proof.
  unfold digits_val. intros Hr Ha Hds. revert acc Ha.
  induction Hds as [|d ds Hd _ IH]; intros acc Ha; simpl; [lia|].
  unfold is_digit_of in Hd. etrans; [|apply IH]; nia.
Qed.

Lemma digits_fuel_spec radix fuel : 2 <= radix -> forall z,
  0 <= z < radix ^ Z.of_nat fuel ->
  Forall (is_digit_of radix) (digits_fuel fuel radix z)
  /\ digits_val radix 0 (digits_fuel fuel radix z) = z.
Proof.
  intros Hr. induction fuel as [|f IH]; intros z Hz.
  - simpl in *. split; [constructor|]. unfold digits_val. simpl.
    change (radix ^ Z.of_nat 0) with 1 in Hz. lia.
  - rewrite Nat2Z.inj_succ, Z.pow_succ_r in Hz by lia. simpl.
    destruct (z <? radix) eqn:E; bool_facts.
    + split; [repeat constructor; unfold is_digit_of; lia|]. unfold digits_val. simpl. lia.
    + destruct (IH (z / radix)) as [H1 H2].
      { split; [apply Z.div_pos; lia|]. apply Z.div_lt_upper_bound; lia. }
      pose proof (Z.mod_pos_bound z radix ltac:(lia)).
      split.
      * apply Forall_app; split; [done|]. repeat constructor; unfold is_digit_of; lia.
      * rewrite digits_val_app, H2. pose proof (Z.div_mod z radix). lia.
Qed.

Lemma digits_fuel_length radix fuel k : 2 <= radix -> forall z,
  0 <= z < radix ^ Z.of_nat k -> (1 <= k)%nat ->
  (length (digits_fuel fuel radix z) <= k)%nat.
Proof.
  intros Hr. revert k. induction fuel as [|f IH]; intros k z Hz Hk; simpl; [lia|].
  destruct (z <? radix) eqn:E; simpl; bool_facts; [lia|].
  rewrite length_app. simpl.
  destruct k as [|[|k]]; [lia| |].
  { change (radix ^ Z.of_nat 1) with (radix ^ 1) in Hz. lia. }
  assert (length (digits_fuel f radix (z / radix)) <= S k)%nat; [|lia].
  apply IH; [|lia]. rewrite Nat2Z.inj_succ, Z.pow_succ_r in Hz by lia.
  split; [apply Z.div_pos; lia|]. apply Z.div_lt_upper_bound; lia.
Qed.

Lemma digits_fuel_nonempty radix fuel z : digits_fuel (S fuel) radix z <> [].
Proof. simpl. destruct (z <? radix); [done|]. by destruct (digits_fuel _ _ _). Qed.

(** The first digit of a number of more than one digit is not zero. *)
Lemma digits_fuel_lead radix fuel : 2 <= radix -> forall z d ds,
  0 <= z < radix ^ Z.of_nat fuel ->
  digits_fuel fuel radix z = d :: ds -> d = 0 -> ds = [] /\ z = 0.
Proof.
  intros Hr. induction fuel as [|f IH]; intros z d ds Hz; simpl; [done|].
  rewrite Nat2Z.inj_succ, Z.pow_succ_r in Hz by lia.
  destruct (z <? radix) eqn:E; bool_facts.
  - intros [= <- <-]. done.
  - intros Heq Hd.
    assert (0 <= z / radix < radix ^ Z.of_nat f) as Hq.
    { split; [apply Z.div_pos; lia|]. apply Z.div_lt_upper_bound; lia. }
    destruct (digits_fuel f radix (z / radix)) as [|d' ds'] eqn:Ed.
    { destruct f as [|f]; [|by apply digits_fuel_nonempty in Ed].
      change (radix ^ Z.of_nat 0) with 1 in Hq.
      assert (1 <= z / radix) by (apply Z.div_le_lower_bound; lia). lia. }
    simpl in Heq. simplify_eq. destruct (IH _ _ _ Hq Ed eq_refl) as [-> Hq0].
    assert (1 <= z / radix) by (apply Z.div_le_lower_bound; lia). lia.
Qed.

Lemma digits_bound radix z : 2 <= radix -> is_u64 z -> 0 <= z < radix ^ Z.of_nat 64.
Proof.
  unfold is_u64, u64_max. intros Hr Hz.
  assert (2 ^ 64 <= radix ^ Z.of_nat 64) by (apply Z.pow_le_mono_l; lia).
  change (2 ^ 64) with 18446744073709551616 in *. lia.
Qed.

Lemma digits_spec radix z :
  2 <= radix -> is_u64 z ->
  Forall (is_digit_of radix) (digits radix z) /\ digits_val radix 0 (digits radix z) = z
  /\ digits radix z <> [].
Proof.
  intros Hr Hz. destruct (digits_fuel_spec radix 64 Hr z) as [H1 H2];
    [by apply digits_bound|].
  split_and!; [done|done|]. apply digits_fuel_nonempty.
Qed.

Lemma parse_digits_show radix max ds : 2 <= radix <= 16 -> forall acc,
  0 <= acc -> Forall (is_digit_of radix) ds -> digits_val radix acc ds <= max ->
  parse_digits radix max acc (map digit_char ds) = Some (digits_val radix acc ds).
Proof.
  intros Hr acc Ha Hds. revert acc Ha.
  induction Hds as [|d ds Hd Hds IH]; intros acc Ha Hm; simpl; [done|].
  rewrite to_digit_char by (done || lia).
  assert (acc * radix + d <= digits_val radix (acc * radix + d) ds).
  { apply digits_val_ge; [lia| |done]. unfold is_digit_of in Hd. nia. }
  change (digits_val radix acc (d :: ds)) with (digits_val radix (acc * radix + d) ds) in *.
  replace (max <? acc * radix + d) with false by lia.
  apply IH; [|done]. unfold is_digit_of in Hd. nia.
Qed.

Lemma digit_char_range d : 0 <= d < 16 -> 48 <= digit_char d <= 57 \/ 97 <= digit_char d <= 102.
Proof. unfold digit_char. intros H. destruct (d <? 10) eqn:E; bool_facts; lia. Qed.

Lemma show_radix_chars radix z :
  2 <= radix <= 16 -> is_u64 z ->
  Forall (fun b => 48 <= b <= 57 \/ 97 <= b <= 102) (show_radix radix z).
Proof.
  intros Hr Hz. destruct (digits_spec radix z) as [H _]; [lia|done|].
  unfold show_radix. apply Forall_fmap. eapply Forall_impl; [exact H|].
  intros d Hd. unfold is_digit_of in Hd. simpl. apply digit_char_range. lia.
Qed.

Lemma show_dec_chars z : is_u64 z -> Forall (fun b => 48 <= b <= 57) (show_dec z).
Proof.
  intros Hz. destruct (digits_spec 10 z) as [H _]; [lia|done|].
  unfold show_dec, show_radix. apply Forall_fmap. eapply Forall_impl; [exact H|].
  intros d Hd. unfold is_digit_of in Hd. simpl. unfold digit_char.
  destruct (d <? 10) eqn:E; bool_facts; lia.
Qed.

Lemma show_radix_nonempty radix z : show_radix radix z <> [].
Proof.
  unfold show_radix, digits. intros H. apply fmap_nil_inv in H.
  by apply digits_fuel_nonempty in H.
Qed.

(** [z.to_string().parse() == Ok(z)]. *)
Lemma parse_uint_show max z :
  0 <= z <= max -> is_u64 z -> parse_uint max (show_dec z) = Some z.
Proof.
  intros Hm Hz. destruct (digits_spec 10 z) as (H1 & H2 & H3); [lia|done|].
  assert (parse_digits 10 max 0 (show_dec z) = Some z) as Hp.
  { unfold show_dec, show_radix. rewrite parse_digits_show; [by rewrite H2|lia|lia|done|].
    rewrite H2. lia. }
  pose proof (show_dec_chars z Hz) as Hc.
  unfold parse_uint. destruct (show_dec z) as [|b s] eqn:Es.
  { by apply (show_radix_nonempty 10 z) in Es. }
  apply Forall_cons in Hc as [Hb _].
  destruct b as [|p|p]; try lia.
  repeat (destruct p as [p|p|]; try done; try lia).
Qed.

#[export] Hint Resolve show_radix_nonempty : naive.

(** ** Positions and trimming *)

Lemma find_byte_split c s i :
  find_byte c s = Some i -> s = take i s ++ c :: drop (S i) s /\ Forall (fun b => b <> c) (take i s).
Proof.
  revert i. induction s as [|b s IH]; intros i; simpl; [done|].
  destruct (b =? c) eqn:E; bool_facts.
  - intros [= <-]. simpl. subst. by rewrite drop_0.
  - destruct (find_byte c s) as [j|]; [|done]. intros [= <-]. simpl.
    destruct (IH j eq_refl) as [H1 H2]. split; [by f_equal|by constructor].
Qed.

Lemma find_byte_app c s r :
  Forall (fun b => b <> c) s -> find_byte c (s ++ c :: r) = Some (length s).
Proof.
  induction 1 as [|b s Hb _ IH]; simpl; [by rewrite Z.eqb_refl|].
  by rewrite (proj2 (Z.eqb_neq _ _) Hb), IH.
Qed.

Lemma rfind_byte_none c s : Forall (fun b => b <> c) s -> rfind_byte c s = None.
Proof.
  induction 1 as [|b s Hb _ IH]; simpl; [done|]. by rewrite IH, (proj2 (Z.eqb_neq _ _) Hb).
Qed.

Lemma rfind_byte_app c s r :
  Forall (fun b => b <> c) r -> rfind_byte c (s ++ c :: r) = Some (length s).
Proof.
  intros Hr. induction s as [|b s IH]; simpl; [by rewrite rfind_byte_none, Z.eqb_refl|].
  by rewrite IH.
Qed.

Lemma rfind_byte_split c s i :
  rfind_byte c s = Some i -> s = take i s ++ c :: drop (S i) s.
Proof.
  revert i. induction s as [|b s IH]; intros i; simpl; [done|].
  destruct (rfind_byte c s) as [j|].
  - intros [= <-]. simpl. f_equal. by apply IH.
  - destruct (b =? c) eqn:E; bool_facts; [|done]. intros [= <-]. simpl. subst. by rewrite drop_0.
Qed.

(** Text that starts and ends with a visible ASCII character. *)
Lemma trim_start_id b s : 33 <= b < 128 -> trim_start (b :: s) = b :: s.
Proof.
  intros Hb. cbn [trim_start].
  replace (is_ascii_ws b) with false by (unfold is_ascii_ws; lia).
  destruct s as [|c s]; [done|].
  replace (is_ws2 b c) with false by (unfold is_ws2; lia).
  destruct s as [|d s]; [done|].
  by replace (is_ws3 b c d) with false by (unfold is_ws3; lia).
Qed.

Lemma trim_start_rev_id b s : 33 <= b < 128 -> trim_start_rev (b :: s) = b :: s.
Proof.
  intros Hb. cbn [trim_start_rev].
  replace (is_ascii_ws b) with false by (unfold is_ascii_ws; lia).
  destruct s as [|c s]; [done|].
  replace (is_ws2 c b) with false by (unfold is_ws2; lia).
  destruct s as [|d s]; [done|].
  by replace (is_ws3 d c b) with false by (unfold is_ws3; lia).
Qed.

Lemma trim_id s :
  Forall (fun b => 33 <= b < 128) s -> trim s = s.
Proof.
  intros Hs. unfold trim. destruct s as [|b s]; [done|].
  pose proof Hs as Hs'. apply Forall_cons in Hs' as [Hb _]. rewrite trim_start_id by done.
  apply List.Forall_rev in Hs. destruct (rev (b :: s)) as [|c r] eqn:E.
  - apply (f_equal (@rev Z)) in E. by rewrite rev_involutive in E.
  - apply Forall_cons in Hs as [Hc _].
    rewrite trim_start_rev_id, <- E by done. apply rev_involutive.
Qed.

(** ** What the integer parsers return *)

Lemma parse_uint_range max s z : 0 <= max -> parse_uint max s = Some z -> 0 <= z <= max.
Proof.
  intros Hmax.
  assert (forall s acc z, 0 <= acc <= max -> parse_digits 10 max acc s = Some z -> 0 <= z <= max) as H.
  { clear s z. induction s as [|b s IH]; intros acc z Ha; simpl; [by intros [= <-]|].
    destruct (to_digit 10 b) as [d|] eqn:Ed; [|done].
    assert (0 <= d).
    { unfold to_digit, between in Ed.
      repeat match type of Ed with context [if ?x then _ else _] => destruct x eqn:? end;
        simplify_eq; bool_facts; lia. }
    destruct (max <? acc * 10 + d) eqn:Em; [done|]. bool_facts. apply IH. lia. }
  unfold parse_uint. intros Hp.
  repeat match type of Hp with context [match ?x with _ => _ end] => destruct x end;
    try done; (eapply H; [|exact Hp]; lia).
Qed.
