(* ===== verification/RustNet.v ===== *)
(** * The part of Rust's [std::net] the program uses

    [Ipv4Addr], [Ipv6Addr], [IpAddr] and [SocketAddr] with their [Display] and
    [FromStr] implementations and the classification predicates.  Like
    [RustStr], this models the standard library and no file of the repository.
    An [Ipv6Addr] is its 16 octets; a [SocketAddr] has no IPv6 flow label and
    scope, which the program never reads. *)

From S2P Require Import Prelude RustStr.
Open Scope Z_scope.

(** ** Data *)

Record Ipv4Addr : Type := IPv4addr { oct0 : Z; oct1 : Z; oct2 : Z; oct3 : Z }.

#[export] Instance Ipv4Addr_eq_dec : EqDecision Ipv4Addr.
Proof. solve_decision. Defined.

Definition v4_octets (ip : Ipv4Addr) : bytes := [oct0 ip; oct1 ip; oct2 ip; oct3 ip].

Definition v4_of_octets (l : bytes) : Ipv4Addr :=
  match l with
  | [a; b; c; d] => IPv4addr a b c d
  | _ => IPv4addr 0 0 0 0
  end.

Definition v4_wf (ip : Ipv4Addr) : Prop :=
  is_u8 (oct0 ip) /\ is_u8 (oct1 ip) /\ is_u8 (oct2 ip) /\ is_u8 (oct3 ip).

(** The 16 octets of an IPv6 address, and its eight 16-bit segments. *)
Definition v6_wf (o : bytes) : Prop := length o = 16%nat /\ Forall is_u8 o.

Fixpoint segments (o : bytes) : list Z :=
  match o with
  | a :: b :: r => (a * 256 + b) :: segments r
  | _ => []
  end.

Fixpoint octets_of_segments (gs : list Z) : bytes :=
  match gs with
  | [] => []
  | g :: r => g / 256 :: g mod 256 :: octets_of_segments r
  end.

Inductive IpAddr : Type := V4 (ip : Ipv4Addr) | V6 (o : bytes).

#[export] Instance IpAddr_eq_dec : EqDecision IpAddr.
Proof. solve_decision. Defined.

Definition ip_wf (ip : IpAddr) : Prop :=
  match ip with V4 a => v4_wf a | V6 o => v6_wf o end.

Record SocketAddr : Type := SocketAddr_new { sa_ip : IpAddr; sa_port : Z }.

#[export] Instance SocketAddr_eq_dec : EqDecision SocketAddr.
Proof. solve_decision. Defined.

(** ** Classification *)

Definition v4_is_loopback (ip : Ipv4Addr) : bool := oct0 ip =? 127.

Definition v4_is_private (ip : Ipv4Addr) : bool :=
  (oct0 ip =? 10)
  || ((oct0 ip =? 172) && (16 <=? oct1 ip) && (oct1 ip <=? 31))
  || ((oct0 ip =? 192) && (oct1 ip =? 168)).

Definition v4_is_link_local (ip : Ipv4Addr) : bool := (oct0 ip =? 169) && (oct1 ip =? 254).

Definition v4_is_broadcast (ip : Ipv4Addr) : bool :=
  (oct0 ip =? 255) && (oct1 ip =? 255) && (oct2 ip =? 255) && (oct3 ip =? 255).

Definition v4_is_multicast (ip : Ipv4Addr) : bool := (224 <=? oct0 ip) && (oct0 ip <=? 239).

Definition v6_localhost : bytes := [0;0;0;0; 0;0;0;0; 0;0;0;0; 0;0;0;1].

Definition v6_is_loopback (o : bytes) : bool := bool_decide (o = v6_localhost).

(** ** [Display] *)

Definition show_ipv4 (ip : Ipv4Addr) : rstr :=
  show_dec (oct0 ip) ++ [46] ++ show_dec (oct1 ip) ++ [46]
  ++ show_dec (oct2 ip) ++ [46] ++ show_dec (oct3 ip).

Definition mapped_prefix : bytes := [0;0;0;0; 0;0;0;0; 0;0;255;255].

(** The address behind [::ffff:a.b.c.d], if [o] is one. *)
Definition to_ipv4_mapped (o : bytes) : option Ipv4Addr :=
  if bool_decide (take 12 o = mapped_prefix) then Some (v4_of_octets (drop 12 o)) else None.

(** The longest run of zero segments, the first one of that length. *)
Fixpoint zero_run (i : nat) (cur longest : nat * nat) (gs : list Z) : nat * nat :=
  match gs with
  | [] => longest
  | g :: r =>
      if g =? 0 then
        let cur := ((if (cur.2 =? 0)%nat then i else cur.1), S cur.2) in
        zero_run (S i) cur (if (longest.2 <? cur.2)%nat then cur else longest) r
      else zero_run (S i) (0%nat, 0%nat) longest r
  end.

Fixpoint join_groups (gs : list Z) : rstr :=
  match gs with
  | [] => []
  | [g] => show_hex g
  | g :: r => show_hex g ++ 58 :: join_groups r
  end.

Definition show_segments (gs : list Z) : rstr :=
  let z := zero_run 0 (0%nat, 0%nat) (0%nat, 0%nat) gs in
  if (1 <? z.2)%nat
  then join_groups (take z.1 gs) ++ 58 :: 58 :: join_groups (drop (z.1 + z.2) gs)
  else join_groups gs.

Definition show_ipv6 (o : bytes) : rstr :=
  match to_ipv4_mapped o with
  | Some v4 => str "::ffff:" ++ show_ipv4 v4
  | None => show_segments (segments o)
  end.

Definition show_ip (ip : IpAddr) : rstr :=
  match ip with V4 a => show_ipv4 a | V6 o => show_ipv6 o end.

(** ** [FromStr]: the parser of [core::net::parser] *)

(** The state is the unread input; [None] restores it ([read_atomically]). *)
Definition parser (A : Type) : Type := rstr -> option (A * rstr).

Fixpoint read_number_loop (radix : Z) (max_digits : nat) (max acc : Z) (count : nat)
    (s : rstr) : option (Z * nat * rstr) :=
  match s with
  | [] => Some (acc, count, [])
  | b :: s' =>
      match to_digit radix b with
      | None => Some (acc, count, s)
      | Some d =>
          let acc' := acc * radix + d in
          if max <? acc' then None
          else if (max_digits <? S count)%nat then None
          else read_number_loop radix max_digits max acc' (S count) s'
      end
  end.

Definition read_number (radix : Z) (max_digits : nat) (allow_zero_prefix : bool) (max : Z)
    : parser Z := fun s =>
  let has_leading_zero := match s with b :: _ => b =? 48 | [] => false end in
  match read_number_loop radix max_digits max 0 0 s with
  | None => None
  | Some (v, count, s') =>
      if (count =? 0)%nat then None
      else if negb allow_zero_prefix && has_leading_zero && (1 <? count)%nat then None
      else Some (v, s')
  end.

Definition read_given_char (c : Z) : parser unit := fun s =>
  match s with
  | b :: s' => if b =? c then Some (tt, s') else None
  | [] => None
  end.

Definition read_separator {A} (sep : Z) (index : nat) (p : parser A) : parser A := fun s =>
  match index with
  | O => p s
  | S _ => match read_given_char sep s with Some (_, s') => p s' | None => None end
  end.

Definition read_octet (index : nat) : parser Z :=
  read_separator 46 index (read_number 10 3 false u8_max).

Definition read_ipv4_addr : parser Ipv4Addr := fun s =>
  '(a, s) ← read_octet 0 s;
  '(b, s) ← read_octet 1 s;
  '(c, s) ← read_octet 2 s;
  '(d, s) ← read_octet 3 s;
  Some (IPv4addr a b c d, s).

(** [limit - k] groups are read already; the result lists the groups of the
    remaining slots, and says whether the last two came from an IPv4 tail. *)
Fixpoint read_groups (limit k : nat) (s : rstr) : list Z * bool * rstr :=
  match k with
  | O => ([], false, s)
  | S k' =>
      let i := (limit - k)%nat in
      match (if (i <? limit - 1)%nat then read_separator 58 i read_ipv4_addr s else None) with
      | Some (v4, s') =>
          ([oct0 v4 * 256 + oct1 v4; oct2 v4 * 256 + oct3 v4], true, s')
      | None =>
          match read_separator 58 i (read_number 16 4 true u16_max) s with
          | Some (g, s') =>
              let '(gs, v4, s'') := read_groups limit k' s' in (g :: gs, v4, s'')
          | None => ([], false, s)
          end
      end
  end.

Definition read_ipv6_addr : parser bytes := fun s =>
  let '(head, head_ipv4, s1) := read_groups 8 8 s in
  if (length head =? 8)%nat then Some (octets_of_segments head, s1)
  else if head_ipv4 then None
  else
    '(_, s2) ← read_given_char 58 s1;
    '(_, s3) ← read_given_char 58 s2;
    let limit := (8 - (length head + 1))%nat in
    let '(tail, _, s4) := read_groups limit limit s3 in
    let zeros := replicate (8 - length head - length tail)%nat 0 in
    Some (octets_of_segments (head ++ zeros ++ tail), s4).

Definition parse_with {A} (p : parser A) (s : rstr) : option A :=
  match p s with Some (a, []) => Some a | _ => None end.

Definition parse_ipv4 (s : rstr) : option Ipv4Addr :=
  if (15 <? length s)%nat then None else parse_with read_ipv4_addr s.

Definition parse_ipv6 (s : rstr) : option bytes := parse_with read_ipv6_addr s.

Definition read_ip_addr : parser IpAddr := fun s =>
  match read_ipv4_addr s with
  | Some (a, s') => Some (V4 a, s')
  | None => match read_ipv6_addr s with Some (o, s') => Some (V6 o, s') | None => None end
  end.

(** [host.parse::<IpAddr>()]. *)
Definition parse_ip (s : rstr) : option IpAddr := parse_with read_ip_addr s.

Example parse_ip_mapped :
  parse_ip (str "::ffff:127.0.0.1") = Some (V6 [0;0;0;0; 0;0;0;0; 0;0;255;255; 127;0;0;1]).
Proof. reflexivity. Qed.

Example show_ipv6_ex :
  show_ipv6 [32;1;13;184; 0;0;0;0; 0;0;0;0; 0;0;0;1] = str "2001:db8::1".
Proof. reflexivity. Qed.

(** ** Round trips *)

(** The next character of [s], if any, is no digit of the radix. *)
Definition stops (radix : Z) (s : rstr) : Prop :=
  match s with [] => True | b :: _ => to_digit radix b = None end.

Lemma read_number_loop_digits radix maxd max rest : 2 <= radix <= 16 -> stops radix rest ->
  forall ds acc count,
  0 <= acc -> Forall (is_digit_of radix) ds -> digits_val radix acc ds <= max ->
  (count + length ds <= maxd)%nat ->
  read_number_loop radix maxd max acc count (map digit_char ds ++ rest)
  = Some (digits_val radix acc ds, (count + length ds)%nat, rest).
Proof.
  intros Hr Hstop ds. induction ds as [|d ds IH]; intros acc count Ha Hds Hm Hc; simpl.
  - rewrite Nat.add_0_r. destruct rest as [|b r]; [done|]. simpl in *. by rewrite Hstop.
  - apply Forall_cons in Hds as [Hd Hds].
    rewrite to_digit_char by (done || lia).
    change (digits_val radix acc (d :: ds)) with (digits_val radix (acc * radix + d) ds) in *.
    assert (0 <= acc * radix + d) by (unfold is_digit_of in Hd; nia).
    pose proof (digits_val_ge radix (acc * radix + d) ds ltac:(lia) ltac:(lia) Hds).
    simpl in Hc. replace (max <? acc * radix + d) with false by lia.
    replace (maxd <? S count)%nat with false by lia.
    rewrite IH by (done || lia). by rewrite Nat.add_succ_comm.
Qed.

Lemma read_number_show radix maxd allow max z rest :
  2 <= radix <= 16 -> is_u64 z -> z <= max -> (1 <= maxd)%nat ->
  z < radix ^ Z.of_nat maxd -> stops radix rest ->
  read_number radix maxd allow max (show_radix radix z ++ rest) = Some (z, rest).
Proof.
  intros Hr Hz Hm Hd Hlt Hstop.
  destruct (digits_spec radix z) as (H1 & H2 & H3); [lia|done|].
  assert (length (digits radix z) <= maxd)%nat as Hlen.
  { apply digits_fuel_length; [lia| |done]. unfold is_u64 in Hz. lia. }
  unfold read_number, show_radix.
  rewrite read_number_loop_digits by (done || lia). rewrite H2. simpl.
  destruct (digits radix z) as [|d ds] eqn:Ed; [done|]. simpl.
  destruct (digit_char d =? 48) eqn:E0; [|by rewrite andb_false_r].
  bool_facts. apply Forall_cons in H1 as [Hd0 _]. unfold is_digit_of in Hd0.
  assert (d = 0) as ->.
  { unfold digit_char in E0. destruct (d <? 10) eqn:?; bool_facts; lia. }
  destruct (digits_fuel_lead radix 64 ltac:(lia) z 0 ds) as [-> _]; try done.
  - by apply digits_bound; [lia|].
  - simpl. by rewrite andb_false_r.
Qed.

#[local] Arguments read_octet : simpl never.

Lemma read_octet_show a rest :
  is_u8 a -> stops 10 rest -> read_octet 0 (show_dec a ++ rest) = Some (a, rest).
Proof.
  intros Ha Hs. unfold is_u8, u8_max in Ha.
  apply read_number_show; try done; unfold is_u64, u64_max, u8_max; simpl; lia.
Qed.

Lemma read_octet_show_S i a rest :
  is_u8 a -> stops 10 rest -> read_octet (S i) (46 :: show_dec a ++ rest) = Some (a, rest).
Proof. apply read_octet_show. Qed.

Lemma stops_dot r : stops 10 (46 :: r).
Proof. done. Qed.

Lemma stops_colon r : stops 16 (58 :: r).
Proof. done. Qed.

Lemma stops_nil radix : stops radix [].
Proof. done. Qed.

#[export] Hint Resolve stops_dot stops_colon stops_nil : naive.

(** Reading back a printed IPv4 address, followed by anything but a digit. *)
Lemma read_ipv4_show ip rest :
  v4_wf ip -> stops 10 rest -> read_ipv4_addr (show_ipv4 ip ++ rest) = Some (ip, rest).
Proof.
  destruct ip as [a b c d]. intros (Ha & Hb & Hc & Hd) Hrest. simpl in *.
  unfold read_ipv4_addr, show_ipv4. simpl.
  rewrite <- !app_assoc, <- !app_comm_cons, <- !app_assoc, <- !app_comm_cons, <- !app_assoc.
  rewrite read_octet_show by (done || apply stops_dot). simpl.
  rewrite read_octet_show_S by (done || apply stops_dot). simpl.
  rewrite read_octet_show_S by (done || apply stops_dot). simpl.
  by rewrite read_octet_show_S.
Qed.

Lemma show_dec_u8_length a : is_u8 a -> (length (show_dec a) <= 3)%nat.
Proof.
  intros Ha. unfold is_u8, u8_max in Ha. unfold show_dec, show_radix, digits.
  rewrite length_map. apply digits_fuel_length; [lia| |lia]. simpl. lia.
Qed.

(** [Ipv4Addr]'s [Display] and [FromStr] are inverse. *)
Lemma parse_ipv4_show ip : v4_wf ip -> parse_ipv4 (show_ipv4 ip) = Some ip.
Proof.
  intros Hip. unfold parse_ipv4, parse_with.
  pose proof (read_ipv4_show ip [] Hip (stops_nil _)) as Hr. rewrite app_nil_r in Hr.
  rewrite Hr.
  assert (length (show_ipv4 ip) <= 15)%nat.
  { destruct Hip as (Ha & Hb & Hc & Hd).
    pose proof (show_dec_u8_length _ Ha). pose proof (show_dec_u8_length _ Hb).
    pose proof (show_dec_u8_length _ Hc). pose proof (show_dec_u8_length _ Hd).
    unfold show_ipv4. rewrite !length_app. simpl. lia. }
  by replace (15 <? length (show_ipv4 ip))%nat with false by lia.
Qed.

(** What stands after a group that was read: the end or a colon. *)
Definition group_end (rest : rstr) : Prop := rest = [] \/ exists r, rest = 58 :: r.

Definition groups_end (rest : rstr) : Prop := rest = [] \/ exists r, rest = 58 :: 58 :: r.

Lemma groups_end_group rest : groups_end rest -> group_end rest.
Proof. intros [->|[r ->]]; [by left|]. right. by eexists. Qed.

Lemma group_end_stops rest : group_end rest -> stops 16 rest.
Proof. by intros [->|[r ->]]. Qed.

Lemma read_hex_group g rest :
  is_u16 g -> stops 16 rest ->
  read_number 16 4 true u16_max (show_hex g ++ rest) = Some (g, rest).
Proof.
  intros Hg Hs. unfold is_u16, u16_max in Hg.
  apply read_number_show; try done; unfold is_u64, u64_max, u16_max; simpl; lia.
Qed.

Lemma read_number_loop_rest radix maxd max s : forall acc count v c s',
  read_number_loop radix maxd max acc count s = Some (v, c, s') ->
  exists p, s = p ++ s' /\ Forall (fun b => to_digit radix b <> None) p.
Proof.
  induction s as [|b s IH]; intros acc count v c s'; simpl.
  - intros [= <- <- <-]. by exists [].
  - destruct (to_digit radix b) as [d|] eqn:E.
    + destruct (max <? _); [done|]. destruct (_ <? _)%nat; [done|].
      intros (p & -> & Hp)%IH. exists (b :: p). split; [done|].
      constructor; [by rewrite E|done].
    + intros [= <- <- <-]. by exists [].
Qed.

Lemma read_number_rest radix maxd allow max s v s' :
  read_number radix maxd allow max s = Some (v, s') ->
  exists p, s = p ++ s' /\ Forall (fun b => to_digit radix b <> None) p.
Proof.
  unfold read_number. intros H.
  destruct (read_number_loop radix maxd max 0 0 s) as [[[v0 c0] s0]|] eqn:E; [|done].
  destruct (c0 =? 0)%nat; [done|].
  destruct (negb allow && _ && _); [done|]. simplify_eq.
  by eapply read_number_loop_rest.
Qed.

Lemma read_ipv4_first_dot s r :
  read_ipv4_addr s = Some r ->
  exists p s2, s = p ++ 46 :: s2 /\ Forall (fun b => to_digit 10 b <> None) p.
Proof.
  unfold read_ipv4_addr. intros H.
  destruct (read_octet 0 s) as [[a s1]|] eqn:E1; [|done]. simpl in H.
  destruct (read_octet 1 s1) as [[b s2]|] eqn:E2; [|done]. clear H.
  apply read_number_rest in E1 as (p & -> & Hp).
  unfold read_octet, read_separator, read_given_char in E2.
  destruct s1 as [|c s1]; [done|]. destruct (c =? 46) eqn:Ec; [|done].
  bool_facts. subst c. by exists p, s1.
Qed.

Lemma no_first_dot h rest p s2 :
  Forall (fun b => b <> 46) h -> group_end rest ->
  Forall (fun b => to_digit 10 b <> None) p -> h ++ rest = p ++ 46 :: s2 -> False.
Proof.
  intros Hh Hrest Hp. revert p Hp. induction Hh as [|b h Hb Hh IH]; intros p Hp; simpl.
  - destruct Hrest as [->|[r ->]]; destruct Hp as [|x p Hx Hp]; simpl; intros [=]; by subst.
  - destruct Hp as [|x p Hx Hp]; simpl; intros [= -> Heq]; [done|]. by eapply IH.
Qed.

Lemma show_hex_no_dot g : is_u64 g -> Forall (fun b => b <> 46) (show_hex g).
Proof.
  intros Hg. eapply Forall_impl; [apply show_radix_chars; [lia|done]|]. simpl. lia.
Qed.

Lemma is_u16_u64 g : is_u16 g -> is_u64 g.
Proof. unfold is_u16, is_u64, u16_max, u64_max. lia. Qed.

Lemma read_ipv4_hex_none g rest :
  is_u16 g -> group_end rest -> read_ipv4_addr (show_hex g ++ rest) = None.
Proof.
  intros Hg Hrest. destruct (read_ipv4_addr _) as [r|] eqn:E; [|done].
  apply read_ipv4_first_dot in E as (p & s2 & Heq & Hp). exfalso.
  eapply no_first_dot; [by apply show_hex_no_dot, is_u16_u64|done|exact Hp|exact Heq].
Qed.

Lemma read_ipv4_end_none rest : group_end rest -> read_ipv4_addr rest = None.
Proof.
  intros Hrest. destruct (read_ipv4_addr rest) as [r|] eqn:E; [|done].
  apply read_ipv4_first_dot in E as (p & s2 & Heq & Hp). exfalso.
  by eapply (no_first_dot []); [constructor|done|exact Hp|exact Heq].
Qed.

Lemma read_group_end_none rest :
  group_end rest -> read_number 16 4 true u16_max rest = None.
Proof. by intros [->|[r ->]]. Qed.

#[local] Arguments read_ipv4_addr : simpl never.
#[local] Arguments read_number : simpl never.
#[local] Arguments show_hex : simpl never.

Definition colon_groups (gs : list Z) : rstr := concat (map (fun g => 58 :: show_hex g) gs).

Lemma colon_groups_end gs rest : groups_end rest -> group_end (colon_groups gs ++ rest).
Proof.
  intros Hr. destruct gs as [|g gs]; simpl; [by apply groups_end_group|].
  right. by eexists.
Qed.

Lemma join_groups_colon g gs : join_groups (g :: gs) = show_hex g ++ colon_groups gs.
Proof.
  revert g. induction gs as [|h gs IH]; intros g; simpl; [by rewrite app_nil_r|].
  change (match gs with [] => show_hex h | _ :: _ => show_hex h ++ 58 :: join_groups gs end)
    with (join_groups (h :: gs)).
  by rewrite IH.
Qed.

(** All groups after the first, with the colons in front of them. *)
Lemma read_groups_colon limit rest : groups_end rest -> forall gs k,
  (k < limit)%nat -> (length gs <= k)%nat -> Forall is_u16 gs ->
  read_groups limit k (colon_groups gs ++ rest) = (gs, false, rest).
Proof.
  intros Hrest gs. induction gs as [|g gs IH]; intros k Hk Hlen Hgs.
  - destruct k as [|k]; [done|]. unfold read_groups. fold read_groups.
    destruct (limit - S k)%nat as [|i] eqn:Ei; [lia|].
    replace (read_separator 58 (S i) read_ipv4_addr (colon_groups [] ++ rest))
      with (@None (Ipv4Addr * rstr)).
    2:{ destruct Hrest as [->|[r ->]]; [done|]. unfold colon_groups. simpl.
        rewrite read_ipv4_end_none; [done|]. right. by eexists. }
    replace (read_separator 58 (S i) (read_number 16 4 true u16_max) (colon_groups [] ++ rest))
      with (@None (Z * rstr)).
    2:{ destruct Hrest as [->|[r ->]]; [done|]. unfold colon_groups. simpl.
        rewrite read_group_end_none; [done|]. right. by eexists. }
    by destruct (S i <? limit - 1)%nat.
  - destruct k as [|k]; [simpl in Hlen; lia|]. simpl in Hlen.
    apply Forall_cons in Hgs as [Hg Hgs].
    unfold read_groups. fold read_groups.
    destruct (limit - S k)%nat as [|i] eqn:Ei; [lia|].
    change (colon_groups (g :: gs)) with (58 :: show_hex g ++ colon_groups gs).
    rewrite <- app_comm_cons, <- app_assoc. unfold read_separator. simpl.
    rewrite read_ipv4_hex_none by (done || by apply colon_groups_end).
    rewrite read_hex_group by (done || by apply group_end_stops, colon_groups_end).
    rewrite IH by (done || lia). by destruct (S i <? limit - 1)%nat.
Qed.

Lemma read_groups_join limit gs rest :
  groups_end rest -> (length gs <= limit)%nat -> Forall is_u16 gs ->
  read_groups limit limit (join_groups gs ++ rest) = (gs, false, rest).
Proof.
  intros Hrest Hlen Hgs. destruct gs as [|g gs].
  - destruct limit as [|k]; [done|]. unfold read_groups. fold read_groups.
    rewrite Nat.sub_diag. simpl.
    rewrite read_ipv4_end_none by by apply groups_end_group.
    rewrite read_group_end_none by by apply groups_end_group.
    by destruct (0 <? k - 0)%nat.
  - destruct limit as [|k]; [simpl in Hlen; lia|]. simpl in Hlen.
    apply Forall_cons in Hgs as [Hg Hgs]. rewrite join_groups_colon, <- app_assoc.
    unfold read_groups. fold read_groups. rewrite Nat.sub_diag. simpl.
    rewrite read_ipv4_hex_none by (done || by apply colon_groups_end).
    rewrite read_hex_group by (done || by apply group_end_stops, colon_groups_end).
    rewrite read_groups_colon by (done || lia). by destruct (0 <? k - 0)%nat.
Qed.

(** The zero run found is a run of zeros inside the list. *)
Definition zspan (gs : list Z) (z : nat * nat) : Prop :=
  (z.1 + z.2 <= length gs)%nat /\ forall j, (z.1 <= j < z.1 + z.2)%nat -> gs !! j = Some 0.

Lemma zero_run_span full rest : forall i cur longest,
  drop i full = rest -> (i <= length full)%nat ->
  zspan full longest -> zspan full cur -> cur.2 = 0%nat \/ (cur.1 + cur.2 = i)%nat ->
  zspan full (zero_run i cur longest rest).
Proof.
  induction rest as [|g rest IH]; intros i cur longest Hd Hi Hl Hc Hcur; simpl; [done|].
  assert (full !! i = Some g) as Hg.
  { rewrite <- (Nat.add_0_r i), <- lookup_drop, Hd. done. }
  assert (drop (S i) full = rest) as Hd'.
  { replace (S i) with (i + 1)%nat by lia. by rewrite <- drop_drop, Hd. }
  assert (i < length full)%nat by by eapply lookup_lt_Some.
  destruct (g =? 0) eqn:Eg; bool_facts.
  - assert (zspan full ((if (cur.2 =? 0)%nat then i else cur.1), S cur.2)) as Hz.
    { destruct (cur.2 =? 0)%nat eqn:E0; bool_facts; split; simpl; [lia| |lia|].
      - intros j Hj. rewrite E0 in Hj. assert (j = i) as -> by lia. by rewrite Hg, Eg.
      - intros j Hj. destruct (decide (j = i)) as [->|]; [by rewrite Hg, Eg|].
        apply Hc. lia. }
    apply IH; try done.
    + destruct (longest.2 <? S cur.2)%nat; done.
    + right. simpl. destruct (cur.2 =? 0)%nat eqn:E0; bool_facts; lia.
  - apply IH; try done; [|by left]. split; simpl; [lia|]. intros j Hj. lia.
Qed.

Lemma zspan_split gs z : zspan gs z ->
  gs = take z.1 gs ++ replicate z.2 0 ++ drop (z.1 + z.2) gs.
Proof.
  destruct z as [s l]. intros [Hlen Hz]. simpl in *.
  rewrite <- (take_drop s gs) at 1. f_equal.
  rewrite <- (take_drop l (drop s gs)), drop_drop. f_equal.
  apply list_eq. intros j. destruct (decide (j < l)%nat).
  - rewrite lookup_take_lt by done. rewrite lookup_drop, Hz by lia.
    by rewrite lookup_replicate_2.
  - rewrite lookup_take_ge by lia. symmetry. apply lookup_ge_None_2.
    rewrite length_replicate. lia.
Qed.

Lemma segments_wf o : Forall is_u8 o -> Forall is_u16 (segments o).
Proof.
  revert o. fix IH 1. intros [|a [|b o]] H; try constructor.
  - apply Forall_cons in H as [Ha [Hb _]%Forall_cons].
    unfold is_u8, u8_max, is_u16, u16_max in *. lia.
  - apply IH. by apply Forall_cons in H as [_ [_ H]%Forall_cons].
Qed.

Lemma segments_length o : (2 * length (segments o) <= length o)%nat
  /\ (length o <= 2 * length (segments o) + 1)%nat.
Proof.
  revert o. fix IH 1. intros [|a [|b o]]; simpl; try lia. destruct (IH o). lia.
Qed.

Lemma octets_segments o : Nat.Even (length o) -> Forall is_u8 o ->
  octets_of_segments (segments o) = o.
Proof.
  revert o. fix IH 1. intros [|a [|b o]] He H; [done| |].
  - destruct He as [k Hk]. simpl in Hk. lia.
  - apply Forall_cons in H as [Ha [Hb H]%Forall_cons].
    unfold is_u8, u8_max in *. simpl. f_equal; [|f_equal].
    + rewrite Z.div_add_l by lia. rewrite Z.div_small; lia.
    + rewrite Z.add_comm, Z.mod_add by lia. by rewrite Z.mod_small by lia.
    + apply IH; [|done]. destruct He as [k Hk]. exists (k - 1)%nat. simpl in Hk. lia.
Qed.

Lemma v6_segments o : v6_wf o ->
  length (segments o) = 8%nat /\ Forall is_u16 (segments o)
  /\ octets_of_segments (segments o) = o.
Proof.
  intros [Hlen Ho]. pose proof (segments_length o). split_and!; [lia|by apply segments_wf|].
  apply octets_segments; [|done]. exists 8%nat. lia.
Qed.

(** The text of eight groups is parsed back to them. *)
Lemma read_ipv6_segments gs : length gs = 8%nat -> Forall is_u16 gs ->
  read_ipv6_addr (show_segments gs) = Some (octets_of_segments gs, []).
Proof.
  intros Hlen Hgs. unfold read_ipv6_addr, show_segments.
  set (z := zero_run 0 (0%nat, 0%nat) (0%nat, 0%nat) gs).
  assert (zspan gs z) as Hz.
  { apply zero_run_span; try done; try lia; try by left.
    all: split; simpl; [lia|]; intros j Hj; lia. }
  destruct (1 <? z.2)%nat eqn:El; bool_facts.
  - pose proof (zspan_split _ _ Hz) as Hsplit. destruct Hz as [Hle _].
    rewrite read_groups_join.
    2:{ right. by eexists. }
    2:{ rewrite length_take. lia. }
    2:{ by apply Forall_take. }
    rewrite length_take. replace (z.1 `min` length gs)%nat with z.1 by lia.
    replace (z.1 =? 8)%nat with false by lia. simpl.
    rewrite <- (app_nil_r (join_groups (drop (z.1 + z.2) gs))).
    rewrite read_groups_join.
    2:{ by left. }
    2:{ rewrite length_drop. lia. }
    2:{ by apply Forall_drop. }
    rewrite length_drop.
    replace (8 - z.1 - (length gs - (z.1 + z.2)))%nat with z.2 by lia.
    by rewrite <- Hsplit.
  - rewrite <- (app_nil_r (join_groups gs)), read_groups_join; [|by left|lia|done].
    by rewrite Hlen.
Qed.

Lemma u16_split x y : is_u8 x -> is_u8 y ->
  (x * 256 + y) / 256 = x /\ (x * 256 + y) mod 256 = y.
Proof.
  unfold is_u8, u8_max. intros Hx Hy.
  rewrite Z.div_add_l, (Z.add_comm (x * 256)), Z.mod_add by lia.
  rewrite Z.div_small, Z.mod_small; lia.
Qed.

Lemma read_groups_first k g rest : is_u16 g -> group_end rest ->
  read_groups (S k) (S k) (show_hex g ++ rest)
  = let '(gs, v4, s) := read_groups (S k) k rest in (g :: gs, v4, s).
Proof.
  intros Hg Hrest. unfold read_groups at 1. fold read_groups. rewrite Nat.sub_diag.
  cbn [read_separator]. rewrite read_ipv4_hex_none by done.
  rewrite read_hex_group by (done || by apply group_end_stops).
  by destruct (0 <? S k - 1)%nat.
Qed.

(** An IPv4 tail takes the last two groups. *)
Lemma read_groups_ipv4 limit k v4 : (S k < limit)%nat -> (1 <= k)%nat -> v4_wf v4 ->
  read_groups limit (S k) (58 :: show_ipv4 v4)
  = ([oct0 v4 * 256 + oct1 v4; oct2 v4 * 256 + oct3 v4], true, []).
Proof.
  intros Hk Hk1 Hv4. pose proof (read_ipv4_show v4 [] Hv4 (stops_nil _)) as Hr.
  rewrite app_nil_r in Hr. unfold read_groups. fold read_groups.
  replace (limit - S k <? limit - 1)%nat with true by lia.
  destruct (limit - S k)%nat as [|i] eqn:Ei; [lia|].
  unfold read_separator, read_given_char. rewrite Z.eqb_refl. by rewrite Hr.
Qed.

#[local] Arguments read_groups : simpl never.

Lemma read_ipv6_mapped v4 : v4_wf v4 ->
  read_ipv6_addr (str "::ffff:" ++ show_ipv4 v4) = Some (mapped_prefix ++ v4_octets v4, []).
Proof.
  intros Hv4. unfold read_ipv6_addr.
  change (str "::ffff:" ++ show_ipv4 v4)
    with (join_groups [] ++ 58 :: 58 :: (show_hex 65535 ++ 58 :: show_ipv4 v4)).
  remember 65535 as g eqn:Eg.
  rewrite read_groups_join; [|right; by eexists|simpl; lia|done]. simpl.
  rewrite read_groups_first; [|by subst|right; by eexists].
  rewrite read_groups_ipv4 by (done || lia). subst g. simpl.
  destruct v4 as [a b c d]. destruct Hv4 as (Ha & Hb & Hc & Hd). simpl in *.
  destruct (u16_split a b) as [-> ->]; [done..|]. by destruct (u16_split c d) as [-> ->].
Qed.

(** [Ipv6Addr]'s [Display] and [FromStr] are inverse. *)
Lemma read_ipv6_show o : v6_wf o -> read_ipv6_addr (show_ipv6 o) = Some (o, []).
Proof.
  intros Ho. unfold show_ipv6, to_ipv4_mapped.
  destruct (bool_decide_reflect (take 12 o = mapped_prefix)) as [Hm|_].
  - destruct Ho as [Hlen Hb]. rewrite <- (take_drop 12 o) in Hb, Hlen |- *.
    rewrite Hm in *. rewrite length_app in Hlen. simpl in Hlen.
    destruct (drop 12 o) as [|a [|b [|c [|d [|? ?]]]]] eqn:Ed; simpl in Hlen; try lia.
    apply Forall_app in Hb as [_ Hb]. rewrite !Forall_cons in Hb.
    destruct Hb as (Ha & Hb & Hc & Hd & _).
    by apply (read_ipv6_mapped (IPv4addr a b c d)).
  - destruct (v6_segments o Ho) as (Hlen & Hs & Hoct).
    by rewrite read_ipv6_segments, Hoct.
Qed.

Lemma parse_ipv6_show o : v6_wf o -> parse_ipv6 (show_ipv6 o) = Some o.
Proof. intros Ho. unfold parse_ipv6, parse_with. by rewrite read_ipv6_show. Qed.

(** The printed form of an IPv6 address starts with a group or a colon, and is
    no IPv4 address. *)
Lemma show_ipv6_head o : v6_wf o ->
  exists h rest, show_ipv6 o = h ++ 58 :: rest /\ Forall (fun b => b <> 46) h.
Proof.
  intros Ho. unfold show_ipv6. destruct (to_ipv4_mapped o).
  { by exists [], (58 :: show_hex 65535 ++ 58 :: show_ipv4 i). }
  destruct (v6_segments o Ho) as (Hlen & Hs & _). unfold show_segments.
  set (z := zero_run _ _ _ _). destruct (1 <? z.2)%nat.
  - destruct (take z.1 (segments o)) as [|g gs] eqn:E; [by eexists [], _|].
    assert (is_u16 g) as Hg.
    { apply (Forall_take is_u16 z.1) in Hs. rewrite E in Hs.
      by apply Forall_cons in Hs as [? _]. }
    rewrite join_groups_colon, <- app_assoc. destruct gs as [|g' gs].
    + exists (show_hex g). eexists. split; [done|]. by apply show_hex_no_dot, is_u16_u64.
    + exists (show_hex g). eexists. split; [unfold colon_groups; simpl; done|].
      by apply show_hex_no_dot, is_u16_u64.
  - destruct (segments o) as [|g [|g' gs]]; simpl in Hlen; try lia.
    apply Forall_cons in Hs as [Hg _]. rewrite join_groups_colon.
    exists (show_hex g). eexists. split; [unfold colon_groups; simpl; done|].
    by apply show_hex_no_dot, is_u16_u64.
Qed.

Lemma read_ipv4_show_ipv6 o : v6_wf o -> read_ipv4_addr (show_ipv6 o) = None.
Proof.
  intros Ho. destruct (read_ipv4_addr _) as [r|] eqn:E; [|done]. exfalso.
  apply read_ipv4_first_dot in E as (p & s2 & Heq & Hp).
  destruct (show_ipv6_head o Ho) as (h & rest & Hh & Hdot). rewrite Hh in Heq.
  eapply no_first_dot; [exact Hdot|right; by eexists|exact Hp|exact Heq].
Qed.

(** [ip.to_string().parse::<IpAddr>() == Ok(ip)]. *)
Lemma parse_ip_show ip : ip_wf ip -> parse_ip (show_ip ip) = Some ip.
Proof.
  destruct ip as [a|o]; simpl; intros Hip; unfold parse_ip, parse_with, read_ip_addr.
  - pose proof (read_ipv4_show a [] Hip (stops_nil _)) as Hr. rewrite app_nil_r in Hr.
    by rewrite Hr.
  - by rewrite read_ipv4_show_ipv6, read_ipv6_show.
Qed.

(** ** What the parsers return is an address *)

Lemma to_digit_nonneg radix b d : to_digit radix b = Some d -> 0 <= d.
Proof.
  unfold to_digit, between. intros H.
  repeat match type of H with context [if ?x then _ else _] => destruct x eqn:? end;
    simplify_eq; bool_facts; lia.
Qed.

Lemma read_number_loop_range radix maxd max s : 0 <= radix -> forall acc count v c s',
  0 <= acc <= max -> read_number_loop radix maxd max acc count s = Some (v, c, s') -> 0 <= v <= max.
Proof.
  intros Hr. induction s as [|b s IH]; intros acc count v c s' Ha; simpl; [by intros [= <- _ _]|].
  destruct (to_digit radix b) as [d|] eqn:Ed; [|by intros [= <- _ _]].
  apply to_digit_nonneg in Ed. destruct (max <? acc * radix + d) eqn:Em; [done|]. bool_facts.
  destruct (_ <? _)%nat; [done|]. apply IH. nia.
Qed.

Lemma read_number_range radix maxd allow max s v s' :
  0 <= radix -> 0 <= max -> read_number radix maxd allow max s = Some (v, s') -> 0 <= v <= max.
Proof.
  intros Hr Hm. unfold read_number.
  destruct (read_number_loop _ _ _ _ _ _) as [[[v1 c] s1]|] eqn:E; [|done].
  apply read_number_loop_range in E; [|done|lia].
  destruct (c =? 0)%nat; [done|]. destruct (_ && _)%bool; [done|]. by intros [= <- _].
Qed.

Lemma read_separator_inv {A} sep i (p : parser A) s a s' :
  read_separator sep i p s = Some (a, s') -> exists s0, p s0 = Some (a, s').
Proof.
  unfold read_separator. destruct i; [by eauto|]. destruct (read_given_char sep s) as [[]|]; [by eauto|done].
Qed.

Lemma read_ipv4_wf s ip s' : read_ipv4_addr s = Some (ip, s') -> v4_wf ip.
Proof.
  unfold read_ipv4_addr. intros H.
  assert (forall i s a s', read_octet i s = Some (a, s') -> is_u8 a) as Ho.
  { intros i s0 a s1 H0. apply read_separator_inv in H0 as (s2 & H0).
    apply read_number_range in H0; unfold u8_max in *; unfold is_u8, u8_max; lia. }
  destruct (read_octet 0 s) as [[a s1]|] eqn:E1; simpl in H; [|done].
  destruct (read_octet 1 s1) as [[b s2]|] eqn:E2; simpl in H; [|done].
  destruct (read_octet 2 s2) as [[c s3]|] eqn:E3; simpl in H; [|done].
  destruct (read_octet 3 s3) as [[d s4]|] eqn:E4; simpl in H; [|done].
  injection H as <- _. unfold v4_wf. simpl. split_and!; by eapply Ho.
Qed.

Lemma parse_ipv4_wf s ip : parse_ipv4 s = Some ip -> v4_wf ip.
Proof.
  unfold parse_ipv4, parse_with. destruct (_ <? _)%nat; [done|].
  destruct (read_ipv4_addr s) as [[a [|]]|] eqn:E; [|done..]. intros [= <-]. by eapply read_ipv4_wf.
Qed.

Lemma read_groups_wf limit k s gs v4 s' :
  (k <= limit)%nat -> read_groups limit k s = (gs, v4, s') -> (length gs <= k)%nat /\ Forall is_u16 gs.
Proof.
  revert s gs v4 s'. induction k as [|k IH]; intros s gs v4 s' Hk; unfold read_groups; fold read_groups.
  { by intros [= <- _ _]. }
  set (i := (limit - S k)%nat).
  destruct (if (i <? limit - 1)%nat then read_separator 58 i read_ipv4_addr s else None)
    as [[a s1]|] eqn:E4.
  { destruct (i <? limit - 1)%nat eqn:Ei; [|done]. bool_facts.
    apply read_separator_inv in E4 as (s2 & E4). apply read_ipv4_wf in E4.
    unfold v4_wf, is_u8, u8_max in E4. intros [= <- _ _]. split; [simpl; unfold i in Ei; lia|].
    repeat apply Forall_cons_2; unfold is_u16, u16_max; try lia. apply Forall_nil_2. }
  destruct (read_separator 58 i (read_number 16 4 true u16_max) s) as [[g s1]|] eqn:Eg; [|intros [= <- _ _]; split; simpl; [lia|done]].
  apply read_separator_inv in Eg as (s2 & Eg).
  apply read_number_range in Eg; [|lia|unfold u16_max; lia].
  destruct (read_groups limit k s1) as [[gs1 w] s3] eqn:Er. intros [= <- _ _].
  apply IH in Er as [Hl Hu]; [|lia]. split; [simpl; lia|]. by constructor.
Qed.

Lemma octets_of_segments_wf gs :
  Forall is_u16 gs -> length (octets_of_segments gs) = (2 * length gs)%nat
  /\ Forall is_u8 (octets_of_segments gs).
Proof.
  induction 1 as [|g gs Hg _ [IHl IHu]]; simpl; [done|]. split; [lia|].
  unfold is_u16, u16_max, is_u8, u8_max in *.
  repeat apply Forall_cons_2; [..|done]; unfold is_u8, u8_max; Z.div_mod_to_equations; lia.
Qed.

Lemma read_ipv6_wf s o s' : read_ipv6_addr s = Some (o, s') -> v6_wf o.
Proof.
  unfold read_ipv6_addr, v6_wf.
  destruct (read_groups 8 8 s) as [[head h4] s1] eqn:E1.
  apply read_groups_wf in E1 as [Hl Hu]; [|lia].
  destruct (length head =? 8)%nat eqn:E8; bool_facts.
  { intros [= <- _]. destruct (octets_of_segments_wf head Hu) as [-> ?]. split; [lia|done]. }
  destruct h4; [done|]. intros H.
  destruct (read_given_char 58 s1) as [[u s2]|]; simpl in H; [|done].
  destruct (read_given_char 58 s2) as [[u' s3]|]; simpl in H; [|done].
  destruct (read_groups _ _ s3) as [[tail t4] s4] eqn:E2.
  apply read_groups_wf in E2 as [Hl2 Hu2]; [|lia]. injection H as <- _.
  match goal with |- context [octets_of_segments ?x] => destruct (octets_of_segments_wf x) as [-> ?] end.
  - rewrite !Forall_app. split_and!; [done| |done]. apply Forall_replicate. unfold is_u16, u16_max. lia.
  - split; [|done]. rewrite !length_app, length_replicate. lia.
Qed.

Lemma parse_ipv6_wf s o : parse_ipv6 s = Some o -> v6_wf o.
Proof.
  unfold parse_ipv6, parse_with. destruct (read_ipv6_addr s) as [[a [|]]|] eqn:E; [|done..].
  intros [= <-]. by eapply read_ipv6_wf.
Qed.

Lemma parse_ip_wf s ip : parse_ip s = Some ip -> ip_wf ip.
Proof.
  unfold parse_ip, parse_with, read_ip_addr.
  destruct (read_ipv4_addr s) as [[a [|]]|] eqn:E4; [intros [= <-]; by eapply read_ipv4_wf|done|].
  destruct (read_ipv6_addr s) as [[o [|]]|] eqn:E6; [intros [= <-]; by eapply read_ipv6_wf|done|done].
Qed.
