(* ===== verification/AsyncIo.v ===== *)
(** * The asynchronous streams of [tokio::io], as interfaces

    [AsyncRead] and [AsyncWrite] are the operations of the traits of that name
    (the waker of the [Context] is not modelled: a poll is a function of the
    stream's state).  [ReadSpec], [WriteSpec] and [DuplexSpec] state what an
    implementation promises; the adapters of the repository are proved against
    these interfaces and implement them in turn. *)

From S2P Require Import Prelude.
Open Scope nat_scope.

(** [poll_read n s]: a poll with a buffer of [n] free bytes; [Ready (Ok bs)]
    has filled it with [bs], and [bs = []] with [n > 0] is the end of file. *)
Class AsyncRead (T : Type) : Type :=
  poll_read : nat -> T -> poll (io_result bytes) * T.

Class AsyncWrite (T : Type) : Type := {
  poll_write : bytes -> T -> poll (io_result nat) * T;
  poll_flush : T -> poll (io_result unit) * T;
  poll_shutdown : T -> poll (io_result unit) * T
}.

(** The bytes a read poll delivered. *)
Definition read_of (p : poll (io_result bytes)) : bytes :=
  match p with Ready (Ok bs) => bs | _ => [] end.

(** A reader has a set of good states and a history: [rd_log s] is all that
    was delivered so far. *)
Class ReadSpec (T : Type) `{AsyncRead T} : Type := {
  rd_ok : T -> Prop;
  rd_log : T -> bytes;
  rd_spec n s p s' :
    rd_ok s -> poll_read n s = (p, s') ->
    rd_ok s' /\ length (read_of p) <= n /\ Forall is_u8 (read_of p)
    /\ rd_log s' = rd_log s ++ read_of p
}.

(** What a write poll may do to the history of accepted bytes: [Ok n] accepts
    the first [n] bytes, a pending poll nothing, and a failed one some prefix. *)
Definition write_post (buf : bytes) (p : poll (io_result nat)) (old new : bytes) : Prop :=
  match p with
  | Pending => new = old
  | Ready (Ok n) => n <= length buf /\ new = old ++ take n buf
  | Ready (Err _) => exists k, new = old ++ take k buf
  end.

(** [wr_log s] is all that was accepted so far, [wr_fin s] whether the end of
    the stream was sent. *)
Class WriteSpec (T : Type) `{AsyncWrite T} : Type := {
  wr_ok : T -> Prop;
  wr_log : T -> bytes;
  wr_fin : T -> bool;
  wr_spec buf s p s' :
    wr_ok s -> poll_write buf s = (p, s') ->
    wr_ok s' /\ write_post buf p (wr_log s) (wr_log s') /\ wr_fin s' = wr_fin s;
  flush_spec s p s' :
    wr_ok s -> poll_flush s = (p, s') ->
    wr_ok s' /\ wr_log s' = wr_log s /\ wr_fin s' = wr_fin s;
  shutdown_spec s p s' :
    wr_ok s -> poll_shutdown s = (p, s') ->
    wr_ok s' /\ wr_log s' = wr_log s /\ (p = Ready (Ok tt) -> wr_fin s' = true)
    /\ (wr_fin s = true -> wr_fin s' = true)
}.

(** The two directions of a stream do not disturb each other. *)
Class DuplexSpec (T : Type) `{!AsyncRead T, !AsyncWrite T, !ReadSpec T, !WriteSpec T} : Prop := {
  read_frame n s p s' :
    rd_ok s -> wr_ok s -> poll_read n s = (p, s') ->
    wr_ok s' /\ wr_log s' = wr_log s /\ wr_fin s' = wr_fin s;
  write_frame buf s p s' :
    rd_ok s -> wr_ok s -> poll_write buf s = (p, s') -> rd_ok s' /\ rd_log s' = rd_log s;
  flush_frame s p s' :
    rd_ok s -> wr_ok s -> poll_flush s = (p, s') -> rd_ok s' /\ rd_log s' = rd_log s;
  shutdown_frame s p s' :
    rd_ok s -> wr_ok s -> poll_shutdown s = (p, s') -> rd_ok s' /\ rd_log s' = rd_log s
}.

Section Frames.
Context {T : Type} `{!AsyncRead T, !AsyncWrite T, !ReadSpec T, !WriteSpec T, !DuplexSpec T}.

(** The reader of a stream, while its writer is used. *)
Definition reader_at (L : bytes) (i : T) : Prop := rd_ok i /\ wr_ok i /\ rd_log i = L.

(** The writer of a stream, while its reader is used. *)
Definition writer_at (L : bytes) (f : bool) (i : T) : Prop :=
  rd_ok i /\ wr_ok i /\ wr_log i = L /\ wr_fin i = f.

Lemma reader_at_write L buf i : reader_at L i -> reader_at L (poll_write buf i).2.
Proof.
  intros (H1 & H2 & H3). destruct (poll_write buf i) as [p i'] eqn:E.
  pose proof (write_frame buf i p i' H1 H2 E) as [? HL].
  apply wr_spec in E as [? _]; [|done]. split_and!; cbn [snd]; congruence.
Qed.

Lemma reader_at_flush L i : reader_at L i -> reader_at L (poll_flush i).2.
Proof.
  intros (H1 & H2 & H3). destruct (poll_flush i) as [p i'] eqn:E.
  pose proof (flush_frame i p i' H1 H2 E) as [? HL].
  apply flush_spec in E as [? _]; [|done]. split_and!; cbn [snd]; congruence.
Qed.

Lemma reader_at_shutdown L i : reader_at L i -> reader_at L (poll_shutdown i).2.
Proof.
  intros (H1 & H2 & H3). destruct (poll_shutdown i) as [p i'] eqn:E.
  pose proof (shutdown_frame i p i' H1 H2 E) as [? HL].
  apply shutdown_spec in E as [? _]; [|done]. split_and!; cbn [snd]; congruence.
Qed.

Lemma writer_at_read L f m i : writer_at L f i -> writer_at L f (poll_read m i).2.
Proof.
  intros (H1 & H2 & H3 & H4). destruct (poll_read m i) as [p i'] eqn:E.
  pose proof (read_frame m i p i' H1 H2 E) as (? & ? & ?).
  apply rd_spec in E as [? _]; [|done]. split_and!; cbn [snd]; congruence.
Qed.
End Frames.

(** A reader that can be drained: every poll that delivers bytes decreases
    [rd_avail], so that it cannot be ready for ever. *)
Class ReadFinite (T : Type) `{AsyncRead T} : Type := {
  rd_avail : T -> nat;
  rd_avail_spec n s bs s' :
    poll_read n s = (Ready (Ok bs), s') -> bs <> [] -> rd_avail s' < rd_avail s
}.

(** ** A stream in memory

    A concrete implementation of the interface, the counterpart of the duplex
    pipes of the repository's tests: [chunks] is what the peer has sent and
    [eof] whether it closed; [credits] are the amounts the peer will accept,
    one per write poll.  A reader with nothing to read and no end of file, and
    a writer without credit, are pending. *)
Record Mem : Type := {
  chunks : list bytes;
  eof : bool;
  consumed : bytes;
  credits : list nat;
  accepted : bytes;
  fin : bool
}.

#[export] Instance Mem_read : AsyncRead Mem := fun n s =>
  match chunks s with
  | [] => (if eof s then Ready (Ok []) else Pending, s)
  | c :: cs =>
      let rest := drop n c in
      (Ready (Ok (take n c)),
       {| chunks := if bool_decide (rest = []) then cs else rest :: cs; eof := eof s;
          consumed := consumed s ++ take n c; credits := credits s;
          accepted := accepted s; fin := fin s |})
  end.

#[export] Instance Mem_write : AsyncWrite Mem := {|
  poll_write := fun buf s =>
    match credits s with
    | [] => (Pending, s)
    | k :: ks =>
        let n := k `min` length buf in
        (Ready (Ok n),
         {| chunks := chunks s; eof := eof s; consumed := consumed s; credits := ks;
            accepted := accepted s ++ take n buf; fin := fin s |})
    end;
  poll_flush := fun s => (Ready (Ok tt), s);
  poll_shutdown := fun s =>
    (Ready (Ok tt),
     {| chunks := chunks s; eof := eof s; consumed := consumed s; credits := credits s;
        accepted := accepted s; fin := true |})
|}.

(** A chunk that has arrived is not empty: only the end of the stream is. *)
Definition Mem_ok (s : Mem) : Prop := Forall (fun c => c <> [] /\ Forall is_u8 c) (chunks s).

#[export] Program Instance Mem_read_spec : ReadSpec Mem := {|
  rd_ok := Mem_ok; rd_log := consumed
|}.
Next Obligation.
  unfold Mem_ok, poll_read, Mem_read. intros n s p s' Hok Hp.
  destruct (chunks s) as [|c cs] eqn:E; injection Hp as <- <-; simpl.
  - destruct (eof s); simpl; rewrite ?E, app_nil_r; split_and!; auto with lia.
  - apply Forall_cons in Hok as [[_ Hc] Hcs]. split_and!; [|rewrite length_take; lia| |done].
    + case_bool_decide; [done|]. constructor; [split; [done|by apply Forall_drop]|done].
    + by apply Forall_take.
Qed.

#[export] Program Instance Mem_write_spec : WriteSpec Mem := {|
  wr_ok := Mem_ok; wr_log := accepted; wr_fin := fin
|}.
Next Obligation.
  unfold Mem_ok. simpl. intros buf s p s' Hok Hp.
  destruct (credits s) as [|k ks]; injection Hp as <- <-; simpl; split_and!; try done. lia.
Qed.
Next Obligation. simpl. intros s p s' Hok Hp. by injection Hp as <- <-. Qed.
Next Obligation. simpl. intros s p s' Hok Hp. by injection Hp as <- <-. Qed.

#[export] Instance Mem_duplex : DuplexSpec Mem.
Proof.
  split.
  - intros n s p s' Hr Hw Hp. pose proof (rd_spec n s p s' Hr Hp) as [Hok _].
    split; [exact Hok|]. unfold poll_read, Mem_read in Hp.
    by destruct (chunks s); injection Hp as <- <-.
  - intros buf s p s' Hr Hw Hp. pose proof (wr_spec buf s p s' Hw Hp) as [Hok _].
    split; [exact Hok|]. simpl in Hp. by destruct (credits s); injection Hp as <- <-.
  - intros s p s' Hr Hw Hp. simpl in Hp. by injection Hp as <- <-.
  - intros s p s' Hr Hw Hp. simpl in Hp. by injection Hp as <- <-.
Qed.

#[export] Program Instance Mem_finite : ReadFinite Mem := {|
  rd_avail := fun s => sum_list_with length (chunks s)
|}.
Next Obligation.
  unfold poll_read, Mem_read. intros n s bs s' Hp Hbs.
  destruct (chunks s) as [|c cs]; injection Hp as Hbs' <-; simpl.
  - by destruct (eof s); simplify_eq.
  - subst bs. assert (0 < length (take n c)) as H by (destruct (take n c); [done|simpl; lia]).
    rewrite length_take in H. case_bool_decide; simpl; [lia|]. rewrite length_drop. lia.
Qed.
