(* ===== verification/ConfigAuto.v ===== *)
(** * [src/config_auto.rs]: the limit on concurrent connections

    [MaxConnections] and its parser, [compute_auto] (the limit derived from the
    processors, the memory and the file descriptors of the machine, in [u64]
    arithmetic) and [resolve].  What the system reports is the class
    [SystemLimits]. *)

From S2P Require Import Prelude RustStr.
Open Scope Z_scope.

Inductive MaxConnections : Type := Auto | Fixed (n : Z).

#[export] Instance MaxConnections_eq_dec : EqDecision MaxConnections.
Proof. solve_decision. Defined.

Definition MaxConnections_from_str (s : rstr) : result MaxConnections rstr :=
  if eq_ignore_ascii_case s (str "auto") then Ok Auto
  else
    match parse_usize s with
    | None =>
        Err (str "Invalid max_connections '" ++ s ++ str "'. Use 'auto' or a positive integer")
    | Some n =>
        if n =? 0 then
          Err (str "Invalid max_connections '" ++ s
               ++ str "'. Must be 'auto' or a positive integer (>= 1)")
        else Ok (Fixed n)
    end.

Definition PER_CORE_MBPS : Z := 1500.
Definition PER_USER_KBPS : Z := 200.
Definition PER_SESSION_KB : Z := 200.
Definition MEM_BUDGET_PCT : Z := 50.
Definition FD_RESERVE_DEFAULT : Z := 1024.
Definition FD_PER_SESSION : Z := 2.

Inductive Limit : Type := Cpu | Memory | FileDescriptors.

Definition Limit_as_str (l : Limit) : rstr :=
  match l with Cpu => str "cpu" | Memory => str "memory" | FileDescriptors => str "fd" end.

Record AutoBreakdown : Type := {
  value : Z;
  cpu_cap : Z;
  mem_cap : Z;
  fd_cap : Z;
  limiting : Limit
}.

Definition compute_auto (cpus total_mem_kb nofile_soft : Z) : AutoBreakdown :=
  let cpus := Z.max cpus 1 in
  let cpu_cap :=
    u64_saturating_mul (u64_saturating_mul cpus PER_CORE_MBPS) 1000 / PER_USER_KBPS in
  let mem_cap := u64_saturating_mul total_mem_kb MEM_BUDGET_PCT / 100 / PER_SESSION_KB in
  let fd_reserve := Z.min FD_RESERVE_DEFAULT (nofile_soft / 4) in
  let fd_cap := u64_saturating_sub nofile_soft fd_reserve / FD_PER_SESSION in
  let raw := Z.min (Z.min cpu_cap mem_cap) fd_cap in
  let value := Z.max raw 1 in
  let limiting :=
    if (cpu_cap <=? mem_cap) && (cpu_cap <=? fd_cap) then Cpu
    else if mem_cap <=? fd_cap then Memory
    else FileDescriptors in
  {| value := value; cpu_cap := cpu_cap; mem_cap := mem_cap; fd_cap := fd_cap;
     limiting := limiting |}.

Definition fixed_exceeds_auto_cap (v : Z) (bd : AutoBreakdown) : bool :=
  (cpu_cap bd <? v) || (mem_cap bd <? v) || (fd_cap bd <? v).

Inductive ResolveMode : Type := ModeAuto | ModeFixed.

Record ResolvedMaxConnections : Type := {
  rm_value : Z;
  rm_mode : ResolveMode;
  rm_breakdown : AutoBreakdown;
  rm_cpus : Z;
  rm_total_mem_kb : Z;
  rm_nofile_soft : Z
}.

(** [available_parallelism], [sysconf] and [getrlimit]. *)
Class SystemLimits := {
  available_parallelism : option Z;
  sysconf_phys_pages : Z;
  sysconf_pagesize : Z;
  rlimit_nofile : option Z
}.

Section Resolve.
Context {sys : SystemLimits}.

(** On Linux. *)
Definition total_memory_kb : option Z :=
  let pages := sysconf_phys_pages in
  let page_size := sysconf_pagesize in
  if (0 <? pages) && (0 <? page_size) then Some (u64_saturating_mul pages page_size / 1024)
  else None.

Definition nofile_soft_limit : option Z :=
  match rlimit_nofile with Some cur => Some cur | None => None end.

Definition resolve (spec : MaxConnections) : ResolvedMaxConnections :=
  let cpus := default 1 available_parallelism in
  let total_mem_kb := default (4 * 1024 * 1024) total_memory_kb in
  let nofile_soft := default 65536 nofile_soft_limit in
  let breakdown := compute_auto cpus total_mem_kb nofile_soft in
  let '(value, mode) :=
    match spec with
    | Fixed n => (n, ModeFixed)
    | Auto => (value breakdown, ModeAuto)
    end in
  {| rm_value := value; rm_mode := mode; rm_breakdown := breakdown; rm_cpus := cpus;
     rm_total_mem_kb := total_mem_kb; rm_nofile_soft := nofile_soft |}.
End Resolve.

(** ** Properties *)

Definition cap_of (l : Limit) (bd : AutoBreakdown) : Z :=
  match l with Cpu => cpu_cap bd | Memory => mem_cap bd | FileDescriptors => fd_cap bd end.

Ltac limits :=
  unfold PER_CORE_MBPS, PER_USER_KBPS, PER_SESSION_KB, MEM_BUDGET_PCT, FD_RESERVE_DEFAULT,
    FD_PER_SESSION, u64_saturating_mul, u64_saturating_sub, is_u64, u64_max in *.

(** C37: the derived limit is positive and, unless it is one, is what the
    scarcest resource allows: it names that resource, no session count above it
    fits, and that many sessions fit half of the memory (200 kB each) and the
    file descriptors less the reserve (two each). *)
Theorem compute_auto_fits cpus mem nofile :
  is_u64 cpus -> is_u64 mem -> is_u64 nofile ->
  let bd := compute_auto cpus mem nofile in
  1 <= value bd <= u64_max
  /\ value bd = Z.max 1 (cap_of (limiting bd) bd)
  /\ (forall l, cap_of (limiting bd) bd <= cap_of l bd)
  /\ (1 < value bd ->
      value bd * PER_SESSION_KB * 2 <= mem
      /\ value bd * FD_PER_SESSION <= nofile - Z.min FD_RESERVE_DEFAULT (nofile / 4))
  /\ (forall v, fixed_exceeds_auto_cap v bd = false <-> v <= cap_of (limiting bd) bd).
Proof.
  intros Hc Hm Hn bd.
  assert (0 <= cpu_cap bd <= u64_max /\ 0 <= mem_cap bd <= u64_max /\ 0 <= fd_cap bd <= u64_max
    /\ mem_cap bd * PER_SESSION_KB * 2 <= mem
    /\ fd_cap bd * FD_PER_SESSION <= nofile - Z.min FD_RESERVE_DEFAULT (nofile / 4))
    as (H1 & H2 & H3 & H4 & H5).
  { subst bd. unfold compute_auto. cbn [cpu_cap mem_cap fd_cap]. limits.
    split_and!; Z.div_mod_to_equations; lia. }
  assert (value bd = Z.max (Z.min (Z.min (cpu_cap bd) (mem_cap bd)) (fd_cap bd)) 1
    /\ limiting bd = (if (cpu_cap bd <=? mem_cap bd) && (cpu_cap bd <=? fd_cap bd) then Cpu
                      else if mem_cap bd <=? fd_cap bd then Memory else FileDescriptors))
    as [-> ->] by done.
  unfold fixed_exceeds_auto_cap. clearbody bd. limits.
  assert (forall c, Z.min (Z.min (cpu_cap bd) (mem_cap bd)) (fd_cap bd) = c ->
    forall l, c <= cap_of l bd) as Hmin by (intros c <- []; simpl; lia).
  destruct (cpu_cap bd <=? mem_cap bd) eqn:E1, (cpu_cap bd <=? fd_cap bd) eqn:E2,
    (mem_cap bd <=? fd_cap bd) eqn:E3; cbn [andb cap_of]; bool_facts;
    (split_and!; [lia|lia|lia|apply Hmin; lia|intros; split; lia|intros; lia]).
Qed.

(** More of a resource never lowers the limit. *)
Lemma compute_auto_mono c c' m m' n n' :
  0 <= c <= c' -> 0 <= m <= m' -> 0 <= n <= n' ->
  value (compute_auto c m n) <= value (compute_auto c' m' n').
Proof.
  intros Hc Hm Hn. unfold compute_auto. cbn [value]. limits.
  assert (n - Z.min 1024 (n / 4) <= n' - Z.min 1024 (n' / 4)) as Hfd.
  { clear -Hn. Z.div_mod_to_equations. lia. }
  apply Z.max_le_compat_r, Z.min_le_compat; [apply Z.min_le_compat|].
  - apply Z.div_le_mono; [lia|]. lia.
  - do 2 (apply Z.div_le_mono; [lia|]). lia.
  - apply Z.div_le_mono; [lia|]. revert Hfd. generalize (n / 4), (n' / 4). lia.
Qed.

(** The setting is a limit of at least one: [auto] in any case, or a
    decimal number of [1 .. 2^64 - 1], and what it resolves to is that number,
    or the derived limit, whatever the system reports. *)
Theorem max_connections_positive {sys : SystemLimits} s spec :
  MaxConnections_from_str s = Ok spec -> 1 <= rm_value (resolve spec)
  /\ match spec with
     | Auto => eq_ignore_ascii_case s (str "auto") = true
         /\ rm_value (resolve spec) = value (rm_breakdown (resolve spec))
     | Fixed n => parse_usize s = Some n /\ rm_value (resolve spec) = n /\ n <= u64_max
     end.
Proof.
  unfold MaxConnections_from_str. destruct (eq_ignore_ascii_case s _) eqn:Ea.
  - intros [= <-]. unfold resolve. cbn [rm_value rm_breakdown]. split; [|done].
    unfold compute_auto. cbn [value]. apply Z.le_max_r.
  - destruct (parse_usize s) as [n|] eqn:En; [|done]. destruct (n =? 0) eqn:E0; [done|].
    intros [= <-]. bool_facts. apply parse_uint_range in En as Hr; [|unfold u64_max; lia].
    unfold resolve. cbn [rm_value]. split_and!; [lia|done|done|lia].
Qed.

(** The printed form of a positive limit is accepted. *)
Lemma MaxConnections_show n :
  1 <= n -> is_u64 n -> MaxConnections_from_str (show_dec n) = Ok (Fixed n).
Proof.
  intros Hn Hu. unfold MaxConnections_from_str.
  assert (eq_ignore_ascii_case (show_dec n) (str "auto") = false) as ->.
  { unfold eq_ignore_ascii_case, str_eqb. apply bool_decide_eq_false_2. intros H.
    pose proof (show_dec_chars n Hu) as Hc. destruct (show_dec n) as [|b l] eqn:E; [done|].
    apply Forall_cons in Hc as [Hb _]. simpl in H. injection H as H _.
    vm_compute (ascii_lower (Z.pos _)) in H. unfold ascii_lower in H.
    destruct ((65 <=? b) && (b <=? 90)) eqn:Eb; bool_facts; lia. }
  unfold parse_usize. rewrite parse_uint_show; [|unfold is_u64 in Hu; lia|done].
  by rewrite (proj2 (Z.eqb_neq _ _)) by lia.
Qed.

(** ** Examples *)

Definition machine : SystemLimits := {|
  available_parallelism := Some 4; sysconf_phys_pages := 2097152; sysconf_pagesize := 4096;
  rlimit_nofile := Some 65536
|}.

Example resolve_machine :
  rm_value (resolve (sys := machine) Auto) = 20971
  /\ limiting (rm_breakdown (resolve (sys := machine) Auto)) = Memory.
Proof. split; reflexivity. Qed.

Lemma compute_auto_fits_witness :
  let bd := compute_auto 4 8388608 65536 in
  1 <= value bd <= u64_max
  /\ value bd = Z.max 1 (cap_of (limiting bd) bd)
  /\ (forall l, cap_of (limiting bd) bd <= cap_of l bd)
  /\ (1 < value bd ->
      value bd * PER_SESSION_KB * 2 <= 8388608
      /\ value bd * FD_PER_SESSION <= 65536 - Z.min FD_RESERVE_DEFAULT (65536 / 4))
  /\ (forall v, fixed_exceeds_auto_cap v bd = false <-> v <= cap_of (limiting bd) bd).
Proof. apply (compute_auto_fits 4 8388608 65536); unfold is_u64, u64_max; lia. Defined.
