(* ===== verification/Config.v ===== *)
(** * [src/config.rs] and [src/logger.rs]: the settings

    The command line after clap's splitting into fields ([CliArgs]) with the two
    value parsers of the repository, its validation, the node configuration the
    panel sends, and the run-time configurations made of both.  A [Duration] is
    its number of nanoseconds.  Parameters: the file system ([FileSystem]), the
    humantime parser ([Humantime]), and serde_json with the derived field
    visitors ([SerdeJson]), which give the fields of the document. *)

From S2P Require Import Prelude RustStr ConfigAuto.
Open Scope Z_scope.

(** ** Value parsers *)

Inductive IpVersion : Type := IpV4 | IpV6 | IpAuto.

Definition one_of (s : rstr) (names : list rstr) : bool := existsb (str_eqb s) names.

Definition parse_ip_version (s : rstr) : result IpVersion rstr :=
  let l := to_lowercase s in
  if one_of l [str "v4"; str "ipv4"; str "4"] then Ok IpV4
  else if one_of l [str "v6"; str "ipv6"; str "6"] then Ok IpV6
  else if one_of l [str "auto"] then Ok IpAuto
  else Err (str "Invalid IP version '" ++ s ++ str "'. Use 'v4', 'v6', or 'auto'").

Definition NANOS_PER_SEC : Z := 1000000000.

Definition from_secs (s : Z) : Z := s * NANOS_PER_SEC.
Definition as_secs (d : Z) : Z := d / NANOS_PER_SEC.
Definition is_zero (d : Z) : bool := d =? 0.

(** [humantime::parse_duration]. *)
Class Humantime := humantime_parse_duration : rstr -> option Z.

Definition parse_duration {ht : Humantime} (s : rstr) : result Z rstr :=
  match humantime_parse_duration s with
  | Some d => Ok d
  | None =>
      match parse_u64 s with
      | Some n => Ok (from_secs n)
      | None =>
          Err (str "Invalid duration '" ++ s
               ++ str "'. Use formats like '60s', '2m', '1h' or plain seconds")
      end
  end.

(** ** Paths *)

Class FileSystem := path_exists : rstr -> bool.

(** [Path::file_name]: the last component that is a name ([.] components and
    repeated separators vanish; the root, [.] and [..] are no names). *)
Fixpoint split_slash (s acc : rstr) : list rstr :=
  match s with
  | [] => [rev acc]
  | b :: s => if b =? 47 then rev acc :: split_slash s [] else split_slash s (b :: acc)
  end.

Definition file_name (p : rstr) : option rstr :=
  let parts := filter (fun c => c <> [] /\ c <> str ".") (split_slash p []) in
  match last parts with
  | Some c => if str_eqb c (str "..") then None else Some c
  | None => None
  end.

(** [Path::extension] and [to_str]: after the last dot, which is not the first
    byte of the name. *)
Definition extension (p : rstr) : option rstr :=
  match file_name p with
  | None => None
  | Some n =>
      match rfind_byte 46 n with
      | None => None
      | Some O => None
      | Some (S i) => from_utf8 (drop (S (S i)) n)
      end
  end.

Definition yaml_path (p : rstr) : bool :=
  let ext := default [] (extension p) in
  eq_ignore_ascii_case ext (str "yaml") || eq_ignore_ascii_case ext (str "yml").

(** ** The command line *)

Definition DEFAULT_DATA_DIR : rstr := str "/var/lib/naive-agent-node".

Record CliArgs : Type := {
  api : rstr;
  token : rstr;
  node : Z;
  cert_file : rstr;
  key_file : rstr;
  fetch_users_interval : Z;
  report_traffics_interval : Z;
  heartbeat_interval : Z;
  api_timeout : Z;
  log_mode : rstr;
  data_dir : rstr;
  acl_conf_file : option rstr;
  block_private_ip : bool;
  refresh_geodata : bool;
  panel_ip_version : IpVersion;
  conn_idle_timeout : Z;
  tcp_connect_timeout : Z;
  request_timeout : Z;
  tls_handshake_timeout : Z;
  buffer_size : Z;
  tcp_backlog : Z;
  tcp_nodelay : bool;
  uplink_only_timeout : Z;
  downlink_only_timeout : Z;
  max_connections : MaxConnections
}.

(** The defaults; [node] has none. *)
Definition CliArgs_default (node : Z) : CliArgs := {|
  api := str "http://127.0.0.1:8080";
  token := [];
  node := node;
  cert_file := str "/root/.cert/server.crt";
  key_file := str "/root/.cert/server.key";
  fetch_users_interval := from_secs 60;
  report_traffics_interval := from_secs 100;
  heartbeat_interval := from_secs 180;
  api_timeout := 15;
  log_mode := str "info";
  data_dir := DEFAULT_DATA_DIR;
  acl_conf_file := None;
  block_private_ip := true;
  refresh_geodata := false;
  panel_ip_version := IpV4;
  conn_idle_timeout := from_secs 60;
  tcp_connect_timeout := from_secs 5;
  request_timeout := from_secs 5;
  tls_handshake_timeout := from_secs 10;
  buffer_size := 32 * 1024;
  tcp_backlog := 1024;
  tcp_nodelay := true;
  uplink_only_timeout := from_secs 2;
  downlink_only_timeout := from_secs 5;
  max_connections := Auto
|}.

Definition VALID_LOG_MODES : list rstr :=
  [str "trace"; str "debug"; str "info"; str "warn"; str "error"].

(** [if c { return Err(m) }]. *)
Definition reject_if (c : bool) (m : rstr) : result unit rstr := if c then Err m else Ok tt.

Definition validate {fs : FileSystem} (cli : CliArgs) : result unit rstr :=
  let? _ := reject_if (is_empty (api cli)) (str "Panel API URL is required (--api)") in
  let? _ := reject_if (node cli =? 0) (str "Node ID must be a positive integer") in
  let? _ := reject_if (is_empty (cert_file cli))
              (str "TLS certificate file path is required (--cert_file)") in
  let? _ := reject_if (is_empty (key_file cli))
              (str "TLS private key file path is required (--key_file)") in
  let? _ := reject_if (negb (path_exists (cert_file cli)))
              (str "TLS certificate file not found: " ++ cert_file cli) in
  let? _ := reject_if (negb (path_exists (key_file cli)))
              (str "TLS private key file not found: " ++ key_file cli) in
  let? _ := reject_if (is_zero (fetch_users_interval cli))
              (str "fetch_users_interval must be greater than 0") in
  let? _ := reject_if (is_zero (report_traffics_interval cli))
              (str "report_traffics_interval must be greater than 0") in
  let? _ := reject_if (is_zero (heartbeat_interval cli))
              (str "heartbeat_interval must be greater than 0") in
  let? _ := reject_if (negb (one_of (to_lowercase (log_mode cli)) VALID_LOG_MODES))
              (str "Invalid log_mode '" ++ log_mode cli
               ++ str "'. Valid values: trace, debug, info, warn, error") in
  match acl_conf_file cli with
  | None => Ok tt
  | Some path =>
      let? _ := reject_if (negb (path_exists path)) (str "ACL config file not found: " ++ path) in
      reject_if (negb (yaml_path path))
        (str "Invalid ACL config file format: expected .yaml or .yml extension")
  end.

(** ** The node configuration *)

Inductive NaiveNetwork : Type := Tcp | Udp.

#[export] Instance NaiveNetwork_eq_dec : EqDecision NaiveNetwork.
Proof. solve_decision. Defined.

Definition NaiveNetwork_default : NaiveNetwork := Tcp.

Definition NaiveNetwork_fmt (n : NaiveNetwork) : rstr :=
  match n with Tcp => str "tcp" | Udp => str "udp" end.

Inductive CongestionControl : Type := Bbr | Cubic | NewReno.

#[export] Instance CongestionControl_eq_dec : EqDecision CongestionControl.
Proof. solve_decision. Defined.

Definition CongestionControl_default : CongestionControl := Bbr.

(** [deserialize], given the field's value: [null] or a string. *)
Definition CongestionControl_deserialize (raw : option rstr) : CongestionControl :=
  match raw with
  | None => Bbr
  | Some s =>
      let l := to_ascii_lowercase s in
      if one_of l [[]] then Bbr
      else if one_of l [str "bbr"; str "bbr2"; str "bbrv2"] then Bbr
      else if one_of l [str "cubic"] then Cubic
      else if one_of l [str "reno"; str "newreno"; str "new_reno"] then NewReno
      else Bbr
  end.

Record NaiveConfig : Type := {
  server_port : Z;
  network : NaiveNetwork;
  congestion_control : CongestionControl
}.

(** The fields of a document: the port, [network] and
    [server_quic_congestion_control] if present. *)
Class SerdeJson :=
  naive_fields : rstr -> result (Z * option NaiveNetwork * option (option rstr)) rstr.

(** [panel_core::NodeConfigEnum]: the case the server is for, and any other. *)
Inductive NodeConfigEnum : Type := NaiveNode (json : rstr) | OtherNode (discriminant : rstr).

Definition parse_naive_config {sj : SerdeJson} (config_enum : NodeConfigEnum) : result NaiveConfig rstr :=
  match config_enum with
  | NaiveNode json =>
      match naive_fields json with
      | Err e => Err (str "Failed to parse NaiveConfig: " ++ e)
      | Ok (port, network, cc) =>
          Ok {| server_port := port;
                network := default NaiveNetwork_default network;
                congestion_control :=
                  match cc with
                  | None => CongestionControl_default
                  | Some raw => CongestionControl_deserialize raw
                  end |}
      end
  | OtherNode d => Err (str "Expected Naive config, got " ++ d)
  end.

(** ** Run-time configuration *)

Record ConnConfig : Type := {
  cc_idle_timeout : Z;
  cc_uplink_only_timeout : Z;
  cc_downlink_only_timeout : Z;
  cc_connect_timeout : Z;
  cc_request_timeout : Z;
  cc_tls_handshake_timeout : Z;
  cc_buffer_size : Z;
  cc_tcp_backlog : Z;
  cc_tcp_nodelay : bool;
  cc_max_connections : Z
}.

Definition from_cli (cli : CliArgs) (max_connections : Z) : ConnConfig := {|
  cc_idle_timeout := conn_idle_timeout cli;
  cc_uplink_only_timeout := uplink_only_timeout cli;
  cc_downlink_only_timeout := downlink_only_timeout cli;
  cc_connect_timeout := tcp_connect_timeout cli;
  cc_request_timeout := request_timeout cli;
  cc_tls_handshake_timeout := tls_handshake_timeout cli;
  cc_buffer_size := buffer_size cli;
  cc_tcp_backlog := tcp_backlog cli;
  cc_tcp_nodelay := tcp_nodelay cli;
  cc_max_connections := max_connections
|}.

Definition idle_timeout_secs (c : ConnConfig) : Z := as_secs (cc_idle_timeout c).
Definition uplink_only_timeout_secs (c : ConnConfig) : Z := as_secs (cc_uplink_only_timeout c).
Definition downlink_only_timeout_secs (c : ConnConfig) : Z := as_secs (cc_downlink_only_timeout c).

Record ServerConfig : Type := {
  sc_port : Z;
  sc_cert : option rstr;
  sc_key : option rstr;
  sc_acl_conf_file : option rstr;
  sc_data_dir : rstr;
  sc_block_private_ip : bool;
  sc_congestion_control : CongestionControl
}.

Definition from_remote (remote : NaiveConfig) (cli : CliArgs) : result ServerConfig rstr :=
  Ok {| sc_port := server_port remote;
        sc_cert := Some (cert_file cli);
        sc_key := Some (key_file cli);
        sc_acl_conf_file := acl_conf_file cli;
        sc_data_dir := data_dir cli;
        sc_block_private_ip := block_private_ip cli;
        sc_congestion_control := congestion_control remote |}.

(** ** [src/logger.rs] *)

Inductive LogLevel : Type := Trace | Debug | Info | Warn | Error.

Definition LogLevel_default : LogLevel := Info.

Definition LogLevel_from_str (s : rstr) : option LogLevel :=
  let l := to_lowercase s in
  if one_of l [str "trace"] then Some Trace
  else if one_of l [str "debug"] then Some Debug
  else if one_of l [str "info"] then Some Info
  else if one_of l [str "warn"] then Some Warn
  else if one_of l [str "error"] then Some Error
  else None.

(** [tracing]'s filters, by verbosity. *)
Inductive LevelFilter : Type := ERROR | WARN | INFO | DEBUG | TRACE.

Definition to_level_filter (l : LogLevel) : LevelFilter :=
  match l with Trace => TRACE | Debug => DEBUG | Info => INFO | Warn => WARN | Error => ERROR end.

(** The filter [init_logger] installs: per target, and the default. *)
Definition init_logger (log_level_str : rstr) : list (rstr * LevelFilter) * LevelFilter :=
  let level := default LogLevel_default (LogLevel_from_str log_level_str) in
  ([(str "server_naive_rs", to_level_filter level); (str "server", to_level_filter level)], INFO).

(** ** Properties *)

Lemma reject_if_ok c m : reject_if c m = Ok tt <-> c = false.
Proof. by destruct c. Qed.

Lemma reject_if_bind {A} c m (k : result A rstr) x :
  (let? _ := reject_if c m in k) = Ok x <-> c = false /\ k = Ok x.
Proof. destruct c; simpl; split; [done|by intros []|done|by intros []]. Qed.

(** What [validate] asks for. *)
Record valid {fs : FileSystem} (cli : CliArgs) : Prop := {
  valid_api : api cli <> [];
  valid_node : node cli <> 0;
  valid_cert : cert_file cli <> [] /\ path_exists (cert_file cli) = true;
  valid_key : key_file cli <> [] /\ path_exists (key_file cli) = true;
  valid_intervals : fetch_users_interval cli <> 0 /\ report_traffics_interval cli <> 0
    /\ heartbeat_interval cli <> 0;
  valid_log_mode : LogLevel_from_str (log_mode cli) <> None;
  valid_acl : forall p, acl_conf_file cli = Some p -> path_exists p = true /\ yaml_path p = true
}.

Lemma log_mode_valid s :
  one_of (to_lowercase s) VALID_LOG_MODES = true <-> LogLevel_from_str s <> None.
Proof.
  unfold LogLevel_from_str, VALID_LOG_MODES, one_of. cbn [existsb].
  destruct (str_eqb _ (str "trace")), (str_eqb _ (str "debug")), (str_eqb _ (str "info")),
    (str_eqb _ (str "warn")), (str_eqb _ (str "error")); simpl; naive_solver.
Qed.

Lemma is_empty_false {A} (l : list A) : is_empty l = false <-> l <> [].
Proof. by destruct l. Qed.

(** The settings are accepted exactly if every required one is present, the
    files exist, the three intervals are positive, the log mode is one the
    logger knows and the rules, if any, are in a YAML file. *)
Theorem validate_ok {fs : FileSystem} cli : validate cli = Ok tt <-> valid cli.
Proof.
  unfold validate. rewrite !reject_if_bind, !is_empty_false, !negb_false_iff, log_mode_valid.
  unfold is_zero. rewrite !Z.eqb_neq.
  assert ((match acl_conf_file cli with
    | None => Ok tt
    | Some path =>
        let? _ := reject_if (negb (path_exists path)) (str "ACL config file not found: " ++ path) in
        reject_if (negb (yaml_path path))
          (str "Invalid ACL config file format: expected .yaml or .yml extension")
    end = Ok tt) <-> forall p, acl_conf_file cli = Some p -> path_exists p = true /\ yaml_path p = true)
    as ->.
  { destruct (acl_conf_file cli) as [p|]; [|naive_solver].
    rewrite reject_if_bind, reject_if_ok, !negb_false_iff.
    split; [by intros H q [= <-]|auto]. }
  split.
  - intros (? & ? & ? & ? & ? & ? & ? & ? & ? & ? & ?). by constructor.
  - intros [? ? [? ?] [? ?] (? & ? & ?) ? ?]. by split_and!.
Qed.

(** None of the performance settings is looked at: a buffer of no bytes and an
    idle timeout below a second, which the relay takes for zero, are accepted. *)
Definition with_performance (cli : CliArgs) (buffer idle : Z) : CliArgs := {|
  api := api cli; token := token cli; node := node cli; cert_file := cert_file cli;
  key_file := key_file cli; fetch_users_interval := fetch_users_interval cli;
  report_traffics_interval := report_traffics_interval cli;
  heartbeat_interval := heartbeat_interval cli; api_timeout := api_timeout cli;
  log_mode := log_mode cli; data_dir := data_dir cli; acl_conf_file := acl_conf_file cli;
  block_private_ip := block_private_ip cli; refresh_geodata := refresh_geodata cli;
  panel_ip_version := panel_ip_version cli; conn_idle_timeout := idle;
  tcp_connect_timeout := tcp_connect_timeout cli; request_timeout := request_timeout cli;
  tls_handshake_timeout := tls_handshake_timeout cli; buffer_size := buffer;
  tcp_backlog := tcp_backlog cli; tcp_nodelay := tcp_nodelay cli;
  uplink_only_timeout := uplink_only_timeout cli;
  downlink_only_timeout := downlink_only_timeout cli; max_connections := max_connections cli
|}.

Lemma validate_ignores_performance {fs : FileSystem} cli buffer idle :
  validate (with_performance cli buffer idle) = validate cli.
Proof. done. Qed.

Lemma idle_below_second cli buffer idle n :
  0 < idle < NANOS_PER_SEC ->
  idle_timeout_secs (from_cli (with_performance cli buffer idle) n) = 0.
Proof.
  intros [H0 H1]. apply Z.div_small. cbn [cc_idle_timeout from_cli with_performance conn_idle_timeout].
  lia.
Qed.

(** A number of seconds is that number of seconds again. *)
Lemma parse_duration_secs {ht : Humantime} n :
  humantime_parse_duration (show_dec n) = None -> is_u64 n ->
  exists d, parse_duration (show_dec n) = Ok d /\ as_secs d = n.
Proof.
  intros Hh Hn. unfold parse_duration, parse_u64. rewrite Hh.
  rewrite parse_uint_show; [|unfold is_u64 in Hn; lia|done]. eexists. split; [done|].
  unfold as_secs, from_secs. rewrite Z.div_mul; [done|]. unfold NANOS_PER_SEC. lia.
Qed.

(** ** Paths *)

Lemma split_slash_app s acc r :
  Forall (fun b => b <> 47) s -> split_slash (s ++ 47 :: r) acc = (rev acc ++ s) :: split_slash r [].
Proof.
  revert acc. induction s as [|b s IH]; intros acc Hs; simpl; [by rewrite app_nil_r|].
  apply Forall_cons in Hs as [Hb Hs]. rewrite (proj2 (Z.eqb_neq _ _) Hb), IH by done.
  simpl. by rewrite <- app_assoc.
Qed.

Lemma split_slash_last s acc :
  Forall (fun b => b <> 47) s -> split_slash s acc = [rev acc ++ s].
Proof.
  revert acc. induction s as [|b s IH]; intros acc Hs; simpl; [by rewrite app_nil_r|].
  apply Forall_cons in Hs as [Hb Hs]. rewrite (proj2 (Z.eqb_neq _ _) Hb), IH by done.
  simpl. by rewrite <- app_assoc.
Qed.

Lemma split_slash_name d acc n :
  Forall (fun b => b <> 47) n -> exists front, split_slash (d ++ 47 :: n) acc = front ++ [n].
Proof.
  intros Hn. revert acc. induction d as [|b d IH]; intros acc; simpl.
  - exists [rev acc]. by rewrite split_slash_last.
  - destruct (b =? 47); [|apply IH]. destruct (IH []) as [f ->]. by exists (rev acc :: f).
Qed.

(** A plain name in any directory: no separator, and not a special name. *)
Definition plain_name (n : rstr) : Prop :=
  Forall (fun b => b <> 47) n /\ n <> [] /\ n <> str "." /\ n <> str "..".

Lemma file_name_in d n : plain_name n -> file_name (d ++ 47 :: n) = Some n.
Proof.
  intros (Hs & H0 & H1 & H2). unfold file_name. destruct (split_slash_name d [] n Hs) as [f ->].
  rewrite filter_app.
  rewrite (filter_cons_True _ n []), filter_nil, last_snoc by done.
  unfold str_eqb. by rewrite bool_decide_eq_false_2.
Qed.

(** The rules file of any directory is accepted by the extension of its
    name, which is [yaml] or [yml] in any case. *)
Theorem yaml_path_spec d stem ext :
  stem <> [] -> ext <> [] -> Forall (fun b => b <> 47) (stem ++ ext) ->
  Forall (fun b => b <> 46) ext -> utf8_valid ext = true ->
  yaml_path (d ++ 47 :: stem ++ 46 :: ext)
  = eq_ignore_ascii_case ext (str "yaml") || eq_ignore_ascii_case ext (str "yml").
Proof.
  intros Hs0 He0 Hs Hd Hu. assert (3 <= length (stem ++ 46%Z :: ext))%nat as Hlen.
  { rewrite length_app. destruct stem, ext; simpl; [done..|lia]. }
  assert (plain_name (stem ++ 46 :: ext)) as Hname.
  { apply Forall_app in Hs as [Hs1 Hs2]. split_and!.
    - apply Forall_app. split; [done|]. by apply Forall_cons_2.
    - by destruct stem.
    - intros E. rewrite E in Hlen. simpl in Hlen. lia.
    - intros E. rewrite E in Hlen. simpl in Hlen. lia. }
  unfold yaml_path, extension. rewrite file_name_in, rfind_byte_app by done.
  destruct stem as [|b stem]; [done|]. cbn [length].
  assert (drop (S (S (length stem))) ((b :: stem) ++ 46 :: ext) = ext) as ->.
  { cbn [app drop]. rewrite drop_app_ge by lia.
    by replace (S (length stem) - length stem)%nat with 1%nat by lia. }
  unfold from_utf8. by rewrite Hu.
Qed.

(** ** Examples *)

Definition all_files : FileSystem := fun _ => true.

Example validate_default : validate (fs := all_files) (CliArgs_default 1) = Ok tt.
Proof. reflexivity. Qed.

Example validate_no_node :
  validate (fs := all_files) (CliArgs_default 0) = Err (str "Node ID must be a positive integer").
Proof. reflexivity. Qed.

Example yaml_hidden : yaml_path (str "/etc/.yaml") = false.
Proof. reflexivity. Qed.

Example yaml_dots : yaml_path (str "/etc/rules.d/..") = false /\ yaml_path (str "acl.YML/.") = true.
Proof. split; reflexivity. Qed.

Lemma yaml_path_spec_witness : yaml_path (str "/etc/acl.yaml") = true.
Proof.
  exact (yaml_path_spec (str "/etc") (str "acl") (str "yaml") ltac:(discriminate) ltac:(discriminate)
    ltac:(repeat constructor; discriminate) ltac:(repeat constructor; discriminate) eq_refl).
Defined.
