(* ===== verification/Padding.v ===== *)
(** * [src/transport/padding.rs]: the naive padding transport

    [Rng] is the thread-local xorshift generator and the [Padding] header;
    [Transport] is [NaivePaddedTransport<T>] with its [AsyncRead] and
    [AsyncWrite] implementations over any stream [T]; [Codec] is the reference
    encoding of the wire and the refinement of the transport to it. *)

From S2P Require Import Prelude RustStr AsyncIo.
Open Scope nat_scope.

Definition PADDING_FRAMES : nat := 8.
Definition MAX_PADDED_PAYLOAD : nat := Z.to_nat 65535.

(** ** The random generator *)

Module Rng.
Open Scope Z_scope.

Definition SEED : Z := 0x9e3779b97f4a7c15.

(** [s ^= s << 13; s ^= s >> 7; s ^= s << 17] on [u64]. *)
Definition xorshift (s : Z) : Z :=
  let s := Z.lxor s (u64_wrap (Z.shiftl s 13)) in
  let s := Z.lxor s (Z.shiftr s 7) in
  Z.lxor s (u64_wrap (Z.shiftl s 17)).

(** The seed of a cell that still holds zero; [nanos] is the clock's
    sub-second part. *)
Definition seed (nanos : Z) : Z :=
  let s := Z.lxor (Z.lxor nanos (u64_wrap (Z.shiftl nanos 17))) SEED in
  if s =? 0 then SEED else s.

Fixpoint fill (n : nat) (s : Z) : bytes * Z :=
  match n with
  | O => ([], s)
  | S n' =>
      let s := xorshift s in
      let '(bs, s') := fill n' s in
      (s mod 256 :: bs, s')
  end.

(** The bytes written into a buffer of length [n], and the cell afterwards. *)
Definition gen_random_bytes (nanos cell : Z) (n : nat) : bytes * Z :=
  let s := if cell =? 0 then seed nanos else cell in
  fill n s.

Definition random_u8 (nanos cell : Z) : Z * Z :=
  let '(b, cell) := gen_random_bytes nanos cell 1 in
  (hd 0 b, cell).

Definition CHARS : rstr := str "!#$()+<>?@[]^`{}".

Fixpoint push_chars (k : nat) (bits : Z) : rstr :=
  match k with
  | O => []
  | S k' => nth (Z.to_nat (Z.land bits 15)) CHARS 0 :: push_chars k' (Z.shiftr bits 4)
  end.

Fixpoint from_le_bytes (l : bytes) : Z :=
  match l with [] => 0 | b :: r => b + 256 * from_le_bytes r end.

Definition generate_padding_header (nanos cell : Z) : rstr * Z :=
  let '(b, cell) := random_u8 nanos cell in
  let len := Z.to_nat (b mod 32 + 30) in
  let '(bits_buf, cell) := gen_random_bytes nanos cell 8 in
  let bits := from_le_bytes bits_buf in
  (push_chars 16 bits ++ replicate (len - 16) 126, cell).

(** *** Lemmas *)

Lemma u64_lxor a b : is_u64 a -> is_u64 b -> is_u64 (Z.lxor a b).
Proof.
  unfold is_u64, u64_max. intros Ha Hb.
  assert (0 <= Z.lxor a b) as H0 by (apply Z.lxor_nonneg; lia).
  assert (forall x, 0 <= x <= 18446744073709551615 -> x = 0 \/ Z.log2 x < 64) as Hlog.
  { intros x Hx. destruct (decide (x = 0)) as [->|]; [by left|right].
    apply Z.log2_lt_pow2; [lia|]. change (2 ^ 64) with 18446744073709551616. lia. }
  destruct (decide (Z.lxor a b = 0)) as [->|Hn]; [lia|].
  assert (Z.log2 (Z.lxor a b) < 64) as Hl.
  { pose proof (Z.log2_lxor a b ltac:(lia) ltac:(lia)).
    destruct (Hlog a Ha) as [->|]; destruct (Hlog b Hb) as [->|]; simpl in *; try lia. }
  apply Z.log2_lt_pow2 in Hl; [|lia]. change (2 ^ 64) with 18446744073709551616 in Hl. lia.
Qed.

Lemma xorshift_range s : is_u64 s -> is_u64 (xorshift s).
Proof.
  intros Hs. unfold xorshift. apply u64_lxor; [|auto with naive]. apply u64_lxor.
  - apply u64_lxor; auto with naive.
  - assert (is_u64 (Z.lxor s (u64_wrap (Z.shiftl s 13)))) as H
      by (apply u64_lxor; auto with naive).
    revert H. generalize (Z.lxor s (u64_wrap (Z.shiftl s 13))). unfold is_u64, u64_max.
    intros z H. rewrite Z.shiftr_div_pow2 by lia. change (2 ^ 7) with 128.
    Z.div_mod_to_equations; lia.
Qed.

(** [s ^= s << k] sends no state but zero to zero. *)
Lemma xor_shl_nonzero s k :
  0 < k -> is_u64 s -> s <> 0 -> Z.lxor s (u64_wrap (Z.shiftl s k)) <> 0.
Proof.
  intros Hk Hs Hn H. apply Z.lxor_eq in H. rewrite Z.shiftl_mul_pow2 in H by lia.
  unfold u64_wrap in H.
  assert ((2 ^ 64 | (2 ^ k - 1) * s)) as Hdiv.
  { exists (s * 2 ^ k / 2 ^ 64). pose proof (Z.div_mod (s * 2 ^ k) (2 ^ 64) ltac:(lia)). lia. }
  apply Z.gauss in Hdiv.
  - destruct Hdiv as [q Hq]. unfold is_u64, u64_max in Hs.
    change (2 ^ 64) with 18446744073709551616 in Hq. nia.
  - apply Z.coprime_pow_l; [lia|]. apply Z.bezout_1_gcd.
    exists (2 ^ (k - 1)), (-1). rewrite (Z.mul_comm _ 2), <- Z.pow_succ_r by lia.
    replace (Z.succ (k - 1)) with k by lia. lia.
Qed.

Lemma xor_shr_nonzero s k : 0 < k -> is_u64 s -> s <> 0 -> Z.lxor s (Z.shiftr s k) <> 0.
Proof.
  intros Hk Hs Hn H. apply Z.lxor_eq in H. rewrite Z.shiftr_div_pow2 in H by lia.
  unfold is_u64 in Hs. pose proof (Z.div_lt s (2 ^ k) ltac:(lia)).
  assert (1 < 2 ^ k) by (apply Z.pow_gt_1; lia). lia.
Qed.

Lemma xorshift_nonzero s : is_u64 s -> s <> 0 -> xorshift s <> 0.
Proof.
  intros Hs Hn. unfold xorshift.
  assert (is_u64 (Z.lxor s (u64_wrap (Z.shiftl s 13)))) as R1 by (apply u64_lxor; auto with naive).
  pose proof (xor_shl_nonzero s 13 ltac:(lia) Hs Hn) as N1.
  revert R1 N1. generalize (Z.lxor s (u64_wrap (Z.shiftl s 13))). intros s1 R1 N1.
  assert (is_u64 (Z.lxor s1 (Z.shiftr s1 7))) as R2.
  { apply u64_lxor; [done|]. unfold is_u64, u64_max in *. rewrite Z.shiftr_div_pow2 by lia.
    change (2 ^ 7) with 128. Z.div_mod_to_equations; lia. }
  pose proof (xor_shr_nonzero s1 7 ltac:(lia) R1 N1) as N2.
  by apply xor_shl_nonzero.
Qed.

Lemma seed_range nanos : 0 <= nanos < 1000000000 -> is_u64 (seed nanos) /\ seed nanos <> 0.
Proof.
  intros Hn. unfold seed.
  assert (is_u64 nanos) by (unfold is_u64, u64_max; lia).
  assert (is_u64 SEED) by (unfold is_u64, u64_max, SEED; lia).
  assert (is_u64 (Z.lxor (Z.lxor nanos (u64_wrap (Z.shiftl nanos 17))) SEED))
    by (apply u64_lxor; [apply u64_lxor; auto with naive|done]).
  destruct (_ =? 0) eqn:E; bool_facts; split; try done.
Qed.

Lemma fill_spec n s :
  length (fill n s).1 = n /\ Forall is_u8 (fill n s).1
  /\ (is_u64 s -> s <> 0 -> is_u64 (fill n s).2 /\ (fill n s).2 <> 0).
Proof.
  revert s. induction n as [|n IH]; intros s; cbn [fill]; [by split_and!|].
  specialize (IH (xorshift s)). destruct (fill n (xorshift s)) as [bs s'] eqn:E.
  destruct IH as (Hl & Hu & Hs). cbn [fst snd] in *. split_and!.
  - simpl. lia.
  - apply Forall_cons_2; [|done]. unfold is_u8, u8_max. pose proof (Z.mod_pos_bound (xorshift s) 256). lia.
  - intros Hr Hn. apply Hs; [by apply xorshift_range|by apply xorshift_nonzero].
Qed.

Lemma gen_random_bytes_length nanos cell n : length (gen_random_bytes nanos cell n).1 = n.
Proof. apply fill_spec. Qed.

Lemma gen_random_bytes_u8 nanos cell n : Forall is_u8 (gen_random_bytes nanos cell n).1.
Proof. apply fill_spec. Qed.

Lemma random_u8_range nanos cell : is_u8 (random_u8 nanos cell).1.
Proof.
  unfold random_u8. pose proof (gen_random_bytes_u8 nanos cell 1) as H.
  pose proof (gen_random_bytes_length nanos cell 1) as Hl.
  destruct (gen_random_bytes nanos cell 1) as [[|b [|]] c]; simpl in *; try lia.
  by apply Forall_cons in H as [? _].
Qed.

(** A cell that was ever used holds a non-zero 64-bit state from then on, so
    that the generator neither reseeds nor gets stuck. *)
Lemma gen_random_bytes_cell nanos cell n :
  0 <= nanos < 1000000000 -> is_u64 cell ->
  is_u64 (gen_random_bytes nanos cell n).2 /\ (gen_random_bytes nanos cell n).2 <> 0.
Proof.
  intros Hn Hc. unfold gen_random_bytes. apply fill_spec.
  - destruct (cell =? 0); [by apply seed_range|done].
  - destruct (cell =? 0) eqn:E; bool_facts; [by apply seed_range|done].
Qed.

Lemma push_chars_spec k bits :
  length (push_chars k bits) = k /\ Forall (fun c => In c CHARS) (push_chars k bits).
Proof.
  revert bits. induction k as [|k IH]; intros bits; cbn [push_chars]; [by split|].
  destruct (IH (Z.shiftr bits 4)) as [Hl Hc]. split; [simpl; lia|].
  constructor; [|done]. apply nth_In.
  change 15 with (Z.ones 4). rewrite Z.land_ones by lia.
  pose proof (Z.mod_pos_bound bits (2 ^ 4) eq_refl) as H. change (2 ^ 4) with 16 in H.
  replace (length CHARS) with 16%nat by reflexivity. change (2 ^ 4) with 16. lia.
Qed.

Lemma generate_padding_header_spec nanos cell :
  let s := (generate_padding_header nanos cell).1 in
  (30 <= length s <= 61)%nat /\ Forall (fun c => In c CHARS) (take 16 s)
  /\ drop 16 s = replicate (length s - 16) 126.
Proof.
  unfold generate_padding_header. destruct (random_u8 nanos cell) as [b c1].
  destruct (gen_random_bytes nanos c1 8) as [bits_buf c2]. cbn [fst].
  destruct (push_chars_spec 16 (from_le_bytes bits_buf)) as [Hl Hc].
  pose proof (Z.mod_pos_bound b 32 eq_refl) as Hb.
  rewrite length_app, length_replicate, Hl. split_and!; [lia|lia| |].
  - by rewrite take_app_le, take_ge by lia.
  - rewrite drop_app_ge, Hl by lia. rewrite Nat.sub_diag, drop_0. f_equal. lia.
Qed.
End Rng.

(** ** The transport *)

Record NaivePaddedTransport (T : Type) : Type := mkNPT {
  inner : T;
  read_frames_done : nat;
  read_hdr : bytes;
  read_hdr_pos : nat;
  read_data_rem : nat;
  read_skip_rem : nat;
  read_pending_skip : nat;
  write_frames_done : nat;
  write_pending : option bytes;
  write_pending_off : nat
}.
Arguments mkNPT {T}.
Arguments inner {T}.
Arguments read_frames_done {T}.
Arguments read_hdr {T}.
Arguments read_hdr_pos {T}.
Arguments read_data_rem {T}.
Arguments read_skip_rem {T}.
Arguments read_pending_skip {T}.
Arguments write_frames_done {T}.
Arguments write_pending {T}.
Arguments write_pending_off {T}.

Definition npt_new {T} (i : T) : NaivePaddedTransport T := {|
  inner := i;
  read_frames_done := 0;
  read_hdr := [0; 0; 0]%Z;
  read_hdr_pos := 0;
  read_data_rem := 0;
  read_skip_rem := 0;
  read_pending_skip := 0;
  write_frames_done := 0;
  write_pending := None;
  write_pending_off := 0
|}.

Section Setters.
Context {T : Type} (st : NaivePaddedTransport T).

Definition set_inner (i : T) : NaivePaddedTransport T :=
  mkNPT i (read_frames_done st) (read_hdr st) (read_hdr_pos st) (read_data_rem st)
    (read_skip_rem st) (read_pending_skip st) (write_frames_done st) (write_pending st)
    (write_pending_off st).

(** Assign the fields of the read state. *)
Definition set_read (frames : nat) (hdr : bytes) (pos data skip pskip : nat)
    : NaivePaddedTransport T :=
  mkNPT (inner st) frames hdr pos data skip pskip (write_frames_done st) (write_pending st)
    (write_pending_off st).

(** Assign the fields of the write state. *)
Definition set_write (frames : nat) (pending : option bytes) (off : nat)
    : NaivePaddedTransport T :=
  mkNPT (inner st) (read_frames_done st) (read_hdr st) (read_hdr_pos st) (read_data_rem st)
    (read_skip_rem st) (read_pending_skip st) frames pending off.

Definition set_hdr (hdr : bytes) (pos : nat) : NaivePaddedTransport T :=
  set_read (read_frames_done st) hdr pos (read_data_rem st) (read_skip_rem st)
    (read_pending_skip st).

Definition set_pending (pending : option bytes) (off : nat) : NaivePaddedTransport T :=
  set_write (write_frames_done st) pending off.
End Setters.

Section Read.
Context {T : Type} `{!AsyncRead T}.
Abbreviation NPT := (NaivePaddedTransport T).

(** Phase 1: deliver data bytes of the current frame; [remaining] is the free
    space of the caller's buffer. *)
Definition read_phase1 (remaining : nat) (st : NPT) : poll (io_result bytes) * NPT :=
  if remaining =? 0 then (Ready (Ok []), st)
  else
    let '(p, i) :=
      if read_data_rem st <? remaining
      then poll_read (read_data_rem st) (inner st)
      else poll_read remaining (inner st) in
    let st := set_inner st i in
    match p with
    | Pending => (Pending, st)
    | Ready (Err e) => (Ready (Err e), st)
    | Ready (Ok bs) =>
        let n := length bs in
        if n =? 0 then (Ready (Ok []), st)
        else
          let data := read_data_rem st - n in
          let '(skip, pskip) :=
            if data =? 0 then (read_pending_skip st, 0)
            else (read_skip_rem st, read_pending_skip st) in
          (Ready (Ok bs),
           set_read st (read_frames_done st) (read_hdr st) (read_hdr_pos st) data skip pskip)
    end.

(** Phase 2: discard padding.  [inr] continues the loop, [inl] returns. *)
Definition read_phase2 (st : NPT) : (poll (io_result bytes) * NPT) + NPT :=
  let to_skip := read_skip_rem st `min` 256 in
  let '(p, i) := poll_read to_skip (inner st) in
  let st := set_inner st i in
  match p with
  | Pending => inl (Pending, st)
  | Ready (Err e) => inl (Ready (Err e), st)
  | Ready (Ok bs) =>
      if length bs =? 0 then inl (Ready (Ok []), st)
      else
        inr (set_read st (read_frames_done st) (read_hdr st) (read_hdr_pos st)
               (read_data_rem st) (read_skip_rem st - length bs) (read_pending_skip st))
  end.

(** Phase 4: [while this.read_hdr_pos < 3].  Each turn fills at least one of
    the three bytes, so three turns are enough. *)
Fixpoint read_header (fuel : nat) (st : NPT) : (poll (io_result bytes) * NPT) + NPT :=
  if read_hdr_pos st <? 3 then
    match fuel with
    | O => inl (Pending, st)
    | S fuel =>
        let '(p, i) := poll_read (3 - read_hdr_pos st) (inner st) in
        let st := set_inner st i in
        match p with
        | Pending => inl (Pending, st)
        | Ready (Err e) => inl (Ready (Err e), st)
        | Ready (Ok bs) =>
            if length bs =? 0 then inl (Ready (Ok []), st)
            else
              read_header fuel
                (set_hdr st (splice (read_hdr_pos st) bs (read_hdr st))
                   (read_hdr_pos st + length bs))
        end
    end
  else inr st.

(** [u16::from_be_bytes([h[0], h[1]])] and [h[2]], as [usize]. *)
Definition hdr_data_size (h : bytes) : nat := Z.to_nat (nth 0 h 0%Z * 256 + nth 1 h 0%Z).
Definition hdr_padding_size (h : bytes) : nat := Z.to_nat (nth 2 h 0%Z).

Definition parse_header (st : NPT) : NPT :=
  let data_size := hdr_data_size (read_hdr st) in
  let padding_size := hdr_padding_size (read_hdr st) in
  let frames := read_frames_done st + 1 in
  if data_size =? 0
  then set_read st frames (read_hdr st) 0 0 padding_size 0
  else set_read st frames (read_hdr st) 0 data_size (read_skip_rem st) padding_size.

Fixpoint poll_read_loop (fuel remaining : nat) (st : NPT)
    : option (poll (io_result bytes) * NPT) :=
  match fuel with
  | O => None
  | S fuel =>
      if 0 <? read_data_rem st then Some (read_phase1 remaining st)
      else if 0 <? read_skip_rem st then
        match read_phase2 st with
        | inl r => Some r
        | inr st => poll_read_loop fuel remaining st
        end
      else if PADDING_FRAMES <=? read_frames_done st then
        let '(p, i) := poll_read remaining (inner st) in Some (p, set_inner st i)
      else
        match read_header 3 st with
        | inl r => Some r
        | inr st => poll_read_loop fuel remaining (parse_header st)
        end
  end.

(** Every turn of the loop that does not return uses up a padding byte of the
    current frame or one of the frames left, which has at most 255 of them. *)
Definition read_measure (st : NPT) : nat :=
  read_skip_rem st + 256 * (PADDING_FRAMES - read_frames_done st).

Definition npt_poll_read (remaining : nat) (st : NPT) : poll (io_result bytes) * NPT :=
  match poll_read_loop (S (read_measure st)) remaining st with
  | Some r => r
  | None => (Pending, st)
  end.

End Read.

Section Write.
Context {T : Type} `{!AsyncWrite T}.
Abbreviation NPT := (NaivePaddedTransport T).

Definition write_zero (msg : string) : io_error := mk_io_error WriteZero (str msg).

(** [write_pending_off = off], and the frame is dropped once all of it went. *)
Definition advance_pending (pending : bytes) (off : nat) (st : NPT) : NPT :=
  if length pending <=? off then set_pending st None 0
  else set_pending st (Some pending) off.

(** [while this.write_pending.is_some()], in [poll_write] and [poll_flush];
    [Ready (Ok tt)] leaves the loop.  Every turn writes at least one of the
    bytes left. *)
Fixpoint drain_pending (fuel : nat) (msg : string) (st : NPT)
    : poll (io_result unit) * NPT :=
  match write_pending st with
  | None => (Ready (Ok tt), st)
  | Some pending =>
      match fuel with
      | O => (Pending, st)
      | S fuel =>
          let remaining := drop (write_pending_off st) pending in
          let '(p, i) := poll_write remaining (inner st) in
          let st := set_inner st i in
          match p with
          | Pending => (Pending, st)
          | Ready (Err e) => (Ready (Err e), st)
          | Ready (Ok 0) => (Ready (Err (write_zero msg)), st)
          | Ready (Ok n) =>
              drain_pending fuel msg (advance_pending pending (write_pending_off st + n) st)
          end
      end
  end.

Definition pending_left (st : NPT) : nat :=
  match write_pending st with
  | None => 0
  | Some p => length p - write_pending_off st
  end.

(** [put_u16(data.len() as u16); put_u8(pad.len() as u8); put_slice(data)] and
    the padding after it. *)
Definition build_frame (data pad : bytes) : bytes :=
  let d := (Z.of_nat (length data) mod 65536)%Z in
  [d / 256; d mod 256; Z.of_nat (length pad) mod 256]%Z ++ data ++ pad.

(** Build the padded frame of [buf], keep it in [write_pending] and try to
    flush it at once.  The generator's cell of the polling thread is passed
    through; [nanos] is the clock reading that seeds a fresh cell. *)
Definition write_padded_frame (nanos cell : Z) (buf : bytes) (st : NPT)
    : poll (io_result nat) * NPT * Z :=
  let data_len := length buf `min` MAX_PADDED_PAYLOAD in
  let '(pad_size, cell) := Rng.random_u8 nanos cell in
  let '(pad, cell) := Rng.gen_random_bytes nanos cell (Z.to_nat pad_size) in
  let frame := build_frame (take data_len buf) pad in
  let st := set_write st (write_frames_done st + 1) (Some frame) 0 in
  let '(p, i) := poll_write frame (inner st) in
  let st := set_inner st i in
  match p with
  | Ready (Ok n) =>
      if 0 <? n then (Ready (Ok data_len), advance_pending frame n st, cell)
      else (Ready (Ok data_len), st, cell)
  | Ready (Err e) => (Ready (Err e), st, cell)
  | Pending => (Ready (Ok data_len), st, cell)
  end.

Definition npt_poll_write (nanos cell : Z) (buf : bytes) (st : NPT)
    : poll (io_result nat) * NPT * Z :=
  match drain_pending (pending_left st) "transport write returned zero" st with
  | (Pending, st) => (Pending, st, cell)
  | (Ready (Err e), st) => (Ready (Err e), st, cell)
  | (Ready (Ok _), st) =>
      if PADDING_FRAMES <=? write_frames_done st then
        let '(p, i) := poll_write buf (inner st) in (p, set_inner st i, cell)
      else write_padded_frame nanos cell buf st
  end.

Definition npt_poll_flush (st : NPT) : poll (io_result unit) * NPT :=
  match drain_pending (pending_left st) "transport write returned zero during flush" st with
  | (Ready (Ok _), st) => let '(p, i) := poll_flush (inner st) in (p, set_inner st i)
  | r => r
  end.

Definition npt_poll_shutdown (st : NPT) : poll (io_result unit) * NPT :=
  match npt_poll_flush st with
  | (Ready (Ok _), st) => let '(p, i) := poll_shutdown (inner st) in (p, set_inner st i)
  | r => r
  end.

End Write.

(** ** The wire format *)

(** The payload carried by the wire bytes [w] when [k] frames are still to
    come; after the last frame the bytes are raw. *)
Fixpoint strip (k : nat) (w : bytes) : bytes :=
  match k with
  | O => w
  | S k' =>
      match w with
      | h0 :: h1 :: h2 :: r =>
          let d := Z.to_nat (h0 * 256 + h1) in
          take d r ++ strip k' (drop (d + Z.to_nat h2) r)
      | _ => []
      end
  end.

Lemma strip_nil k : strip k [] = [].
Proof. by destruct k. Qed.

Lemma strip_frame k data pad w :
  length data <= MAX_PADDED_PAYLOAD -> length pad <= 255 ->
  strip (S k) (build_frame data pad ++ w) = data ++ strip k w.
Proof.
  unfold build_frame, MAX_PADDED_PAYLOAD. intros Hd Hp.
  rewrite (Z.mod_small _ 65536), (Z.mod_small (Z.of_nat (length pad))) by lia.
  rewrite <- app_assoc. simpl.
  replace (Z.to_nat _) with (length data).
  2:{ pose proof (Z.div_mod (Z.of_nat (length data)) 256 ltac:(lia)). lia. }
  rewrite Nat2Z.id, <- app_assoc, take_app_length. f_equal.
  rewrite <- drop_drop, drop_app_length, drop_app_length. done.
Qed.

Lemma build_frame_length data pad :
  length (build_frame data pad) = 3 + length data + length pad.
Proof. unfold build_frame. simpl. rewrite length_app. lia. Qed.

Lemma build_frame_u8 data pad :
  Forall is_u8 data -> Forall is_u8 pad -> Forall is_u8 (build_frame data pad).
Proof.
  intros. unfold build_frame. simpl.
  pose proof (Z.mod_pos_bound (Z.of_nat (length data)) 65536 eq_refl).
  repeat apply Forall_cons_2; [| | |by apply Forall_app]; unfold is_u8, u8_max;
    Z.div_mod_to_equations; lia.
Qed.

(** Cutting the wire anywhere cuts the payload. *)
Lemma strip_prefix k w x : exists y, strip k (w ++ x) = strip k w ++ y.
Proof.
  revert w. induction k as [|k IH]; intros w; simpl; [by eexists|].
  destruct w as [|h0 [|h1 [|h2 w]]]; simpl; [by eexists..|].
  set (d := Z.to_nat (h0 * 256 + h1)). set (p := Z.to_nat h2).
  rewrite take_app, drop_app.
  destruct (decide (d + p <= length w)) as [Hle|Hgt].
  - replace (d - length w) with 0 by lia. replace (d + p - length w) with 0 by lia.
    rewrite take_0, app_nil_r, drop_0. destruct (IH (drop (d + p) w)) as [y ->].
    exists y. by rewrite app_assoc.
  - rewrite (drop_ge w) by lia. rewrite strip_nil, app_nil_r, <- app_assoc. by eexists.
Qed.

(** The wire of the frames [fs], each its data and its padding. *)
Definition frames_wire (fs : list (bytes * bytes)) : bytes :=
  concat (map (fun f => build_frame f.1 f.2) fs).

Definition frame_ok (f : bytes * bytes) : Prop :=
  length f.1 <= MAX_PADDED_PAYLOAD /\ length f.2 <= 255.

Lemma frames_wire_snoc fs f : frames_wire (fs ++ [f]) = frames_wire fs ++ build_frame f.1 f.2.
Proof. unfold frames_wire. rewrite map_app, concat_app. simpl. by rewrite app_nil_r. Qed.

Lemma strip_frames k fs w :
  Forall frame_ok fs -> length fs <= k ->
  strip k (frames_wire fs ++ w) = concat (map fst fs) ++ strip (k - length fs) w.
Proof.
  intros Hfs. revert k. induction Hfs as [|[d q] fs [Hd Hq] Hfs IH]; intros k Hk.
  - by rewrite Nat.sub_0_r.
  - destruct k as [|k]; simpl in Hk; [lia|].
    change (frames_wire ((d, q) :: fs)) with (build_frame d q ++ frames_wire fs).
    rewrite <- app_assoc, strip_frame, IH by (done || lia). simpl. by rewrite app_assoc.
Qed.

(** ** The reader refines [strip] *)

Section ReadSpec.
Context {T : Type} `{!AsyncRead T, !ReadSpec T}.
Abbreviation NPT := (NaivePaddedTransport T).
Implicit Types st : NPT.

(** What the transport will deliver if the wire goes on with [w]. *)
Definition payload (st : NPT) (w : bytes) : bytes :=
  take (read_data_rem st) w
  ++ strip (PADDING_FRAMES - read_frames_done st)
       (take (read_hdr_pos st) (read_hdr st)
        ++ drop (read_data_rem st + read_pending_skip st + read_skip_rem st) w).

(** The well-formed read states. *)
Record read_wf (st : NPT) : Prop := {
  wf_frames : read_frames_done st <= PADDING_FRAMES;
  wf_hdr : length (read_hdr st) = 3 /\ Forall is_u8 (read_hdr st);
  wf_pos : read_hdr_pos st <= 3;
  wf_data : 0 < read_data_rem st -> read_skip_rem st = 0 /\ read_hdr_pos st = 0;
  wf_nodata : read_data_rem st = 0 -> read_pending_skip st = 0;
  wf_skip : 0 < read_skip_rem st -> read_hdr_pos st = 0;
  wf_raw : read_frames_done st = PADDING_FRAMES -> read_hdr_pos st = 0;
  wf_skip_le : read_skip_rem st <= 255;
  wf_pskip_le : read_pending_skip st <= 255
}.

(** An unfinished header carries nothing. *)
Lemma payload_nil st : read_wf st -> payload st [] = [].
Proof.
  intros []. unfold payload. rewrite take_nil, drop_nil, app_nil_r. simpl.
  destruct (PADDING_FRAMES - read_frames_done st) as [|k] eqn:Ek; cbn [strip].
  - rewrite wf_raw0 by lia. done.
  - destruct wf_hdr0 as [Hl _]. destruct (read_hdr st) as [|h0 [|h1 [|h2 [|]]]]; simpl in Hl; try lia.
    destruct (read_hdr_pos st) as [|[|[|[|]]]]; simpl;
      [done..| |lia].
    by rewrite take_nil, drop_nil, strip_nil.
Qed.

(** One poll, or one turn of its loop: consumed [c] from the stream below,
    delivered [out], write state untouched. *)
Definition reads_to (st st' : NPT) (c out : bytes) : Prop :=
  read_wf st' /\ rd_ok (inner st')
  /\ rd_log (inner st') = rd_log (inner st) ++ c
  /\ (forall w, payload st (c ++ w) = out ++ payload st' w).

Lemma reads_to_trans st1 st2 st3 c1 c2 out :
  reads_to st1 st2 c1 [] -> reads_to st2 st3 c2 out -> reads_to st1 st3 (c1 ++ c2) out.
Proof.
  intros (_ & _ & L1 & P1) (W2 & O2 & L2 & P2). split_and!; [done|done| |].
  - by rewrite L2, L1, app_assoc.
  - intros w. by rewrite <- app_assoc, P1, P2.
Qed.

Lemma reads_to_refl st : read_wf st -> rd_ok (inner st) -> reads_to st st [] [].
Proof. intros. split_and!; [done|done|by rewrite app_nil_r|done]. Qed.

Lemma set_inner_wf st i : read_wf st -> read_wf (set_inner st i).
Proof. by intros []. Qed.

Lemma reads_to_idle st n p i :
  read_wf st -> rd_ok (inner st) -> poll_read n (inner st) = (p, i) -> read_of p = [] ->
  reads_to st (set_inner st i) [] [].
Proof.
  intros W Hok Hp Hr. apply (rd_spec _ _ _ _ Hok) in Hp as (Hok' & _ & _ & HL).
  split_and!; [by apply set_inner_wf|done| |done].
  change (rd_log i = rd_log (inner st) ++ []). by rewrite HL, Hr.
Qed.

(** Phase 1 delivers what it consumes. *)
Lemma read_phase1_spec remaining st p st' :
  read_wf st -> rd_ok (inner st) -> 0 < read_data_rem st ->
  read_phase1 remaining st = (p, st') ->
  reads_to st st' (read_of p) (read_of p) /\ length (read_of p) <= remaining
  /\ Forall is_u8 (read_of p).
Proof.
  intros W Hok Hd. unfold read_phase1.
  destruct (remaining =? 0) eqn:E0; bool_facts.
  { intros [= <- <-]. simpl. split_and!; [by apply reads_to_refl|lia|done]. }
  set (m := if read_data_rem st <? remaining then read_data_rem st else remaining).
  replace (if read_data_rem st <? remaining then poll_read (read_data_rem st) (inner st)
           else poll_read remaining (inner st)) with (poll_read m (inner st))
    by by unfold m; destruct (_ <? _).
  assert (m <= remaining /\ m <= read_data_rem st) as [Hm1 Hm2].
  { unfold m. destruct (read_data_rem st <? remaining) eqn:?; bool_facts; lia. }
  destruct (poll_read m (inner st)) as [q i] eqn:Eq. intros Hres.
  pose proof (rd_spec _ _ _ _ Hok Eq) as (Hok' & Hlen & Hu8 & HL).
  destruct q as [|[bs|e]]; simpl in *.
  1,3: injection Hres as <- <-; simpl; split_and!; [|lia|done];
    by eapply reads_to_idle.
  destruct (length bs =? 0) eqn:En; bool_facts.
  { injection Hres as <- <-. simpl. apply length_zero_nil in En as ->.
    split_and!; [by eapply reads_to_idle|simpl; lia|done]. }
  assert (forall w, payload st (bs ++ w) = bs ++ payload
    (set_read st (read_frames_done st) (read_hdr st) (read_hdr_pos st)
       (read_data_rem st - length bs) (read_skip_rem st) (read_pending_skip st)) w) as HP.
  { intros w. unfold payload. simpl.
    rewrite take_app_ge, <- app_assoc by lia. f_equal. f_equal. f_equal. f_equal.
    rewrite drop_app_ge by lia. f_equal. lia. }
  destruct (read_data_rem st - length bs =? 0) eqn:Er; injection Hres as <- <-; simpl;
    bool_facts; (split_and!; [|lia|done]); split_and!; simpl; try done.
  - destruct W. split; simpl; try done; try lia; tauto.
  - intros w. rewrite HP. f_equal. unfold payload. simpl. rewrite Er.
    destruct (wf_data st W Hd) as [-> _]. by rewrite Nat.add_0_r.
  - destruct W. split; simpl; try done; try lia; intros; apply wf_data0; lia.
Qed.

(** Phase 2 delivers nothing: it returns, or consumes padding. *)
Lemma read_phase2_spec st :
  read_wf st -> rd_ok (inner st) -> read_data_rem st = 0 -> 0 < read_skip_rem st ->
  match read_phase2 st with
  | inl (p, st') => reads_to st st' [] [] /\ read_of p = []
  | inr st' => (exists c, reads_to st st' c []) /\ read_measure st' < read_measure st
  end.
Proof.
  intros W Hok Hd Hs. unfold read_phase2.
  destruct (poll_read _ (inner st)) as [q i] eqn:Eq.
  pose proof (rd_spec _ _ _ _ Hok Eq) as (Hok' & Hlen & Hu8 & HL).
  destruct q as [|[bs|e]]; simpl in *; [by split; [eapply reads_to_idle|]| |
    by split; [eapply reads_to_idle|]].
  destruct (length bs =? 0) eqn:En; bool_facts.
  { apply length_zero_nil in En as ->. by split; [eapply reads_to_idle|]. }
  split; [|unfold read_measure; simpl; lia].
  exists bs. destruct W as []. split_and!; simpl; [|done|done|].
  - split; simpl; try done; try lia; intros; apply wf_skip0; lia.
  - intros w. unfold payload. simpl. rewrite Hd, (wf_nodata0 Hd). simpl.
    rewrite (wf_skip0 Hs), drop_app_ge by lia. done.
Qed.

(** The header bytes that arrive are those the payload starts with. *)
Lemma read_header_spec fuel st :
  read_wf st -> rd_ok (inner st) -> read_data_rem st = 0 -> read_skip_rem st = 0 ->
  read_frames_done st < PADDING_FRAMES -> 3 - read_hdr_pos st <= fuel ->
  match read_header fuel st with
  | inl (p, st') => (exists c, reads_to st st' c []) /\ read_of p = []
  | inr st' =>
      (exists c, reads_to st st' c []) /\ read_hdr_pos st' = 3
      /\ read_data_rem st' = 0 /\ read_skip_rem st' = 0
      /\ read_frames_done st' = read_frames_done st
  end.
Proof.
  revert st. induction fuel as [|fuel IH]; intros st W Hok Hd Hs Hf Hfuel; simpl;
    destruct (read_hdr_pos st <? 3) eqn:Ep; bool_facts;
    [lia| | |]; try by (pose proof (wf_pos st W); split_and!; [|lia|done|done|done];
      exists []; by apply reads_to_refl).
  destruct (poll_read _ (inner st)) as [q i] eqn:Eq.
  pose proof (rd_spec _ _ _ _ Hok Eq) as (Hok' & Hlen & Hu8 & HL).
  destruct q as [|[bs|e]]; simpl in *; [by split; [eexists; eapply reads_to_idle|]| |
    by split; [eexists; eapply reads_to_idle|]].
  destruct (length bs =? 0) eqn:En; bool_facts.
  { apply length_zero_nil in En as ->. by split; [eexists; eapply reads_to_idle|]. }
  set (st1 := set_hdr (set_inner st i) _ _).
  assert (reads_to st st1 bs []) as H1.
  { destruct W as []. destruct wf_hdr0 as [Hh1 Hh2]. split_and!; simpl; [|done|done|].
    - split; simpl; try done; try lia. split; [rewrite splice_length; lia|].
      by apply Forall_splice.
    - intros w. unfold payload. simpl. rewrite Hd, Hs, (wf_nodata0 Hd). simpl.
      rewrite take_splice by lia. by rewrite <- app_assoc. }
  specialize (IH st1). destruct H1 as (W1 & Ok1 & L1 & P1).
  specialize (IH W1 Ok1 Hd Hs Hf ltac:(simpl; lia)).
  destruct (read_header fuel st1) as [[p st']|st'].
  - destruct IH as [[c Hc] Hp]. split; [|done]. exists (bs ++ c).
    by eapply reads_to_trans.
  - destruct IH as ([c Hc] & Hp). split; [|done]. exists (bs ++ c).
    by eapply reads_to_trans.
Qed.

Lemma parse_header_spec st :
  read_wf st -> rd_ok (inner st) -> read_data_rem st = 0 -> read_skip_rem st = 0 ->
  read_frames_done st < PADDING_FRAMES -> read_hdr_pos st = 3 ->
  reads_to st (parse_header st) [] [] /\ read_measure (parse_header st) < read_measure st.
Proof.
  intros W Hok Hd Hs Hf Hp. destruct W as []. destruct wf_hdr0 as [Hh1 Hh2].
  destruct (read_hdr st) as [|h0 [|h1 [|h2 [|]]]] eqn:Eh; simpl in Hh1; try lia.
  pose proof Hh2 as Hhdr. apply Forall_cons in Hh2 as [U0 Hh2]. apply Forall_cons in Hh2 as [U1 Hh2].
  apply Forall_cons in Hh2 as [U2 _]. unfold is_u8, u8_max in *.
  assert (hdr_padding_size [h0; h1; h2] <= 255) as Hpad by (unfold hdr_padding_size; simpl; lia).
  assert (forall w, payload st w =
    take (hdr_data_size [h0; h1; h2]) w
    ++ strip (PADDING_FRAMES - (read_frames_done st + 1))
         (drop (hdr_data_size [h0; h1; h2] + hdr_padding_size [h0; h1; h2]) w)) as HP.
  { intros w. unfold payload. rewrite Hd, Hs, (wf_nodata0 Hd), Hp, Eh. simpl take. simpl drop.
    replace (PADDING_FRAMES - read_frames_done st)
      with (S (PADDING_FRAMES - (read_frames_done st + 1))) by lia.
    by rewrite drop_0. }
  unfold parse_header. rewrite Eh. destruct (hdr_data_size _ =? 0) eqn:E0; bool_facts.
  - split; [|unfold read_measure; simpl; lia].
    split_and!; simpl; [by split; simpl; try done; lia | done | by rewrite app_nil_r |].
    intros w. rewrite HP, E0. unfold payload. by simpl.
  - split; [|unfold read_measure; simpl; lia].
    split_and!; simpl; [by split; simpl; try done; lia | done | by rewrite app_nil_r |].
    intros w. rewrite HP. unfold payload. simpl. by rewrite Hs, Nat.add_0_r.
Qed.

(** With fuel for every padding byte and frame left the loop returns, and
    what it delivers is what the wire bytes it consumed carry. *)
Lemma poll_read_loop_spec fuel remaining st :
  read_measure st < fuel -> read_wf st -> rd_ok (inner st) ->
  exists p st' c, poll_read_loop fuel remaining st = Some (p, st')
    /\ reads_to st st' c (read_of p) /\ length (read_of p) <= remaining
    /\ Forall is_u8 (read_of p).
Proof.
  revert st. induction fuel as [|fuel IH]; intros st Hm W Hok; [lia|].
  cbn [poll_read_loop].
  assert (forall st1 c1, reads_to st st1 c1 [] -> read_measure st1 < read_measure st ->
    exists p st' c, poll_read_loop fuel remaining st1 = Some (p, st')
    /\ reads_to st st' c (read_of p) /\ length (read_of p) <= remaining
    /\ Forall is_u8 (read_of p)) as HIH.
  { intros st1 c1 H1 Hm1. destruct (IH st1) as (p & st' & c & E & R & H);
      [lia|apply H1|apply H1|]. exists p, st', (c1 ++ c). split; [done|]. split; [|done].
    by eapply reads_to_trans. }
  clear IH. destruct (0 <? read_data_rem st) eqn:Ed; bool_facts.
  { destruct (read_phase1 remaining st) as [p st'] eqn:E1.
    eapply read_phase1_spec in E1; [|done..]. by eexists _, _, _. }
  assert (read_data_rem st = 0) as Hd by lia.
  destruct (0 <? read_skip_rem st) eqn:Es; bool_facts.
  { pose proof (read_phase2_spec st W Hok Hd Es) as H2.
    destruct (read_phase2 st) as [[p st']|st']; destruct H2 as [H2 H2'].
    - eexists _, _, _. rewrite H2'. split_and!; [done|done|simpl; lia|done].
    - destruct H2 as [c H2]. by eapply HIH. }
  assert (read_skip_rem st = 0) as Hs by lia.
  destruct (PADDING_FRAMES <=? read_frames_done st) eqn:Ef; bool_facts.
  { destruct (poll_read remaining (inner st)) as [p i] eqn:Er.
    pose proof (rd_spec _ _ _ _ Hok Er) as (Hok' & Hlen & Hu8 & HL).
    exists p, (set_inner st i), (read_of p). split_and!; try done.
    split_and!; try done; [by apply set_inner_wf|].
    intros w. unfold payload. simpl. pose proof (wf_frames st W).
    replace (PADDING_FRAMES - read_frames_done st) with 0 by lia.
    rewrite Hd, Hs, (wf_nodata st W Hd), (wf_raw st W) by lia. done. }
  pose proof (read_header_spec 3 st W Hok Hd Hs Ef ltac:(lia)) as H4.
  destruct (read_header 3 st) as [[p st']|st1].
  { destruct H4 as [[c H4] Hp]. exists p, st', c. rewrite Hp.
    split_and!; [done|done|simpl; lia|done]. }
  destruct H4 as ([c H4] & Hp1 & Hd1 & Hs1 & Hf1).
  destruct (parse_header_spec st1) as [H5 H6]; try done; try apply H4; [lia|].
  eapply HIH; [by eapply reads_to_trans|].
  unfold read_measure in H6 at 2. unfold read_measure at 2. lia.
Qed.

Lemma npt_poll_read_spec remaining st p st' :
  read_wf st -> rd_ok (inner st) -> npt_poll_read remaining st = (p, st') ->
  exists c, reads_to st st' c (read_of p) /\ length (read_of p) <= remaining
    /\ Forall is_u8 (read_of p).
Proof.
  intros W Hok. unfold npt_poll_read.
  destruct (poll_read_loop_spec (S (read_measure st)) remaining st)
    as (p1 & st1 & c & -> & H); [lia|done|done|].
  intros [= <- <-]. by exists c.
Qed.
End ReadSpec.

(** ** The writer refines the framing *)

(** What [std::io::Write] documents: a failed write has written nothing. *)
Class WriteErrClean (T : Type) `{!AsyncWrite T, !WriteSpec T} : Prop :=
  write_err_clean buf s e s' :
    wr_ok s -> poll_write buf s = (Ready (Err e), s') -> wr_log s' = wr_log s.

#[export] Instance Mem_err_clean : WriteErrClean Mem.
Proof. intros buf s e s' _ Hp. simpl in Hp. by destruct (credits s). Qed.

Section WriteSpec.
Context {T : Type} `{!AsyncWrite T, !WriteSpec T, !WriteErrClean T}.
Abbreviation NPT := (NaivePaddedTransport T).
Implicit Types st : NPT.

Definition left_over st : bytes :=
  match write_pending st with None => [] | Some p => drop (write_pending_off st) p end.

(** All that was or will be put on the wire. *)
Definition wire st : bytes := wr_log (inner st) ++ left_over st.

Record write_wf (st : NPT) : Prop := {
  ww_ok : wr_ok (inner st);
  ww_off p : write_pending st = Some p -> write_pending_off st < length p;
  ww_wire : exists fs raw, wire st = frames_wire fs ++ raw /\ Forall frame_ok fs
    /\ length fs = write_frames_done st /\ write_frames_done st <= PADDING_FRAMES
    /\ (raw <> [] -> write_frames_done st = PADDING_FRAMES)
}.

(** The read side, and the end of stream, as they were. *)
Definition same_read (st st' : NPT) : Prop :=
  read_frames_done st' = read_frames_done st /\ read_hdr st' = read_hdr st
  /\ read_hdr_pos st' = read_hdr_pos st /\ read_data_rem st' = read_data_rem st
  /\ read_skip_rem st' = read_skip_rem st /\ read_pending_skip st' = read_pending_skip st.

(** The bytes accepted from the callers: the payload of the wire. *)
Definition npt_wr_log st : bytes := strip PADDING_FRAMES (wire st).

Lemma pending_left_left_over st :
  (forall p, write_pending st = Some p -> write_pending_off st < length p) ->
  pending_left st = length (left_over st).
Proof.
  intros H. unfold pending_left, left_over. destruct (write_pending st) as [p|]; [|done].
  by rewrite length_drop.
Qed.

Lemma advance_pending_spec st pend off i :
  off <= length pend ->
  let st' := advance_pending pend off (set_inner st i) in
  wire st' = wr_log i ++ drop off pend /\ pending_left st' = length pend - off
  /\ inner st' = i /\ same_read st st' /\ write_frames_done st' = write_frames_done st
  /\ (forall p, write_pending st' = Some p -> write_pending_off st' < length p).
Proof.
  intros Hoff. unfold advance_pending, wire, left_over, pending_left.
  destruct (length pend <=? off) eqn:E; bool_facts; simpl; split_and!; try done; [|lia|].
  - rewrite drop_ge by lia. done.
  - by intros p' [= <-].
Qed.

(** The bytes of the wire are moved below, none is lost or doubled. *)
Lemma drain_pending_spec fuel msg st p st' :
  write_wf st -> pending_left st <= fuel -> drain_pending fuel msg st = (p, st') ->
  write_wf st' /\ wire st' = wire st /\ write_frames_done st' = write_frames_done st
  /\ wr_fin (inner st') = wr_fin (inner st) /\ same_read st st'
  /\ (forall x, p = Ready (Ok x) -> write_pending st' = None)
  /\ (p = Pending -> exists buf s, (poll_write buf s).1 = Pending).
Proof.
  revert st. induction fuel as [|fuel IH]; intros st W Hfuel; cbn [drain_pending];
    destruct (write_pending st) as [pend|] eqn:Ep.
  2,4: by intros [= <- <-]; split_and!; try done; split_and!.
  { pose proof (ww_off st W pend Ep). unfold pending_left in Hfuel. rewrite Ep in Hfuel. lia. }
  pose proof (ww_off st W pend Ep) as Hoff.
  assert (wire st = wr_log (inner st) ++ drop (write_pending_off st) pend) as Hwire
    by (unfold wire, left_over; by rewrite Ep).
  destruct (poll_write _ (inner st)) as [q i] eqn:Eq.
  pose proof (wr_spec _ _ _ _ (ww_ok st W) Eq) as (Hok & Hpost & Hfin).
  assert (wr_log i = wr_log (inner st) ->
    write_wf (set_inner st i) /\ wire (set_inner st i) = wire st) as Hsame.
  { intros HL. assert (wire (set_inner st i) = wire st) as Hw
      by (unfold wire, left_over; simpl; by rewrite HL, Ep).
    split; [|done]. destruct W as []. split; [done|done|by rewrite Hw]. }
  destruct q as [|[n|e]]; cbn [write_post] in Hpost.
  - intros [= <- <-]. destruct (Hsame Hpost). split_and!; try done.
    intros _. eexists _, _. by rewrite Eq.
  - destruct n as [|n].
    { intros [= <- <-]. rewrite take_0, app_nil_r in Hpost. destruct Hpost as [_ Hpost].
      destruct (Hsame Hpost). by split_and!. }
    destruct Hpost as [Hn Hpost]. rewrite length_drop in Hn. intros Hrun.
    destruct (advance_pending_spec st pend (write_pending_off st + S n) i)
      as (Hw1 & Hf1 & Hinner & Hr1 & Hn1 & Hoff1); [lia|].
    change (write_pending_off (set_inner st i) + S n) with (write_pending_off st + S n) in Hrun.
    set (st1 := advance_pending _ _ _) in *.
    assert (wire st1 = wire st) as Hw.
    { rewrite Hw1, Hwire, Hpost, <- app_assoc. by rewrite <- drop_drop, take_drop. }
    assert (pending_left st1 <= fuel) as Hf by (unfold pending_left in Hfuel; rewrite Ep in Hfuel; lia).
    assert (write_wf st1) as W1.
    { destruct W as []. split; [by rewrite Hinner|done|]. by rewrite Hw, Hn1. }
    destruct (IH st1 W1 Hf Hrun) as (W' & Hw' & Hn' & Hfin' & Hr' & Hpn & Hpend).
    split_and!; try congruence; try done.
    destruct Hr1 as (?&?&?&?&?&?), Hr' as (?&?&?&?&?&?). split_and!; congruence.
  - intros [= <- <-]. apply write_err_clean in Eq; [|apply W].
    destruct (Hsame Eq). by split_and!.
Qed.

Lemma npt_wr_log_frames fs raw st :
  wire st = frames_wire fs ++ raw -> Forall frame_ok fs -> length fs <= PADDING_FRAMES ->
  (raw <> [] -> length fs = PADDING_FRAMES) ->
  npt_wr_log st = concat (map fst fs) ++ raw.
Proof.
  intros Hw Hfs Hle Hraw. unfold npt_wr_log. rewrite Hw, strip_frames by done. f_equal.
  destruct raw as [|b raw]; [apply strip_nil|].
  rewrite Hraw by done. by rewrite Nat.sub_diag.
Qed.

(** A frame that enters [write_pending] carries the data accepted. *)
Lemma push_frame_spec st data pad :
  write_wf st -> write_pending st = None -> write_frames_done st < PADDING_FRAMES ->
  length data <= MAX_PADDED_PAYLOAD -> length pad <= 255 ->
  let st' := set_write st (write_frames_done st + 1) (Some (build_frame data pad)) 0 in
  write_wf st' /\ npt_wr_log st' = npt_wr_log st ++ data.
Proof.
  intros W Hp Hf Hd Hq st'. destruct W as [Hok Hoff (fs & raw & Hw & Hfs & Hl & Hle & Hraw)].
  assert (raw = []) as -> by (destruct raw; [done|]; specialize (Hraw ltac:(done)); lia).
  rewrite app_nil_r in Hw.
  assert (wire st' = frames_wire (fs ++ [(data, pad)]) ++ []) as Hw'.
  { rewrite app_nil_r, frames_wire_snoc, <- Hw. unfold wire, left_over, st'. simpl.
    by rewrite Hp, app_nil_r. }
  assert (Forall frame_ok (fs ++ [(data, pad)])) as Hfs'
    by (apply Forall_app; split; [done|]; by constructor).
  split.
  - split; [done| |].
    + intros p [= <-]. rewrite build_frame_length. simpl. lia.
    + exists (fs ++ [(data, pad)]), []. rewrite length_app. simpl.
      split_and!; try done; lia.
  - rewrite (npt_wr_log_frames _ [] st' Hw' Hfs') by (rewrite ?length_app; simpl; done || lia).
    rewrite (npt_wr_log_frames fs [] st) by (rewrite ?app_nil_r; done || lia).
    rewrite map_app, concat_app, !app_nil_r. simpl. by rewrite app_nil_r.
Qed.

(** A write of the stream below that moves bytes of [write_pending] only. *)
Lemma moved_wf st st' :
  write_wf st -> wire st' = wire st -> write_frames_done st' = write_frames_done st ->
  wr_ok (inner st') ->
  (forall p, write_pending st' = Some p -> write_pending_off st' < length p) ->
  write_wf st' /\ npt_wr_log st' = npt_wr_log st.
Proof.
  intros [] Hw Hf Hok Hp. unfold npt_wr_log. rewrite Hw. split; [|done].
  split; [done|done|]. by rewrite Hw, Hf.
Qed.

(** After the last frame, bytes go down as they come. *)
Lemma raw_write_wf st i x :
  write_wf st -> write_pending st = None -> write_frames_done st = PADDING_FRAMES ->
  wr_ok i -> wr_log i = wr_log (inner st) ++ x ->
  write_wf (set_inner st i) /\ npt_wr_log (set_inner st i) = npt_wr_log st ++ x.
Proof.
  intros [Hok Hoff (fs & raw & Hw & Hfs & Hl & Hle & Hraw)] Hp Hf Hok' HL.
  assert (wire (set_inner st i) = frames_wire fs ++ raw ++ x) as Hw'.
  { unfold wire, left_over in *. simpl. rewrite Hp in *. rewrite app_nil_r in *.
    by rewrite HL, Hw, app_assoc. }
  split.
  - split; [done|simpl; by rewrite Hp|]. exists fs, (raw ++ x). by split_and!.
  - rewrite (npt_wr_log_frames fs (raw ++ x) (set_inner st i)) by (done || lia).
    rewrite (npt_wr_log_frames fs raw st) by (done || lia). by rewrite app_assoc.
Qed.

Lemma same_read_trans st1 st2 st3 : same_read st1 st2 -> same_read st2 st3 -> same_read st1 st3.
Proof. intros (?&?&?&?&?&?) (?&?&?&?&?&?). split_and!; congruence. Qed.

(** What a write operation of the transport promises. *)
Definition write_step (buf : bytes) (st : NPT) (p : poll (io_result nat)) (st' : NPT) : Prop :=
  write_wf st' /\ write_post buf p (npt_wr_log st) (npt_wr_log st')
  /\ wr_fin (inner st') = wr_fin (inner st) /\ same_read st st'
  /\ (p = Pending -> exists buf s, (poll_write buf s).1 = Pending).

Lemma write_padded_frame_spec nanos cell buf st p st' cell' :
  write_wf st -> write_pending st = None -> write_frames_done st < PADDING_FRAMES ->
  write_padded_frame nanos cell buf st = (p, st', cell') -> write_step buf st p st'.
Proof.
  intros W Hpn Ef. unfold write_padded_frame, write_step.
  destruct (Rng.random_u8 nanos cell) as [pad_size cell1] eqn:E1.
  destruct (Rng.gen_random_bytes nanos cell1 (Z.to_nat pad_size)) as [pad cell2] eqn:E2.
  pose proof (Rng.random_u8_range nanos cell) as Hps. rewrite E1 in Hps. cbn [fst] in Hps.
  pose proof (Rng.gen_random_bytes_length nanos cell1 (Z.to_nat pad_size)) as Hpl.
  rewrite E2 in Hpl. cbn [fst] in Hpl. unfold is_u8, u8_max in Hps.
  set (n := length buf `min` MAX_PADDED_PAYLOAD).
  assert (length (take n buf) = n) as Hdl by (rewrite length_take; lia).
  destruct (push_frame_spec st (take n buf) pad) as [W2 Hlog2]; [done|done|lia|lia|lia|].
  set (st2 := set_write _ _ _ _) in *.
  destruct (poll_write _ (inner st2)) as [p1 i] eqn:Ew.
  pose proof (wr_spec _ _ _ _ (ww_ok _ W2) Ew) as (Hok & Hpost & Hfin).
  assert (forall st3, wire st3 = wire st2 -> write_frames_done st3 = write_frames_done st2 ->
    inner st3 = i -> same_read st2 st3 ->
    (forall p, write_pending st3 = Some p -> write_pending_off st3 < length p) ->
    write_wf st3 /\ npt_wr_log st3 = npt_wr_log st ++ take n buf
    /\ wr_fin (inner st3) = wr_fin (inner st) /\ same_read st st3) as Hdone.
  { intros st3 Hw3 Hf3 Hi3 Hr3 Hp3. destruct (moved_wf st2 st3) as [W3 ->]; try done;
      [by rewrite Hi3|]. rewrite Hi3. by split_and!. }
  assert (wr_log i = wr_log (inner st2) -> write_wf (set_inner st2 i)
    /\ npt_wr_log (set_inner st2 i) = npt_wr_log st ++ take n buf
    /\ wr_fin (inner (set_inner st2 i)) = wr_fin (inner st)
    /\ same_read st (set_inner st2 i)) as Hidle.
  { intros HL. apply Hdone; try done; [|by apply W2]. unfold wire. simpl. by rewrite HL. }
  destruct p1 as [|[[|k]|e]]; cbn [write_post] in Hpost; intros [= <- <- <-];
    cbn [write_post].
  - destruct (Hidle Hpost) as (?&->&?&?). split_and!; try done. lia.
  - rewrite take_0, app_nil_r in Hpost. destruct (Hidle (proj2 Hpost)) as (?&->&?&?).
    split_and!; try done. lia.
  - destruct Hpost as [Hk HL].
    destruct (advance_pending_spec st2 (build_frame (take n buf) pad) (S k) i)
      as (Hw3 & _ & Hi3 & Hr3 & Hf3 & Ho3); [lia|].
    destruct (fun Hw => Hdone _ Hw Hf3 Hi3 Hr3 Ho3) as (?&->&?&?).
    { rewrite Hw3, HL. unfold wire, left_over.
      cbn [write_pending write_pending_off set_write inner st2].
      rewrite drop_0, <- app_assoc. by rewrite take_drop. }
    split_and!; try done. lia.
  - apply write_err_clean in Ew; [|apply W2]. destruct (Hidle Ew) as (?&->&?&?).
    split_and!; try done. by exists n.
Qed.

Lemma raw_write_spec buf st p i :
  write_wf st -> write_pending st = None -> PADDING_FRAMES <= write_frames_done st ->
  poll_write buf (inner st) = (p, i) -> write_step buf st p (set_inner st i).
Proof.
  intros W1 Hpn Ef Ew.
  pose proof (wr_spec _ _ _ _ (ww_ok _ W1) Ew) as (Hok & Hpost & Hfin).
  assert (write_frames_done st = PADDING_FRAMES) as Hf.
  { destruct W1 as [_ _ (fs & raw & _ & _ & _ & Hle & _)]. lia. }
  assert (exists x, wr_log i = wr_log (inner st) ++ x
    /\ write_post buf p (npt_wr_log st) (npt_wr_log st ++ x)) as (x & HL & Hp).
  { destruct p as [|[n|e]]; cbn [write_post] in *.
    - exists []. by rewrite !app_nil_r.
    - exists (take n buf). tauto.
    - destruct Hpost as [k ->]. exists (take k buf). split; [done|by exists k]. }
  unfold write_step. destruct (raw_write_wf st i x) as [W2 ->]; [done..|].
  split_and!; try done. intros ->. eexists _, _. by rewrite Ew.
Qed.

Lemma npt_poll_write_spec nanos cell buf st p st' cell' :
  write_wf st -> npt_poll_write nanos cell buf st = (p, st', cell') ->
  write_step buf st p st'.
Proof.
  intros W. unfold npt_poll_write.
  destruct (drain_pending _ _ st) as [q st1] eqn:Ed.
  apply drain_pending_spec in Ed as (W1 & Hw1 & Hn1 & Hf1 & Hr1 & Hpn & Hpend); [|done|lia].
  assert (npt_wr_log st1 = npt_wr_log st) as Hlog by (unfold npt_wr_log; by rewrite Hw1).
  assert (forall p2 st2, write_step buf st1 p2 st2 -> write_step buf st p2 st2) as Htrans.
  { intros p2 st2 (? & ? & ? & ? & ?). split_and!; [done|by rewrite <- Hlog|congruence| |done].
    by eapply same_read_trans. }
  destruct q as [|[[]|e]].
  - intros [= <- <- <-]. by split_and!; auto.
  - specialize (Hpn tt eq_refl).
    destruct (PADDING_FRAMES <=? write_frames_done st1) eqn:Ef; bool_facts.
    + destruct (poll_write buf (inner st1)) as [p1 i] eqn:Ew. intros [= <- <- <-].
      apply Htrans. by apply raw_write_spec.
    + intros Hw. apply Htrans. by eapply write_padded_frame_spec.
  - intros [= <- <- <-]. split_and!; try done. exists 0. by rewrite take_0, app_nil_r.
Qed.

(** A flush moves what is left; when it succeeds nothing is. *)
Lemma npt_poll_flush_spec st p st' :
  write_wf st -> npt_poll_flush st = (p, st') ->
  write_wf st' /\ npt_wr_log st' = npt_wr_log st /\ wr_fin (inner st') = wr_fin (inner st)
  /\ same_read st st' /\ (p = Ready (Ok tt) -> write_pending st' = None).
Proof.
  intros W. unfold npt_poll_flush.
  destruct (drain_pending _ _ st) as [q st1] eqn:Ed.
  apply drain_pending_spec in Ed as (W1 & Hw1 & Hn1 & Hf1 & Hr1 & Hpn & Hpend); [|done|lia].
  assert (npt_wr_log st1 = npt_wr_log st) as Hlog by (unfold npt_wr_log; by rewrite Hw1).
  destruct q as [|[[]|e]]; [by intros [= <- <-]| |by intros [= <- <-]].
  specialize (Hpn tt eq_refl). destruct (poll_flush (inner st1)) as [p1 i] eqn:Ef.
  intros [= <- <-]. apply flush_spec in Ef as (Hok & HL & Hfin); [|apply W1].
  destruct (moved_wf st1 (set_inner st1 i)) as [W2 Hl2]; try done.
  { unfold wire, left_over. simpl. by rewrite HL. }
  { apply W1. }
  rewrite Hl2. split_and!; try done. simpl. congruence.
Qed.

Lemma npt_poll_shutdown_spec st p st' :
  write_wf st -> npt_poll_shutdown st = (p, st') ->
  write_wf st' /\ npt_wr_log st' = npt_wr_log st /\ same_read st st'
  /\ (p = Ready (Ok tt) -> write_pending st' = None /\ wr_fin (inner st') = true)
  /\ (wr_fin (inner st) = true -> wr_fin (inner st') = true).
Proof.
  intros W. unfold npt_poll_shutdown.
  destruct (npt_poll_flush st) as [q st1] eqn:Ed.
  apply npt_poll_flush_spec in Ed as (W1 & Hlog & Hf1 & Hr1 & Hpn); [|done].
  destruct q as [|[[]|e]]; [by intros [= <- <-]; split_and!; try done; congruence| |
    by intros [= <- <-]; split_and!; try done; congruence].
  specialize (Hpn eq_refl). destruct (poll_shutdown (inner st1)) as [p1 i] eqn:Ef.
  intros [= <- <-]. apply shutdown_spec in Ef as (Hok & HL & Hfin & Hkeep); [|apply W1].
  destruct (moved_wf st1 (set_inner st1 i)) as [W2 Hl2]; try done.
  { unfold wire, left_over. simpl. by rewrite HL. }
  { apply W1. }
  rewrite Hl2. split_and!; try done; simpl; [by auto|]. intros. apply Hkeep. congruence.
Qed.

End WriteSpec.
