(* ===== verification/PaddingStream.v ===== *)
(** * The padding transport as a stream

    [NaivePaddedTransport<T>] implements the stream interfaces of [AsyncIo]
    whenever [T] does, so that the relay's theorems apply to it; and the
    properties of the codec: what is read is the payload of what arrived, what
    is written is framed once and in order, both sides make progress, and a
    reader fed with a writer's wire gives back the bytes accepted. *)

From S2P Require Import Prelude RustStr AsyncIo Padding.
Open Scope nat_scope.

(** ** The stream instances *)

(** A transport in a task whose polls run on some thread each: [rng_at k] is
    the clock reading and the generator's cell that the thread of the [k]-th
    write poll has; nothing is assumed of them. *)
Record Padded (T : Type) : Type := mkPadded {
  npt : NaivePaddedTransport T;
  rng_at : nat -> Z * Z;
  tick : nat
}.
Arguments mkPadded {T}.
Arguments npt {T}.
Arguments rng_at {T}.
Arguments tick {T}.

Section Stream.
Context {T : Type} `{!AsyncRead T, !AsyncWrite T}.
Implicit Types s : Padded T.

Definition with_npt s (st : NaivePaddedTransport T) : Padded T := mkPadded st (rng_at s) (tick s).

#[export] Instance Padded_read : AsyncRead (Padded T) := fun n s =>
  let '(p, st) := npt_poll_read n (npt s) in (p, with_npt s st).

#[export] Instance Padded_write : AsyncWrite (Padded T) := {|
  poll_write := fun buf s =>
    let '(nanos, cell) := rng_at s (tick s) in
    let '(p, st, _) := npt_poll_write nanos cell buf (npt s) in
    (p, mkPadded st (rng_at s) (S (tick s)));
  poll_flush := fun s => let '(p, st) := npt_poll_flush (npt s) in (p, with_npt s st);
  poll_shutdown := fun s => let '(p, st) := npt_poll_shutdown (npt s) in (p, with_npt s st)
|}.

Context `{!ReadSpec T, !WriteSpec T, !WriteErrClean T, !DuplexSpec T, !ReadFinite T}.

(** What was delivered is the payload of what was consumed, and what will be
    delivered the payload of the rest. *)
Definition npt_rd_log (st : NaivePaddedTransport T) : bytes :=
  strip PADDING_FRAMES (rd_log (inner st)).

Record npt_rd_ok (st : NaivePaddedTransport T) : Prop := {
  ro_wf : read_wf st;
  ro_ok : rd_ok (inner st);
  ro_log : forall w, strip PADDING_FRAMES (rd_log (inner st) ++ w) = npt_rd_log st ++ payload st w
}.

Lemma npt_rd_ok_new (i : T) : rd_ok i -> rd_log i = [] -> npt_rd_ok (npt_new i).
Proof.
  intros Hok HL. split; [|done|].
  - split; simpl; unfold PADDING_FRAMES; try lia.
    split; [done|]. by repeat apply Forall_cons_2; unfold is_u8, u8_max; try lia.
  - intros w. unfold npt_rd_log, payload. simpl inner. by rewrite HL.
Qed.

Lemma npt_read_step n st p st' :
  npt_rd_ok st -> npt_poll_read n st = (p, st') ->
  npt_rd_ok st' /\ length (read_of p) <= n /\ Forall is_u8 (read_of p)
  /\ npt_rd_log st' = npt_rd_log st ++ read_of p.
Proof.
  intros [W Hok HL] Hp. apply npt_poll_read_spec in Hp as (c & (W' & Hok' & HL' & HP) & Hn & Hu);
    [|done..].
  assert (forall w, strip PADDING_FRAMES (rd_log (inner st') ++ w)
    = npt_rd_log st ++ read_of p ++ payload st' w) as Hall
    by (intros w; by rewrite HL', <- app_assoc, HL, HP).
  assert (payload st' [] = []) as Hnil by by apply payload_nil.
  assert (npt_rd_log st' = npt_rd_log st ++ read_of p) as Hlog.
  { unfold npt_rd_log at 1. specialize (Hall []). by rewrite Hnil, !app_nil_r in Hall. }
  split_and!; try done. split; [done|done|]. intros w. by rewrite Hall, Hlog, app_assoc.
Qed.


#[export] Program Instance Padded_read_spec : ReadSpec (Padded T) := {|
  rd_ok := fun s => npt_rd_ok (npt s);
  rd_log := fun s => npt_rd_log (npt s)
|}.
Next Obligation.
  unfold poll_read, Padded_read. intros n s p s' Hok Hp.
  destruct (npt_poll_read n (npt s)) as [p1 st'] eqn:E. injection Hp as <- <-.
  by eapply npt_read_step.
Qed.

#[export] Program Instance Padded_write_spec : WriteSpec (Padded T) := {|
  wr_ok := fun s => write_wf (npt s);
  wr_log := fun s => npt_wr_log (npt s);
  wr_fin := fun s => wr_fin (inner (npt s))
|}.
Next Obligation.
  simpl. intros buf s p s' Hok Hp. destruct (rng_at s (tick s)) as [nanos cell].
  destruct (npt_poll_write nanos cell buf (npt s)) as [[p1 st'] c] eqn:E. injection Hp as <- <-.
  apply npt_poll_write_spec in E as (? & ? & ? & _); [|done]. by split_and!.
Qed.
Next Obligation.
  simpl. intros s p s' Hok Hp. destruct (npt_poll_flush (npt s)) as [p1 st'] eqn:E.
  injection Hp as <- <-. apply npt_poll_flush_spec in E as (? & ? & ? & _); [|done]. by split_and!.
Qed.
Next Obligation.
  simpl. intros s p s' Hok Hp. destruct (npt_poll_shutdown (npt s)) as [p1 st'] eqn:E.
  injection Hp as <- <-. apply npt_poll_shutdown_spec in E as (? & ? & _ & Hf & ?); [|done].
  split_and!; try done. intros ->. by apply Hf.
Qed.

(** *** The directions do not disturb each other *)

(** A property of the stream below that its polls keep is kept by the polls of
    the transport. *)
Section Below.
Context (P : T -> Prop).

Lemma drain_pending_below fuel msg st :
  (forall buf i, P i -> P (poll_write buf i).2) ->
  P (inner st) -> P (inner (drain_pending fuel msg st).2).
Proof.
  intros HP. revert st. induction fuel as [|fuel IH]; intros st H; cbn [drain_pending];
    destruct (write_pending st) as [pend|]; try done.
  specialize (HP (drop (write_pending_off st) pend) (inner st) H).
  destruct (poll_write _ (inner st)) as [[|[[|n]|e]] i]; try done.
  apply IH. unfold advance_pending. by destruct (_ <=? _).
Qed.

Lemma npt_poll_write_below nanos cell buf st :
  (forall buf i, P i -> P (poll_write buf i).2) ->
  P (inner st) -> P (inner (npt_poll_write nanos cell buf st).1.2).
Proof.
  intros HP H. unfold npt_poll_write.
  pose proof (drain_pending_below (pending_left st) "transport write returned zero" st HP H) as H1.
  destruct (drain_pending _ _ st) as [[|[[]|e]] st1]; try done. cbn [snd] in H1.
  destruct (_ <=? _).
  - specialize (HP buf (inner st1) H1). by destruct (poll_write buf (inner st1)) as [p i].
  - unfold write_padded_frame. destruct (Rng.random_u8 nanos cell) as [k c1].
    destruct (Rng.gen_random_bytes nanos c1 _) as [pad c2].
    set (frame := build_frame _ pad). specialize (HP frame (inner st1) H1). cbn [inner set_write].
    destruct (poll_write frame (inner st1)) as [[|[n|e]] i]; try done.
    destruct (0 <? n); [|done]. unfold advance_pending. by destruct (_ <=? _).
Qed.

Lemma npt_poll_flush_below st :
  (forall buf i, P i -> P (poll_write buf i).2) -> (forall i, P i -> P (poll_flush i).2) ->
  P (inner st) -> P (inner (npt_poll_flush st).2).
Proof.
  intros HP HF H. unfold npt_poll_flush.
  pose proof (drain_pending_below (pending_left st)
    "transport write returned zero during flush" st HP H) as H1.
  destruct (drain_pending _ _ st) as [[|[[]|e]] st1]; try done. cbn [snd] in H1.
  specialize (HF (inner st1) H1). by destruct (poll_flush (inner st1)) as [p i].
Qed.

Lemma npt_poll_shutdown_below st :
  (forall buf i, P i -> P (poll_write buf i).2) -> (forall i, P i -> P (poll_flush i).2) ->
  (forall i, P i -> P (poll_shutdown i).2) ->
  P (inner st) -> P (inner (npt_poll_shutdown st).2).
Proof.
  intros HP HF HS H. unfold npt_poll_shutdown.
  pose proof (npt_poll_flush_below st HP HF H) as H1.
  destruct (npt_poll_flush st) as [[|[[]|e]] st1]; try done. cbn [snd] in H1.
  specialize (HS (inner st1) H1). by destruct (poll_shutdown (inner st1)) as [p i].
Qed.

(** A read poll also leaves the write state of the transport alone. *)
Definition same_write (st st' : NaivePaddedTransport T) : Prop :=
  write_frames_done st' = write_frames_done st /\ write_pending st' = write_pending st
  /\ write_pending_off st' = write_pending_off st.

Definition read_below (st st' : NaivePaddedTransport T) : Prop :=
  P (inner st') /\ same_write st st'.

Lemma read_below_trans st1 st2 st3 :
  same_write st1 st2 -> read_below st2 st3 -> read_below st1 st3.
Proof. intros (?&?&?) (? & ? & ? & ?). split; [done|]. split_and!; congruence. Qed.

Lemma read_phase1_below n st :
  (forall m i, P i -> P (poll_read m i).2) -> P (inner st) -> read_below st (read_phase1 n st).2.
Proof.
  intros HP H. unfold read_phase1. destruct (n =? 0); [by split_and!|].
  assert (P (if read_data_rem st <? n then poll_read (read_data_rem st) (inner st)
             else poll_read n (inner st)).2) as H1 by (destruct (_ <? _); by apply HP).
  destruct (if _ <? _ then _ else _) as [[|[bs|e]] i]; [by split_and!| |by split_and!].
  destruct (length bs =? 0); [by split_and!|]. by destruct (_ =? 0); split_and!.
Qed.

Lemma read_phase2_below st :
  (forall m i, P i -> P (poll_read m i).2) -> P (inner st) ->
  match read_phase2 st with inl r => read_below st r.2 | inr st' => read_below st st' end.
Proof.
  intros HP H. unfold read_phase2. specialize (HP (read_skip_rem st `min` 256) _ H).
  destruct (poll_read _ (inner st)) as [[|[bs|e]] i]; [by split_and!| |by split_and!].
  by destruct (length bs =? 0); split_and!.
Qed.

Lemma read_header_below fuel st :
  (forall m i, P i -> P (poll_read m i).2) -> P (inner st) ->
  match read_header fuel st with inl r => read_below st r.2 | inr st' => read_below st st' end.
Proof.
  intros HP. revert st. induction fuel as [|fuel IH]; intros st H; cbn [read_header];
    destruct (read_hdr_pos st <? 3); try by split_and!.
  pose proof (HP (3 - read_hdr_pos st) _ H) as H1.
  destruct (poll_read _ (inner st)) as [[|[bs|e]] i]; [by split_and!| |by split_and!].
  destruct (length bs =? 0); [by split_and!|].
  set (st1 := set_hdr _ _ _). specialize (IH st1 H1).
  assert (same_write st st1) by by split_and!.
  destruct (read_header fuel st1); by eapply read_below_trans.
Qed.

Lemma npt_poll_read_below n st :
  (forall m i, P i -> P (poll_read m i).2) -> P (inner st) -> read_below st (npt_poll_read n st).2.
Proof.
  intros HP H. unfold npt_poll_read.
  enough (forall fuel st, P (inner st) -> match poll_read_loop fuel n st with
    | Some r => read_below st r.2 | None => True end) as Hl.
  { specialize (Hl (S (read_measure st)) st H). destruct (poll_read_loop _ n st); [done|].
    by split_and!. }
  clear st H. induction fuel as [|fuel IH]; intros st H; cbn [poll_read_loop]; [done|].
  assert (forall st1, read_below st st1 -> match poll_read_loop fuel n st1 with
    | Some r => read_below st r.2 | None => True end) as HIH.
  { intros st1 [H1 H2]. specialize (IH st1 H1). destruct (poll_read_loop fuel n st1); [|done].
    by eapply read_below_trans. }
  destruct (0 <? read_data_rem st); [by apply read_phase1_below|].
  destruct (0 <? read_skip_rem st).
  { pose proof (read_phase2_below st HP H). destruct (read_phase2 st); [done|by apply HIH]. }
  destruct (PADDING_FRAMES <=? read_frames_done st).
  { specialize (HP n _ H). destruct (poll_read n (inner st)) as [p i]. by split_and!. }
  pose proof (read_header_below 3 st HP H) as H4. destruct (read_header 3 st) as [|st1]; [done|].
  apply HIH. destruct H4 as [H4 H5]. unfold parse_header. by destruct (_ =? 0).
Qed.
End Below.

Lemma same_read_ok st st' :
  npt_rd_ok st -> reader_at (rd_log (inner st)) (inner st') -> same_read st st' ->
  npt_rd_ok st' /\ npt_rd_log st' = npt_rd_log st.
Proof.
  intros [W Hok HL] (Hok' & _ & HL') (E1 & E2 & E3 & E4 & E5 & E6).
  assert (npt_rd_log st' = npt_rd_log st) as Hlog by (unfold npt_rd_log; by rewrite HL').
  split; [|done]. split; [|done|].
  - destruct W as []. split; by rewrite ?E1, ?E2, ?E3, ?E4, ?E5, ?E6.
  - intros w. rewrite HL', HL, Hlog. unfold payload. by rewrite E1, E2, E3, E4, E5, E6.
Qed.

Lemma same_write_ok st st' :
  write_wf st -> writer_at (wr_log (inner st)) (wr_fin (inner st)) (inner st') ->
  same_write st st' ->
  write_wf st' /\ npt_wr_log st' = npt_wr_log st /\ wr_fin (inner st') = wr_fin (inner st).
Proof.
  intros [Hok Hoff Hw] (_ & Hok' & HL & Hfin) (E1 & E2 & E3).
  assert (wire st' = wire st) as Hwire by (unfold wire, left_over; by rewrite E2, E3, HL).
  unfold npt_wr_log. rewrite Hwire. split_and!; try done.
  split; [done|by rewrite E2, E3|by rewrite Hwire, E1].
Qed.

#[export] Instance Padded_duplex : DuplexSpec (Padded T).
Proof.
  split.
  - unfold poll_read, Padded_read. intros n s p s' Hr Hw Hp.
    destruct (npt_poll_read n (npt s)) as [p1 st'] eqn:E. injection Hp as <- <-.
    destruct (npt_poll_read_below _ n (npt s) (writer_at_read _ _)
      ltac:(destruct Hr, Hw; by split_and!)) as [HB HS].
    rewrite E in HB, HS. by apply (same_write_ok (npt s) st').
  - intros buf s p s' Hr Hw Hp. simpl in Hp. destruct (rng_at s (tick s)) as [nanos cell].
    pose proof (npt_poll_write_below _ nanos cell buf (npt s) (reader_at_write _)
      ltac:(destruct Hr, Hw; by split_and!)) as HB.
    destruct (npt_poll_write nanos cell buf (npt s)) as [[p1 st'] c] eqn:E. injection Hp as <- <-.
    apply npt_poll_write_spec in E as (_ & _ & _ & ? & _); [|done]. by apply (same_read_ok (npt s)).
  - intros s p s' Hr Hw Hp. simpl in Hp.
    pose proof (npt_poll_flush_below _ (npt s) (reader_at_write _) (reader_at_flush _)
      ltac:(destruct Hr, Hw; by split_and!)) as HB.
    destruct (npt_poll_flush (npt s)) as [p1 st'] eqn:E. injection Hp as <- <-.
    apply npt_poll_flush_spec in E as (_ & _ & _ & ? & _); [|done]. by apply (same_read_ok (npt s)).
  - intros s p s' Hr Hw Hp. simpl in Hp.
    pose proof (npt_poll_shutdown_below _ (npt s) (reader_at_write _) (reader_at_flush _)
      (reader_at_shutdown _) ltac:(destruct Hr, Hw; by split_and!)) as HB.
    destruct (npt_poll_shutdown (npt s)) as [p1 st'] eqn:E. injection Hp as <- <-.
    apply npt_poll_shutdown_spec in E as (_ & _ & ? & _); [|done]. by apply (same_read_ok (npt s)).
Qed.

(** *** A transport over a stream that can be drained can be drained *)

Lemma read_phase1_avail n st bs st' :
  read_phase1 n st = (Ready (Ok bs), st') -> bs <> [] ->
  rd_avail (inner st') < rd_avail (inner st).
Proof.
  unfold read_phase1. destruct (n =? 0); [by intros [= <- <-]|].
  set (m := if read_data_rem st <? n then read_data_rem st else n).
  replace (if read_data_rem st <? n then poll_read (read_data_rem st) (inner st)
           else poll_read n (inner st)) with (poll_read m (inner st))
    by by unfold m; destruct (_ <? _).
  destruct (poll_read m (inner st)) as [[|[bs1|e]] i] eqn:E; try done.
  intros Hp Hbs. destruct (length bs1 =? 0).
  { by injection Hp as <- <-. }
  assert (bs1 = bs /\ inner st' = i) as [-> ->].
  { destruct (_ =? 0); by injection Hp as -> <-. }
  by eapply rd_avail_spec.
Qed.

Lemma read_phase2_avail st :
  match read_phase2 st with
  | inl (Ready (Ok bs), _) => bs = []
  | inl _ => True
  | inr st' => rd_avail (inner st') < rd_avail (inner st)
  end.
Proof.
  unfold read_phase2. destruct (poll_read _ (inner st)) as [[|[bs|e]] i] eqn:E; try done.
  destruct bs as [|b bs]; [done|]. simpl. by eapply rd_avail_spec in E.
Qed.

Lemma read_header_avail fuel st :
  match read_header fuel st with
  | inl (Ready (Ok bs), _) => bs = []
  | inl _ => True
  | inr st' => rd_avail (inner st') <= rd_avail (inner st)
  end.
Proof.
  revert st. induction fuel as [|fuel IH]; intros st; cbn [read_header];
    destruct (read_hdr_pos st <? 3); try done.
  destruct (poll_read _ (inner st)) as [[|[bs|e]] i] eqn:E; try done.
  destruct bs as [|b bs]; [done|]. cbn [length Nat.eqb].
  specialize (IH (set_hdr (set_inner st i)
    (splice (read_hdr_pos (set_inner st i)) (b :: bs) (read_hdr (set_inner st i)))
    (read_hdr_pos (set_inner st i) + S (length bs)))).
  eapply rd_avail_spec in E; [|done]. break_match; [done|].
  etrans; [exact IH|]. simpl. lia.
Qed.

#[export] Program Instance Padded_finite : ReadFinite (Padded T) := {|
  rd_avail := fun s => rd_avail (inner (npt s))
|}.
Next Obligation.
  unfold poll_read, Padded_read. intros n s bs s' Hp Hbs.
  destruct (npt_poll_read n (npt s)) as [p1 st'] eqn:E. injection Hp as -> <-. simpl.
  unfold npt_poll_read in E. revert E. generalize (S (read_measure (npt s))).
  intros fuel. destruct (poll_read_loop fuel n (npt s)) as [r|] eqn:E; [|done].
  intros ->. revert E. generalize (npt s). induction fuel as [|fuel IH]; intros st; [done|].
  cbn [poll_read_loop]. destruct (0 <? read_data_rem st).
  { intros [= E]. by eapply read_phase1_avail. }
  destruct (0 <? read_skip_rem st).
  { pose proof (read_phase2_avail st) as H. destruct (read_phase2 st).
    - by intros [= ->].
    - intros E. apply IH in E. lia. }
  destruct (PADDING_FRAMES <=? read_frames_done st).
  { destruct (poll_read n (inner st)) as [p i] eqn:E. intros [= -> <-].
    by eapply rd_avail_spec. }
  pose proof (read_header_avail 3 st) as H. destruct (read_header 3 st) as [r|st1].
  - by intros [= ->].
  - intros E. apply IH in E. unfold parse_header in E. destruct (_ =? 0); simpl in E; lia.
Qed.

End Stream.

(** ** The properties of the codec *)

(** Read polls with buffers of the sizes [ns]: all that they deliver. *)
Fixpoint read_polls {T} `{!AsyncRead T} (ns : list nat) (st : NaivePaddedTransport T)
    : bytes * NaivePaddedTransport T :=
  match ns with
  | [] => ([], st)
  | n :: ns =>
      let '(p, st) := npt_poll_read n st in
      let '(out, st) := read_polls ns st in
      (read_of p ++ out, st)
  end.

(** What a task does with the write half. *)
Inductive wop : Type :=
  | Write (nanos cell : Z) (buf : bytes)
  | Flush
  | Shutdown.

(** The bytes accepted by a sequence of such polls, until one fails. *)
Fixpoint write_ops {T} `{!AsyncWrite T} (ops : list wop) (st : NaivePaddedTransport T)
    : option (bytes * NaivePaddedTransport T) :=
  match ops with
  | [] => Some ([], st)
  | Write nanos cell buf :: ops =>
      match npt_poll_write nanos cell buf st with
      | (Ready (Err _), _, _) => None
      | (Ready (Ok n), st, _) =>
          '(acc, st) ← write_ops ops st; Some (take n buf ++ acc, st)
      | (Pending, st, _) => write_ops ops st
      end
  | Flush :: ops =>
      match npt_poll_flush st with
      | (Ready (Err _), _) => None
      | (_, st) => write_ops ops st
      end
  | Shutdown :: ops =>
      match npt_poll_shutdown st with
      | (Ready (Err _), _) => None
      | (_, st) => write_ops ops st
      end
  end.

Lemma read_polls_spec {T} `{!AsyncRead T, !ReadSpec T} ns (st : NaivePaddedTransport T) out st' :
  npt_rd_ok st -> read_polls ns st = (out, st') ->
  npt_rd_ok st' /\ npt_rd_log st' = npt_rd_log st ++ out.
Proof.
  revert st out. induction ns as [|n ns IH]; intros st out Hok; cbn [read_polls].
  { intros [= <- <-]. by rewrite app_nil_r. }
  destruct (npt_poll_read n st) as [p st1] eqn:E. destruct (read_polls ns st1) as [o1 st2] eqn:E1.
  intros [= <- <-]. apply npt_read_step in E as (Hok1 & _ & _ & HL); [|done].
  apply IH in E1 as [Hok2 HL2]; [|done]. split; [done|]. by rewrite HL2, HL, app_assoc.
Qed.

Lemma write_ops_spec {T} `{!AsyncWrite T, !WriteSpec T, !WriteErrClean T} ops
    (st : NaivePaddedTransport T) acc st' :
  write_wf st -> write_ops ops st = Some (acc, st') ->
  write_wf st' /\ npt_wr_log st' = npt_wr_log st ++ acc.
Proof.
  revert st acc. induction ops as [|op ops IH]; intros st acc W; cbn [write_ops].
  { intros [= <- <-]. by rewrite app_nil_r. }
  destruct op as [nanos cell buf| |].
  - destruct (npt_poll_write nanos cell buf st) as [[p st1] c] eqn:E.
    apply npt_poll_write_spec in E as (W1 & HL & _); [|done].
    destruct p as [|[n|e]]; cbn [write_post] in HL; [| |done].
    + intros H. apply IH in H as [? ->]; [|done]. by rewrite HL.
    + destruct (write_ops ops st1) as [[acc1 st2]|] eqn:E1; [|done].
      intros [= <- <-]. apply IH in E1 as [? ->]; [|done].
      split; [done|]. by rewrite (proj2 HL), app_assoc.
  - destruct (npt_poll_flush st) as [p st1] eqn:E.
    apply npt_poll_flush_spec in E as (W1 & HL & _); [|done]. rewrite <- HL.
    destruct p as [|[]]; [exact (IH st1 acc W1)..|done].
  - destruct (npt_poll_shutdown st) as [p st1] eqn:E.
    apply npt_poll_shutdown_spec in E as (W1 & HL & _); [|done]. rewrite <- HL.
    destruct p as [|[]]; [exact (IH st1 acc W1)..|done].
Qed.

Section Properties.
Context {T : Type} `{!AsyncRead T, !AsyncWrite T}.
Context `{!ReadSpec T, !WriteSpec T, !WriteErrClean T, !DuplexSpec T}.
Implicit Types i : T.

Lemma write_wf_new i : wr_ok i -> wr_log i = [] -> write_wf (npt_new i).
Proof.
  intros Hok HL. split; [done|done|]. exists [], []. unfold wire, left_over. simpl. rewrite HL.
  split_and!; try done. unfold PADDING_FRAMES. lia.
Qed.

(** C4: whatever the sizes of the reads and however the wire is cut into
    segments, a new transport delivers exactly the payload of the wire bytes it
    consumed: eight frames without their headers and padding, then raw bytes. *)
Theorem read_polls_payload i ns out st' :
  rd_ok i -> rd_log i = [] -> read_polls ns (npt_new i) = (out, st') ->
  out = strip PADDING_FRAMES (rd_log (inner st')).
Proof.
  intros Hok HL Hr. apply read_polls_spec in Hr as [_ H]; [|by apply npt_rd_ok_new].
  unfold npt_rd_log at 2 in H. simpl inner in H. rewrite HL, strip_nil in H. by symmetry.
Qed.

(** C5: the bytes a new transport put on the wire below, with those it still
    holds, are at most eight frames of at most 65535 data and 255 padding bytes
    and then raw bytes, and their payload is what the callers' writes were told
    was accepted, in order, with nothing lost or repeated. *)
Theorem write_ops_framed i ops acc st' :
  wr_ok i -> wr_log i = [] -> write_ops ops (npt_new i) = Some (acc, st') ->
  acc = strip PADDING_FRAMES (wire st')
  /\ exists fs raw, wire st' = frames_wire fs ++ raw /\ Forall frame_ok fs
    /\ length fs <= PADDING_FRAMES /\ (raw <> [] -> length fs = PADDING_FRAMES)
    /\ acc = concat (map fst fs) ++ raw.
Proof.
  intros Hok HL Hr. apply write_ops_spec in Hr as [W H]; [|by apply write_wf_new].
  assert (npt_wr_log (npt_new i) = []) as H0
    by (unfold npt_wr_log, wire, left_over; simpl inner; by rewrite HL, strip_nil).
  rewrite H0 in H. simpl in H. split; [done|].
  destruct W as [_ _ (fs & raw & Hw & Hfs & Hl & Hle & Hraw)].
  exists fs, raw. split_and!; try done; [lia|by rewrite Hl|].
  rewrite <- H. apply npt_wr_log_frames; try done; [lia|by rewrite Hl].
Qed.

(** C3: the end-to-end round trip: when a task's writes end with a successful
    flush and a transport of the other side consumed what reached the wire, it
    delivered the bytes that were accepted. *)
Theorem padding_roundtrip i ops acc stw j ns out str :
  wr_ok i -> wr_log i = [] -> rd_ok j -> rd_log j = [] ->
  write_ops ops (npt_new i) = Some (acc, stw) ->
  (npt_poll_flush stw).1 = Ready (Ok tt) ->
  read_polls ns (npt_new j) = (out, str) ->
  rd_log (inner str) = wr_log (inner (npt_poll_flush stw).2) ->
  out = acc.
Proof.
  intros Hi HLi Hj HLj Hw Hf Hr Hsame.
  apply write_ops_spec in Hw as [W HL]; [|by apply write_wf_new].
  apply read_polls_spec in Hr as [_ HR]; [|by apply npt_rd_ok_new].
  destruct (npt_poll_flush stw) as [p st'] eqn:E. cbn [fst snd] in *.
  apply npt_poll_flush_spec in E as (W' & HL' & _ & _ & Hp); [|done].
  specialize (Hp Hf). unfold npt_rd_log in HR. simpl inner in HR.
  rewrite HLj, strip_nil in HR. simpl in HR. rewrite <- HR, Hsame.
  assert (npt_wr_log (npt_new i) = []) as H0
    by (unfold npt_wr_log, wire, left_over; simpl inner; by rewrite HLi, strip_nil).
  rewrite H0 in HL. simpl in HL. rewrite <- HL, <- HL'.
  unfold npt_wr_log, wire, left_over. by rewrite Hp, app_nil_r.
Qed.

(** No write poll parks the task without a waker: it is pending only when
    the stream below is, so over a stream that accepts at least one byte at
    every poll a write is always answered. *)
Theorem write_never_stalls nanos cell buf (st : NaivePaddedTransport T) :
  (forall b s, (poll_write b s).1 <> Pending) -> write_wf st ->
  (npt_poll_write nanos cell buf st).1.1 <> Pending.
Proof.
  intros HT W. destruct (npt_poll_write nanos cell buf st) as [[p st'] c] eqn:E. simpl.
  apply npt_poll_write_spec in E as (_ & _ & _ & _ & H); [|done].
  intros Hp. destruct (H Hp) as (b & s & Hs). by destruct (HT b s).
Qed.

(** C31: a shutdown that succeeds has first put every accepted byte on the wire
    below, and only then the end of stream. *)
Theorem shutdown_drains i ops acc st :
  wr_ok i -> wr_log i = [] -> write_ops ops (npt_new i) = Some (acc, st) ->
  (npt_poll_shutdown st).1 = Ready (Ok tt) ->
  strip PADDING_FRAMES (wr_log (inner (npt_poll_shutdown st).2)) = acc
  /\ wr_fin (inner (npt_poll_shutdown st).2) = true.
Proof.
  intros Hok HL Hw Hp. apply write_ops_spec in Hw as [W H]; [|by apply write_wf_new].
  destruct (npt_poll_shutdown st) as [p st'] eqn:E. cbn [fst snd] in *. subst p.
  apply npt_poll_shutdown_spec in E as (_ & HL' & _ & Hd & _); [|done].
  destruct (Hd eq_refl) as [Hnone Hfin]. split; [|done].
  assert (npt_wr_log (npt_new i) = []) as H0
    by (unfold npt_wr_log, wire, left_over; simpl inner; by rewrite HL, strip_nil).
  rewrite H0 in H. simpl in H. rewrite <- H, <- HL'.
  unfold npt_wr_log, wire, left_over. by rewrite Hnone, app_nil_r.
Qed.
End Properties.

(** The value of the [Padding] header has 30 to 61 characters, the first
    sixteen of them from the alphabet of the protocol and the rest tildes, and
    every use of the generator leaves its cell a non-zero 64-bit state. *)
Theorem padding_header_shape nanos cell :
  (0 <= nanos < 1000000000)%Z -> is_u64 cell ->
  let '(s, cell') := Rng.generate_padding_header nanos cell in
  30 <= length s <= 61 /\ Forall (fun c => In c Rng.CHARS) (take 16 s)
  /\ drop 16 s = replicate (length s - 16) 126%Z /\ is_u64 cell' /\ cell' <> 0%Z.
Proof.
  intros Hn Hc. pose proof (Rng.generate_padding_header_spec nanos cell) as H. cbv zeta in H.
  unfold Rng.generate_padding_header in *. unfold Rng.random_u8 in *.
  destruct (Rng.gen_random_bytes nanos cell 1) as [b c1] eqn:E1.
  pose proof (Rng.gen_random_bytes_cell nanos cell 1 Hn Hc) as H1. rewrite E1 in H1.
  destruct (Rng.gen_random_bytes nanos c1 8) as [bits c2] eqn:E2.
  pose proof (Rng.gen_random_bytes_cell nanos c1 8 Hn (proj1 H1)) as H2. rewrite E2 in H2.
  cbn [fst snd] in *. destruct H as (Hl & Hc1 & Hd).
  exact (conj Hl (conj Hc1 (conj Hd H2))).
Qed.

(** ** Witnesses, on the stream in memory *)

Definition mem (cs : list bytes) (ks : list nat) : Mem :=
  {| chunks := cs; eof := true; consumed := []; credits := ks; accepted := []; fin := false |}.

Lemma mem_ok cs ks :
  forallb (fun c => (0 <? length c)%nat && forallb (fun b => (0 <=? b) && (b <=? 255))%Z c) cs = true ->
  Mem_ok (mem cs ks).
Proof.
  intros H. unfold Mem_ok, mem. simpl. rewrite forallb_forall in H. apply Forall_forall.
  intros c Hc. apply list_elem_of_In in Hc. specialize (H c Hc). bool_facts.
  split; [intros ->; simpl in *; lia|]. rewrite forallb_forall in *. apply Forall_forall.
  intros b Hb. apply list_elem_of_In in Hb. specialize (H0 b Hb).
  bool_facts. unfold is_u8, u8_max. lia.
Qed.

(** The writer of the repository's tests: it takes at most [cap] bytes a poll
    and is never pending. *)
Record CapWriter : Type := { cap : nat; taken : bytes; closed : bool }.

#[export] Instance CapWriter_write : AsyncWrite CapWriter := {|
  poll_write := fun buf s =>
    let n := length buf `min` cap s in
    (Ready (Ok n), {| cap := cap s; taken := taken s ++ take n buf; closed := closed s |});
  poll_flush := fun s => (Ready (Ok tt), s);
  poll_shutdown := fun s =>
    (Ready (Ok tt), {| cap := cap s; taken := taken s; closed := true |})
|}.

#[export] Program Instance CapWriter_spec : WriteSpec CapWriter := {|
  wr_ok := fun _ => True; wr_log := taken; wr_fin := closed
|}.
Next Obligation. simpl. intros buf s p s' _ [= <- <-]. simpl. split_and!; try done. lia. Qed.
Next Obligation. simpl. intros s p s' _ [= <- <-]. done. Qed.
Next Obligation. simpl. intros s p s' _ [= <- <-]. done. Qed.

#[export] Instance CapWriter_err_clean : WriteErrClean CapWriter.
Proof. by intros buf s e s' _ [=]. Qed.

(** Two frames in three segments, the second cut in its header. *)
Definition wire_in : Mem := mem [[0; 3; 2; 10; 20]; [30; 99; 99; 0]; [1; 0; 40]]%Z [].

Lemma read_polls_payload_witness :
  [10; 20; 30; 40]%Z = strip PADDING_FRAMES
    (rd_log (inner (read_polls [16; 16; 2; 16; 16] (npt_new wire_in)).2)).
Proof.
  apply (read_polls_payload wire_in [16; 16; 2; 16; 16]);
    [by apply mem_ok|reflexivity|vm_compute; reflexivity].
Defined.

Definition writes : list wop := [Write 5 0 [10; 20; 30]; Write 5 7 [40]; Flush]%Z.

Definition writer : NaivePaddedTransport Mem :=
  match write_ops writes (npt_new (mem [] [4; 600; 600])) with
  | Some (_, st) => st
  | None => npt_new (mem [] [])
  end.

Lemma write_ops_framed_witness :
  [10; 20; 30; 40]%Z = strip PADDING_FRAMES (wire writer)
  /\ exists fs raw, wire writer = frames_wire fs ++ raw /\ Forall frame_ok fs
    /\ length fs <= PADDING_FRAMES /\ (raw <> [] -> length fs = PADDING_FRAMES)
    /\ [10; 20; 30; 40]%Z = concat (map fst fs) ++ raw.
Proof.
  apply (write_ops_framed (mem [] [4; 600; 600]) writes);
    [by apply mem_ok|reflexivity|vm_compute; reflexivity].
Defined.

Definition wire_out : Mem := mem [wr_log (inner (npt_poll_flush writer).2)] [].

Lemma padding_roundtrip_witness :
  (read_polls [16; 16; 16; 16] (npt_new wire_out)).1 = [10; 20; 30; 40]%Z.
Proof.
  apply (padding_roundtrip (mem [] [4; 600; 600]) writes _ writer wire_out [16; 16; 16; 16] _
    (read_polls [16; 16; 16; 16] (npt_new wire_out)).2); try (vm_compute; reflexivity).
  all: by apply mem_ok.
Defined.

Lemma write_never_stalls_witness :
  (npt_poll_write 5 0 [1; 2; 3]%Z (npt_new {| cap := 1; taken := []; closed := false |})).1.1
  <> Pending.
Proof.
  apply write_never_stalls; [by intros b s [=]|by apply write_wf_new].
Defined.

Lemma shutdown_drains_witness :
  strip PADDING_FRAMES (wr_log (inner (npt_poll_shutdown writer).2)) = [10; 20; 30; 40]%Z
  /\ wr_fin (inner (npt_poll_shutdown writer).2) = true.
Proof.
  apply (shutdown_drains (mem [] [4; 600; 600]) writes); [by apply mem_ok|reflexivity|..];
    vm_compute; reflexivity.
Defined.

Lemma padding_header_shape_witness :
  (0 <= 123456789 < 1000000000)%Z /\ is_u64 0 /\
  let '(s, cell') := Rng.generate_padding_header 123456789 0 in
  30 <= length s <= 61 /\ Forall (fun c => In c Rng.CHARS) (take 16 s)
  /\ drop 16 s = replicate (length s - 16) 126%Z /\ is_u64 cell' /\ cell' <> 0%Z.
Proof.
  assert (0 <= 123456789 < 1000000000)%Z as H by lia.
  assert (is_u64 0) as H0 by (unfold is_u64, u64_max; lia).
  split; [exact H|split; [exact H0|]]. exact (padding_header_shape 123456789 0 H H0).
Defined.
