(* ===== verification/QuicheStream.v ===== *)
(** * [src/transport/quiche_stream.rs]: HTTP/3 streams as byte streams

    [H3StreamReader] turns the frames of a tokio-quiche receive channel into
    bytes, [H3StreamWriter] bytes into frames of a send channel; their pair,
    [tokio::io::join(reader, writer)], implements the interfaces of AsyncIo, so
    that what is proved of the padded transport and of the relay holds over it.

    The channels are the state: [recv] is what the driver has queued, [closed]
    whether it dropped its sender; [slots] is the free capacity of the send
    channel, [open] whether the driver still receives, [queued] what it was
    sent. *)

From S2P Require Import Prelude RustStr AsyncIo.
Open Scope nat_scope.

Inductive InboundFrame : Type :=
  | Body (data : bytes) (fin : bool)
  | Datagram (data : bytes).

Record H3StreamReader : Type := mkReader {
  recv : list InboundFrame;
  closed : bool;
  buf : option bytes;
  seen_fin : bool;
  delivered : bytes
}.

Definition Reader_new (frames : list InboundFrame) (closed : bool) : H3StreamReader :=
  mkReader frames closed None false [].

(** Serve [n] bytes from the left-over [b]. *)
Definition serve (n : nat) (frames : list InboundFrame) (c : bool) (b : bytes) (f : bool)
    (d : bytes) : poll (io_result bytes) * H3StreamReader :=
  let len := length b `min` n in
  let rest := drop len b in
  (Ready (Ok (take len b)),
   mkReader frames c (if is_empty rest then None else Some rest) f (d ++ take len b)).

(** The loop of [poll_read]: each turn serves the left-over bytes, reports the
    end, or takes a frame. *)
Fixpoint read_frames (n : nat) (frames : list InboundFrame) (c : bool) (b : option bytes)
    (f : bool) (d : bytes) : poll (io_result bytes) * H3StreamReader :=
  match b with
  | Some (x :: b) => serve n frames c (x :: b) f d
  | _ =>
      if f then (Ready (Ok []), mkReader frames c None f d)
      else
        match frames with
        | Body data fin :: frames =>
            read_frames n frames c (if is_empty data then None else Some data) fin d
        | Datagram _ :: frames => read_frames n frames c None f d
        | [] => (if c then Ready (Ok []) else Pending, mkReader [] c None f d)
        end
  end.

Definition reader_poll_read (n : nat) (r : H3StreamReader) : poll (io_result bytes) * H3StreamReader :=
  read_frames n (recv r) (closed r) (buf r) (seen_fin r) (delivered r).

Inductive OutboundFrame : Type := OutBody (data : bytes) (fin : bool).

Record H3StreamWriter : Type := mkWriter {
  slots : nat;
  open : bool;
  queued : list OutboundFrame
}.

Definition Writer_new (slots : nat) (open : bool) : H3StreamWriter := mkWriter slots open [].

(** [PollSender::poll_reserve], and [send_item] on the reserved slot. *)
Definition poll_reserve (w : H3StreamWriter) : poll (result unit unit) :=
  if negb (open w) then Ready (Err tt) else if (slots w =? 0) then Pending else Ready (Ok tt).

Definition send_item (fr : OutboundFrame) (w : H3StreamWriter) : result unit unit * H3StreamWriter :=
  if open w then (Ok tt, mkWriter (pred (slots w)) true (queued w ++ [fr])) else (Err tt, w).

Definition broken_pipe (msg : rstr) : io_error := mk_io_error BrokenPipe msg.

Definition writer_poll_write (data : bytes) (w : H3StreamWriter) : poll (io_result nat) * H3StreamWriter :=
  match poll_reserve w with
  | Pending => (Pending, w)
  | Ready (Err _) => (Ready (Err (broken_pipe (str "H3 reserve error"))), w)
  | Ready (Ok _) =>
      match send_item (OutBody data false) w with
      | (Err _, w) => (Ready (Err (broken_pipe (str "H3 send error"))), w)
      | (Ok _, w) => (Ready (Ok (length data)), w)
      end
  end.

Definition writer_poll_flush (w : H3StreamWriter) : poll (io_result unit) * H3StreamWriter :=
  (Ready (Ok tt), w).

Definition writer_poll_shutdown (w : H3StreamWriter) : poll (io_result unit) * H3StreamWriter :=
  match poll_reserve w with
  | Pending => (Pending, w)
  | Ready (Err _) => (Ready (Err (broken_pipe (str "H3 shutdown reserve error"))), w)
  | Ready (Ok _) => (Ready (Ok tt), (send_item (OutBody [] true) w).2)
  end.

(** [tokio::io::join(reader, writer)]. *)
Record H3Stream : Type := join { h3_reader : H3StreamReader; h3_writer : H3StreamWriter }.

#[export] Instance H3Stream_read : AsyncRead H3Stream := fun n s =>
  let '(p, r) := reader_poll_read n (h3_reader s) in (p, join r (h3_writer s)).

#[export] Instance H3Stream_write : AsyncWrite H3Stream := {|
  poll_write := fun data s =>
    let '(p, w) := writer_poll_write data (h3_writer s) in (p, join (h3_reader s) w);
  poll_flush := fun s =>
    let '(p, w) := writer_poll_flush (h3_writer s) in (p, join (h3_reader s) w);
  poll_shutdown := fun s =>
    let '(p, w) := writer_poll_shutdown (h3_writer s) in (p, join (h3_reader s) w)
|}.

(** ** What is still to be delivered *)

(** The bodies of a channel up to the first that ends the stream. *)
Fixpoint bodies (frames : list InboundFrame) : bytes :=
  match frames with
  | [] => []
  | Body data fin :: frames => data ++ (if fin then [] else bodies frames)
  | Datagram _ :: frames => bodies frames
  end.

Fixpoint has_fin (frames : list InboundFrame) : bool :=
  match frames with
  | [] => false
  | Body _ fin :: frames => fin || has_fin frames
  | Datagram _ :: frames => has_fin frames
  end.

Definition pending_bytes (r : H3StreamReader) : bytes :=
  default [] (buf r) ++ (if seen_fin r then [] else bodies (recv r)).

(** The stream is known to end: with the frames queued, or because the driver is
    gone. *)
Definition fin_known (r : H3StreamReader) : bool := seen_fin r || has_fin (recv r).
Definition ended (r : H3StreamReader) : bool := fin_known r || closed r.

Definition frame_ok (fr : InboundFrame) : Prop :=
  match fr with Body data _ | Datagram data => Forall is_u8 data end.

Definition reader_ok (r : H3StreamReader) : Prop :=
  Forall frame_ok (recv r) /\ Forall is_u8 (default [] (buf r)).

Lemma is_empty_default (data : bytes) : default [] (if is_empty data then None else Some data) = data.
Proof. by destruct data. Qed.

(** What one poll does, from the state [s] to [r]. *)
Definition read_post (n : nat) (s : H3StreamReader) (p : poll (io_result bytes)) (r : H3StreamReader) : Prop :=
  (reader_ok s -> reader_ok r) /\ length (read_of p) <= n
  /\ pending_bytes s = read_of p ++ pending_bytes r /\ delivered r = delivered s ++ read_of p
  /\ fin_known r = fin_known s /\ closed r = closed s
  /\ match p with
     | Pending => pending_bytes s = [] /\ ended s = false
     | Ready (Ok bs) => 0 < n -> bs = [] -> pending_bytes s = [] /\ ended s = true
     | Ready (Err _) => False
     end.

Lemma serve_post n frames c x b f d p r :
  serve n frames c (x :: b) f d = (p, r) -> read_post n (mkReader frames c (Some (x :: b)) f d) p r.
Proof.
  unfold serve. assert (length (x :: b) `min` n <= n) as Hle by apply Nat.le_min_r.
  assert (0 < n -> length (x :: b) `min` n <> 0) as Hne by (destruct n; [lia|done]).
  revert Hle Hne. generalize (length (x :: b) `min` n). intros len Hle Hne [= <- <-].
  unfold read_post. cbn [read_of].
  assert (forall l : bytes, default [] (if is_empty l then None else Some l) = l) as Hd by by intros [].
  unfold reader_ok, pending_bytes, ended, fin_known. cbn [recv buf seen_fin closed delivered default from_option id].
  rewrite Hd, app_assoc, take_drop. split_and!; try done.
  - intros [? ?]. split; [done|]. by apply Forall_drop.
  - rewrite length_take. lia.
  - intros Hn. by destruct len; [destruct (Hne Hn)|].
Qed.

(** A turn that only changes the representation. *)
Lemma read_post_eq n s s' p r :
  read_post n s' p r -> (reader_ok s -> reader_ok s') -> pending_bytes s = pending_bytes s' ->
  delivered s = delivered s' -> fin_known s = fin_known s' -> closed s = closed s' -> read_post n s p r.
Proof.
  unfold read_post, ended. intros (? & ? & ? & ? & ? & ? & ?) ? -> -> -> ->. split_and!; auto.
Qed.

Lemma read_frames_post n frames c b f d p r :
  read_frames n frames c b f d = (p, r) -> read_post n (mkReader frames c b f d) p r.
Proof.
  revert b f. induction frames as [|fr frames IH]; intros b f; simpl.
  - destruct b as [[|x b]|]; [|by apply serve_post|]; destruct f, c; intros [= <- <-];
      unfold read_post, reader_ok, pending_bytes, ended, fin_known; simpl; rewrite ?app_nil_r; split_and!; auto with lia.
  - destruct b as [[|x b]|]; [|by apply serve_post|]; destruct f.
    all: try (intros [= <- <-]; unfold read_post, reader_ok, pending_bytes, ended, fin_known; simpl;
      rewrite ?app_nil_r; split_and!; auto with lia; fail).
    all: destruct fr as [data fin|data]; intros Hr; apply IH in Hr.
    all: eapply read_post_eq; [exact Hr|..]; unfold reader_ok, pending_bytes, ended, fin_known; simpl;
      rewrite ?is_empty_default; try done; try (by destruct fin).
    all: intros [[Hf Hrest]%Forall_cons _]; by split.
Qed.

(** ** The stream implements the interfaces *)

Definition sent_bytes (frames : list OutboundFrame) : bytes :=
  concat (map (fun fr => match fr with OutBody data _ => data end) frames).

Definition sent_fin (frames : list OutboundFrame) : bool :=
  existsb (fun fr => match fr with OutBody _ fin => fin end) frames.

Lemma sent_bytes_snoc frames data fin : sent_bytes (frames ++ [OutBody data fin]) = sent_bytes frames ++ data.
Proof. unfold sent_bytes. rewrite map_app, concat_app. simpl. by rewrite app_nil_r. Qed.

Lemma sent_fin_snoc frames data fin : sent_fin (frames ++ [OutBody data fin]) = sent_fin frames || fin.
Proof. unfold sent_fin. rewrite existsb_app. simpl. by rewrite orb_false_r. Qed.

#[export] Program Instance H3Stream_read_spec : ReadSpec H3Stream := {|
  rd_ok := fun s => reader_ok (h3_reader s);
  rd_log := fun s => delivered (h3_reader s)
|}.
Next Obligation.
  unfold poll_read, H3Stream_read, reader_poll_read. intros n [r w] p s' Hok Hp. simpl in *.
  destruct (read_frames _ _ _ _ _ _) as [q r'] eqn:E. injection Hp as <- <-.
  apply read_frames_post in E as (H1 & H2 & H3 & H4 & _). cbn [h3_reader] in *.
  destruct r as [fs c b f d]. cbn [recv closed buf seen_fin delivered] in *.
  split_and!; auto. apply H1 in Hok as Hok'. destruct Hok as [Hf Hb]. cbn [recv] in Hf.
  assert (Forall is_u8 (pending_bytes (mkReader fs c b f d))) as Hall.
  { unfold pending_bytes. cbn [buf seen_fin recv]. apply Forall_app. split; [done|].
    destruct f; [done|]. clear -Hf. induction Hf as [|fr fs0 Hfr _ IH]; cbn [bodies]; [apply Forall_nil_2|].
    destruct fr as [data [|]|data]; cbn [frame_ok] in Hfr; rewrite ?Forall_app; auto. }
  rewrite H3 in Hall. by apply Forall_app in Hall as [? _].
Qed.

#[export] Program Instance H3Stream_write_spec : WriteSpec H3Stream := {|
  wr_ok := fun _ => True;
  wr_log := fun s => sent_bytes (queued (h3_writer s));
  wr_fin := fun s => sent_fin (queued (h3_writer s))
|}.
Next Obligation.
  intros data [r w] p s' _. simpl. unfold writer_poll_write, poll_reserve, send_item.
  destruct (open w); simpl; [destruct (slots w =? 0)|]; simpl; intros [= <- <-]; simpl.
  - done.
  - rewrite sent_bytes_snoc, sent_fin_snoc, firstn_all, orb_false_r. by split_and!.
  - split_and!; [done| |done]. exists 0. by rewrite take_0, app_nil_r.
Qed.
Next Obligation. intros [r w] p s' _. simpl. by intros [= <- <-]. Qed.
Next Obligation.
  intros [r w] p s' _. simpl. unfold writer_poll_shutdown, poll_reserve, send_item.
  destruct (open w); simpl; [destruct (slots w =? 0)|]; simpl; intros [= <- <-]; simpl; try by split_and!.
  rewrite sent_bytes_snoc, sent_fin_snoc, app_nil_r, orb_true_r. by split_and!.
Qed.

#[export] Instance H3Stream_duplex : DuplexSpec H3Stream.
Proof.
  split.
  - intros n [r w] p s' _ _. unfold poll_read, H3Stream_read. simpl.
    destruct (reader_poll_read n r). by intros [= <- <-].
  - intros data [r w] p s' Hr _. simpl. destruct (writer_poll_write data w). by intros [= <- <-].
  - intros [r w] p s' Hr _. simpl. by intros [= <- <-].
  - intros [r w] p s' Hr _. simpl. destruct (writer_poll_shutdown w). by intros [= <- <-].
Qed.

#[export] Program Instance H3Stream_finite : ReadFinite H3Stream := {|
  rd_avail := fun s => length (pending_bytes (h3_reader s))
|}.
Next Obligation.
  unfold poll_read, H3Stream_read, reader_poll_read. intros n [r w] bs s' Hp Hbs. simpl in *.
  destruct (read_frames _ _ _ _ _ _) as [q r'] eqn:E. injection Hp as -> <-.
  apply read_frames_post in E as (_ & _ & H3 & _). destruct r as [fs c b f d].
  cbn [recv closed buf seen_fin delivered h3_reader read_of] in *. rewrite H3, length_app.
  destruct bs; [done|]. simpl. lia.
Qed.

(** ** A stream and its driver *)

(** [frames] is all that the driver queued, [c] whether it dropped the sender. *)
Inductive reader_run : list InboundFrame -> H3StreamReader -> Prop :=
  | rr_new : reader_run [] (Reader_new [] false)
  | rr_frame frames r fr :
      reader_run frames r -> closed r = false ->
      reader_run (frames ++ [fr]) (mkReader (recv r ++ [fr]) false (buf r) (seen_fin r) (delivered r))
  | rr_close frames r :
      reader_run frames r -> reader_run frames (mkReader (recv r) true (buf r) (seen_fin r) (delivered r))
  | rr_poll frames r n p r' :
      reader_run frames r -> reader_poll_read n r = (p, r') -> reader_run frames r'.

Lemma bodies_snoc frames fr :
  bodies (frames ++ [fr]) = bodies frames ++ (if has_fin frames then [] else bodies [fr]).
Proof.
  induction frames as [|[data [|]|data] frames IH]; cbn [bodies has_fin app orb]; rewrite ?app_nil_r; [done|done| |done].
  rewrite IH. by rewrite app_assoc.
Qed.

Lemma has_fin_snoc frames fr : has_fin (frames ++ [fr]) = has_fin frames || has_fin [fr].
Proof.
  induction frames as [|[data fin|data] frames IH]; cbn [has_fin app]; [done| |done].
  by rewrite IH, orb_assoc.
Qed.

Lemma reader_poll_post n r p r' : reader_poll_read n r = (p, r') -> read_post n r p r'.
Proof. destruct r. apply read_frames_post. Qed.

Lemma reader_run_inv frames r :
  reader_run frames r ->
  delivered r ++ pending_bytes r = bodies frames /\ fin_known r = has_fin frames.
Proof.
  induction 1 as [|frames r fr H [IH1 IH2] Hc|frames r H IH|frames r n p r' H [IH1 IH2] Hp]; [done| |done|].
  - rewrite bodies_snoc, has_fin_snoc, <- IH1, <- IH2. unfold pending_bytes, fin_known.
    cbn [delivered buf seen_fin recv]. destruct (seen_fin r); cbn [orb]; [by rewrite !app_nil_r|].
    rewrite bodies_snoc, has_fin_snoc, !app_assoc. done.
  - apply reader_poll_post in Hp as (_ & _ & Hp & Hd & Hf & _). rewrite Hf, Hd, <- app_assoc, <- Hp. done.
Qed.

(** An HTTP/3 stream is read faithfully: whatever the sizes of frames and
    polls, and wherever the driver's progress falls between them, what was
    delivered is a prefix of the bodies up to the one that ends the stream; a
    poll waits only when all of it was delivered and the end is not known, and
    reports the end only when all was delivered and the stream was ended by the
    client or abandoned by the driver. *)
Theorem h3_read_stream frames r n p r' :
  reader_run frames r -> reader_poll_read n r = (p, r') ->
  (exists rest, bodies frames = delivered r' ++ rest)
  /\ delivered r' = delivered r ++ read_of p
  /\ match p with
     | Pending => delivered r' = bodies frames /\ has_fin frames = false /\ closed r = false
     | Ready (Ok bs) =>
         0 < n -> bs = [] -> delivered r' = bodies frames /\ (has_fin frames || closed r) = true
     | Ready (Err _) => False
     end.
Proof.
  intros Hr Hp. apply reader_run_inv in Hr as [H1 H2].
  apply reader_poll_post in Hp as (_ & _ & Hb & Hd & Hf & Hc & Hm). split_and!; [|done|].
  - exists (pending_bytes r'). by rewrite Hd, <- app_assoc, <- Hb.
  - destruct p as [|[bs|e]]; [| |done]; unfold ended in Hm; rewrite H2 in Hm.
    + destruct Hm as [Hm Ho]. apply orb_false_iff in Ho. rewrite Hm, app_nil_r in H1.
      rewrite Hd. simpl. rewrite app_nil_r. by split.
    + intros Hn ->. destruct (Hm Hn eq_refl) as [Hm' Ho]. rewrite Hm', app_nil_r in H1.
      rewrite Hd. simpl. by rewrite app_nil_r.
Qed.

(** Two frames, the second one the last, read by a poll of two bytes. *)
Definition ex_frames : list InboundFrame := [Body [1; 2; 3]%Z false; Datagram [9]%Z; Body [4]%Z true].

Definition ex_reader : H3StreamReader := mkReader ex_frames false None false [].

Lemma ex_reader_run : reader_run ex_frames ex_reader.
Proof.
  apply (rr_frame [Body [1; 2; 3]%Z false; Datagram [9]%Z]
    (mkReader [Body [1; 2; 3]%Z false; Datagram [9]%Z] false None false [])); [|done].
  apply (rr_frame [Body [1; 2; 3]%Z false] (mkReader [Body [1; 2; 3]%Z false] false None false [])); [|done].
  apply (rr_frame [] (Reader_new [] false)); [apply rr_new|done].
Qed.

Lemma h3_read_stream_witness :
  (exists rest, bodies ex_frames = [1; 2]%Z ++ rest) /\ [1; 2]%Z = [] ++ [1; 2]%Z
  /\ (0 < 2 -> [1; 2]%Z = [] -> [1; 2]%Z = bodies ex_frames /\ (has_fin ex_frames || false) = true).
Proof.
  exact (h3_read_stream ex_frames ex_reader 2 (Ready (Ok [1; 2]%Z))
    (mkReader [Datagram [9]%Z; Body [4]%Z true] false (Some [3]%Z) false [1; 2]%Z) ex_reader_run eq_refl).
Defined.
