(* ===== verification/Relay.v ===== *)
(** * [src/core/relay.rs]: the bidirectional relay

    [Dir] is [DirectionalBuffer] with [poll_copy]; [Bidi] is
    [copy_bidirectional_with_stats]: its poll function as a step on the two
    streams, the two buffers and the deadline of the idle timer, and the runs
    of the task that polls it while its environment changes the streams. *)

From S2P Require Import Prelude RustStr AsyncIo.
Open Scope nat_scope.

Inductive RelayTermination : Type := Completed | IdleTimeout | Error.

Definition RelayTermination_fmt (t : RelayTermination) : rstr :=
  match t with
  | Completed => str "completed"
  | IdleTimeout => str "idle_timeout"
  | Error => str "error"
  end.

Record CopyResult : Type := {
  cr_a_to_b : Z;
  cr_b_to_a : Z;
  cr_completed : bool;
  cr_termination : RelayTermination;
  cr_client_eof : bool;
  cr_remote_eof : bool
}.

(** ** One direction *)

Record DirectionalBuffer : Type := mkDir {
  buf : bytes;
  pos : nat;
  cap : nat;
  amt : Z;
  read_done : bool;
  shutdown_done : bool;
  suppress_shutdown : bool
}.

Definition Dir_new (buf_size : nat) (suppress : bool) : DirectionalBuffer := {|
  buf := replicate buf_size 0%Z;
  pos := 0;
  cap := 0;
  amt := 0;
  read_done := false;
  shutdown_done := false;
  suppress_shutdown := suppress
|}.

Definition is_done (d : DirectionalBuffer) : bool := shutdown_done d.
Definition has_read_eof (d : DirectionalBuffer) : bool := read_done d.
Definition bytes_transferred (d : DirectionalBuffer) : Z := amt d.

Definition set_range (d : DirectionalBuffer) (b : bytes) (p c : nat) (a : Z) : DirectionalBuffer :=
  mkDir b p c a (read_done d) (shutdown_done d) (suppress_shutdown d).

Definition set_read_done (d : DirectionalBuffer) : DirectionalBuffer :=
  mkDir (buf d) (pos d) (cap d) (amt d) true (shutdown_done d) (suppress_shutdown d).

Definition set_shutdown_done (d : DirectionalBuffer) : DirectionalBuffer :=
  mkDir (buf d) (pos d) (cap d) (amt d) (read_done d) true (suppress_shutdown d).

(** The bytes read and not yet written: [buf[pos..cap]]. *)
Definition buffered (d : DirectionalBuffer) : bytes := take (cap d - pos d) (drop (pos d) (buf d)).

Section PollCopy.
Context {R W : Type} `{!AsyncRead R, !AsyncWrite W}.

(** The writer is pending: read ahead into the free part of the buffer. *)
Definition prefetch (d : DirectionalBuffer) (r : R) : DirectionalBuffer * R :=
  if negb (read_done d) && (cap d <? length (buf d)) then
    let '(p, r) := poll_read (length (buf d) - cap d) r in
    match p with
    | Ready (Ok bs) =>
        if length bs =? 0 then (set_read_done d, r)
        else (set_range d (splice (cap d) bs (buf d)) (pos d) (cap d + length bs) (amt d), r)
    | Ready (Err _) => (set_read_done d, r)
    | Pending => (d, r)
    end
  else (d, r).

(** [while self.pos < self.cap]; [inl] returns from [poll_copy], [inr] leaves
    the loop.  Every turn that goes on writes a byte of the buffer. *)
Fixpoint write_buffered (fuel : nat) (d : DirectionalBuffer) (r : R) (w : W)
    : (poll (io_result unit) * DirectionalBuffer * R * W) + (DirectionalBuffer * W) :=
  if pos d <? cap d then
    match fuel with
    | O => inl (Pending, d, r, w)
    | S fuel =>
        let '(p, w) := poll_write (buffered d) w in
        match p with
        | Ready (Ok 0) => inl (Ready (Err (mk_io_error WriteZero (str "write zero bytes"))), d, r, w)
        | Ready (Ok i) =>
            write_buffered fuel
              (set_range d (buf d) (pos d + i) (cap d) (u64_wrap (amt d + Z.of_nat i))) r w
        | Ready (Err e) => inl (Ready (Err e), d, r, w)
        | Pending => let '(d, r) := prefetch d r in inl (Pending, d, r, w)
        end
    end
  else inr (d, w).

(** The reader is at its end and nothing is buffered. *)
Definition finish_dir (d : DirectionalBuffer) (r : R) (w : W)
    : poll (io_result unit) * DirectionalBuffer * R * W :=
  if suppress_shutdown d then (Ready (Ok tt), set_shutdown_done d, r, w)
  else
    let '(p, w) := poll_shutdown w in
    match p with
    | Pending => (Pending, d, r, w)
    | Ready _ => (Ready (Ok tt), set_shutdown_done d, r, w)
    end.

(** All is written: finish, or read and go round the loop ([again]). *)
Definition refill
    (again : DirectionalBuffer -> R -> W -> option (poll (io_result unit) * DirectionalBuffer * R * W))
    (d : DirectionalBuffer) (r : R) (w : W)
    : option (poll (io_result unit) * DirectionalBuffer * R * W) :=
  if read_done d then Some (finish_dir d r w)
  else
    let '(p, r) := poll_read (length (buf d)) r in
    match p with
    | Pending => Some (Pending, d, r, w)
    | Ready (Err e) => Some (Ready (Err e), d, r, w)
    | Ready (Ok bs) =>
        if length bs =? 0 then again (set_read_done d) r w
        else again (set_range d (splice 0 bs (buf d)) 0 (length bs) (amt d)) r w
    end.

Fixpoint poll_copy_loop (fuel : nat) (d : DirectionalBuffer) (r : R) (w : W)
    : option (poll (io_result unit) * DirectionalBuffer * R * W) :=
  match fuel with
  | O => None
  | S fuel =>
      match write_buffered (cap d - pos d) d r w with
      | inl res => Some res
      | inr (d, w) =>
          let '(p, w) := poll_flush w in
          match p with
          | Ready (Err e) => Some (Ready (Err e), d, r, w)
          | Ready (Ok _) | Pending => refill (poll_copy_loop fuel) d r w
          end
      end
  end.

Definition poll_copy (fuel : nat) (d : DirectionalBuffer) (r : R) (w : W)
    : option (poll (io_result unit) * DirectionalBuffer * R * W) :=
  if shutdown_done d then Some (Ready (Ok tt), d, r, w) else poll_copy_loop fuel d r w.

End PollCopy.

(** ** Both directions *)

Record Relay (A B : Type) : Type := mkRelay {
  a_to_b : DirectionalBuffer;
  b_to_a : DirectionalBuffer;
  side_a : A;
  side_b : B;
  idle_sleep : Z
}.
Arguments mkRelay {A B}.
Arguments a_to_b {A B}.
Arguments b_to_a {A B}.
Arguments side_a {A B}.
Arguments side_b {A B}.
Arguments idle_sleep {A B}.

Section Bidi.
Context {A B : Type} `{!AsyncRead A, !AsyncWrite A, !AsyncRead B, !AsyncWrite B}.

(** [tokio::time::Sleep]: whether a sleep until the deadline is ready now. *)
Variable sleep_ready : Z -> Z -> bool.

Definition relay_new (buffer_size : nat) (suppress_a_to_b_shutdown : bool) (idle_timeout now : Z)
    (a : A) (b : B) : Relay A B := {|
  a_to_b := Dir_new buffer_size suppress_a_to_b_shutdown;
  b_to_a := Dir_new buffer_size false;
  side_a := a;
  side_b := b;
  idle_sleep := (now + idle_timeout)%Z
|}.

(** The two halves of the poll function: [None] is out of fuel, [Some (inl e)]
    the error that ends the relay. *)
Definition poll_a_to_b (fuel : nat) (st : Relay A B) : option (io_error * Relay A B + Relay A B) :=
  if is_done (a_to_b st) then Some (inr st)
  else
    match poll_copy fuel (a_to_b st) (side_a st) (side_b st) with
    | None => None
    | Some (p, d, a, b) =>
        let st := mkRelay d (b_to_a st) a b (idle_sleep st) in
        match p with
        | Ready (Err e) => Some (inl (e, st))
        | _ => Some (inr st)
        end
    end.

Definition poll_b_to_a (fuel : nat) (st : Relay A B) : option (io_error * Relay A B + Relay A B) :=
  if is_done (b_to_a st) then Some (inr st)
  else
    match poll_copy fuel (b_to_a st) (side_b st) (side_a st) with
    | None => None
    | Some (p, d, b, a) =>
        let st := mkRelay (a_to_b st) d a b (idle_sleep st) in
        match p with
        | Ready (Err e) => Some (inl (e, st))
        | _ => Some (inr st)
        end
    end.

(** Whether a poll that went from [st0] to [st] moved bytes. *)
Definition progressed (st0 st : Relay A B) : bool :=
  (bytes_transferred (a_to_b st0) <? bytes_transferred (a_to_b st))%Z
  || (bytes_transferred (b_to_a st0) <? bytes_transferred (b_to_a st))%Z.

(** The closure given to [poll_fn], with the value of [termination]. *)
Definition relay_poll (fuel : nat) (idle_timeout now : Z) (st0 : Relay A B)
    : option (poll (io_result bool) * RelayTermination * Relay A B) :=
  match poll_a_to_b fuel st0 with
  | None => None
  | Some (inl (e, st)) => Some (Ready (Err e), Error, st)
  | Some (inr st1) =>
      match poll_b_to_a fuel st1 with
      | None => None
      | Some (inl (e, st)) => Some (Ready (Err e), Error, st)
      | Some (inr st2) =>
          let st :=
            if progressed st0 st2
            then mkRelay (a_to_b st2) (b_to_a st2) (side_a st2) (side_b st2) (now + idle_timeout)%Z
            else st2 in
          if is_done (a_to_b st) && is_done (b_to_a st) then Some (Ready (Ok true), Completed, st)
          else if sleep_ready (idle_sleep st) now then Some (Ready (Ok false), IdleTimeout, st)
          else Some (Pending, Completed, st)
      end
  end.

(** After the poll function returned: the calls of the statistics collector,
    uploads first, and the result. *)
Definition record_stats (st : Relay A B) : option Z * option Z :=
  let a_to_b_bytes := bytes_transferred (a_to_b st) in
  let b_to_a_bytes := bytes_transferred (b_to_a st) in
  ((if (0 <? a_to_b_bytes)%Z then Some a_to_b_bytes else None),
   (if (0 <? b_to_a_bytes)%Z then Some b_to_a_bytes else None)).

Definition relay_result (r : io_result bool) (t : RelayTermination) (st : Relay A B)
    : io_result CopyResult :=
  match r with
  | Ok completed => Ok {|
      cr_a_to_b := bytes_transferred (a_to_b st);
      cr_b_to_a := bytes_transferred (b_to_a st);
      cr_completed := completed;
      cr_termination := t;
      cr_client_eof := has_read_eof (a_to_b st);
      cr_remote_eof := has_read_eof (b_to_a st) |}
  | Err e => Err e
  end.
End Bidi.

(** ** What a direction promises *)

Section DirSpec.
Context {R W : Type} `{!AsyncRead R, !AsyncWrite W, !ReadSpec R, !WriteSpec W}.
Implicit Types d : DirectionalBuffer.

(** Relative to what the reader had delivered ([r0]) and the writer accepted
    ([w0], [fin0]) when the relay started: what was read is what was written
    followed by what is buffered, and the end of stream went out only after
    all of it. *)
Record dir_inv (r0 w0 : bytes) (fin0 : bool) d (r : R) (w : W) : Prop := {
  di_range : pos d <= cap d <= length (buf d);
  di_r : rd_ok r;
  di_w : wr_ok w;
  di_log : exists sent, rd_log r = r0 ++ sent ++ buffered d /\ wr_log w = w0 ++ sent
    /\ amt d = u64_wrap (Z.of_nat (length sent));
  di_done : shutdown_done d = true -> read_done d = true /\ pos d = cap d;
  di_fin : wr_fin w = true ->
    fin0 = true \/ (read_done d = true /\ pos d = cap d /\ suppress_shutdown d = false)
}.

(** What holds even after an error: nothing was invented or reordered. *)
Definition dir_prefix (r0 w0 : bytes) (r : R) (w : W) : Prop :=
  exists sent rest, rd_log r = r0 ++ sent ++ rest /\ wr_log w = w0 ++ sent.

(** And the counter is the bytes accepted, but for [more], what a write that
    failed had taken. *)
Definition dir_sent (r0 w0 : bytes) d (r : R) (w : W) : Prop :=
  exists sent more rest, rd_log r = r0 ++ sent ++ more ++ rest /\ wr_log w = w0 ++ sent ++ more
  /\ amt d = u64_wrap (Z.of_nat (length sent)).

Definition dir_post r0 w0 fin0 (p : poll (io_result unit)) d r w : Prop :=
  match p with
  | Ready (Err _) => dir_sent r0 w0 d r w
  | _ => dir_inv r0 w0 fin0 d r w
  end.

Lemma dir_inv_prefix r0 w0 fin0 d r w : dir_inv r0 w0 fin0 d r w -> dir_prefix r0 w0 r w.
Proof. intros [_ _ _ (sent & ? & ? & _)]. by exists sent, (buffered d). Qed.

Lemma dir_inv_sent r0 w0 fin0 d r w : dir_inv r0 w0 fin0 d r w -> dir_sent r0 w0 d r w.
Proof.
  intros [_ _ _ (sent & HR & HW & Ha) _ _]. exists sent, [], (buffered d). by rewrite app_nil_r.
Qed.

Lemma dir_sent_prefix r0 w0 d r w : dir_sent r0 w0 d r w -> dir_prefix r0 w0 r w.
Proof. intros (sent & more & rest & HR & HW & _). exists (sent ++ more), rest. by rewrite <- app_assoc. Qed.

Lemma buffered_nil d : pos d = cap d -> buffered d = [].
Proof. intros H. unfold buffered. by rewrite H, Nat.sub_diag, take_0. Qed.

Lemma buffered_length d : pos d <= cap d <= length (buf d) -> length (buffered d) = cap d - pos d.
Proof. intros H. unfold buffered. rewrite length_take, length_drop. lia. Qed.

Lemma dir_inv_new (n : nat) (s : bool) r w :
  rd_ok r -> wr_ok w -> dir_inv (rd_log r) (wr_log w) (wr_fin w) (Dir_new n s) r w.
Proof.
  intros Hr Hw. split; simpl; [lia|done|done| |done|by left].
  exists []. by rewrite buffered_nil, !app_nil_r.
Qed.

(** The writer took the first [i] bytes of the buffer. *)
Lemma dir_inv_written r0 w0 fin0 d r w w' i :
  dir_inv r0 w0 fin0 d r w -> pos d < cap d -> i <= length (buffered d) ->
  wr_ok w' -> wr_log w' = wr_log w ++ take i (buffered d) -> wr_fin w' = wr_fin w ->
  dir_inv r0 w0 fin0
    (set_range d (buf d) (pos d + i) (cap d) (u64_wrap (amt d + Z.of_nat i))) r w'.
Proof.
  intros [Hrange Hr Hw (sent & HR & HW & Ha) Hdone Hfin] Hlt Hi Hw' HL HF.
  rewrite buffered_length in Hi by done. split; simpl; [try lia|done|done|..].
  - exists (sent ++ take i (buffered d)). rewrite HL, HW, HR. unfold buffered. simpl.
    split_and!; [|by rewrite app_assoc|].
    + rewrite take_take, Nat.min_l by lia.
      rewrite <- drop_drop, <- app_assoc.
      replace (cap d - pos d) with (i + (cap d - (pos d + i))) at 1 by lia.
      by rewrite take_take_drop.
    + rewrite length_app, length_take, length_take, length_drop, Ha. unfold u64_wrap.
      rewrite Zplus_mod_idemp_l. f_equal. lia.
  - intros Hd. destruct (Hdone Hd). lia.
  - rewrite HF. intros Hf. destruct (Hfin Hf) as [|(? & ? & _)]; [by left|lia].
Qed.

(** The reader filled the buffer from [cap] on. *)
Lemma dir_inv_read r0 w0 fin0 d r r' w bs :
  dir_inv r0 w0 fin0 d r w -> read_done d = false -> length bs <= length (buf d) - cap d ->
  rd_ok r' -> rd_log r' = rd_log r ++ bs ->
  dir_inv r0 w0 fin0
    (set_range d (splice (cap d) bs (buf d)) (pos d) (cap d + length bs) (amt d)) r' w.
Proof.
  intros [Hrange Hr Hw (sent & HR & HW & Ha) Hdone Hfin] Hd Hbs Hr' HL.
  split; simpl; [try lia|done|done|..].
  - rewrite splice_length by lia. lia.
  - exists sent. split_and!; try done. rewrite HL, HR, <- !app_assoc. do 2 f_equal.
    unfold buffered. simpl. rewrite !take_drop_swap by lia.
    rewrite take_splice by lia. rewrite drop_app_le; [done|]. rewrite length_take. lia.
  - intros Hs. destruct (Hdone Hs). congruence.
  - intros Hf. destruct (Hfin Hf) as [|(? & _)]; [by left|congruence].
Qed.

(** All is written: the reader fills the buffer from its start. *)
Lemma dir_inv_refill r0 w0 fin0 d r r' w bs :
  dir_inv r0 w0 fin0 d r w -> pos d = cap d -> read_done d = false ->
  length bs <= length (buf d) -> rd_ok r' -> rd_log r' = rd_log r ++ bs ->
  dir_inv r0 w0 fin0 (set_range d (splice 0 bs (buf d)) 0 (length bs) (amt d)) r' w.
Proof.
  intros [Hrange Hr Hw (sent & HR & HW & Ha) Hdone Hfin] Hp Hd Hbs Hr' HL.
  split; simpl; [try lia|done|done|..].
  - rewrite splice_length by (simpl; lia). lia.
  - exists sent. split_and!; try done. rewrite HL, HR, (buffered_nil d Hp), app_nil_r.
    rewrite <- app_assoc. do 2 f_equal. unfold buffered. simpl. rewrite Nat.sub_0_r, drop_0.
    symmetry. apply (take_splice 0 bs (buf d)). simpl. lia.
  - intros Hs. destruct (Hdone Hs). congruence.
  - intros Hf. destruct (Hfin Hf) as [|(? & _)]; [by left|congruence].
Qed.

Lemma dir_inv_eof r0 w0 fin0 d r r' w :
  dir_inv r0 w0 fin0 d r w -> rd_ok r' -> rd_log r' = rd_log r ->
  dir_inv r0 w0 fin0 (set_read_done d) r' w.
Proof.
  intros [Hrange Hr Hw (sent & HR & HW & Ha) Hdone Hfin] Hr' HL.
  split; simpl; [done|done|done|..].
  - exists sent. by rewrite HL.
  - intros Hs. split; [done|]. by apply Hdone.
  - intros Hf. destruct (Hfin Hf) as [|(? & ? & ?)]; [by left|right; by split_and!].
Qed.

Lemma dir_inv_shutdown_done r0 w0 fin0 d r w :
  dir_inv r0 w0 fin0 d r w -> pos d = cap d -> read_done d = true ->
  dir_inv r0 w0 fin0 (set_shutdown_done d) r w.
Proof.
  intros [Hrange Hr Hw Hlog Hdone Hfin] Hp Hd.
  split; simpl; [done|done|done|done|done|done].
Qed.

(** A writer whose state changed without accepting bytes. *)
Lemma dir_inv_writer r0 w0 fin0 d r w w' :
  dir_inv r0 w0 fin0 d r w -> wr_ok w' -> wr_log w' = wr_log w ->
  (wr_fin w' = true -> wr_fin w = true
    \/ (read_done d = true /\ pos d = cap d /\ suppress_shutdown d = false)) ->
  dir_inv r0 w0 fin0 d r w'.
Proof.
  intros [Hrange Hr Hw Hlog Hdone Hfin] Hw' HL HF. split; try done; [by rewrite HL|].
  intros Hf. destruct (HF Hf); [by apply Hfin|by right].
Qed.

Lemma prefetch_spec r0 w0 fin0 d r w d' r' :
  dir_inv r0 w0 fin0 d r w -> prefetch d r = (d', r') -> dir_inv r0 w0 fin0 d' r' w.
Proof.
  intros I. unfold prefetch. destruct (_ && _)%bool eqn:E; [|by intros [= <- <-]].
  bool_facts. destruct (poll_read _ r) as [p r1] eqn:Er.
  pose proof (rd_spec _ _ _ _ (di_r _ _ _ _ _ _ I) Er) as (Hok & Hn & _ & HL).
  destruct p as [|[bs|e]]; simpl in Hn, HL; rewrite ?app_nil_r in HL.
  - intros [= <- <-]. destruct I. by split; rewrite ?HL.
  - destruct (length bs =? 0) eqn:E0; bool_facts; intros [= <- <-].
    + apply length_zero_nil in E0 as ->. rewrite app_nil_r in HL. by eapply dir_inv_eof.
    + by eapply dir_inv_read.
  - intros [= <- <-]. by eapply dir_inv_eof.
Qed.

Lemma write_buffered_spec fuel r0 w0 fin0 d r w :
  dir_inv r0 w0 fin0 d r w -> cap d - pos d <= fuel ->
  match write_buffered fuel d r w with
  | inl (p, d', r', w') =>
      dir_post r0 w0 fin0 p d' r' w' /\ (p = Pending -> exists b s, (poll_write b s).1 = Pending)
  | inr (d', w') =>
      dir_inv r0 w0 fin0 d' r w' /\ pos d' = cap d' /\ read_done d' = read_done d
      /\ length (buf d') = length (buf d)
  end.
Proof.
  revert d w. induction fuel as [|fuel IH]; intros d w I Hf; cbn [write_buffered];
    destruct (pos d <? cap d) eqn:E; bool_facts;
    try (pose proof (di_range _ _ _ _ _ _ I); split_and!; done || lia).
  pose proof (di_range _ _ _ _ _ _ I) as Hrange.
  destruct (poll_write (buffered d) w) as [p w1] eqn:Ew.
  pose proof (wr_spec _ _ _ _ (di_w _ _ _ _ _ _ I) Ew) as (Hok & Hpost & Hfin).
  destruct p as [|[[|i]|e]]; cbn [write_post] in Hpost.
  - destruct (prefetch d r) as [d1 r1] eqn:Ep.
    assert (dir_inv r0 w0 fin0 d r w1) as I1
      by (eapply dir_inv_writer; [exact I|done|done|]; rewrite Hfin; by left).
    eapply prefetch_spec in Ep; [|exact I1]. split; [exact Ep|]. intros _.
    eexists _, _. by rewrite Ew.
  - rewrite take_0, app_nil_r in Hpost. destruct Hpost as [_ HL]. split; [|done].
    eapply dir_inv_sent, dir_inv_writer; [exact I|done|done|]. rewrite Hfin. by left.
  - destruct Hpost as [Hi HL]. rewrite buffered_length in Hi by done.
    specialize (IH (set_range d (buf d) (pos d + S i) (cap d)
      (u64_wrap (amt d + Z.of_nat (S i)))) w1).
    apply IH; [|simpl; lia]. eapply dir_inv_written; try done. by rewrite buffered_length.
  - split; [|done]. destruct Hpost as [k HL]. destruct I as [_ _ _ (sent & HR & HW & Ha) _ _].
    exists sent, (take k (buffered d)), (drop k (buffered d)).
    rewrite HL, HW, HR, <- !app_assoc. by rewrite take_drop.
Qed.

Lemma finish_dir_spec r0 w0 fin0 d r w p d' r' w' :
  dir_inv r0 w0 fin0 d r w -> pos d = cap d -> read_done d = true ->
  finish_dir d r w = (p, d', r', w') ->
  dir_inv r0 w0 fin0 d' r' w' /\ (forall e, p <> Ready (Err e))
  /\ (p = Pending -> exists s, (poll_shutdown s).1 = Pending).
Proof.
  intros I Hp Hd. unfold finish_dir. destruct (suppress_shutdown d) eqn:Es.
  { intros [= <- <- <- <-]. split_and!; try done. by apply dir_inv_shutdown_done. }
  destruct (poll_shutdown w) as [q w1] eqn:Ew.
  pose proof (shutdown_spec _ _ _ (di_w _ _ _ _ _ _ I) Ew) as (Hok & HL & _ & _).
  assert (dir_inv r0 w0 fin0 d r w1) as I1 by (eapply dir_inv_writer; [exact I|done|done|auto]).
  destruct q as [|q]; intros [= <- <- <- <-]; split_and!; try done.
  - intros _. exists w. by rewrite Ew.
  - by apply dir_inv_shutdown_done.
Qed.

(** The reads the loop can still make. *)
Definition dir_measure `{!ReadFinite R} d (r : R) : nat :=
  if read_done d then 0 else S (rd_avail r).

(** It returns, keeps the invariant, and is pending only if a stream is. *)
Definition returns_ok (r0 w0 : bytes) (fin0 : bool)
    (res : option (poll (io_result unit) * DirectionalBuffer * R * W)) : Prop :=
  exists p d' r' w', res = Some (p, d', r', w') /\ dir_post r0 w0 fin0 p d' r' w'
  /\ (p = Pending -> (exists b (s : W), (poll_write b s).1 = Pending)
      \/ (exists s : W, (poll_shutdown s).1 = Pending)
      \/ (exists n (s : R), (poll_read n s).1 = Pending)).

Lemma refill_spec `{!ReadFinite R} again r0 w0 fin0 d r w :
  (forall d' r' w', dir_inv r0 w0 fin0 d' r' w' -> dir_measure d' r' < dir_measure d r ->
    returns_ok r0 w0 fin0 (again d' r' w')) ->
  dir_inv r0 w0 fin0 d r w -> pos d = cap d -> returns_ok r0 w0 fin0 (refill again d r w).
Proof.
  intros IH I Hp. unfold refill. destruct (read_done d) eqn:Edone.
  { destruct (finish_dir d r w) as [[[p d3] r3] w3] eqn:E3.
    eapply finish_dir_spec in E3 as (I3 & Hne & Hpend); [|done..].
    eexists _, _, _, _. split; [done|]. split.
    - destruct p as [|[[]|e]]; [done|done|by destruct (Hne e)].
    - by right; left; auto. }
  destruct (poll_read (length (buf d)) r) as [p r2] eqn:Er.
  pose proof (rd_spec _ _ _ _ (di_r _ _ _ _ _ _ I) Er) as (Hok & Hn & _ & HL).
  destruct p as [|[bs|e]]; simpl in Hn, HL; rewrite ?app_nil_r in HL.
  - eexists _, _, _, _. split; [done|]. split; [by destruct I; split; rewrite ?HL|].
    intros _. right. right. eexists _, _. by rewrite Er.
  - destruct (length bs =? 0) eqn:E0; bool_facts; apply IH.
    + apply length_zero_nil in E0 as ->. rewrite app_nil_r in HL. by eapply dir_inv_eof.
    + unfold dir_measure. rewrite Edone. simpl. lia.
    + by eapply dir_inv_refill.
    + unfold dir_measure. simpl. rewrite Edone.
      pose proof (rd_avail_spec _ _ _ _ Er ltac:(by intros ->)). lia.
  - eexists _, _, _, _. split; [done|]. split; [|done].
    apply dir_inv_sent in I as (x & y & z & H). exists x, y, z. by rewrite HL.
Qed.

Lemma poll_copy_loop_spec `{!ReadFinite R} fuel r0 w0 fin0 d r w :
  dir_inv r0 w0 fin0 d r w -> dir_measure d r < fuel ->
  returns_ok r0 w0 fin0 (poll_copy_loop fuel d r w).
Proof.
  revert d r w. induction fuel as [|fuel IH]; intros d r w I Hf; [lia|]. cbn [poll_copy_loop].
  pose proof (write_buffered_spec (cap d - pos d) r0 w0 fin0 d r w I ltac:(lia)) as H1.
  destruct (write_buffered _ d r w) as [[[[p d1] r1] w1]|[d1 w1]].
  { destruct H1 as [H1 Hpend]. eexists _, _, _, _. split; [done|]. split; [done|]. by left; auto. }
  destruct H1 as (I1 & Hp1 & Hd1 & Hb1).
  destruct (poll_flush w1) as [pf w2] eqn:Ef.
  pose proof (flush_spec _ _ _ (di_w _ _ _ _ _ _ I1) Ef) as (Hok2 & HL2 & HF2).
  assert (dir_inv r0 w0 fin0 d1 r w2) as I2
    by (eapply dir_inv_writer; [exact I1|done|done|rewrite HF2; by left]).
  assert (returns_ok r0 w0 fin0 (refill (poll_copy_loop fuel) d1 r w2)) as HR.
  { apply refill_spec; [|done|done]. intros d' r' w' I' Hm. apply IH; [done|].
    assert (dir_measure d1 r = dir_measure d r) by (unfold dir_measure; by rewrite Hd1). lia. }
  destruct pf as [|[[]|e]]; [done|done|].
  eexists _, _, _, _. split; [done|]. split; [by eapply dir_inv_sent|done].
Qed.

Lemma poll_copy_spec `{!ReadFinite R} fuel r0 w0 fin0 d r w :
  dir_inv r0 w0 fin0 d r w -> dir_measure d r < fuel ->
  returns_ok r0 w0 fin0 (poll_copy fuel d r w).
Proof.
  intros I Hf. unfold poll_copy. destruct (shutdown_done d); [|by apply poll_copy_loop_spec].
  by exists (Ready (Ok tt)), d, r, w.
Qed.
End DirSpec.

(** More fuel changes nothing. *)
Lemma poll_copy_mono {R W} `{!AsyncRead R, !AsyncWrite W} fuel fuel' d (r : R) (w : W) res :
  poll_copy fuel d r w = Some res -> fuel <= fuel' -> poll_copy fuel' d r w = Some res.
Proof.
  unfold poll_copy. destruct (shutdown_done d); [done|].
  revert fuel' d r w. induction fuel as [|fuel IH]; intros [|fuel'] d r w; try done; [lia|].
  cbn [poll_copy_loop]. intros H Hle. destruct (write_buffered _ d r w) as [|[d1 w1]]; [done|].
  destruct (poll_flush w1) as [pf w2].
  assert (refill (poll_copy_loop fuel) d1 r w2 = Some res ->
    refill (poll_copy_loop fuel') d1 r w2 = Some res) as HR.
  { unfold refill. destruct (read_done d1); [done|].
    destruct (poll_read _ r) as [[|[bs|e]] r1]; try done.
    destruct (length bs =? 0); intros; apply IH; done || lia. }
  destruct pf as [|[[]|e]]; auto.
Qed.

(** The polls of a direction keep what the polls of its streams keep. *)
Section Below.
Context {R W : Type} `{!AsyncRead R, !AsyncWrite W} (P : R -> Prop) (Q : W -> Prop).
Context (Pread : forall n r, P r -> P (poll_read n r).2).
Context (Qwrite : forall b w, Q w -> Q (poll_write b w).2).
Context (Qflush : forall w, Q w -> Q (poll_flush w).2).
Context (Qshutdown : forall w, Q w -> Q (poll_shutdown w).2).

Definition below d (res : option (poll (io_result unit) * DirectionalBuffer * R * W)) : Prop :=
  match res with
  | Some (_, d', r, w) => suppress_shutdown d' = suppress_shutdown d /\ P r /\ Q w
  | None => True
  end.

Lemma prefetch_below d r :
  P r -> suppress_shutdown (prefetch d r).1 = suppress_shutdown d /\ P (prefetch d r).2.
Proof.
  intros H. unfold prefetch. destruct (_ && _)%bool; [|done].
  specialize (Pread (length (buf d) - cap d) r H).
  destruct (poll_read _ r) as [[|[bs|e]] r']; try done. by destruct (length bs =? 0).
Qed.

Lemma write_buffered_below fuel d r w :
  P r -> Q w ->
  match write_buffered fuel d r w with
  | inl res => below d (Some res)
  | inr (d', w') => suppress_shutdown d' = suppress_shutdown d /\ Q w'
  end.
Proof.
  revert d w. induction fuel as [|fuel IH]; intros d w Hr Hw; cbn [write_buffered];
    destruct (pos d <? cap d); try done.
  pose proof (Qwrite (buffered d) w Hw) as Hw1.
  destruct (poll_write (buffered d) w) as [[|[[|i]|e]] w1]; cbn [snd] in Hw1; try done.
  - pose proof (prefetch_below d r Hr) as [? ?]. by destruct (prefetch d r).
  - by specialize (IH (set_range d (buf d) (pos d + S i) (cap d)
      (u64_wrap (amt d + Z.of_nat (S i)))) w1 Hr Hw1).
Qed.

Lemma poll_copy_below fuel d r w : P r -> Q w -> below d (poll_copy fuel d r w).
Proof.
  intros Hr Hw. unfold poll_copy. destruct (shutdown_done d); [done|].
  enough (forall fuel d1 r w, suppress_shutdown d1 = suppress_shutdown d -> P r -> Q w ->
    below d (poll_copy_loop fuel d1 r w)) by auto.
  clear fuel r w Hr Hw. induction fuel as [|fuel IH]; intros d0 r w Hd0 Hr Hw; [done|].
  cbn [poll_copy_loop]. pose proof (write_buffered_below (cap d0 - pos d0) d0 r w Hr Hw) as H1.
  unfold below in H1. rewrite Hd0 in H1.
  destruct (write_buffered _ d0 r w) as [|[d1 w1]]; [done|]. destruct H1 as [Hd1 H1].
  pose proof (Qflush w1 H1) as H2. destruct (poll_flush w1) as [pf w2]. cbn [snd] in H2.
  assert (below d (refill (poll_copy_loop fuel) d1 r w2)) as HR.
  { unfold refill, finish_dir. destruct (read_done d1).
    - destruct (suppress_shutdown d1) eqn:Es; [by split_and!; simpl; congruence|].
      pose proof (Qshutdown w2 H2).
      destruct (poll_shutdown w2) as [[|q] w3]; split_and!; simpl; congruence || done.
    - pose proof (Pread (length (buf d1)) r Hr) as H3.
      destruct (poll_read _ r) as [[|[bs|e]] r']; cbn [snd] in H3; try done.
      destruct (length bs =? 0); by apply IH. }
  by destruct pf as [|[[]|e]].
Qed.
End Below.

(** ** The relay *)

Section Spec.
Context {A B : Type} `{!AsyncRead A, !AsyncWrite A, !ReadSpec A, !WriteSpec A, !DuplexSpec A}.
Context `{!AsyncRead B, !AsyncWrite B, !ReadSpec B, !WriteSpec B, !DuplexSpec B}.
Context `{!ReadFinite A, !ReadFinite B}.
Variable sleep_ready : Z -> Z -> bool.

(** The relay started on [a0] and [b0]. *)
Definition relay_inv (a0 : A) (b0 : B) (st : Relay A B) : Prop :=
  dir_inv (rd_log a0) (wr_log b0) (wr_fin b0) (a_to_b st) (side_a st) (side_b st)
  /\ dir_inv (rd_log b0) (wr_log a0) (wr_fin a0) (b_to_a st) (side_b st) (side_a st).

Definition relay_prefix (a0 : A) (b0 : B) (st : Relay A B) : Prop :=
  dir_prefix (rd_log a0) (wr_log b0) (side_a st) (side_b st)
  /\ dir_prefix (rd_log b0) (wr_log a0) (side_b st) (side_a st).

Definition relay_sent (a0 : A) (b0 : B) (st : Relay A B) : Prop :=
  dir_sent (rd_log a0) (wr_log b0) (a_to_b st) (side_a st) (side_b st)
  /\ dir_sent (rd_log b0) (wr_log a0) (b_to_a st) (side_b st) (side_a st).

Lemma relay_inv_sent a0 b0 st : relay_inv a0 b0 st -> relay_sent a0 b0 st.
Proof. intros [I1 I2]. split; by eapply dir_inv_sent. Qed.

Lemma relay_sent_prefix a0 b0 st : relay_sent a0 b0 st -> relay_prefix a0 b0 st.
Proof. intros [I1 I2]. split; by eapply dir_sent_prefix. Qed.

(** The other direction, whose reader is this one's writer. *)
Lemma dir_inv_other {R W} `{!AsyncRead R, !AsyncWrite R, !ReadSpec R, !WriteSpec R,
    !AsyncRead W, !AsyncWrite W, !ReadSpec W, !WriteSpec W}
    r0 w0 fin0 d (r r' : R) (w w' : W) :
  dir_inv r0 w0 fin0 d r w -> reader_at (rd_log r) r' -> writer_at (wr_log w) (wr_fin w) w' ->
  dir_inv r0 w0 fin0 d r' w'.
Proof.
  intros [Hrange Hr Hw Hlog Hdone Hfin] (? & ? & HL) (? & ? & HL' & HF).
  by split; rewrite ?HL, ?HL', ?HF.
Qed.

Lemma poll_a_to_b_spec fuel a0 b0 st :
  relay_inv a0 b0 st -> S (rd_avail (side_a st)) < fuel ->
  exists o, poll_a_to_b fuel st = Some o /\
  match o with
  | inl (_, st') => relay_sent a0 b0 st'
  | inr st' => relay_inv a0 b0 st' /\ idle_sleep st' = idle_sleep st
      /\ suppress_shutdown (a_to_b st') = suppress_shutdown (a_to_b st)
  end.
Proof.
  intros [I1 I2] Hf. unfold poll_a_to_b. destruct (is_done (a_to_b st)); [by eexists|].
  assert (dir_measure (a_to_b st) (side_a st) < fuel) as Hm
    by (unfold dir_measure; destruct (read_done _); lia).
  destruct (poll_copy_spec fuel _ _ _ _ _ _ I1 Hm) as (p & d & a & b & E & Hpost & _).
  pose proof (poll_copy_below
    (writer_at (wr_log (side_a st)) (wr_fin (side_a st))) (reader_at (rd_log (side_b st)))
    (writer_at_read _ _) (reader_at_write _) (reader_at_flush _) (reader_at_shutdown _)
    fuel (a_to_b st) (side_a st) (side_b st)) as HB.
  rewrite E in *. cbn [below] in HB. destruct I1, I2.
  destruct HB as (Hsup & HA & HB); [by split_and!|by split_and!|].
  assert (dir_inv (rd_log b0) (wr_log a0) (wr_fin a0) (b_to_a st) b a) as I2'
    by (eapply dir_inv_other; [by split|done|done]).
  destruct p as [|[[]|e]]; (eexists; split; [done|]); [by split_and!|by split_and!|].
  split; [done|]. by eapply dir_inv_sent.
Qed.

Lemma poll_b_to_a_spec fuel a0 b0 st :
  relay_inv a0 b0 st -> S (rd_avail (side_b st)) < fuel ->
  exists o, poll_b_to_a fuel st = Some o /\
  match o with
  | inl (_, st') => relay_sent a0 b0 st'
  | inr st' => relay_inv a0 b0 st' /\ idle_sleep st' = idle_sleep st
      /\ suppress_shutdown (a_to_b st') = suppress_shutdown (a_to_b st)
  end.
Proof.
  intros [I1 I2] Hf. unfold poll_b_to_a. destruct (is_done (b_to_a st)); [by eexists|].
  assert (dir_measure (b_to_a st) (side_b st) < fuel) as Hm
    by (unfold dir_measure; destruct (read_done _); lia).
  destruct (poll_copy_spec fuel _ _ _ _ _ _ I2 Hm) as (p & d & b & a & E & Hpost & _).
  pose proof (poll_copy_below
    (writer_at (wr_log (side_b st)) (wr_fin (side_b st))) (reader_at (rd_log (side_a st)))
    (writer_at_read _ _) (reader_at_write _) (reader_at_flush _) (reader_at_shutdown _)
    fuel (b_to_a st) (side_b st) (side_a st)) as HB.
  rewrite E in *. cbn [below] in HB. destruct I1, I2.
  destruct HB as (Hsup & HB & HA); [by split_and!|by split_and!|].
  assert (dir_inv (rd_log a0) (wr_log b0) (wr_fin b0) (a_to_b st) a b) as I1'
    by (eapply dir_inv_other; [by split|done|done]).
  destruct p as [|[[]|e]]; (eexists; split; [done|]); [by split_and!|by split_and!|].
  split; [|done]. by eapply dir_inv_sent.
Qed.

(** ** The runs of the task *)

(** Between two polls the streams change as the peers send and read; what was
    delivered and accepted does not. *)
Definition stream_env {T} `{!AsyncRead T, !AsyncWrite T, !ReadSpec T, !WriteSpec T} (s s' : T) : Prop :=
  rd_ok s' /\ wr_ok s' /\ rd_log s' = rd_log s /\ wr_log s' = wr_log s /\ wr_fin s' = wr_fin s.

Definition with_sides (st : Relay A B) (a : A) (b : B) : Relay A B :=
  mkRelay (a_to_b st) (b_to_a st) a b (idle_sleep st).

(** [relay_runs st last]: the task may be in state [st], and bytes moved last at
    time [last] (or it started then); [EA] and [EB] are what may happen to the
    two streams between its polls. *)
Inductive relay_runs (EA : A -> A -> Prop) (EB : B -> B -> Prop) (size : nat) (suppress : bool)
    (idle start : Z) (a0 : A) (b0 : B) : Relay A B -> Z -> Prop :=
  | run_start :
      relay_runs EA EB size suppress idle start a0 b0 (relay_new size suppress idle start a0 b0) start
  | run_env st last a b :
      relay_runs EA EB size suppress idle start a0 b0 st last ->
      EA (side_a st) a -> EB (side_b st) b ->
      relay_runs EA EB size suppress idle start a0 b0 (with_sides st a b) last
  | run_poll st last fuel now t st' :
      relay_runs EA EB size suppress idle start a0 b0 st last ->
      relay_poll sleep_ready fuel idle now st = Some (Pending, t, st') ->
      relay_runs EA EB size suppress idle start a0 b0 st' (if progressed st st' then now else last).

(** Over streams of which nothing more is known. *)
Definition relay_run : nat -> bool -> Z -> Z -> A -> B -> Relay A B -> Z -> Prop :=
  relay_runs stream_env stream_env.

Lemma relay_runs_mono (EA EA' : A -> A -> Prop) (EB EB' : B -> B -> Prop) size suppress idle start a0 b0 st last :
  (forall s s', EA s s' -> EA' s s') -> (forall s s', EB s s' -> EB' s s') ->
  relay_runs EA EB size suppress idle start a0 b0 st last ->
  relay_runs EA' EB' size suppress idle start a0 b0 st last.
Proof. intros HA HB. induction 1; [apply run_start|apply run_env; auto|by eapply run_poll]. Qed.

Definition good (a : A) (b : B) : Prop := rd_ok a /\ wr_ok a /\ rd_ok b /\ wr_ok b.

Lemma poll_a_to_b_mono fuel fuel' (st : Relay A B) o :
  poll_a_to_b fuel st = Some o -> fuel <= fuel' -> poll_a_to_b fuel' st = Some o.
Proof.
  unfold poll_a_to_b. intros H Hle. destruct (is_done _); [done|].
  destruct (poll_copy fuel _ _ _) as [res|] eqn:Ec; [|done]. by rewrite (poll_copy_mono _ _ _ _ _ _ Ec Hle).
Qed.

Lemma poll_b_to_a_mono fuel fuel' (st : Relay A B) o :
  poll_b_to_a fuel st = Some o -> fuel <= fuel' -> poll_b_to_a fuel' st = Some o.
Proof.
  unfold poll_b_to_a. intros H Hle. destruct (is_done _); [done|].
  destruct (poll_copy fuel _ _ _) as [res|] eqn:Ec; [|done]. by rewrite (poll_copy_mono _ _ _ _ _ _ Ec Hle).
Qed.

(** One poll: what each of its results means. *)
Lemma relay_poll_spec fuel idle now a0 b0 st p t st' :
  relay_inv a0 b0 st -> relay_poll sleep_ready fuel idle now st = Some (p, t, st') ->
  match p with
  | Ready (Err _) => t = Error /\ relay_sent a0 b0 st'
  | _ =>
      relay_inv a0 b0 st' /\ suppress_shutdown (a_to_b st') = suppress_shutdown (a_to_b st)
      /\ idle_sleep st' = (if progressed st st' then now + idle else idle_sleep st)%Z
      /\ match p with
         | Ready (Ok true) => t = Completed /\ is_done (a_to_b st') = true /\ is_done (b_to_a st') = true
         | Ready (Ok false) => t = IdleTimeout /\ sleep_ready (idle_sleep st') now = true
         | _ => is_done (a_to_b st') && is_done (b_to_a st') = false
         end
  end.
Proof.
  intros I. unfold relay_poll.
  destruct (poll_a_to_b_spec (fuel + S (S (rd_avail (side_a st)))) a0 b0 st I ltac:(lia))
    as (o & Eo & Ho).
  destruct (poll_a_to_b fuel st) as [o1|] eqn:E1; [|done].
  eapply poll_a_to_b_mono in E1; [|apply Nat.le_add_r]. rewrite Eo in E1. injection E1 as <-.
  destruct o as [[e st1]|st1]; [by intros [= <- <- <-]|]. destruct Ho as (I1 & Hs1 & Hp1).
  destruct (poll_b_to_a_spec (fuel + S (S (rd_avail (side_b st1)))) a0 b0 st1 I1 ltac:(lia))
    as (o & Eo' & Ho).
  destruct (poll_b_to_a fuel st1) as [o1|] eqn:E1; [|done].
  eapply poll_b_to_a_mono in E1; [|apply Nat.le_add_r]. rewrite Eo' in E1. injection E1 as <-.
  destruct o as [[e st2]|st2]; [by intros [= <- <- <-]|]. destruct Ho as (I2 & Hs2 & Hp2).
  set (st3 := if progressed st st2 then _ else st2).
  assert (relay_inv a0 b0 st3 /\ suppress_shutdown (a_to_b st3) = suppress_shutdown (a_to_b st)
    /\ progressed st st3 = progressed st st2
    /\ idle_sleep st3 = (if progressed st st2 then now + idle else idle_sleep st)%Z) as (I3 & Hsup & Hp & Hs).
  { unfold st3. destruct (progressed st st2) eqn:Ep; split_and!; simpl; try congruence; done || apply I2. }
  destruct (is_done (a_to_b st3) && is_done (b_to_a st3)) eqn:Ed.
  { intros [= <- <- <-]. apply andb_true_iff in Ed as [? ?]. rewrite Hp. by split_and!. }
  destruct (sleep_ready (idle_sleep st3) now) eqn:Er; intros [= <- <- <-]; rewrite Hp; by split_and!.
Qed.

(** When the relay's future returns [q], of what the reader gave [sent] went out
    and was counted; [more] was taken by the write that failed, if one did; and
    nothing is left if both directions completed. *)
Definition dir_end {R W} `{!AsyncRead R, !AsyncWrite W, !ReadSpec R, !WriteSpec W}
    (q : io_result bool) (r0 w0 : bytes) (n : Z) (r : R) (w : W) : Prop :=
  exists sent more rest, rd_log r = r0 ++ sent ++ more ++ rest /\ wr_log w = w0 ++ sent ++ more
  /\ n = u64_wrap (Z.of_nat (length sent))
  /\ match q with Ok done => more = [] /\ (done = true -> rest = []) | Err _ => True end.

Lemma dir_inv_end {R W} `{!AsyncRead R, !AsyncWrite W, !ReadSpec R, !WriteSpec W}
    ok r0 w0 fin0 d (r : R) (w : W) :
  dir_inv r0 w0 fin0 d r w -> (ok = true -> is_done d = true) -> dir_end (Ok ok) r0 w0 (amt d) r w.
Proof.
  intros [_ _ _ (sent & HR & HW & Ha) Hdone _] Hok. exists sent, [], (buffered d).
  rewrite app_nil_r. split_and!; try done. intros (_ & Hp)%Hok%Hdone. by apply buffered_nil.
Qed.

Lemma relay_poll_end fuel idle now a0 b0 st q t st' :
  relay_inv a0 b0 st -> relay_poll sleep_ready fuel idle now st = Some (Ready q, t, st') ->
  dir_end q (rd_log a0) (wr_log b0) (amt (a_to_b st')) (side_a st') (side_b st')
  /\ dir_end q (rd_log b0) (wr_log a0) (amt (b_to_a st')) (side_b st') (side_a st').
Proof.
  intros I Hp. apply (relay_poll_spec _ _ _ _ _ _ _ _ _ I) in Hp. destruct q as [ok|e].
  - assert (relay_inv a0 b0 st' /\ (ok = true -> is_done (a_to_b st') = true /\ is_done (b_to_a st') = true))
      as ([I1 I2] & Hd) by (destruct ok; naive_solver).
    split; (eapply dir_inv_end; [done|naive_solver]).
  - destruct Hp as (_ & (s1 & m1 & r1 & ?) & (s2 & m2 & r2 & ?)).
    split; [exists s1, m1, r1|exists s2, m2, r2]; naive_solver.
Qed.

Lemma dir_end_prefix {R W} `{!AsyncRead R, !AsyncWrite W, !ReadSpec R, !WriteSpec W} q r0 w0 n (r : R) (w : W) :
  dir_end q r0 w0 n r w -> dir_prefix r0 w0 r w.
Proof. intros (sent & more & rest & HR & HW & _). exists (sent ++ more), rest. by rewrite <- app_assoc. Qed.

Lemma relay_run_inv size suppress idle start a0 b0 st last :
  good a0 b0 -> relay_run size suppress idle start a0 b0 st last ->
  relay_inv a0 b0 st /\ idle_sleep st = (last + idle)%Z
  /\ suppress_shutdown (a_to_b st) = suppress.
Proof.
  intros (Ra & Wa & Rb & Wb) H.
  induction H as [|st last a b H IH Ea Eb|st last fuel now t st' H IH Hp].
  - split; [split; by apply dir_inv_new|done].
  - destruct IH as ([I1 I2] & IH). destruct Ea as (?&?&?&?&?), Eb as (?&?&?&?&?).
    split; [|done]. split; by eapply dir_inv_other; [|split_and!..].
  - destruct IH as (I & Hs & Hsup).
    destruct (relay_poll_spec _ _ _ _ _ _ _ _ _ I Hp) as (I' & Hsup' & Hs' & _).
    split; [done|]. split; [|congruence]. rewrite Hs'. destruct (progressed st st'); congruence.
Qed.


(** ** Properties *)

(** C6: in every state a relay can reach, whatever its streams do, the bytes a
    peer was sent are exactly the bytes the other one sent except those in the
    direction's buffer, in order; the counters are the bytes written; and the
    end of a stream is forwarded only after all that was read before it. *)
Theorem relay_conservation size suppress idle start a0 b0 st last :
  good a0 b0 -> relay_run size suppress idle start a0 b0 st last ->
  (exists up, rd_log (side_a st) = rd_log a0 ++ up ++ buffered (a_to_b st)
    /\ wr_log (side_b st) = wr_log b0 ++ up
    /\ bytes_transferred (a_to_b st) = u64_wrap (Z.of_nat (length up)))
  /\ (exists down, rd_log (side_b st) = rd_log b0 ++ down ++ buffered (b_to_a st)
    /\ wr_log (side_a st) = wr_log a0 ++ down
    /\ bytes_transferred (b_to_a st) = u64_wrap (Z.of_nat (length down)))
  /\ (wr_fin (side_b st) = true -> wr_fin b0 = true
      \/ (has_read_eof (a_to_b st) = true /\ buffered (a_to_b st) = [] /\ suppress = false))
  /\ (wr_fin (side_a st) = true -> wr_fin a0 = true
      \/ (has_read_eof (b_to_a st) = true /\ buffered (b_to_a st) = [])).
Proof.
  intros G H. apply relay_run_inv in H as ([I1 I2] & _ & Hsup); [|done].
  split_and!; [apply I1|apply I2|intros Hf..].
  - destruct (di_fin _ _ _ _ _ _ I1 Hf) as [|(? & ? & ?)]; [by left|right].
    split_and!; [done|by apply buffered_nil|congruence].
  - destruct (di_fin _ _ _ _ _ _ I2 Hf) as [|(? & ? & ?)]; [by left|right].
    split_and!; [done|by apply buffered_nil].
Qed.

(** C28: the idle timeout is sound: it ends a relay only when [idle] seconds
    have passed since a poll last wrote a byte in either direction, and the
    poll that reports it wrote none. *)
Theorem relay_idle_timeout size suppress idle start a0 b0 st last fuel now t st' :
  (forall deadline time, sleep_ready deadline time = true -> (deadline <= time)%Z) ->
  (0 < idle)%Z -> good a0 b0 -> relay_run size suppress idle start a0 b0 st last ->
  relay_poll sleep_ready fuel idle now st = Some (Ready (Ok false), t, st') ->
  t = IdleTimeout /\ progressed st st' = false /\ (last + idle <= now)%Z
  /\ relay_prefix a0 b0 st'.
Proof.
  intros Hsleep Hidle G H Hp. apply relay_run_inv in H as (I & Hs & _); [|done].
  pose proof (relay_poll_spec _ _ _ _ _ _ _ _ _ I Hp) as ([I1 I2] & _ & Hs' & -> & Hr).
  apply Hsleep in Hr. destruct (progressed st st'); [lia|].
  split_and!; [done|done|lia|]. split; by eapply dir_inv_prefix.
Qed.

(** A relay that fails has still sent each peer a prefix of what the other
    one sent. *)
Theorem relay_error size suppress idle start a0 b0 st last fuel now t e st' :
  good a0 b0 -> relay_run size suppress idle start a0 b0 st last ->
  relay_poll sleep_ready fuel idle now st = Some (Ready (Err e), t, st') ->
  t = Error /\ relay_result (Err e) t st' = Err e /\ relay_prefix a0 b0 st'.
Proof.
  intros G H Hp. apply relay_run_inv in H as (I & _ & _); [|done].
  pose proof (relay_poll_spec _ _ _ _ _ _ _ _ _ I Hp) as [-> HP].
  split_and!; [done|done|by apply relay_sent_prefix].
Qed.

(** With enough fuel a poll of a relay in a reachable state returns. *)
Lemma relay_poll_total idle now a0 b0 st :
  relay_inv a0 b0 st ->
  exists fuel res, forall fuel', fuel <= fuel' -> relay_poll sleep_ready fuel' idle now st = Some res.
Proof.
  intros I.
  destruct (poll_a_to_b_spec (S (S (rd_avail (side_a st)))) a0 b0 st I ltac:(lia)) as (o & E1 & Ho).
  destruct o as [[e st1]|st1].
  { eexists _, _. intros fuel' Hle. unfold relay_poll. by rewrite (poll_a_to_b_mono _ _ _ _ E1 Hle). }
  destruct Ho as (I1 & _).
  destruct (poll_b_to_a_spec (S (S (rd_avail (side_b st1)))) a0 b0 st1 I1 ltac:(lia)) as (o & E2 & _).
  set (fuel := S (S (rd_avail (side_a st))) + S (S (rd_avail (side_b st1)))).
  destruct (relay_poll sleep_ready fuel idle now st) as [res|] eqn:E.
  - exists fuel, res. intros fuel' Hle. rewrite <- E. unfold relay_poll.
    rewrite !(poll_a_to_b_mono _ _ _ _ E1) by lia. by rewrite !(poll_b_to_a_mono _ _ _ _ E2) by lia.
  - exfalso. revert E. unfold relay_poll. rewrite (poll_a_to_b_mono _ _ _ _ E1) by lia.
    rewrite (poll_b_to_a_mono _ _ _ _ E2) by lia. destruct o as [[e st2]|st2]; [done|].
    destruct (_ && _); [done|]. by destruct (sleep_ready _ _).
Qed.

(** C29: every poll of the relay returns: with enough fuel for the reads its
    streams have ready it yields one result, whatever the fuel. *)
Theorem relay_poll_returns size suppress idle start a0 b0 st last now :
  good a0 b0 -> relay_run size suppress idle start a0 b0 st last ->
  exists fuel res, forall fuel', fuel <= fuel' -> relay_poll sleep_ready fuel' idle now st = Some res.
Proof.
  intros G H. apply relay_run_inv in H as (I & _ & _); [|done]. by eapply relay_poll_total.
Qed.
End Spec.

(** ** Corner cases *)

Section Corners.
Context {A B : Type} `{!AsyncRead A, !AsyncWrite A, !AsyncRead B, !AsyncWrite B}.
Variable sleep_ready : Z -> Z -> bool.

Lemma poll_copy_zero_buffer {R W} `{!AsyncRead R, !AsyncWrite W} fuel s (r : R) (w : W) :
  (poll_read 0 r).1 = Ready (Ok []) ->
  (forall w : W, (poll_flush w).1 = Ready (Ok tt)) ->
  (forall w : W, (poll_shutdown w).1 = Ready (Ok tt)) ->
  exists r' w', poll_copy (2 + fuel) (Dir_new 0 s) r w
    = Some (Ready (Ok tt), set_shutdown_done (set_read_done (Dir_new 0 s)), r', w').
Proof.
  intros Hr Hf Hs. unfold poll_copy. simpl.
  pose proof (Hf w). destruct (poll_flush w) as [pf w1]. simpl in *. subst pf.
  unfold refill at 1. simpl. destruct (poll_read 0 r) as [pr r1]. simpl in *. subst pr. simpl.
  pose proof (Hf w1). destruct (poll_flush w1) as [pf w2]. simpl in *. subst pf.
  unfold refill, finish_dir. simpl. destruct s; [by eexists _, _|].
  pose proof (Hs w2). destruct (poll_shutdown w2) as [ps w3]. simpl in *. subst ps. by eexists _, _.
Qed.

(** With [buffer_size = 0], which the configuration accepts, a read into
    the empty buffer is taken for the end of the stream: the first poll
    completes the relay with nothing transferred, whatever the peers sent. *)
Theorem relay_zero_buffer fuel suppress idle now (a : A) (b : B) :
  (forall s : A, (poll_read 0 s).1 = Ready (Ok [])) ->
  (forall s : B, (poll_read 0 s).1 = Ready (Ok [])) ->
  (forall s : A, (poll_flush s).1 = Ready (Ok tt) /\ (poll_shutdown s).1 = Ready (Ok tt)) ->
  (forall s : B, (poll_flush s).1 = Ready (Ok tt) /\ (poll_shutdown s).1 = Ready (Ok tt)) ->
  exists st', relay_poll sleep_ready (2 + fuel) idle now (relay_new 0 suppress idle now a b)
      = Some (Ready (Ok true), Completed, st')
    /\ relay_result (Ok true) Completed st' = Ok {|
         cr_a_to_b := 0; cr_b_to_a := 0; cr_completed := true; cr_termination := Completed;
         cr_client_eof := true; cr_remote_eof := true |}.
Proof.
  intros Ra Rb Fa Fb. unfold relay_poll, poll_a_to_b, relay_new. simpl a_to_b.
  destruct (poll_copy_zero_buffer fuel suppress a b) as (a1 & b1 & E1);
    [apply Ra|apply Fb|apply Fb|]. cbn [is_done shutdown_done Dir_new side_a side_b].
  rewrite E1. unfold poll_b_to_a. cbn [is_done shutdown_done Dir_new side_a side_b b_to_a].
  destruct (poll_copy_zero_buffer fuel false b1 a1) as (b2 & a2 & E2);
    [apply Rb|apply Fa|apply Fa|]. rewrite E2. simpl. by eexists.
Qed.

End Corners.

(** A read that fails while the writer is pending is taken for the end of
    the stream, where the same failure after the buffer was written is the
    relay's error. *)
Theorem read_error_while_blocked {R W} `{!AsyncRead R, !AsyncWrite W} d (r r' : R) (w w' : W) e fuel :
  pos d < cap d -> cap d < length (buf d) -> read_done d = false -> shutdown_done d = false ->
  poll_write (buffered d) w = (Pending, w') ->
  poll_read (length (buf d) - cap d) r = (Ready (Err e), r') ->
  poll_copy (S fuel) d r w = Some (Pending, set_read_done d, r', w').
Proof.
  intros H1 H2 H3 H4 Hw Hr. unfold poll_copy. rewrite H4. cbn [poll_copy_loop].
  destruct (cap d - pos d) as [|n] eqn:En; [lia|]. cbn [write_buffered].
  rewrite (proj2 (Nat.ltb_lt _ _) H1), Hw. unfold prefetch.
  by rewrite H3, (proj2 (Nat.ltb_lt _ _) H2), Hr.
Qed.

(** ** Witnesses, on the streams in memory *)

Definition mem_of (cs : list bytes) (e : bool) (ks : list nat) : Mem :=
  {| chunks := cs; eof := e; consumed := []; credits := ks; accepted := []; fin := false |}.

Definition at_deadline (deadline time : Z) : bool := (deadline <=? time)%Z.

(** The client sends three bytes and closes; the server answers with two and
    accepts one byte at a time. *)
Definition client : Mem := mem_of [[1; 2]; [3]]%Z true [10].
Definition server : Mem := mem_of [[7; 8]]%Z true [1; 1; 1].

Lemma mem_good a b : Mem_ok a -> Mem_ok b -> good a b.
Proof. by intros. Qed.

Lemma client_server_good : good client server.
Proof. apply mem_good; repeat constructor; try done; unfold is_u8, u8_max; lia. Qed.

Definition polled (fuel : nat) (idle now : Z) (st : Relay Mem Mem) : Relay Mem Mem :=
  match relay_poll at_deadline fuel idle now st with Some (_, _, st') => st' | None => st end.

(** A silent peer: nothing arrives and nothing is accepted. *)
Definition silent : Mem := mem_of [] false [].

Lemma silent_good : good silent silent.
Proof. apply mem_good; constructor. Qed.

Lemma relay_conservation_witness :
  let st := polled 9 60 5 (relay_new 4 false 60 0 client silent) in
  (exists up, rd_log (side_a st) = rd_log client ++ up ++ buffered (a_to_b st)
    /\ wr_log (side_b st) = wr_log silent ++ up
    /\ bytes_transferred (a_to_b st) = u64_wrap (Z.of_nat (length up)))
  /\ (exists down, rd_log (side_b st) = rd_log silent ++ down ++ buffered (b_to_a st)
    /\ wr_log (side_a st) = wr_log client ++ down
    /\ bytes_transferred (b_to_a st) = u64_wrap (Z.of_nat (length down)))
  /\ (wr_fin (side_b st) = true -> wr_fin silent = true
      \/ (has_read_eof (a_to_b st) = true /\ buffered (a_to_b st) = [] /\ false = false))
  /\ (wr_fin (side_a st) = true -> wr_fin client = true
      \/ (has_read_eof (b_to_a st) = true /\ buffered (b_to_a st) = [])).
Proof.
  apply (relay_conservation at_deadline 4 false 60 0 client silent _
    (if progressed (relay_new 4 false 60 0 client silent)
       (polled 9 60 5 (relay_new 4 false 60 0 client silent)) then 5 else 0)%Z).
  - apply mem_good; [apply client_server_good|apply silent_good].
  - apply (run_poll at_deadline stream_env stream_env 4 false 60 0 client silent _ _ 9 5 Completed);
      [constructor|vm_compute; reflexivity].
Defined.

Lemma relay_idle_timeout_witness :
  IdleTimeout = IdleTimeout
  /\ progressed (relay_new 4 false 60 0 silent silent)
       (polled 9 60 60 (relay_new 4 false 60 0 silent silent)) = false
  /\ (0 + 60 <= 60)%Z
  /\ relay_prefix silent silent (polled 9 60 60 (relay_new 4 false 60 0 silent silent)).
Proof.
  apply (relay_idle_timeout at_deadline 4 false 60 0 silent silent
    (relay_new 4 false 60 0 silent silent) 0 9 60 IdleTimeout).
  - unfold at_deadline. intros. by apply Z.leb_le.
  - lia.
  - exact silent_good.
  - constructor.
  - vm_compute. reflexivity.
Defined.

Lemma relay_poll_returns_witness :
  exists fuel res, forall fuel', fuel <= fuel' ->
    relay_poll at_deadline fuel' 60 5 (relay_new 4 false 60 0 client server) = Some res.
Proof.
  apply (relay_poll_returns at_deadline 4 false 60 0 client server _ 0);
    [exact client_server_good|constructor].
Defined.

(** A server whose writer answers zero to the first write. *)
Lemma relay_error_witness :
  Error = Error
  /\ relay_result (Err (mk_io_error WriteZero (str "write zero bytes"))) Error
       (polled 9 60 5 (relay_new 4 false 60 0 client (mem_of [] false [0])))
     = Err (mk_io_error WriteZero (str "write zero bytes"))
  /\ relay_prefix client (mem_of [] false [0])
       (polled 9 60 5 (relay_new 4 false 60 0 client (mem_of [] false [0]))).
Proof.
  apply (relay_error at_deadline 4 false 60 0 client (mem_of [] false [0])
    (relay_new 4 false 60 0 client (mem_of [] false [0])) 0 9 5 Error).
  - apply mem_good; [apply client_server_good|constructor].
  - constructor.
  - vm_compute. reflexivity.
Defined.

(** A stream that always has a byte to read and takes what it is given. *)
Record Chatty : Type := {}.

#[export] Instance Chatty_read : AsyncRead Chatty := fun n s =>
  (Ready (Ok (take n [7]%Z)), s).

#[export] Instance Chatty_write : AsyncWrite Chatty := {|
  poll_write := fun b s => (Ready (Ok (length b)), s);
  poll_flush := fun s => (Ready (Ok tt), s);
  poll_shutdown := fun s => (Ready (Ok tt), s)
|}.

Lemma relay_zero_buffer_witness :
  exists st', relay_poll at_deadline 2 60 0 (relay_new 0 false 60 0 (Build_Chatty) (Build_Chatty))
      = Some (Ready (Ok true), Completed, st')
    /\ relay_result (Ok true) Completed st' = Ok {|
         cr_a_to_b := 0; cr_b_to_a := 0; cr_completed := true; cr_termination := Completed;
         cr_client_eof := true; cr_remote_eof := true |}.
Proof. by apply (relay_zero_buffer at_deadline 0). Defined.

(** A connection that was reset. *)
Record Reset : Type := {}.

#[export] Instance Reset_read : AsyncRead Reset := fun _ s =>
  (Ready (Err (mk_io_error BrokenPipe (str "reset"))), s).

Lemma read_error_while_blocked_witness :
  let d := set_range (Dir_new 4 false) [1; 2; 0; 0]%Z 0 2 0 in
  poll_copy 3 d Build_Reset silent = Some (Pending, set_read_done d, Build_Reset, silent).
Proof.
  eapply (read_error_while_blocked (R := Reset) (W := Mem)); try reflexivity; simpl; lia.
Defined.
