(* ===== verification/RelayEnd.v ===== *)
(** * How a relay leaves its streams

    [Relay] relates the bytes delivered to the bytes accepted.  Here: what a
    relay that completes has seen of its readers (their end) and done to its
    writers (their shutdown), for streams whose ends mean something.  [Ends]
    states what the end of a reader ([E]) and of a writer ([F]) are, with
    streams in memory as the example; the tunnels of [TunnelH3] and [TunnelH2]
    instantiate it with the HTTP/3 and HTTP/2 streams. *)

From S2P Require Import Prelude AsyncIo Relay.
Open Scope nat_scope.

Section Ends.
Context {T : Type} `{!AsyncRead T, !AsyncWrite T, !ReadSpec T, !WriteSpec T}.

Definition both_ok (s : T) : Prop := rd_ok s /\ wr_ok s.

(** [E]: a read with room that delivers nothing, or fails, was at the end, and
    using the writer does not undo it.  [F]: a shutdown that returns has ended
    a writer that was open, [J], and reading does not undo it. *)
Record Ends (E J F : T -> Prop) : Prop := {
  end_read n s p s' :
    both_ok s -> 0 < n -> poll_read n s = (p, s') ->
    (p = Ready (Ok []) \/ exists e, p = Ready (Err e)) -> E s';
  end_shutdown s r s' : both_ok s -> J s -> poll_shutdown s = (Ready r, s') -> F s';
  end_shutdown_J s s' : both_ok s -> J s -> poll_shutdown s = (Pending, s') -> J s';
  end_write_J b s : both_ok s -> J s -> J (poll_write b s).2;
  end_flush_J s : both_ok s -> J s -> J (poll_flush s).2;
  end_read_J n s : both_ok s -> J s -> J (poll_read n s).2;
  end_write_E b s : both_ok s -> E s -> E (poll_write b s).2;
  end_flush_E s : both_ok s -> E s -> E (poll_flush s).2;
  end_shutdown_E s : both_ok s -> E s -> E (poll_shutdown s).2;
  end_read_F n s : both_ok s -> F s -> F (poll_read n s).2
}.

(** Nothing is known of a stream's ends. *)
Lemma ends_any : Ends (fun _ => True) (fun _ => True) (fun _ => True).
Proof. by split. Qed.

Context `{!DuplexSpec T}.

Lemma both_ok_read n s : both_ok s -> both_ok (poll_read n s).2.
Proof.
  intros [Hr Hw]. destruct (poll_read n s) as [p s'] eqn:H. pose proof (read_frame _ _ _ _ Hr Hw H) as [? _].
  apply rd_spec in H as [? _]; [|done]. by split.
Qed.

Lemma both_ok_write b s : both_ok s -> both_ok (poll_write b s).2.
Proof.
  intros [Hr Hw]. destruct (poll_write b s) as [p s'] eqn:H. pose proof (write_frame _ _ _ _ Hr Hw H) as [? _].
  apply wr_spec in H as [? _]; [|done]. by split.
Qed.

Lemma both_ok_flush s : both_ok s -> both_ok (poll_flush s).2.
Proof.
  intros [Hr Hw]. destruct (poll_flush s) as [p s'] eqn:H. pose proof (flush_frame _ _ _ Hr Hw H) as [? _].
  apply flush_spec in H as [? _]; [|done]. by split.
Qed.

Lemma both_ok_shutdown s : both_ok s -> both_ok (poll_shutdown s).2.
Proof.
  intros [Hr Hw]. destruct (poll_shutdown s) as [p s'] eqn:H. pose proof (shutdown_frame _ _ _ Hr Hw H) as [? _].
  apply shutdown_spec in H as [? _]; [|done]. by split.
Qed.
End Ends.

#[export] Hint Resolve both_ok_read both_ok_write both_ok_flush both_ok_shutdown : naive.

(** ** One direction *)

Section Dir.
Context {R : Type} `{!AsyncRead R, !AsyncWrite R, !ReadSpec R, !WriteSpec R, !DuplexSpec R}.
Context {W : Type} `{!AsyncRead W, !AsyncWrite W, !ReadSpec W, !WriteSpec W, !DuplexSpec W}.
Context (ER JR FR : R -> Prop) (EW JW FW : W -> Prop) (HR : Ends ER JR FR) (HW : Ends EW JW FW).
(** Whether the direction leaves its writer open. *)
Variable sup : bool.

(** The buffer has room, a direction that has read the end saw it, and one that
    has shut its writer down ended it. *)
Record dir_ends (d : DirectionalBuffer) (r : R) (w : W) : Prop := {
  de_buf : 0 < length (buf d) /\ cap d <= length (buf d);
  de_r : both_ok r;
  de_w : both_ok w;
  de_read : read_done d = true -> ER r;
  de_open : shutdown_done d = false -> JW w;
  de_sup : suppress_shutdown d = sup;
  de_shut : shutdown_done d = true -> sup = true \/ FW w
}.

Lemma dir_ends_new n r w : 0 < n -> both_ok r -> both_ok w -> JW w -> dir_ends (Dir_new n sup) r w.
Proof. intros. split; try done. simpl. rewrite length_replicate. lia. Qed.

(** A read into the free part of the buffer from [i] on. *)
Lemma dir_ends_read d r w n p r' :
  dir_ends d r w -> poll_read n r = (p, r') -> read_done d = false ->
  length (read_of p) <= n /\ dir_ends d r' w
  /\ (0 < n -> p = Ready (Ok []) \/ (exists e, p = Ready (Err e)) -> ER r').
Proof.
  intros [Hb Hr Hw He Ho Hsup Hs] Hp Hd. split; [|split].
  - apply rd_spec in Hp as (_ & ? & _); [done|apply Hr].
  - split; [done| |done| |done..].
    + pose proof (both_ok_read n r Hr) as H. by rewrite Hp in H.
    + intros. congruence.
  - intros Hn H. by eapply end_read.
Qed.

Lemma dir_ends_eof d r w : dir_ends d r w -> ER r -> dir_ends (set_read_done d) r w.
Proof. intros [] H. by split. Qed.

Lemma dir_ends_filled d r w i bs p c a :
  dir_ends d r w -> i + length bs <= length (buf d) -> c <= i + length bs ->
  dir_ends (set_range d (splice i bs (buf d)) p c a) r w.
Proof. intros [] Hi Hc. split; simpl; try done. rewrite splice_length by done. lia. Qed.

Lemma dir_ends_writer d r w w' :
  dir_ends d r w -> both_ok w' -> JW w' -> shutdown_done d = false -> dir_ends d r w'.
Proof. intros [] Hw HJ Hs. split; try done. congruence. Qed.

Lemma prefetch_ends d r w :
  dir_ends d r w -> dir_ends (prefetch d r).1 (prefetch d r).2 w
    /\ shutdown_done (prefetch d r).1 = shutdown_done d.
Proof.
  intros I. unfold prefetch. destruct (_ && _)%bool eqn:E; [|done]. bool_facts.
  destruct (poll_read _ r) as [p r'] eqn:Hp.
  destruct (dir_ends_read _ _ _ _ _ _ I Hp) as (Hn & I' & HE); [done|].
  destruct p as [|[bs|e]]; [done| |].
  - destruct (length bs =? 0) eqn:E0; bool_facts; (split; [|done]).
    + apply length_zero_nil in E0 as ->. apply dir_ends_eof; [done|]. apply HE; [lia|by left].
    + simpl in Hn. destruct I as [[? ?] _ _ _ _ _ _]. apply dir_ends_filled; [done|lia..].
  - split; [|done]. apply dir_ends_eof; [done|]. apply HE; [lia|right; eauto].
Qed.

Lemma write_buffered_ends fuel d r w :
  dir_ends d r w -> shutdown_done d = false ->
  match write_buffered fuel d r w with
  | inl (_, d', r', w') => dir_ends d' r' w' /\ shutdown_done d' = false
  | inr (d', w') => dir_ends d' r w' /\ shutdown_done d' = false
  end.
Proof.
  revert d w. induction fuel as [|fuel IH]; intros d w I Hs; cbn [write_buffered];
    destruct (pos d <? cap d); try done.
  pose proof (both_ok_write (buffered d) w (de_w _ _ _ I)) as Hw.
  pose proof (end_write_J _ _ _ HW (buffered d) w (de_w _ _ _ I) (de_open _ _ _ I Hs)) as HJ.
  destruct (poll_write (buffered d) w) as [p w1]. cbn [snd] in Hw, HJ.
  pose proof (dir_ends_writer _ _ _ _ I Hw HJ Hs) as I1.
  destruct p as [|[[|i]|e]]; try done.
  - destruct (prefetch_ends _ _ _ I1) as [? ?]. destruct (prefetch d r) as [d' r']. split; [done|].
    simpl in *. congruence.
  - apply IH; [|done]. by destruct I1.
Qed.

Definition ends_res (res : poll (io_result unit) * DirectionalBuffer * R * W) : Prop :=
  let '(_, d, r, w) := res in dir_ends d r w.

Lemma refill_ends again d r w res :
  (forall d' r' w' res', dir_ends d' r' w' -> shutdown_done d' = false ->
    again d' r' w' = Some res' -> ends_res res') ->
  dir_ends d r w -> shutdown_done d = false -> refill again d r w = Some res -> ends_res res.
Proof.
  intros IH I Hs. unfold refill. destruct (read_done d) eqn:Ed.
  { unfold finish_dir. destruct (suppress_shutdown d) eqn:Es.
    { intros [= <-]. destruct I. split; simpl; try done. left. congruence. }
    pose proof (both_ok_shutdown w (de_w _ _ _ I)) as Hw.
    pose proof (de_w _ _ _ I) as Hw0. pose proof (de_open _ _ _ I Hs) as HJ.
    destruct (poll_shutdown w) as [q w1] eqn:Eq. cbn [snd] in Hw.
    destruct q as [|q]; intros [= <-].
    - eapply dir_ends_writer; [done|done| |done]. by eapply end_shutdown_J.
    - destruct I. split; simpl; try done. intros _. right. by eapply end_shutdown. }
  destruct (poll_read (length (buf d)) r) as [p r'] eqn:Hp.
  destruct (dir_ends_read _ _ _ _ _ _ I Hp Ed) as (Hn & I' & HE). pose proof (de_buf _ _ _ I) as [Hb _].
  destruct p as [|[bs|e]]; try (intros [= <-]; done).
  destruct (length bs =? 0) eqn:E0; bool_facts; intros Ha; eapply IH in Ha; try done.
  - apply length_zero_nil in E0 as ->. apply dir_ends_eof; [done|]. apply HE; [done|by left].
  - apply dir_ends_filled; [done|simpl in *; lia..].
Qed.

Lemma poll_copy_ends fuel d r w res :
  dir_ends d r w -> poll_copy fuel d r w = Some res -> ends_res res.
Proof.
  intros I. unfold poll_copy. destruct (shutdown_done d) eqn:Hs; [by intros [= <-]|].
  revert d r w res I Hs. induction fuel as [|fuel IH]; intros d r w res I Hs; [done|].
  cbn [poll_copy_loop].
  pose proof (write_buffered_ends (cap d - pos d) d r w I Hs) as H1.
  destruct (write_buffered _ d r w) as [[[[p1 d1] r1] w1]|[d1 w1]]; destruct H1 as [I1 Hs1].
  { by intros [= <-]. }
  pose proof (both_ok_flush w1 (de_w _ _ _ I1)) as Hw.
  pose proof (end_flush_J _ _ _ HW w1 (de_w _ _ _ I1) (de_open _ _ _ I1 Hs1)) as HJ.
  destruct (poll_flush w1) as [pf w2]. cbn [snd] in Hw, HJ.
  pose proof (dir_ends_writer _ _ _ _ I1 Hw HJ Hs1) as I2.
  destruct pf as [|[[]|e]]; [eauto using refill_ends..|]. by intros [= <-].
Qed.
End Dir.

Arguments Ends T {_ _ _ _} E J F.

(** The direction the other way, whose reader is this one's writer. *)
Lemma poll_copy_both {R W} `{!AsyncRead R, !AsyncWrite R, !ReadSpec R, !WriteSpec R, !DuplexSpec R,
    !AsyncRead W, !AsyncWrite W, !ReadSpec W, !WriteSpec W, !DuplexSpec W}
    (ER JR FR : R -> Prop) (EW JW FW : W -> Prop) (HR : Ends R ER JR FR) (HW : Ends W EW JW FW)
    sup sup2 fuel d d2 (r r' : R) (w w' : W) p d' :
  dir_ends ER JW FW sup d r w -> dir_ends EW JR FR sup2 d2 w r ->
  poll_copy fuel d r w = Some (p, d', r', w') ->
  dir_ends ER JW FW sup d' r' w' /\ dir_ends EW JR FR sup2 d2 w' r'.
Proof.
  intros I I2 Hp.
  pose proof (poll_copy_ends ER JR FR EW JW FW HR HW _ _ _ _ _ _ I Hp) as I'. split; [exact I'|].
  destruct I2 as [Hb Hw Hr He Ho Hsup Hs].
  pose proof (poll_copy_below
    (fun r => both_ok r /\ (shutdown_done d2 = false -> JR r)
      /\ (shutdown_done d2 = true -> sup2 = true \/ FR r))
    (fun w => both_ok w /\ (read_done d2 = true -> EW w))) as HB.
  specialize (HB ltac:(intros n s (H1 & H2 & H3); split_and!;
    [by apply both_ok_read|intros; eapply end_read_J; eauto|];
    intros H; destruct (H3 H); [by left|right; by eapply end_read_F])).
  specialize (HB ltac:(intros b s [H1 H2]; split; [by apply both_ok_write|];
    intros H; by eapply end_write_E; auto)).
  specialize (HB ltac:(intros s [H1 H2]; split; [by apply both_ok_flush|];
    intros H; by eapply end_flush_E; auto)).
  specialize (HB ltac:(intros s [H1 H2]; split; [by apply both_ok_shutdown|];
    intros H; by eapply end_shutdown_E; auto)).
  specialize (HB fuel d r w (conj Hr (conj Ho Hs)) (conj Hw He)). rewrite Hp in HB.
  destruct HB as (_ & (? & ? & ?) & [? ?]). by split.
Qed.

(** ** The relay *)

Section Relay.
Context {A : Type} `{!AsyncRead A, !AsyncWrite A, !ReadSpec A, !WriteSpec A, !DuplexSpec A}.
Context {B : Type} `{!AsyncRead B, !AsyncWrite B, !ReadSpec B, !WriteSpec B, !DuplexSpec B}.
Context (EA JA FA : A -> Prop) (EB JB FB : B -> Prop) (HA : Ends A EA JA FA) (HB : Ends B EB JB FB).
Variable sleep_ready : Z -> Z -> bool.

(** What may happen to a stream between the polls keeps its ends. *)
Definition env_ends {T} `{!AsyncRead T, !AsyncWrite T, !ReadSpec T, !WriteSpec T}
    (N : T -> T -> Prop) (E J F : T -> Prop) : Prop :=
  forall s s', N s s' -> both_ok s -> both_ok s' /\ (E s -> E s') /\ (J s -> J s') /\ (F s -> F s').

Definition relay_ends (sup : bool) (st : Relay A B) : Prop :=
  dir_ends EA JB FB sup (a_to_b st) (side_a st) (side_b st)
  /\ dir_ends EB JA FA false (b_to_a st) (side_b st) (side_a st).

Lemma relay_poll_ends sup fuel idle now st p t st' :
  relay_ends sup st -> relay_poll sleep_ready fuel idle now st = Some (p, t, st') ->
  (forall e, p <> Ready (Err e)) -> relay_ends sup st'.
Proof.
  intros [I1 I2] Hp Hne. unfold relay_poll in Hp.
  assert (forall st1, poll_a_to_b fuel st = Some (inr st1) -> relay_ends sup st1) as H1.
  { unfold poll_a_to_b. intros st1. destruct (is_done _); [by intros [= <-]|].
    destruct (poll_copy _ _ _ _) as [[[[q d] a] b]|] eqn:E; [|done].
    eapply poll_copy_both in E as [? ?]; [|exact HA|exact HB|done|done].
    by destruct q as [|[|]]; intros [= <-]. }
  destruct (poll_a_to_b fuel st) as [[[e st1]|st1]|]; [|specialize (H1 st1 eq_refl)|done].
  { injection Hp as <- _ _. by destruct (Hne e). }
  assert (forall st2, poll_b_to_a fuel st1 = Some (inr st2) -> relay_ends sup st2) as H2.
  { destruct H1 as [J1 J2]. unfold poll_b_to_a. intros st2. destruct (is_done _); [by intros [= <-]|].
    destruct (poll_copy _ _ _ _) as [[[[q d] b] a]|] eqn:E; [|done].
    eapply poll_copy_both in E as [? ?]; [|exact HB|exact HA|done|done].
    by destruct q as [|[|]]; intros [= <-]. }
  destruct (poll_b_to_a fuel st1) as [[[e st2]|st2]|]; [|specialize (H2 st2 eq_refl)|done].
  { injection Hp as <- _ _. by destruct (Hne e). }
  assert (st' = if progressed st st2
    then mkRelay (a_to_b st2) (b_to_a st2) (side_a st2) (side_b st2) (now + idle)%Z else st2) as ->.
  { destruct (_ && _); [|destruct (sleep_ready _ _)]; congruence. }
  by destruct (progressed st st2).
Qed.

Context (NA : A -> A -> Prop) (NB : B -> B -> Prop).
Context (HNA : env_ends NA EA JA FA) (HNB : env_ends NB EB JB FB).

Lemma relay_runs_ends size suppress idle start a0 b0 st last :
  0 < size -> both_ok a0 -> both_ok b0 -> JA a0 -> JB b0 ->
  relay_runs sleep_ready NA NB size suppress idle start a0 b0 st last -> relay_ends suppress st.
Proof.
  intros Hsz Ha Hb Hja Hjb. induction 1 as [|st last a b H IH Na Nb|st last fuel now t st' H IH Hp].
  - split; by apply dir_ends_new.
  - destruct IH as [[? I1a I1b ? ? ? Hs1] [? I2b I2a ? ? ? Hs2]].
    destruct (HNA _ _ Na I1a) as (? & ? & ? & ?), (HNB _ _ Nb I1b) as (? & ? & ? & ?).
    split; split; try done; auto.
    + intros Hs. destruct (Hs1 Hs); auto.
    + intros Hs. destruct (Hs2 Hs); auto.
  - by eapply relay_poll_ends.
Qed.

Context `{!ReadFinite A, !ReadFinite B}.
Context (SA : forall s s', NA s s' -> both_ok s -> stream_env s s').
Context (SB : forall s s', NB s s' -> both_ok s -> stream_env s s').

Lemma relay_runs_run size suppress idle start a0 b0 st last :
  good a0 b0 -> relay_runs sleep_ready NA NB size suppress idle start a0 b0 st last ->
  relay_run sleep_ready size suppress idle start a0 b0 st last.
Proof.
  intros G. induction 1 as [|st last a b H IH Na Nb|st last fuel now t st' H IH Hp].
  - apply run_start.
  - pose proof (relay_run_inv _ _ _ _ _ _ _ _ _ G IH) as ([[] []] & _).
    apply run_env; [done|by apply SA|by apply SB].
  - by eapply run_poll.
Qed.

(** A relay that completes has delivered all that the two streams gave it, has
    read both to their ends and ended both. *)
Lemma relay_completed_both size idle start a0 b0 st last fuel now t st' :
  0 < size -> good a0 b0 -> JA a0 -> JB b0 ->
  relay_runs sleep_ready NA NB size false idle start a0 b0 st last ->
  relay_poll sleep_ready fuel idle now st = Some (Ready (Ok true), t, st') ->
  (exists up down,
    rd_log (side_a st') = rd_log a0 ++ up /\ wr_log (side_b st') = wr_log b0 ++ up
    /\ rd_log (side_b st') = rd_log b0 ++ down /\ wr_log (side_a st') = wr_log a0 ++ down
    /\ bytes_transferred (a_to_b st') = u64_wrap (Z.of_nat (length up))
    /\ bytes_transferred (b_to_a st') = u64_wrap (Z.of_nat (length down)))
  /\ EA (side_a st') /\ EB (side_b st') /\ FA (side_a st') /\ FB (side_b st')
  /\ both_ok (side_a st') /\ both_ok (side_b st').
Proof.
  intros Hsz G Hja Hjb Hr Hp. pose proof G as (Ra & Wa & Rb & Wb).
  pose proof (relay_runs_run _ _ _ _ _ _ _ _ G Hr) as Hrun.
  apply relay_run_inv in Hrun as (I & _ & _); [|done].
  pose proof (relay_poll_spec sleep_ready _ _ _ _ _ _ _ _ _ I Hp) as ([I1 I2] & _ & _ & _ & D1 & D2).
  destruct (di_done _ _ _ _ _ _ I1 D1) as [E1 P1], (di_done _ _ _ _ _ _ I2 D2) as [E2 P2].
  destruct (di_log _ _ _ _ _ _ I1) as (up & HR1 & HW1 & HA1).
  destruct (di_log _ _ _ _ _ _ I2) as (down & HR2 & HW2 & HA2).
  rewrite buffered_nil, app_nil_r in HR1, HR2 by done.
  split; [by exists up, down|].
  apply relay_runs_ends in Hr; [|done..].
  apply (relay_poll_ends _ _ _ _ _ _ _ _ Hr) in Hp as [[? ? ? ? ? ? S1] [? ? ? ? ? ? S2]]; [|done].
  split_and!; auto; [by destruct (S2 D2)|by destruct (S1 D1)].
Qed.

(** C7: a relay over a buffer with room that completes took each reader to its
    end, and ended each writer after writing all that it read.  [EA] and [EB]
    are the streams' own ends, of which [Ends] asks that a read with room that
    gives nothing, or fails, is at the end; a read that is short, or pending, is
    not.  [FA] and [FB] are the ends that a shutdown of an open writer, [JA] and
    [JB], gives.  The result says so: both counters are the numbers of bytes
    delivered, modulo 2^64, and both ends of stream were seen.  A read error that
    met a blocked writer counts as an end ([read_error_while_blocked]), which is
    why [EA] and [EB] have to hold after one; with a buffer of size 0 the
    statement is false ([relay_zero_buffer]). *)
Theorem relay_completed_ends size idle start a0 b0 st last fuel now t st' :
  0 < size -> good a0 b0 -> JA a0 -> JB b0 ->
  relay_runs sleep_ready NA NB size false idle start a0 b0 st last ->
  relay_poll sleep_ready fuel idle now st = Some (Ready (Ok true), t, st') ->
  EA (side_a st') /\ EB (side_b st') /\ FA (side_a st') /\ FB (side_b st')
  /\ exists up down,
       rd_log (side_a st') = rd_log a0 ++ up /\ wr_log (side_b st') = wr_log b0 ++ up
       /\ rd_log (side_b st') = rd_log b0 ++ down /\ wr_log (side_a st') = wr_log a0 ++ down
       /\ relay_result (Ok true) t st' = Ok {|
            cr_a_to_b := u64_wrap (Z.of_nat (length up));
            cr_b_to_a := u64_wrap (Z.of_nat (length down));
            cr_completed := true;
            cr_termination := Completed;
            cr_client_eof := true;
            cr_remote_eof := true |}.
Proof.
  intros Hsz G Hja Hjb Hr Hp.
  destruct (relay_completed_both _ _ _ _ _ _ _ _ _ _ _ Hsz G Hja Hjb Hr Hp)
    as ((up & down & R1 & W1 & R2 & W2 & A1 & A2) & HEA & HEB & HFA & HFB & _).
  split_and!; try done. exists up, down. split_and!; try done.
  apply relay_runs_run in Hr; [|done]. apply relay_run_inv in Hr as (I & _ & _); [|done].
  pose proof (relay_poll_spec sleep_ready _ _ _ _ _ _ _ _ _ I Hp) as ([I1 I2] & _ & _ & -> & D1 & D2).
  destruct (di_done _ _ _ _ _ _ I1 D1) as [E1 _], (di_done _ _ _ _ _ _ I2 D2) as [E2 _].
  unfold relay_result, has_read_eof. by rewrite A1, A2, E1, E2.
Qed.
End Relay.

(** ** Witness, on the streams in memory *)

(** The end of a stream in memory: the peer closed and all of it was read. *)
Definition mem_end (s : Mem) : Prop := chunks s = [] /\ eof s = true.

Lemma mem_ends : Ends Mem mem_end (fun _ => True) (fun s => fin s = true).
Proof.
  split; try done.
  - intros n s p s' [Hok _] Hn Hp Hr. unfold poll_read, Mem_read in Hp.
    destruct (chunks s) as [|c cs] eqn:Ec; injection Hp as <- <-.
    + destruct (eof s) eqn:Ee; [by split|by destruct Hr as [|[]]].
    + change (Forall (fun c => c <> [] /\ Forall is_u8 c) (chunks s)) in Hok. rewrite Ec in Hok.
      apply Forall_cons in Hok as [[Hc _] _]. destruct c; [done|]. destruct n; [lia|].
      by destruct Hr as [|[]].
  - intros s r s' _ _ [= _ <-]. done.
  - intros b s _ H. simpl. by destruct (credits s).
  - intros n s _ H. unfold poll_read, Mem_read. destruct (chunks s); exact H.
Qed.

(** Between the polls the peer may send more until it closes, and accept more. *)
Definition mem_env (s s' : Mem) : Prop :=
  stream_env s s' /\ (eof s = true -> chunks s' = chunks s /\ eof s' = true).

Lemma mem_env_ends : env_ends mem_env mem_end (fun _ => True) (fun s => fin s = true).
Proof.
  intros s s' [(? & ? & _ & _ & Hf) He] _. split_and!; [by split|..|done|].
  - intros [Hc Hs]. destruct (He Hs) as [Hc' Hs']. split; [by rewrite Hc'|done].
  - simpl in Hf. congruence.
Qed.

(** A client that has sent three bytes and closed, a server that has sent one segment of its answer and takes two bytes, and
    the same server later: another segment, its end, and room for the rest. *)
Definition client_first : Mem := mem_of [[1; 2]; [3]]%Z true [10; 10].
Definition server_first : Mem := mem_of [[7; 8]]%Z false [2].

Definition relay_waiting : Relay Mem Mem := polled 9 60 5 (relay_new 4 false 60 0 client_first server_first).

Definition server_closes (s : Mem) : Mem := {|
  chunks := chunks s ++ [[9]]%Z; eof := true; consumed := consumed s;
  credits := credits s ++ [4; 4]; accepted := accepted s; fin := fin s
|}.

Definition relay_resumed : Relay Mem Mem :=
  with_sides relay_waiting (side_a relay_waiting) (server_closes (side_b relay_waiting)).

Lemma relay_completed_ends_witness :
  let st := polled 9 60 6 relay_resumed in
  mem_end (side_a st) /\ mem_end (side_b st) /\ fin (side_a st) = true /\ fin (side_b st) = true
  /\ exists up down,
       rd_log (side_a st) = rd_log client_first ++ up /\ wr_log (side_b st) = wr_log server_first ++ up
       /\ rd_log (side_b st) = rd_log server_first ++ down /\ wr_log (side_a st) = wr_log client_first ++ down
       /\ relay_result (Ok true) Completed st = Ok {|
            cr_a_to_b := u64_wrap (Z.of_nat (length up));
            cr_b_to_a := u64_wrap (Z.of_nat (length down));
            cr_completed := true;
            cr_termination := Completed;
            cr_client_eof := true;
            cr_remote_eof := true |}.
Proof.
  apply (relay_completed_ends _ _ _ _ _ _ mem_ends mem_ends at_deadline mem_env mem_env
    mem_env_ends mem_env_ends (fun s s' H _ => proj1 H) (fun s s' H _ => proj1 H)
    4 60 0 client_first server_first relay_resumed 5 9 6 Completed).
  - lia.
  - apply mem_good; repeat constructor; try done; unfold is_u8, u8_max; lia.
  - exact I.
  - exact I.
  - apply run_env.
    + apply (run_poll at_deadline mem_env mem_env 4 false 60 0 client_first server_first
        (relay_new 4 false 60 0 client_first server_first) 0 9 5 Completed); [apply run_start|by vm_compute].
    + split; [|done]. unfold stream_env. split_and!; try done; vm_compute; repeat constructor.
    + split; [|by vm_compute]. assert (Mem_ok (server_closes (side_b relay_waiting))) as Hok.
      { vm_compute. repeat constructor; done. }
      by unfold stream_env; split_and!.
  - by vm_compute.
Defined.
