(* ===== verification/PaddingEnd.v ===== *)
(** * The ends of a padded stream

    When the padding transport reports the end of its stream, or the success of
    a shutdown, in terms of the stream below: the transport as an instance of
    the interface [Ends] of [RelayEnd]. *)

From S2P Require Import Prelude RustStr AsyncIo Padding PaddingStream Relay RelayEnd.
Open Scope nat_scope.

Section PaddingEnd.
Context {T : Type} `{!AsyncRead T, !AsyncWrite T, !ReadSpec T, !WriteSpec T, !DuplexSpec T}.
Context `{!WriteErrClean T, !ReadFinite T}.

(** [E]: the end of the stream below; [J]: its writer was not shut down; [C]: it
    is broken, and its writer fails. *)
Record BelowEnds (E J C : T -> Prop) : Prop := {
  below_read n i p i' :
    both_ok i -> 0 < n -> poll_read n i = (p, i') ->
    (p = Ready (Ok []) \/ exists e, p = Ready (Err e)) -> E i';
  below_write_E b i : both_ok i -> E i -> E (poll_write b i).2;
  below_flush_E i : both_ok i -> E i -> E (poll_flush i).2;
  below_shutdown_E i : both_ok i -> E i -> E (poll_shutdown i).2;
  below_read_J n i : both_ok i -> J i -> J (poll_read n i).2;
  below_write_J b i : both_ok i -> J i -> J (poll_write b i).2;
  below_flush_J i : both_ok i -> J i -> J (poll_flush i).2;
  below_shutdown_J i i' : both_ok i -> J i -> poll_shutdown i = (Pending, i') -> J i';
  below_read_C n i : both_ok i -> C i -> C (poll_read n i).2;
  below_write_C b i p i' :
    both_ok i -> J i -> b <> [] -> poll_write b i = (p, i') ->
    (p = Ready (Ok 0) \/ exists e, p = Ready (Err e)) -> C i';
  below_flush_C i e i' : both_ok i -> J i -> poll_flush i = (Ready (Err e), i') -> C i';
  below_shutdown_C i e i' : both_ok i -> J i -> poll_shutdown i = (Ready (Err e), i') -> C i'
}.

Context (E J C : T -> Prop) (HT : BelowEnds E J C).

(** The end of a result: nothing was delivered, or the poll failed. *)
Definition no_more (p : poll (io_result bytes)) : Prop :=
  p = Ready (Ok []) \/ exists e, p = Ready (Err e).

Lemma no_more_nil (bs : bytes) : length bs = 0 -> no_more (Ready (Ok bs)).
Proof. intros ->%length_zero_nil. by left. Qed.

Lemma no_more_data (bs : bytes) : length bs <> 0 -> ~ no_more (Ready (Ok bs)).
Proof. intros Hb [[= ->]|[e He]]; [by simpl in Hb|done]. Qed.

Ltac end_of Hp := eapply below_read; [exact HT| | |exact Hp|]; [done|lia|].

Lemma read_phase1_end n st p st' :
  both_ok (inner st) -> 0 < n -> 0 < read_data_rem st -> read_phase1 n st = (p, st') ->
  no_more p -> E (inner st').
Proof.
  intros Hi Hn Hd. unfold read_phase1. destruct (n =? 0) eqn:E0; bool_facts; [lia|].
  set (m := if read_data_rem st <? n then read_data_rem st else n).
  replace (if read_data_rem st <? n then poll_read (read_data_rem st) (inner st)
           else poll_read n (inner st)) with (poll_read m (inner st))
    by by unfold m; destruct (_ <? _).
  assert (0 < m) as Hm by (unfold m; destruct (_ <? _); lia).
  destruct (poll_read m (inner st)) as [[|[bs|e]] i] eqn:Hp.
  - intros [= <- <-] [|[? ?]]; done.
  - destruct (length bs =? 0) eqn:Eb; bool_facts.
    + intros [= <- <-] _. apply length_zero_nil in Eb as ->. end_of Hp. by left.
    + intros Hr. assert (p = Ready (Ok bs)) as -> by (destruct (_ =? 0); by injection Hr as <- _).
      intros Hno. by destruct (no_more_data bs).
  - intros [= <- <-] _. end_of Hp. eauto.
Qed.

Lemma read_phase2_end st :
  both_ok (inner st) -> 0 < read_skip_rem st ->
  match read_phase2 st with
  | inl (p, st') => no_more p -> E (inner st')
  | inr st' => both_ok (inner st')
  end.
Proof.
  intros Hi Hs. unfold read_phase2. pose proof (both_ok_read (read_skip_rem st `min` 256) _ Hi) as Hi'.
  destruct (poll_read _ (inner st)) as [[|[bs|e]] i] eqn:Hp.
  - intros [|[? ?]]; done.
  - destruct (length bs =? 0) eqn:Eb; bool_facts; [|exact Hi'].
    intros _. apply length_zero_nil in Eb as ->. end_of Hp. by left.
  - intros _. end_of Hp. eauto.
Qed.

Lemma read_header_end fuel st :
  both_ok (inner st) ->
  match read_header fuel st with
  | inl (p, st') => no_more p -> E (inner st')
  | inr st' => both_ok (inner st')
  end.
Proof.
  revert st. induction fuel as [|fuel IH]; intros st Hi; cbn [read_header];
    destruct (read_hdr_pos st <? 3) eqn:E3; bool_facts; try done.
  { intros [|[? ?]]; done. }
  pose proof (both_ok_read (3 - read_hdr_pos st) _ Hi) as Hi'.
  destruct (poll_read _ (inner st)) as [[|[bs|e]] i] eqn:Hp.
  - intros [|[? ?]]; done.
  - destruct (length bs =? 0) eqn:Eb; bool_facts; [|by apply IH].
    intros _. apply length_zero_nil in Eb as ->. end_of Hp. by left.
  - intros _. end_of Hp. eauto.
Qed.

Lemma poll_read_loop_end fuel n st p st' :
  both_ok (inner st) -> 0 < n -> poll_read_loop fuel n st = Some (p, st') -> no_more p -> E (inner st').
Proof.
  intros Hi Hn. revert st Hi. induction fuel as [|fuel IH]; intros st Hi; cbn [poll_read_loop]; [done|].
  destruct (0 <? read_data_rem st) eqn:Ed; bool_facts.
  { intros [= Hp]. by apply (read_phase1_end n st). }
  destruct (0 <? read_skip_rem st) eqn:Es; bool_facts.
  { pose proof (read_phase2_end st Hi Es) as H2.
    destruct (read_phase2 st) as [[p1 st1]|st1]; [by intros [= <- <-]|by apply IH]. }
  destruct (PADDING_FRAMES <=? read_frames_done st).
  { destruct (poll_read n (inner st)) as [p1 i] eqn:Hp. intros [= <- <-] Hno. by end_of Hp. }
  pose proof (read_header_end 3 st Hi) as H4.
  destruct (read_header 3 st) as [[p1 st1]|st1]; [by intros [= <- <-]|].
  apply IH. unfold parse_header. by destruct (_ =? 0).
Qed.

Lemma npt_poll_read_end n st p st' :
  both_ok (inner st) -> 0 < n -> npt_poll_read n st = (p, st') -> no_more p -> E (inner st').
Proof.
  intros Hi Hn. unfold npt_poll_read. destruct (poll_read_loop _ n st) as [r|] eqn:Hp.
  - intros ->. by eapply poll_read_loop_end.
  - intros [= <- <-] [|[? ?]]; done.
Qed.

(** ** Shutting down *)

Lemma drain_pending_end fuel msg st e st' :
  (forall p, write_pending st = Some p -> write_pending_off st < length p) -> both_ok (inner st) ->
  J (inner st) -> drain_pending fuel msg st = (Ready (Err e), st') -> C (inner st').
Proof.
  revert st. induction fuel as [|fuel IH]; intros st Hoff Hi HJ; cbn [drain_pending];
    destruct (write_pending st) as [pend|] eqn:Hw; try done.
  specialize (Hoff pend eq_refl). set (rest := drop (write_pending_off st) pend).
  assert (rest <> []) as Hne.
  { intros H. assert (length rest = 0) as Hl by by rewrite H.
    unfold rest in Hl. rewrite length_drop in Hl. lia. }
  pose proof (both_ok_write rest _ Hi) as Hi'. pose proof (below_write_J _ _ _ HT rest _ Hi HJ) as HJ'.
  destruct (poll_write rest (inner st)) as [[|[[|k]|e1]] i] eqn:Hp; cbn [snd] in Hi', HJ'; try done.
  - intros [= <- <-]. eapply below_write_C; [exact HT|exact Hi|exact HJ|exact Hne|exact Hp|]. by left.
  - apply IH.
    + intros q. unfold advance_pending. destruct (_ <=? _) eqn:El; [done|]. bool_facts.
      simpl. by intros [= ->].
    + unfold advance_pending. by destruct (_ <=? _).
    + unfold advance_pending. by destruct (_ <=? _).
  - intros [= <- <-]. eapply below_write_C; [exact HT|exact Hi|exact HJ|exact Hne|exact Hp|]. eauto.
Qed.

Lemma both_open_write b i : both_ok i /\ J i -> both_ok (poll_write b i).2 /\ J (poll_write b i).2.
Proof. intros [? ?]. split; [by apply both_ok_write|by apply (below_write_J _ _ _ HT)]. Qed.

Lemma both_open_flush i : both_ok i /\ J i -> both_ok (poll_flush i).2 /\ J (poll_flush i).2.
Proof. intros [? ?]. split; [by apply both_ok_flush|by apply (below_flush_J _ _ _ HT)]. Qed.

Lemma npt_poll_shutdown_end st p st' :
  write_wf st -> both_ok (inner st) -> J (inner st) -> npt_poll_shutdown st = (p, st') ->
  match p with
  | Pending => J (inner st')
  | Ready _ => (write_pending st' = None /\ wr_fin (inner st') = true) \/ C (inner st')
  end.
Proof.
  intros W Hi HJ Hp.
  assert (p = Ready (Ok tt) -> write_pending st' = None /\ wr_fin (inner st') = true) as Hok
    by (apply npt_poll_shutdown_spec in Hp as (_ & _ & _ & H & _); done).
  revert Hp Hok. unfold npt_poll_shutdown, npt_poll_flush.
  pose proof (drain_pending_below (fun i => both_ok i /\ J i) (pending_left st)
    "transport write returned zero during flush" st both_open_write (conj Hi HJ)) as [H1 J1].
  destruct (drain_pending _ _ st) as [[|[[]|e1]] st1] eqn:Ed; cbn [snd] in H1, J1.
  - by intros [= <- <-].
  - destruct (both_open_flush _ (conj H1 J1)) as [H2 J2].
    destruct (poll_flush (inner st1)) as [[|[[]|e1]] i] eqn:Ef; cbn [snd] in H2, J2.
    + by intros [= <- <-].
    + destruct (poll_shutdown (inner (set_inner st1 i))) as [[|[[]|e]] j] eqn:Es; intros [= <- <-] Hok.
      * by eapply (below_shutdown_J E J C HT); [| |exact Es].
      * left. by apply Hok.
      * right. by eapply (below_shutdown_C E J C HT); [| |exact Es].
    + intros [= <- <-] _. right. by eapply (below_flush_C E J C HT); [| |exact Ef].
  - intros [= <- <-] _. right. by eapply drain_pending_end; [apply W|..].
Qed.

(** ** The transport *)

Definition padded_end (s : Padded T) : Prop := E (inner (npt s)).

(** Every byte accepted, and the end after them, was handed to the stream below;
    or that stream is broken. *)
Definition padded_shut (s : Padded T) : Prop :=
  (write_pending (npt s) = None /\ wr_fin (inner (npt s)) = true) \/ C (inner (npt s)).

Definition padded_open (s : Padded T) : Prop := J (inner (npt s)).

Lemma padded_inner s : both_ok s -> both_ok (inner (npt s)).
Proof. intros [[_ ? _] [? _ _]]. by split. Qed.

(** A property of the stream below that its write and flush polls keep. *)
Lemma padded_keeps (P : T -> Prop) s :
  (forall b i, both_ok i -> P i -> P (poll_write b i).2) ->
  (forall i, both_ok i -> P i -> P (poll_flush i).2) ->
  both_ok s -> P (inner (npt s)) ->
  (forall b, P (inner (npt (poll_write b s).2))) /\ P (inner (npt (poll_flush s).2))
  /\ ((forall i, both_ok i -> P i -> P (poll_shutdown i).2) -> P (inner (npt (poll_shutdown s).2))).
Proof.
  intros H1 H2 Hs HP. pose proof (padded_inner s Hs) as Hi.
  assert (forall b i, both_ok i /\ P i -> both_ok (poll_write b i).2 /\ P (poll_write b i).2) as K1
    by (intros ? ? [? ?]; split; [by apply both_ok_write|auto]).
  assert (forall i, both_ok i /\ P i -> both_ok (poll_flush i).2 /\ P (poll_flush i).2) as K2
    by (intros ? [? ?]; split; [by apply both_ok_flush|auto]).
  split_and!.
  - intros b. simpl. destruct (rng_at s (tick s)) as [nanos cell].
    pose proof (npt_poll_write_below _ nanos cell b (npt s) K1 (conj Hi HP)) as HB.
    destruct (npt_poll_write nanos cell b (npt s)) as [[q st] c]. apply HB.
  - simpl. pose proof (npt_poll_flush_below _ (npt s) K1 K2 (conj Hi HP)) as HB.
    destruct (npt_poll_flush (npt s)) as [q st]. apply HB.
  - intros H3. simpl. pose proof (npt_poll_shutdown_below _ (npt s) K1 K2
      ltac:(intros ? [? ?]; split; [by apply both_ok_shutdown|auto]) (conj Hi HP)) as HB.
    destruct (npt_poll_shutdown (npt s)) as [q st]. apply HB.
Qed.

Lemma padded_ends : Ends (Padded T) padded_end padded_open padded_shut.
Proof.
  split; unfold padded_end, padded_open, padded_shut.
  - intros n s p s' Hs Hn. unfold poll_read, Padded_read.
    destruct (npt_poll_read n (npt s)) as [q st] eqn:Hp. intros [= <- <-] Hno.
    eapply npt_poll_read_end; [by apply padded_inner|exact Hn|exact Hp|exact Hno].
  - intros s r s' Hs HJ. simpl. destruct (npt_poll_shutdown (npt s)) as [q st] eqn:Hp.
    intros [= -> <-]. by eapply npt_poll_shutdown_end in Hp; [|apply Hs|apply padded_inner|].
  - intros s s' Hs HJ. simpl. destruct (npt_poll_shutdown (npt s)) as [q st] eqn:Hp.
    intros [= -> <-]. by eapply npt_poll_shutdown_end in Hp; [|apply Hs|apply padded_inner|].
  - intros b s Hs HJ. by apply (padded_keeps J s (below_write_J _ _ _ HT) (below_flush_J _ _ _ HT)).
  - intros s Hs HJ. by apply (padded_keeps J s (below_write_J _ _ _ HT) (below_flush_J _ _ _ HT)).
  - intros n s Hs HJ. unfold poll_read, Padded_read.
    pose proof (npt_poll_read_below (fun i => both_ok i /\ J i) n (npt s)
      ltac:(intros ? ? [? ?]; split; [by apply both_ok_read|by apply (below_read_J _ _ _ HT)])
      (conj (padded_inner s Hs) HJ)) as [HB _].
    destruct (npt_poll_read n (npt s)) as [q st]. apply HB.
  - intros b s Hs HE. by apply (padded_keeps E s (below_write_E _ _ _ HT) (below_flush_E _ _ _ HT)).
  - intros s Hs HE. by apply (padded_keeps E s (below_write_E _ _ _ HT) (below_flush_E _ _ _ HT)).
  - intros s Hs HE. apply (padded_keeps E s (below_write_E _ _ _ HT) (below_flush_E _ _ _ HT)); [done..|].
    apply (below_shutdown_E _ _ _ HT).
  - intros n s Hs HF. unfold poll_read, Padded_read. pose proof (padded_inner s Hs) as Hi.
    pose proof (npt_poll_read_below
      (fun i => both_ok i /\ (wr_fin (inner (npt s)) = true -> wr_fin i = true)
        /\ (C (inner (npt s)) -> C i)) n (npt s)) as [HB HS].
    { intros m i (H1 & H2 & H3). split; [by apply both_ok_read|]. split.
      - destruct (poll_read m i) as [q j] eqn:Hp. destruct H1 as [H1 H1'].
        destruct (read_frame _ _ _ _ H1 H1' Hp) as (_ & _ & Hfin). simpl. rewrite Hfin. auto.
      - intros H. by apply (below_read_C _ _ _ HT); auto. }
    { by split_and!. }
    destruct (npt_poll_read n (npt s)) as [q st]. cbn [snd] in *. simpl.
    destruct HB as (_ & Hf & Hc), HS as (_ & Hw & _). rewrite Hw.
    destruct HF as [[? ?]|?]; [left|right]; auto.
Qed.

(** Between two polls only the stream below changes. *)
Inductive padded_env (N : T -> T -> Prop) (s : Padded T) : Padded T -> Prop :=
  | below_changes i : N (inner (npt s)) i -> padded_env N s (with_npt s (set_inner (npt s) i)).

Context (N : T -> T -> Prop).
Context (HN : forall i i', N i i' -> both_ok i -> stream_env i i' /\ (E i -> E i') /\ (J i -> J i') /\ (C i -> C i')).

Lemma padded_stream_env s s' : padded_env N s s' -> both_ok s -> stream_env s s'.
Proof.
  intros [i Hi] Hs. pose proof (padded_inner s Hs) as Hin. destruct (HN _ _ Hi Hin) as ((? & ? & ? & ? & ?) & _).
  destruct Hs as [Hr Hw].
  destruct (same_read_ok (npt s) (set_inner (npt s) i)) as [? ?]; [done|by split_and!|by split_and!|].
  destruct (same_write_ok (npt s) (set_inner (npt s) i)) as (? & ? & ?); [done|by split_and!|by split_and!|].
  by split_and!.
Qed.

Lemma padded_env_ends : env_ends (padded_env N) padded_end padded_open padded_shut.
Proof.
  intros s s' Hs Hok. pose proof (padded_stream_env s s' Hs Hok) as (? & ? & _ & _ & Hfin).
  destruct Hs as [i Hi]. destruct (HN _ _ Hi (padded_inner s Hok)) as (_ & HE & HJ & HC).
  split; [by split|]. split; [done|]. split; [done|]. unfold padded_shut. simpl in *. rewrite Hfin.
  intros [?|?]; auto.
Qed.
End PaddingEnd.

(** ** What the relay's polls keep of the stream below *)

Section Keep.
Context {T : Type} `{!AsyncRead T, !AsyncWrite T}.
Context (P : T -> Prop).

(** A property of the stream below that all its polls keep. *)
Record Kept : Prop := {
  keep_read n i : P i -> P (poll_read n i).2;
  keep_write b i : P i -> P (poll_write b i).2;
  keep_flush i : P i -> P (poll_flush i).2;
  keep_shutdown i : P i -> P (poll_shutdown i).2
}.
End Keep.

Lemma kept_padded {T} `{!AsyncRead T, !AsyncWrite T} (P : T -> Prop) :
  Kept P -> Kept (fun s : Padded T => P (inner (npt s))).
Proof.
  intros [H1 H2 H3 H4]. split.
  - intros n s Hs. unfold poll_read, Padded_read.
    pose proof (npt_poll_read_below P n (npt s) H1 Hs) as [HB _].
    by destruct (npt_poll_read n (npt s)).
  - intros b s Hs. simpl. destruct (rng_at s (tick s)) as [nanos cell].
    pose proof (npt_poll_write_below P nanos cell b (npt s) H2 Hs) as HB.
    by destruct (npt_poll_write nanos cell b (npt s)) as [[? ?] ?].
  - intros s Hs. simpl. pose proof (npt_poll_flush_below P (npt s) H2 H3 Hs) as HB.
    by destruct (npt_poll_flush (npt s)).
  - intros s Hs. simpl. pose proof (npt_poll_shutdown_below P (npt s) H2 H3 H4 Hs) as HB.
    by destruct (npt_poll_shutdown (npt s)).
Qed.

Section KeepRelay.
Context {A B : Type} `{!AsyncRead A, !AsyncWrite A, !AsyncRead B, !AsyncWrite B}.
Variable sleep_ready : Z -> Z -> bool.
Context (P : A -> Prop) (HP : Kept P).

Lemma poll_copy_kept_reader fuel d (a : A) (b : B) p d' a' b' :
  P a -> poll_copy fuel d a b = Some (p, d', a', b') -> P a'.
Proof.
  intros Ha Hp. pose proof (poll_copy_below P (fun _ : B => True) (keep_read P HP)
    ltac:(done) ltac:(done) ltac:(done) fuel d a b Ha I) as HB.
  rewrite Hp in HB. apply HB.
Qed.

Lemma poll_copy_kept_writer fuel d (a : A) (b : B) p d' a' b' :
  P a -> poll_copy fuel d b a = Some (p, d', b', a') -> P a'.
Proof.
  intros Ha Hp. pose proof (poll_copy_below (fun _ : B => True) P ltac:(done)
    (keep_write P HP) (keep_flush P HP) (keep_shutdown P HP) fuel d b a I Ha) as HB.
  rewrite Hp in HB. apply HB.
Qed.

Lemma relay_poll_kept fuel idle now (st : Relay A B) p t st' :
  P (side_a st) -> relay_poll sleep_ready fuel idle now st = Some (p, t, st') -> P (side_a st').
Proof.
  intros H Hp. unfold relay_poll in Hp.
  assert (forall o, poll_a_to_b fuel st = Some o ->
    match o with inl (_, st1) | inr st1 => P (side_a st1) end) as H1.
  { unfold poll_a_to_b. intros o. destruct (is_done _); [by intros [= <-]|].
    destruct (poll_copy _ _ _ _) as [[[[q d] a] b]|] eqn:Ec; [|done].
    apply poll_copy_kept_reader in Ec; [|done]. by destruct q as [|[|]]; intros [= <-]. }
  destruct (poll_a_to_b fuel st) as [[[e st1]|st1]|]; [|specialize (H1 _ eq_refl)|done].
  { injection Hp as _ _ <-. by specialize (H1 _ eq_refl). }
  assert (forall o, poll_b_to_a fuel st1 = Some o ->
    match o with inl (_, st2) | inr st2 => P (side_a st2) end) as H2.
  { unfold poll_b_to_a. intros o. destruct (is_done _); [by intros [= <-]|].
    destruct (poll_copy _ _ _ _) as [[[[q d] b] a]|] eqn:Ec; [|done].
    apply poll_copy_kept_writer in Ec; [|done]. by destruct q as [|[|]]; intros [= <-]. }
  destruct (poll_b_to_a fuel st1) as [[[e st2]|st2]|]; [|specialize (H2 _ eq_refl)|done].
  { injection Hp as _ _ <-. by specialize (H2 _ eq_refl). }
  assert (side_a st' = side_a st2) as ->; [|done].
  destruct (progressed st st2); (destruct (_ && _); [|destruct (sleep_ready _ _)]);
    injection Hp as _ _ <-; done.
Qed.

Context (EA : A -> A -> Prop) (EB : B -> B -> Prop) (HE : forall a a', EA a a' -> P a -> P a').
Context `{!ReadSpec A, !WriteSpec A, !ReadSpec B, !WriteSpec B}.

Lemma relay_runs_kept size suppress idle start a0 b0 st last :
  P a0 -> relay_runs sleep_ready EA EB size suppress idle start a0 b0 st last -> P (side_a st).
Proof.
  intros H0. induction 1 as [|st last a b H IH Na Nb|st last fuel now t st' H IH Hp];
    [done|by eapply HE|by eapply relay_poll_kept].
Qed.
End KeepRelay.
