(* ===== verification/Wakeup.v ===== *)
(** * No lost wakeups

    A future that returns [Pending] is polled again only if a waker was
    registered: a poll of a stream that is pending registers it with the stream.
    [WakeSpec] counts, as ghosts, the pending polls of the two halves of a
    stream; [Watched] adds the counters to any stream.  The poll functions of
    the padding transport and of the relay pass the obligation on: they are
    pending only when a stream below them is, on the side they wait for. *)

From S2P Require Import Prelude RustStr AsyncIo Padding PaddingStream Relay RelayEnd PaddingEnd.
Open Scope nat_scope.

(** How often the task was left to be woken by the reading half, and by the
    writing half. *)
Class WakeSpec (T : Type) `{!AsyncRead T, !AsyncWrite T, !ReadSpec T, !WriteSpec T} : Type := {
  rd_waits : T -> nat;
  wr_waits : T -> nat;
  wake_read n s p s' : both_ok s -> poll_read n s = (p, s') ->
    (rd_waits s <= rd_waits s' /\ wr_waits s <= wr_waits s') /\ (p = Pending -> rd_waits s < rd_waits s');
  wake_write buf s p s' : both_ok s -> poll_write buf s = (p, s') ->
    (rd_waits s <= rd_waits s' /\ wr_waits s <= wr_waits s') /\ (p = Pending -> wr_waits s < wr_waits s');
  wake_flush s p s' : both_ok s -> poll_flush s = (p, s') ->
    (rd_waits s <= rd_waits s' /\ wr_waits s <= wr_waits s') /\ (p = Pending -> wr_waits s < wr_waits s');
  wake_shutdown s p s' : both_ok s -> poll_shutdown s = (p, s') ->
    (rd_waits s <= rd_waits s' /\ wr_waits s <= wr_waits s') /\ (p = Pending -> wr_waits s < wr_waits s')
}.

(** ** Any stream, with the counters *)

Record Watched (T : Type) : Type := mkWatched { base : T; n_read : nat; n_write : nat }.
Arguments mkWatched {T}.
Arguments base {T}.
Arguments n_read {T}.
Arguments n_write {T}.

Section Watched.
Context {T : Type} `{!AsyncRead T, !AsyncWrite T}.

Definition count {A} (p : poll A) : nat := match p with Pending => 1 | Ready _ => 0 end.

#[export] Instance Watched_read : AsyncRead (Watched T) := fun n s =>
  let '(p, b) := poll_read n (base s) in (p, mkWatched b (n_read s + count p) (n_write s)).

Definition watched_write {A} (op : T -> poll A * T) (s : Watched T) : poll A * Watched T :=
  let '(p, b) := op (base s) in (p, mkWatched b (n_read s) (n_write s + count p)).

#[export] Instance Watched_write : AsyncWrite (Watched T) := {|
  poll_write := fun buf => watched_write (poll_write buf);
  poll_flush := watched_write poll_flush;
  poll_shutdown := watched_write poll_shutdown
|}.

Context `{!ReadSpec T, !WriteSpec T}.

#[export] Program Instance Watched_read_spec : ReadSpec (Watched T) := {|
  rd_ok := fun s => rd_ok (base s); rd_log := fun s => rd_log (base s)
|}.
Next Obligation.
  unfold poll_read, Watched_read. intros n s p s' Hok Hp.
  destruct (poll_read n (base s)) as [p1 b] eqn:E. injection Hp as <- <-. by eapply rd_spec.
Qed.

#[export] Program Instance Watched_write_spec : WriteSpec (Watched T) := {|
  wr_ok := fun s => wr_ok (base s); wr_log := fun s => wr_log (base s); wr_fin := fun s => wr_fin (base s)
|}.
Next Obligation.
  simpl. unfold watched_write. intros buf s p s' Hok Hp.
  destruct (poll_write buf (base s)) as [p1 b] eqn:E. injection Hp as <- <-. by eapply wr_spec.
Qed.
Next Obligation.
  simpl. unfold watched_write. intros s p s' Hok Hp.
  destruct (poll_flush (base s)) as [p1 b] eqn:E. injection Hp as <- <-. by eapply flush_spec.
Qed.
Next Obligation.
  simpl. unfold watched_write. intros s p s' Hok Hp.
  destruct (poll_shutdown (base s)) as [p1 b] eqn:E. injection Hp as <- <-. by eapply shutdown_spec.
Qed.

#[export] Instance Watched_duplex `{!DuplexSpec T} : DuplexSpec (Watched T).
Proof.
  split; simpl; unfold watched_write.
  - unfold poll_read, Watched_read. intros n s p s' Hr Hw Hp.
    destruct (poll_read n (base s)) as [p1 b] eqn:E. injection Hp as <- <-. by eapply read_frame.
  - intros buf s p s' Hr Hw Hp. destruct (poll_write buf (base s)) as [p1 b] eqn:E. injection Hp as <- <-.
    by eapply write_frame.
  - intros s p s' Hr Hw Hp. destruct (poll_flush (base s)) as [p1 b] eqn:E. injection Hp as <- <-.
    by eapply flush_frame.
  - intros s p s' Hr Hw Hp. destruct (poll_shutdown (base s)) as [p1 b] eqn:E. injection Hp as <- <-.
    by eapply shutdown_frame.
Qed.

#[export] Instance Watched_err_clean `{!WriteErrClean T} : WriteErrClean (Watched T).
Proof.
  intros data s e s' Hok. simpl. unfold watched_write.
  destruct (poll_write data (base s)) as [p b] eqn:E. intros [= -> <-]. simpl. by eapply write_err_clean.
Qed.

#[export] Program Instance Watched_finite `{!ReadFinite T} : ReadFinite (Watched T) := {|
  rd_avail := fun s => rd_avail (base s)
|}.
Next Obligation.
  unfold poll_read, Watched_read. intros ? n s bs s' Hp Hbs.
  destruct (poll_read n (base s)) as [p b] eqn:E. injection Hp as -> <-. by eapply rd_avail_spec.
Qed.

Lemma watched_write_wakes {A} (op : T -> poll A * T) s p s' :
  watched_write op s = (p, s') ->
  (n_read s <= n_read s' /\ n_write s <= n_write s') /\ (p = Pending -> n_write s < n_write s').
Proof.
  unfold watched_write. destruct (op (base s)) as [q b]. intros [= <- <-]. simpl.
  split; [lia|]. intros ->. simpl. lia.
Qed.

#[export] Program Instance Watched_wake : WakeSpec (Watched T) := {| rd_waits := n_read; wr_waits := n_write |}.
Next Obligation.
  unfold poll_read, Watched_read. intros n s p s' _ Hp.
  destruct (poll_read n (base s)) as [p1 b]. injection Hp as <- <-. simpl. split; [lia|]. intros ->. simpl. lia.
Qed.
Next Obligation. intros buf s p s' _. apply watched_write_wakes. Qed.
Next Obligation. intros s p s' _. apply watched_write_wakes. Qed.
Next Obligation. intros s p s' _. apply watched_write_wakes. Qed.
End Watched.

(** What a poll may do to the counters. *)
Section More.
Context {T : Type} `{!AsyncRead T, !AsyncWrite T, !ReadSpec T, !WriteSpec T, !DuplexSpec T, !WakeSpec T}.

Record more (s s' : T) : Prop := {
  m_ok : both_ok s';
  m_rd : rd_waits s <= rd_waits s';
  m_wr : wr_waits s <= wr_waits s'
}.

Lemma more_refl s : both_ok s -> more s s.
Proof. by split. Qed.

Lemma more_trans s1 s2 s3 : more s1 s2 -> more s2 s3 -> more s1 s3.
Proof. intros [] []. split; [done|lia..]. Qed.

Lemma read_more n s p s' :
  both_ok s -> poll_read n s = (p, s') -> more s s' /\ (p = Pending -> rd_waits s < rd_waits s').
Proof.
  intros Hs Hp. pose proof (both_ok_read n s Hs) as Hs'. rewrite Hp in Hs'.
  destruct (wake_read _ _ _ _ Hs Hp) as [[? ?] ?]. by split.
Qed.

Lemma write_more b s p s' :
  both_ok s -> poll_write b s = (p, s') -> more s s' /\ (p = Pending -> wr_waits s < wr_waits s').
Proof.
  intros Hs Hp. pose proof (both_ok_write b s Hs) as Hs'. rewrite Hp in Hs'.
  destruct (wake_write _ _ _ _ Hs Hp) as [[? ?] ?]. by split.
Qed.

Lemma flush_more s p s' :
  both_ok s -> poll_flush s = (p, s') -> more s s' /\ (p = Pending -> wr_waits s < wr_waits s').
Proof.
  intros Hs Hp. pose proof (both_ok_flush s Hs) as Hs'. rewrite Hp in Hs'.
  destruct (wake_flush _ _ _ Hs Hp) as [[? ?] ?]. by split.
Qed.

Lemma shutdown_more s p s' :
  both_ok s -> poll_shutdown s = (p, s') -> more s s' /\ (p = Pending -> wr_waits s < wr_waits s').
Proof.
  intros Hs Hp. pose proof (both_ok_shutdown s Hs) as Hs'. rewrite Hp in Hs'.
  destruct (wake_shutdown _ _ _ Hs Hp) as [[? ?] ?]. by split.
Qed.
End More.

(** ** One direction of the relay *)

Section Direction.
Context {R : Type} `{!AsyncRead R, !AsyncWrite R, !ReadSpec R, !WriteSpec R, !DuplexSpec R, !WakeSpec R}.
Context {W : Type} `{!AsyncRead W, !AsyncWrite W, !ReadSpec W, !WriteSpec W, !DuplexSpec W, !WakeSpec W}.

(** A poll of a direction from [r], [w]: pending, it left the task with one of
    the streams; it returns without an error when it is done. *)
Definition waited (r : R) (w : W) (res : poll (io_result unit) * DirectionalBuffer * R * W) : Prop :=
  let '(p, d', r', w') := res in
  more r r' /\ more w w' /\
  match p with
  | Pending => rd_waits r < rd_waits r' \/ wr_waits w < wr_waits w'
  | Ready (Ok _) => shutdown_done d' = true
  | Ready (Err _) => True
  end.

Lemma waited_more r1 w1 r w res : more r1 r -> more w1 w -> waited r w res -> waited r1 w1 res.
Proof.
  destruct res as [[[p d] r'] w']. intros Hr Hw (Hr' & Hw' & Hp).
  split; [by eapply more_trans|]. split; [by eapply more_trans|].
  destruct p as [|[]]; [|done..]. destruct Hr, Hw. destruct Hp; [left|right]; lia.
Qed.

Lemma prefetch_more d (r : R) : both_ok r -> more r (prefetch d r).2.
Proof.
  intros Hr. unfold prefetch. destruct (_ && _); [|by apply more_refl].
  destruct (poll_read _ r) as [p r'] eqn:Hp. apply read_more in Hp as [Hm _]; [|done].
  destruct p as [|[bs|e]]; [done| |done]. by destruct (length bs =? 0).
Qed.

Lemma write_buffered_wakes fuel d (r : R) (w : W) :
  cap d - pos d <= fuel -> both_ok r -> both_ok w ->
  match write_buffered fuel d r w with
  | inl res => waited r w res
  | inr (_, w') => more w w'
  end.
Proof.
  revert d w. induction fuel as [|fuel IH]; intros d w Hf Hr Hw; cbn [write_buffered];
    destruct (pos d <? cap d) eqn:E; bool_facts; try (by apply more_refl); [lia|].
  destruct (poll_write (buffered d) w) as [p w'] eqn:Hp. apply write_more in Hp as [Hm Hp]; [|done].
  destruct p as [|[[|i]|e]].
  - pose proof (prefetch_more d r Hr) as H. destruct (prefetch d r) as [d' r']. split_and!; [done|done|].
    right. by apply Hp.
  - split_and!; [by apply more_refl|done|done].
  - set (d' := set_range d _ _ _ _).
    assert (cap d' - pos d' <= fuel) as Hd' by (unfold d'; simpl; lia).
    specialize (IH d' w' Hd' Hr (m_ok _ _ Hm)). destruct (write_buffered fuel d' r w') as [res|[d1 w1]].
    + eapply waited_more; [by apply more_refl|exact Hm|exact IH].
    + by eapply more_trans.
  - split_and!; [by apply more_refl|done|done].
Qed.

Lemma poll_copy_wakes fuel d (r : R) (w : W) res :
  both_ok r -> both_ok w -> poll_copy fuel d r w = Some res -> waited r w res.
Proof.
  intros Hr Hw. unfold poll_copy. destruct (shutdown_done d) eqn:Hd.
  { intros [= <-]. split_and!; by try apply more_refl. }
  clear Hd. revert d r w Hr Hw. induction fuel as [|fuel IH]; intros d r w Hr Hw; [done|]. cbn [poll_copy_loop].
  pose proof (write_buffered_wakes (cap d - pos d) d r w ltac:(done) Hr Hw) as H1.
  destruct (write_buffered _ d r w) as [res1|[d1 w1]]; [by intros [= <-]|].
  destruct (poll_flush w1) as [pf w2] eqn:Hf. apply flush_more in Hf as [H2 _]; [|apply H1].
  assert (more w w2) as Hm by by eapply more_trans.
  assert (refill (poll_copy_loop fuel) d1 r w2 = Some res -> waited r w res) as HR.
  { unfold refill, finish_dir. destruct (read_done d1).
    - destruct (suppress_shutdown d1); [intros [= <-]; split_and!; by try apply more_refl|].
      destruct (poll_shutdown w2) as [p w3] eqn:Hs. apply shutdown_more in Hs as [H3 Hs]; [|apply Hm].
      assert (more w w3) as Hm3 by by eapply more_trans.
      destruct p as [|q]; intros [= <-]; (split_and!; [by apply more_refl|done|]); [|done].
      right. specialize (Hs eq_refl). destruct Hm. lia.
    - destruct (poll_read (length (buf d1)) r) as [p r1] eqn:Hp. apply read_more in Hp as [H3 Hp]; [|done].
      destruct p as [|[bs|e]]; [intros [= <-]; split_and!; [done..|left; by apply Hp]| |intros [= <-]; by split_and!].
      destruct (length bs =? 0); intros H; (eapply waited_more; [exact H3|exact Hm|]); eapply IH, H; apply H3 || apply Hm. }
  destruct pf as [|[x|e]]; [exact HR|exact HR|]. intros [= <-]. split_and!; by try apply more_refl.
Qed.
End Direction.

(** ** The relay *)

Section Both.
Context {A : Type} `{!AsyncRead A, !AsyncWrite A, !ReadSpec A, !WriteSpec A, !DuplexSpec A, !WakeSpec A}.
Context {B : Type} `{!AsyncRead B, !AsyncWrite B, !ReadSpec B, !WriteSpec B, !DuplexSpec B, !WakeSpec B}.
Variable sleep_ready : Z -> Z -> bool.

Lemma relay_wakes fuel idle now (st : Relay A B) t st' :
  both_ok (side_a st) -> both_ok (side_b st) ->
  relay_poll sleep_ready fuel idle now st = Some (Pending, t, st') ->
  (is_done (a_to_b st') = true \/ rd_waits (side_a st) < rd_waits (side_a st')
   \/ wr_waits (side_b st) < wr_waits (side_b st'))
  /\ (is_done (b_to_a st') = true \/ rd_waits (side_b st) < rd_waits (side_b st')
      \/ wr_waits (side_a st) < wr_waits (side_a st'))
  /\ sleep_ready (idle_sleep st') now = false.
Proof.
  intros Ha Hb. unfold relay_poll.
  assert (forall st1, poll_a_to_b fuel st = Some (inr st1) ->
    more (side_a st) (side_a st1) /\ more (side_b st) (side_b st1)
    /\ (is_done (a_to_b st1) = true \/ rd_waits (side_a st) < rd_waits (side_a st1)
        \/ wr_waits (side_b st) < wr_waits (side_b st1))) as H1.
  { intros st1. unfold poll_a_to_b. destruct (is_done (a_to_b st)) eqn:Hd.
    - intros [= <-]. split_and!; [by apply more_refl..|by left].
    - destruct (poll_copy fuel (a_to_b st) (side_a st) (side_b st)) as [[[[p d] a] b]|] eqn:Hp; [|done].
      apply poll_copy_wakes in Hp as (H1 & H2 & H3); [|done..].
      destruct p as [|[x|e]]; intros [= <-]; (split_and!; [done..|]); [by right|by left]. }
  destruct (poll_a_to_b fuel st) as [[[e st1]|st1]|]; [done| |done].
  destruct (H1 st1 eq_refl) as (Ma & Mb & Hw). clear H1.
  assert (forall st2, poll_b_to_a fuel st1 = Some (inr st2) ->
    a_to_b st2 = a_to_b st1 /\ more (side_a st1) (side_a st2) /\ more (side_b st1) (side_b st2)
    /\ (is_done (b_to_a st2) = true \/ rd_waits (side_b st1) < rd_waits (side_b st2)
        \/ wr_waits (side_a st1) < wr_waits (side_a st2))) as H2.
  { intros st2. unfold poll_b_to_a. destruct (is_done (b_to_a st1)) eqn:Hd.
    - intros [= <-]. split_and!; [done|apply more_refl; by destruct Ma|apply more_refl; by destruct Mb|by left].
    - destruct (poll_copy fuel (b_to_a st1) (side_b st1) (side_a st1)) as [[[[p d] b] a]|] eqn:Hp; [|done].
      apply poll_copy_wakes in Hp as (H1 & H2 & H3); [|by destruct Mb|by destruct Ma].
      destruct p as [|[x|e]]; intros [= <-]; (split_and!; [done..|]); [by right|by left]. }
  destruct (poll_b_to_a fuel st1) as [[[e st2]|st2]|]; [done| |done].
  destruct (H2 st2 eq_refl) as (Ed & Ma' & Mb' & Hw'). clear H2.
  set (st3 := if progressed st st2 then _ else st2).
  assert (a_to_b st3 = a_to_b st2 /\ b_to_a st3 = b_to_a st2 /\ side_a st3 = side_a st2 /\ side_b st3 = side_b st2)
    as (E1 & E2 & E3 & E4) by (unfold st3; by destruct (progressed st st2)).
  destruct (_ && _); [done|]. destruct (sleep_ready (idle_sleep st3) now) eqn:Hs; [done|].
  intros [= <- <-]. rewrite E1, E2, E3, E4, Ed.
  destruct Ma, Mb, Ma', Mb'. split_and!; [| |done].
  - destruct Hw as [|[|]]; [by left|right; left; lia|right; right; lia].
  - destruct Hw' as [|[|]]; [by left|right; left; lia|right; right; lia].
Qed.
End Both.

(** ** The padding transport *)

Section Padding.
Context {T : Type} `{!AsyncRead T, !AsyncWrite T, !ReadSpec T, !WriteSpec T, !WriteErrClean T, !DuplexSpec T, !ReadFinite T}.
Context `{!WakeSpec T}.
Implicit Types st : NaivePaddedTransport T.

(** Reading leaves the task with the stream below if it is pending. *)
Definition read_waited {X} (st : NaivePaddedTransport T) (p : poll X) (st' : NaivePaddedTransport T) : Prop :=
  p = Pending -> rd_waits (inner st) < rd_waits (inner st').

Lemma read_phase1_wakes n st p st' :
  both_ok (inner st) -> read_phase1 n st = (p, st') -> read_waited st p st'.
Proof.
  intros Hok. unfold read_phase1. destruct (n =? 0); [by intros [= <- <-]|].
  set (m := if read_data_rem st <? n then read_data_rem st else n).
  replace (if read_data_rem st <? n then poll_read (read_data_rem st) (inner st)
           else poll_read n (inner st)) with (poll_read m (inner st))
    by by unfold m; destruct (_ <? _).
  destruct (poll_read m (inner st)) as [q i] eqn:E. apply read_more in E as [_ E]; [|done].
  destruct q as [|[bs|e]]; [intros [= <- <-] _; by apply E| |by intros [= <- <-]].
  destruct (length bs =? 0); [by intros [= <- <-]|]. destruct (_ =? 0); by intros [= <- <-].
Qed.

Lemma read_phase2_wakes st :
  both_ok (inner st) ->
  match read_phase2 st with
  | inl (p, st') => read_waited st p st'
  | inr st' => more (inner st) (inner st')
  end.
Proof.
  intros Hok. unfold read_phase2. destruct (poll_read _ (inner st)) as [q i] eqn:E.
  apply read_more in E as [Hm E]; [|done].
  destruct q as [|[bs|e]]; [intros _; by apply E| |done]. by destruct (length bs =? 0).
Qed.

Lemma read_header_wakes fuel st :
  both_ok (inner st) -> 3 - read_hdr_pos st <= fuel ->
  match read_header fuel st with
  | inl (p, st') => read_waited st p st'
  | inr st' => more (inner st) (inner st')
  end.
Proof.
  revert st. induction fuel as [|fuel IH]; intros st Hok Hf; cbn [read_header];
    destruct (read_hdr_pos st <? 3) eqn:E3; bool_facts; try (by apply more_refl); [lia|].
  destruct (poll_read _ (inner st)) as [q i] eqn:E. apply read_more in E as [Hm E]; [|done].
  destruct q as [|[bs|e]]; [intros _; by apply E| |done].
  destruct (length bs =? 0) eqn:E0; bool_facts; [done|].
  set (st1 := set_hdr _ _ _). specialize (IH st1 (m_ok _ _ Hm) ltac:(unfold st1; simpl; lia)).
  assert (more (inner st) (inner st1)) as Hm1 by exact Hm. destruct Hm1 as [_ Hm1 _].
  destruct (read_header fuel st1) as [[p st']|st'].
  - intros Hp. specialize (IH Hp). lia.
  - by eapply more_trans; [exact Hm|].
Qed.

Lemma npt_poll_read_wakes n st p st' :
  npt_rd_ok st -> wr_ok (inner st) -> npt_poll_read n st = (p, st') -> read_waited st p st'.
Proof.
  intros [Hwf Hok _] Hw Hp. unfold npt_poll_read in Hp.
  destruct (poll_read_loop_spec (S (read_measure st)) n st) as (p1 & st1 & c & Hl & _); [lia|done..|].
  rewrite Hl in Hp. injection Hp as -> ->. assert (both_ok (inner st)) as Hb by by split.
  clear Hok Hw Hwf. revert Hl. generalize (S (read_measure st)). intros fuel Hl. revert st Hl Hb.
  induction fuel as [|fuel IH]; intros st Hl Hb; [done|]. cbn [poll_read_loop] in Hl.
  destruct (0 <? read_data_rem st); [injection Hl as Hl; by eapply read_phase1_wakes|].
  assert (forall st1, more (inner st) (inner st1) -> poll_read_loop fuel n st1 = Some (p, st') ->
    read_waited st p st') as Hnext.
  { intros st1 Hm H Hp. specialize (IH st1 H (m_ok _ _ Hm) Hp). destruct Hm. lia. }
  destruct (0 <? read_skip_rem st).
  { pose proof (read_phase2_wakes st Hb) as H. destruct (read_phase2 st) as [[q s]|s]; [by injection Hl as -> ->|].
    by eapply Hnext. }
  destruct (PADDING_FRAMES <=? read_frames_done st).
  { destruct (poll_read n (inner st)) as [q i] eqn:E. apply read_more in E as [_ E]; [|done].
    injection Hl as -> <-. intros Hp. by apply E. }
  pose proof (read_header_wakes 3 st Hb ltac:(lia)) as H.
  destruct (read_header 3 st) as [[q s]|s]; [by injection Hl as -> ->|].
  eapply Hnext; [|exact Hl]. unfold parse_header. by destruct (_ =? 0).
Qed.

(** Writing, flushing and shutting down likewise. *)
Definition write_waited {X} (st : NaivePaddedTransport T) (p : poll X) (st' : NaivePaddedTransport T) : Prop :=
  more (inner st) (inner st') /\ (p = Pending -> wr_waits (inner st) < wr_waits (inner st')).

Lemma write_waited_inner {X Y} st (p : poll X) (q : poll Y) st' i :
  inner st' = i -> more (inner st) i -> (q = Pending -> wr_waits (inner st) < wr_waits i) ->
  (p = Pending -> q = Pending) -> write_waited st p st'.
Proof. intros <- Hm Hq Hp. split; auto. Qed.

Lemma drain_pending_wakes fuel msg st p st' :
  both_ok (inner st) -> (forall pend, write_pending st = Some pend -> write_pending_off st < length pend) ->
  pending_left st <= fuel -> drain_pending fuel msg st = (p, st') -> write_waited st p st'.
Proof.
  revert st. induction fuel as [|fuel IH]; intros st Hb Hoff Hf; cbn [drain_pending];
    destruct (write_pending st) as [pend|] eqn:Ep; try (by intros [= <- <-]; split; [by apply more_refl|]);
    specialize (Hoff pend eq_refl); unfold pending_left in Hf; rewrite Ep in Hf; [lia|].
  destruct (poll_write _ (inner st)) as [q i] eqn:E.
  assert (wr_ok (inner st)) as Hw by apply Hb. destruct (wr_spec _ _ _ _ Hw E) as (_ & Hpost & _).
  apply write_more in E as [Hm E]; [|done].
  destruct q as [|[[|k]|e]];
    [intros [= <- <-]; by eapply (write_waited_inner _ _ _ _ i)..| |intros [= <- <-]; by eapply (write_waited_inner _ _ _ _ i)].
  cbn [write_post] in Hpost.
  rewrite length_drop in Hpost.
  destruct (advance_pending_spec st pend (write_pending_off st + S k) i ltac:(lia)) as (_ & Hl & Hi & _ & _ & Ho).
  intros Hd. change (write_pending_off (set_inner st i)) with (write_pending_off st) in Hd.
  destruct (IH _ ltac:(rewrite Hi; apply Hm) Ho ltac:(rewrite Hl; lia) Hd) as [Hm' Hp'].
  rewrite Hi in Hm', Hp'. split; [by eapply more_trans|]. intros Hp. specialize (Hp' Hp). destruct Hm. lia.
Qed.

Lemma npt_drain_wakes msg st p st' :
  both_ok (inner st) -> write_wf st -> drain_pending (pending_left st) msg st = (p, st') -> write_waited st p st'.
Proof. intros Hb Hw. apply drain_pending_wakes; [done|apply Hw|done]. Qed.

Lemma write_waited_next {X Y} st st1 (p1 : poll X) (p : poll Y) st' :
  write_waited st p1 st1 -> write_waited st1 p st' -> write_waited st p st'.
Proof.
  intros [H1 _] [H2 Hp]. split; [by eapply more_trans|]. intros Hpend. specialize (Hp Hpend). destruct H1. lia.
Qed.

Lemma npt_poll_write_wakes nanos cell buf st p st' c :
  both_ok (inner st) -> write_wf st -> npt_poll_write nanos cell buf st = (p, st', c) -> write_waited st p st'.
Proof.
  intros Hb Hw. unfold npt_poll_write. destruct (drain_pending _ _ st) as [q st1] eqn:Hd.
  apply npt_drain_wakes in Hd as H1; [|done..].
  destruct q as [|[x|e]]; [by intros [= <- <- <-]; destruct H1; split; auto| |by intros [= <- <- <-]; destruct H1].
  destruct (_ <=? _).
  - destruct (poll_write buf (inner st1)) as [q i] eqn:E. apply write_more in E as [Hm E]; [|apply H1].
    intros [= <- <- <-]. by eapply write_waited_next.
  - unfold write_padded_frame. destruct (Rng.random_u8 nanos cell) as [k c1].
    destruct (Rng.gen_random_bytes nanos c1 _) as [pad c2]. set (frame := build_frame _ pad).
    cbn [inner set_write]. destruct (poll_write frame (inner st1)) as [q i] eqn:E.
    apply write_more in E as [Hm _]; [|apply H1].
    assert (forall y (st2 : NaivePaddedTransport T), inner st2 = i -> write_waited st (Ready y : poll (io_result nat)) st2) as Hready.
    { intros y st2 <-. apply (write_waited_next st st1 (Ready (Ok x) : poll (io_result unit))); [done|by split]. }
    destruct q as [|[n|e]]; [|destruct (0 <? n)|]; intros [= <- <- <-]; apply Hready; try done.
    unfold advance_pending. by destruct (_ <=? _).
Qed.

Lemma npt_poll_flush_wakes st p st' :
  both_ok (inner st) -> write_wf st -> npt_poll_flush st = (p, st') -> write_waited st p st'.
Proof.
  intros Hb Hw. unfold npt_poll_flush. destruct (drain_pending _ _ st) as [q st1] eqn:Hd.
  apply npt_drain_wakes in Hd as H1; [|done..].
  destruct q as [|[x|e]]; [by intros [= <- <-]| |by intros [= <- <-]].
  destruct (poll_flush (inner st1)) as [q i] eqn:E. apply flush_more in E as [Hm E]; [|apply H1].
  intros [= <- <-]. by eapply write_waited_next.
Qed.

Lemma npt_poll_shutdown_wakes st p st' :
  both_ok (inner st) -> write_wf st -> npt_poll_shutdown st = (p, st') -> write_waited st p st'.
Proof.
  intros Hb Hw. unfold npt_poll_shutdown. destruct (npt_poll_flush st) as [q st1] eqn:Hd.
  apply npt_poll_flush_wakes in Hd as H1; [|done..].
  destruct q as [|[x|e]]; [by intros [= <- <-]| |by intros [= <- <-]].
  destruct (poll_shutdown (inner st1)) as [q i] eqn:E. apply shutdown_more in E as [Hm E]; [|apply H1].
  intros [= <- <-]. by eapply write_waited_next.
Qed.

(** The transport over a stream that wakes its task does. *)
#[export] Program Instance Padded_wake : WakeSpec (Padded T) := {|
  rd_waits := fun s => rd_waits (inner (npt s));
  wr_waits := fun s => wr_waits (inner (npt s))
|}.
Next Obligation.
  intros n s p s' Hs Hp. pose proof (padded_inner s Hs) as Hi.
  unfold poll_read, Padded_read in Hp. destruct (npt_poll_read n (npt s)) as [q st] eqn:E. injection Hp as -> <-.
  pose proof (npt_poll_read_below (more (inner (npt s))) n (npt s)) as [HB _]; [|by apply more_refl|].
  { intros m i Hm. destruct (poll_read m i) as [r j] eqn:Er. eapply more_trans; [exact Hm|].
    by eapply read_more; [apply Hm|]. }
  rewrite E in HB. destruct HB as [_ ? ?]. split; [done|]. apply npt_poll_read_wakes in E; [done|apply Hs|apply Hi].
Qed.
Next Obligation.
  intros buf s p s' Hs Hp. pose proof (padded_inner s Hs) as Hi. simpl in Hp.
  destruct (rng_at s (tick s)) as [nanos cell].
  destruct (npt_poll_write nanos cell buf (npt s)) as [[q st] c] eqn:E. injection Hp as <- <-.
  apply npt_poll_write_wakes in E as [[_ ? ?] ?]; [by split|done|apply Hs].
Qed.
Next Obligation.
  intros s p s' Hs Hp. pose proof (padded_inner s Hs) as Hi. simpl in Hp.
  destruct (npt_poll_flush (npt s)) as [q st] eqn:E. injection Hp as <- <-.
  apply npt_poll_flush_wakes in E as [[_ ? ?] ?]; [by split|done|apply Hs].
Qed.
Next Obligation.
  intros s p s' Hs Hp. pose proof (padded_inner s Hs) as Hi. simpl in Hp.
  destruct (npt_poll_shutdown (npt s)) as [q st] eqn:E. injection Hp as <- <-.
  apply npt_poll_shutdown_wakes in E as [[_ ? ?] ?]; [by split|done|apply Hs].
Qed.
End Padding.

(** ** A tunnel *)

Section Tunnel.
Context {T : Type} `{!AsyncRead T, !AsyncWrite T, !ReadSpec T, !WriteSpec T, !WriteErrClean T, !DuplexSpec T, !ReadFinite T}.
Context {B : Type} `{!AsyncRead B, !AsyncWrite B, !ReadSpec B, !WriteSpec B, !DuplexSpec B, !ReadFinite B}.
Context `{!WakeSpec T, !WakeSpec B}.
Variable sleep_ready : Z -> Z -> bool.
Context (NT : Padded T -> Padded T -> Prop) (NB : B -> B -> Prop).
Context (ST : forall s s', NT s s' -> both_ok s -> stream_env s s').
Context (SB : forall s s', NB s s' -> both_ok s -> stream_env s s').

(** C30: no wakeup is lost: whenever the relay of a tunnel is pending, each
    direction that is not over has, during that poll, left the task with the
    stream it waits for - the one it reads, or the one it writes to, flushes or
    shuts down -, through the padding transport down to the stream below it; and
    the idle timer, which is not due, runs. *)
Theorem tunnel_wakes size suppress idle start (a0 : Padded T) (b0 : B) st last fuel now t st' :
  both_ok a0 -> both_ok b0 ->
  relay_runs sleep_ready NT NB size suppress idle start a0 b0 st last ->
  relay_poll sleep_ready fuel idle now st = Some (Pending, t, st') ->
  let client (s : Relay (Padded T) B) := inner (npt (side_a s)) in
  (is_done (a_to_b st') = true \/ rd_waits (client st) < rd_waits (client st')
   \/ wr_waits (side_b st) < wr_waits (side_b st'))
  /\ (is_done (b_to_a st') = true \/ rd_waits (side_b st) < rd_waits (side_b st')
      \/ wr_waits (client st) < wr_waits (client st'))
  /\ sleep_ready (idle_sleep st') now = false.
Proof.
  intros [Ra Wa] [Rb Wb] Hr Hp client.
  assert (good a0 b0) as G by exact (conj Ra (conj Wa (conj Rb Wb))).
  apply (relay_runs_run _ _ _ ST SB) in Hr; [|done].
  apply relay_run_inv in Hr as ([[] []] & _); [|done].
  apply relay_wakes in Hp; [exact Hp|by split..].
Qed.
End Tunnel.

(** Two peers that are silent: both directions wait to read. *)
Definition ex_watched : Watched Mem := mkWatched silent 0 0.
Definition ex_wake_start : Relay (Padded (Watched Mem)) (Watched Mem) :=
  relay_new 4 false 60 0 (mkPadded (npt_new ex_watched) (fun _ => (0, 0)%Z) 0) ex_watched.
Definition ex_wake : Relay (Padded (Watched Mem)) (Watched Mem) :=
  match relay_poll at_deadline 9 60 5 ex_wake_start with Some (_, _, st) => st | None => ex_wake_start end.

Lemma tunnel_wakes_witness :
  let client (s : Relay (Padded (Watched Mem)) (Watched Mem)) := inner (npt (side_a s)) in
  (is_done (a_to_b ex_wake) = true \/ rd_waits (client ex_wake_start) < rd_waits (client ex_wake)
   \/ wr_waits (side_b ex_wake_start) < wr_waits (side_b ex_wake))
  /\ (is_done (b_to_a ex_wake) = true \/ rd_waits (side_b ex_wake_start) < rd_waits (side_b ex_wake)
      \/ wr_waits (client ex_wake_start) < wr_waits (client ex_wake))
  /\ at_deadline (idle_sleep ex_wake) 5 = false.
Proof.
  apply (tunnel_wakes at_deadline eq eq
    ltac:(intros s s' <- [? ?]; by split_and!) ltac:(intros s s' <- [? ?]; by split_and!)
    4 false 60 0 (mkPadded (npt_new ex_watched) (fun _ => (0, 0)%Z) 0) ex_watched ex_wake_start 0 9 5 Completed).
  - split; [by apply npt_rd_ok_new; [apply silent_good|]|by apply write_wf_new; [apply silent_good|]].
  - split; apply silent_good.
  - apply run_start.
  - vm_compute. reflexivity.
Defined.

(** The one poll of each stream that was pending. *)
Example ex_wake_counts :
  n_read (inner (npt (side_a ex_wake))) = 1 /\ n_read (side_b ex_wake) = 1
  /\ n_write (inner (npt (side_a ex_wake))) = 0 /\ n_write (side_b ex_wake) = 0.
Proof. by vm_compute. Qed.
