(* ===== verification/TunnelH3.v ===== *)
(** * An HTTP/3 tunnel, end to end

    The layers of a tunnel that [process_h3_request_quiche] opens put together:
    the frame channels of [QuicheStream], the padding transport over them and
    the relay to the target.  The driver of the connection ([h3_env]) queues
    frames and takes the queued ones away while the relay runs. *)

From S2P Require Import Prelude RustStr AsyncIo Padding PaddingStream Relay RelayEnd PaddingEnd QuicheStream.
Open Scope nat_scope.

(** What the connection's driver may do between two polls. *)
Inductive h3_env (s : H3Stream) : H3Stream -> Prop :=
  | driver_frame fr :
      closed (h3_reader s) = false -> frame_ok fr ->
      h3_env s (join (mkReader (recv (h3_reader s) ++ [fr]) false (buf (h3_reader s))
                        (seen_fin (h3_reader s)) (delivered (h3_reader s))) (h3_writer s))
  | driver_gone :
      h3_env s (join (mkReader (recv (h3_reader s)) true (buf (h3_reader s))
                        (seen_fin (h3_reader s)) (delivered (h3_reader s))) (h3_writer s))
  | driver_takes n :
      h3_env s (join (h3_reader s)
                  (mkWriter (slots (h3_writer s) + n) (open (h3_writer s)) (queued (h3_writer s))))
  | driver_stops :
      h3_env s (join (h3_reader s) (mkWriter (slots (h3_writer s)) false (queued (h3_writer s)))).

#[export] Instance H3Stream_err_clean : WriteErrClean H3Stream.
Proof.
  intros data [r w] e s' _. simpl. unfold writer_poll_write, poll_reserve, send_item.
  destruct (open w); simpl; [destruct (slots w =? 0)|]; simpl; by intros [= <- <-].
Qed.

(** ** The ends of the stream *)

Definition h3_end (s : H3Stream) : Prop := pending_bytes (h3_reader s) = [] /\ ended (h3_reader s) = true.
Definition h3_broken (s : H3Stream) : Prop := open (h3_writer s) = false.

Lemma h3_poll_write_frame b s :
  h3_reader (poll_write b s).2 = h3_reader s
  /\ open (h3_writer (poll_write b s).2) = open (h3_writer s)
  /\ forall p, (poll_write b s).1 = p -> b <> [] -> p = Ready (Ok 0) \/ (exists e, p = Ready (Err e)) ->
     h3_broken s.
Proof.
  destruct s as [r w]. unfold h3_broken. simpl. unfold writer_poll_write, poll_reserve, send_item.
  destruct (open w) eqn:Ho; simpl; [destruct (slots w =? 0)|]; simpl; split_and!; try done.
  - intros p <- _ [|[? ?]]; done.
  - intros p <- Hb [[= H]|[? ?]]; [|done]. by apply length_zero_nil in H.
Qed.

Lemma h3_poll_shutdown_frame s :
  h3_reader (poll_shutdown s).2 = h3_reader s
  /\ forall e, (poll_shutdown s).1 = Ready (Err e) -> h3_broken (poll_shutdown s).2.
Proof.
  destruct s as [r w]. unfold h3_broken. simpl. unfold writer_poll_shutdown, poll_reserve, send_item.
  destruct (open w) eqn:Ho; simpl; [destruct (slots w =? 0)|]; by simpl.
Qed.

Lemma h3_poll_read_writer n s : h3_writer (poll_read n s).2 = h3_writer s.
Proof. destruct s as [r w]. unfold poll_read, H3Stream_read. simpl. by destruct (reader_poll_read n r). Qed.

Lemma h3_below_ends : BelowEnds h3_end (fun _ => True) h3_broken.
Proof.
  split; unfold h3_end.
  - intros n [r w] p i' _ Hn. unfold poll_read, H3Stream_read. simpl.
    destruct (reader_poll_read n r) as [q r'] eqn:Hp. intros [= <- <-] Hno. simpl.
    apply reader_poll_post in Hp as (_ & _ & Hb & _ & Hf & Hc & Hm).
    destruct Hno as [->|[e ->]]; [|done]. destruct (Hm Hn eq_refl) as [Hm1 Hm2].
    simpl in Hb. split; [congruence|]. revert Hm2. unfold ended. by rewrite Hf, Hc.
  - intros b i _ H. destruct (h3_poll_write_frame b i) as (-> & _). done.
  - by intros [r w].
  - intros i _ H. by rewrite (proj1 (h3_poll_shutdown_frame i)).
  - done.
  - done.
  - done.
  - done.
  - intros n i _ H. unfold h3_broken. by rewrite h3_poll_read_writer.
  - intros b i p i' _ _ Hb Hp Hno. destruct (h3_poll_write_frame b i) as (_ & Ho & H).
    rewrite Hp in *. unfold h3_broken. cbn [fst snd] in *. rewrite Ho. by apply (H p).
  - by intros [r w] e i' _ _.
  - intros i e i' _ _ Hp. destruct (h3_poll_shutdown_frame i) as [_ H]. rewrite Hp in H. by apply (H e).
Qed.

Lemma h3_env_keeps s s' :
  h3_env s s' -> both_ok s ->
  stream_env s s' /\ (h3_end s -> h3_end s') /\ (True -> True) /\ (h3_broken s -> h3_broken s').
Proof.
  intros Hs [Hr _]. destruct s as [r w], Hr as [Hf Hb]. cbn [h3_reader] in *.
  destruct Hs as [fr Hc Hfr| |n|]; cbn [h3_reader h3_writer] in *; unfold h3_end, h3_broken; simpl.
  - split; [|split; [|done]].
    + split_and!; try done. split; simpl; [|done]. apply Forall_app. split; [done|by constructor].
    + unfold pending_bytes, ended, fin_known. rewrite Hc. simpl. rewrite has_fin_snoc, bodies_snoc.
      intros [H1 H2]. rewrite !orb_false_r in H2. rewrite orb_false_r.
      apply app_eq_nil in H1 as [-> H1]. destruct (seen_fin r); [done|]. simpl in H2.
      by rewrite H1, H2.
  - split; [|split; [|done]]; [by split_and!|].
    unfold pending_bytes, ended, fin_known. simpl. intros [-> _]. by rewrite orb_true_r.
  - by split_and!.
  - by split_and!.
Qed.

(** ** What the driver queued *)

Definition h3_fed (s : H3Stream) : Prop := exists frames, reader_run frames (h3_reader s).

Lemma h3_fed_kept : Kept h3_fed.
Proof.
  split.
  - intros n [r w] [frames H]. unfold poll_read, H3Stream_read. simpl.
    destruct (reader_poll_read n r) as [p r'] eqn:Hp. exists frames. by eapply rr_poll.
  - intros b i [frames H]. exists frames. destruct (h3_poll_write_frame b i) as (-> & _). done.
  - by intros [r w].
  - intros i [frames H]. exists frames. by rewrite (proj1 (h3_poll_shutdown_frame i)).
Qed.

Lemma h3_fed_env s s' : h3_env s s' -> h3_fed s -> h3_fed s'.
Proof.
  intros Hs [frames H]. destruct Hs as [fr Hc Hfr| |n|].
  - exists (frames ++ [fr]). by apply rr_frame.
  - exists frames. by apply rr_close.
  - by exists frames.
  - by exists frames.
Qed.

(** ** The tunnel *)

Definition h3_tunnel (n : nat) (rng : nat -> Z * Z) : Padded H3Stream :=
  mkPadded (npt_new (join (Reader_new [] false) (Writer_new n true))) rng 0.

Section Tunnel.
Context {B : Type} `{!AsyncRead B, !AsyncWrite B, !ReadSpec B, !WriteSpec B, !DuplexSpec B, !ReadFinite B}.
Variable sleep_ready : Z -> Z -> bool.

Lemma h3_tunnel_ok n rng : both_ok (h3_tunnel n rng).
Proof.
  split.
  - apply npt_rd_ok_new; [|done]. by split; constructor.
  - by apply write_wf_new.
Qed.

(** C1: an HTTP/3 tunnel whose relay completes was faithful from end to end,
    whatever the sizes of frames, polls and writes and the progress of the
    connection's driver: the target was sent exactly the payload of all the
    bodies the client sent up to the end of its stream, and the client was sent
    padded frames whose payload is exactly what the target sent, ended by a
    frame with FIN, unless the stream was closed under the tunnel; and the
    counters are the payload bytes. *)
Theorem h3_tunnel_delivers size idle start n rng (b0 : B) st last fuel now t st' :
  0 < size -> rd_ok b0 -> wr_ok b0 ->
  relay_runs sleep_ready (padded_env h3_env) stream_env size false idle start (h3_tunnel n rng) b0 st last ->
  relay_poll sleep_ready fuel idle now st = Some (Ready (Ok true), t, st') ->
  let h := inner (npt (side_a st')) in
  exists frames down,
    reader_run frames (h3_reader h) /\ (has_fin frames || closed (h3_reader h)) = true
    /\ wr_log (side_b st') = wr_log b0 ++ strip PADDING_FRAMES (bodies frames)
    /\ rd_log (side_b st') = rd_log b0 ++ down
    /\ (open (h3_writer h) = false
        \/ (strip PADDING_FRAMES (sent_bytes (queued (h3_writer h))) = down
            /\ sent_fin (queued (h3_writer h)) = true))
    /\ bytes_transferred (a_to_b st') = u64_wrap (Z.of_nat (length (strip PADDING_FRAMES (bodies frames))))
    /\ bytes_transferred (b_to_a st') = u64_wrap (Z.of_nat (length down)).
Proof.
  intros Hsz Hrb Hwb Hr Hp h. destruct (h3_tunnel_ok n rng) as [Ra Wa].
  pose proof (relay_completed_both _ _ _ _ _ _ (padded_ends _ _ _ h3_below_ends) ends_any sleep_ready
    (padded_env h3_env) stream_env (padded_env_ends _ _ _ _ h3_env_keeps)
    ltac:(by intros ? ? (? & ? & _))
    (padded_stream_env _ _ _ _ h3_env_keeps) ltac:(done) _ _ _ _ _ _ _ _ _ _ _ Hsz
    (conj Ra (conj Wa (conj Hrb Hwb))) I I Hr Hp)
    as ((up & down & R1 & W1 & R2 & W2 & A1 & A2) & [He1 He2] & _ & HF & _ & _ & _).
  assert (h3_fed h) as [frames Hfr].
  { pose proof (kept_padded _ h3_fed_kept) as HK.
    eapply (relay_poll_kept sleep_ready _ HK); [|exact Hp].
    eapply (relay_runs_kept sleep_ready _ HK); [| |exact Hr].
    - intros s s' [i Hi]. by apply h3_fed_env.
    - exists []. apply rr_new. }
  fold h in He1, He2, HF. destruct (reader_run_inv _ _ Hfr) as [Hd Hfin].
  rewrite He1, app_nil_r in Hd.
  assert (up = strip PADDING_FRAMES (bodies frames)) as ->.
  { rewrite <- Hd. change (rd_log (h3_tunnel n rng)) with (strip PADDING_FRAMES []) in R1.
    rewrite strip_nil in R1. exact (eq_sym R1). }
  exists frames, down. split_and!; try done.
  - revert He2. unfold ended. by rewrite Hfin.
  - destruct HF as [[Hw Hf]|HF]; [right|by left]. split; [|exact Hf].
    change (wr_log (h3_tunnel n rng)) with (strip PADDING_FRAMES []) in W2.
    rewrite strip_nil in W2. simpl in W2. rewrite <- W2.
    change (wr_log (side_a st')) with (npt_wr_log (npt (side_a st'))).
    unfold npt_wr_log, wire, left_over. by rewrite Hw, app_nil_r.
Qed.
End Tunnel.

(** ** A tunnel that is run to its end *)

(** A client that sends one padded frame with the bytes 7 and 8 and ends its
    stream, and a target that answers with the byte 9 and closes. *)
Definition ex_client_frame : InboundFrame := Body (build_frame [7; 8]%Z [0; 0; 0]%Z) true.

Definition ex_target : Mem :=
  {| chunks := [[9]%Z]; eof := true; consumed := []; credits := [5; 5]; accepted := []; fin := false |}.

Definition ex_h3_start : Relay (Padded H3Stream) Mem :=
  relay_new 4 false 60 0 (h3_tunnel 8 (fun _ => (0, 0)%Z)) ex_target.

Definition ex_h3_fed : Relay (Padded H3Stream) Mem :=
  with_sides ex_h3_start
    (with_npt (side_a ex_h3_start) (set_inner (npt (side_a ex_h3_start))
      (join (mkReader [ex_client_frame] false None false []) (Writer_new 8 true)))) ex_target.

Definition ex_h3_done : Relay (Padded H3Stream) Mem :=
  match relay_poll at_deadline 9 60 5 ex_h3_fed with Some (_, _, st) => st | None => ex_h3_fed end.

Lemma ex_h3_run :
  relay_runs at_deadline (padded_env h3_env) stream_env 4 false 60 0
    (h3_tunnel 8 (fun _ => (0, 0)%Z)) ex_target ex_h3_fed 0.
Proof.
  apply (run_env at_deadline (padded_env h3_env) stream_env 4 false 60 0 _ _ ex_h3_start 0).
  - apply run_start.
  - apply below_changes.
    apply (driver_frame (join (Reader_new [] false) (Writer_new 8 true)) ex_client_frame); [done|].
    repeat constructor; by vm_compute.
  - split_and!; repeat constructor; by vm_compute.
Qed.

Lemma h3_tunnel_delivers_witness :
  let h := inner (npt (side_a ex_h3_done)) in
  exists frames down,
    reader_run frames (h3_reader h) /\ (has_fin frames || closed (h3_reader h)) = true
    /\ wr_log (side_b ex_h3_done) = wr_log ex_target ++ strip PADDING_FRAMES (bodies frames)
    /\ rd_log (side_b ex_h3_done) = rd_log ex_target ++ down
    /\ (open (h3_writer h) = false
        \/ (strip PADDING_FRAMES (sent_bytes (queued (h3_writer h))) = down
            /\ sent_fin (queued (h3_writer h)) = true))
    /\ bytes_transferred (a_to_b ex_h3_done)
       = u64_wrap (Z.of_nat (length (strip PADDING_FRAMES (bodies frames))))
    /\ bytes_transferred (b_to_a ex_h3_done) = u64_wrap (Z.of_nat (length down)).
Proof.
  apply (h3_tunnel_delivers at_deadline 4 60 0 8 (fun _ => (0, 0)%Z) ex_target ex_h3_fed 0 9 5 Completed
    ex_h3_done).
  - lia.
  - repeat constructor; by vm_compute.
  - repeat constructor; by vm_compute.
  - exact ex_h3_run.
  - vm_compute. reflexivity.
Defined.

(** What the two ends have in that run. *)
Example ex_h3_tunnel :
  accepted (side_b ex_h3_done) = [7; 8]%Z /\ fin (side_b ex_h3_done) = true
  /\ strip PADDING_FRAMES (sent_bytes (queued (h3_writer (inner (npt (side_a ex_h3_done)))))) = [9]%Z.
Proof. by vm_compute. Qed.
