(* ===== verification/Bridge.v ===== *)
(** * [src/transport/pingora_session.rs]: the body bridge of HTTP/2 tunnels

    [run_session_bridge] as a step relation: its two directions over the duplex
    pipe it shares with the relay, the client's body events, and the relay at
    the other half of the pipe.  [select!] is biased: the download branch runs
    only while the upload branch is not ready, and a chunk being written to the
    pipe is awaited inside the upload branch.  The future runs until it returns:
    that pingora drops the request, and with it the bridge in the middle of a
    write, is not modelled. *)

From S2P Require Import Prelude.
Open Scope nat_scope.

Definition BRIDGE_BUF : nat := N.to_nat (64 * 1024).

(** What [read_body_or_idle] yields. *)
Inductive BodyEvent : Type := BData (data : bytes) | BEnd | BError.

(** [body_in]: what the session will yield; [up]: the pipe towards the relay,
    and whether its end was sent; [writing]: the rest of a chunk inside
    [write_all].  [taken] and [relay_read] are histories. *)
Record Upload : Type := mkUp {
  body_in : list BodyEvent;
  up : bytes;
  up_shut : bool;
  up_eof : bool;
  writing : option bytes;
  taken : bytes;
  relay_read : bytes
}.

(** [down]: the pipe from the relay, and whether the relay shut it down;
    [response]: the calls of [write_response_body].  [relay_wrote] is a
    history. *)
Record Download : Type := mkDown {
  down : bytes;
  down_shut : bool;
  down_eof : bool;
  response : list (option bytes * bool);
  relay_wrote : bytes
}.

(** [gone]: the relay has dropped its half of the pipe. *)
Record Bridge : Type := mkBridge { upload : Upload; download : Download; gone : bool }.

Definition Bridge_new : Bridge :=
  mkBridge (mkUp [] [] false false None [] []) (mkDown [] false false [] []) false.

Definition finished (b : Bridge) : Prop := up_eof (upload b) = true /\ down_eof (download b) = true.

Section Bridge.
(** The capacity of the pipe. *)
Variable cap : nat.

(** The upload branch. *)
Inductive up_step (g : bool) : Upload -> Upload -> Prop :=
  | up_take data evs p s t r :
      up_step g (mkUp (BData data :: evs) p s false None t r) (mkUp evs p s false (Some data) (t ++ data) r)
  | up_write evs p s data t r n :
      g = false -> n <= length data -> length p + n <= cap ->
      up_step g (mkUp evs p s false (Some data) t r)
                (mkUp evs (p ++ take n data) s false (Some (drop n data)) t r)
  | up_written evs p s t r :
      up_step g (mkUp evs p s false (Some []) t r) (mkUp evs p s false None t r)
  | up_fail evs p s data t r :
      g = true -> data <> [] ->
      up_step g (mkUp evs p s false (Some data) t r) (mkUp evs p s true None t r)
  | up_end e evs p s t r :
      e = BEnd \/ e = BError ->
      up_step g (mkUp (e :: evs) p s false None t r) (mkUp evs p true true None t r).

(** The download branch. *)
Inductive down_step (g : bool) : Download -> Download -> Prop :=
  | down_chunk d s resp w n :
      0 < n <= BRIDGE_BUF -> n <= length d ->
      down_step g (mkDown d s false resp w) (mkDown (drop n d) s false (resp ++ [(Some (take n d), false)]) w)
  | down_fail d s resp w n :
      0 < n <= BRIDGE_BUF -> n <= length d ->
      down_step g (mkDown d s false resp w) (mkDown (drop n d) s true resp w)
  | down_end s resp w :
      s = true \/ g = true ->
      down_step g (mkDown [] s false resp w) (mkDown [] s true (resp ++ [(None, true)]) w).

(** The guard and the bias of the download branch. *)
Definition download_turn (u : Upload) : bool :=
  match writing u, body_in u with
  | Some _, _ => false
  | None, [] => true
  | None, _ :: _ => up_eof u
  end.

Inductive bridge_step : Bridge -> Bridge -> Prop :=
  | do_up u d g u' : up_step g u u' -> bridge_step (mkBridge u d g) (mkBridge u' d g)
  | do_down u d g d' :
      download_turn u = true -> down_step g d d' -> bridge_step (mkBridge u d g) (mkBridge u d' g)
  | client_sends e evs p s eof w t r d g :
      bridge_step (mkBridge (mkUp evs p s eof w t r) d g) (mkBridge (mkUp (evs ++ [e]) p s eof w t r) d g)
  | relay_reads n evs p s eof w t r d g :
      0 < n <= length p ->
      bridge_step (mkBridge (mkUp evs p s eof w t r) d g)
        (mkBridge (mkUp evs (drop n p) s eof w t (r ++ take n p)) d g)
  | relay_writes bs u d eof resp w :
      length d + length bs <= cap ->
      bridge_step (mkBridge u (mkDown d false eof resp w) false)
        (mkBridge u (mkDown (d ++ bs) false eof resp (w ++ bs)) false)
  | relay_shuts u d s eof resp w g :
      bridge_step (mkBridge u (mkDown d s eof resp w) g) (mkBridge u (mkDown d true eof resp w) g)
  | relay_drops u d g : bridge_step (mkBridge u d g) (mkBridge u d true).

(** ** What the bridge preserves *)

Definition chunks_of (resp : list (option bytes * bool)) : bytes :=
  concat (map (fun c => default [] c.1) resp).

(** [lost] is what failed writes threw away. *)
Record up_inv (u : Upload) (lost : bytes) (g : bool) : Prop := {
  ui_log : taken u = relay_read u ++ up u ++ default [] (writing u) ++ lost;
  ui_lost : lost <> [] -> g = true /\ up_eof u = true;
  ui_eof : up_eof u = true -> writing u = None;
  ui_cap : length (up u) <= cap
}.

Record down_inv (d : Download) (lost : bytes) (g : bool) : Prop := {
  wi_log : relay_wrote d = chunks_of (response d) ++ lost ++ down d;
  wi_lost : lost <> [] -> down_eof d = true;
  wi_shape : exists cs tail, response d = map (fun c => (Some c, false)) cs ++ tail
    /\ (tail = [] \/ tail = [(None, true)] /\ lost = [] /\ down d = [] /\ (down_shut d = true \/ g = true));
  wi_open : down_eof d = false -> exists cs, response d = map (fun c => (Some c, false)) cs;
  wi_end : down_eof d = true -> lost <> [] \/ exists cs, response d = map (fun c => (Some c, false)) cs ++ [(None, true)]
}.

#[local] Arguments chunks_of : simpl never.

Lemma chunks_of_app r1 r2 : chunks_of (r1 ++ r2) = chunks_of r1 ++ chunks_of r2.
Proof. unfold chunks_of. by rewrite map_app, concat_app. Qed.

Lemma chunks_of_some c e : chunks_of [(Some c, e)] = c.
Proof. unfold chunks_of. simpl. by rewrite app_nil_r. Qed.

Lemma chunks_of_none e : chunks_of [(None, e)] = [].
Proof. done. Qed.

Lemma chunks_of_data cs : chunks_of (map (fun c => (Some c, false)) cs) = concat cs.
Proof. unfold chunks_of. rewrite map_map. simpl. by rewrite map_id. Qed.

Lemma up_step_inv g u u' lost :
  up_inv u lost g -> up_step g u u' -> exists lost', up_inv u' lost' g.
Proof.
  intros [Hl Hlost He Hc] Hs.
  destruct Hs as [data evs p s t r|evs p s data t r n Hg Hn Hp|evs p s t r|evs p s data t r Hg Hd
    |e evs p s t r He']; cbn [taken relay_read up writing up_eof default from_option id] in *.
  - exists lost. assert (lost = []) as -> by (destruct lost; [done|by destruct Hlost]).
    rewrite !app_nil_r in *. split; cbn; try done. by rewrite Hl, app_nil_r, <- app_assoc.
  - exists lost. split; cbn; try done; [|rewrite length_app, length_take; lia].
    rewrite Hl. rewrite <- (take_drop n data) at 1. by rewrite <- !app_assoc.
  - exists lost. by split.
  - exists (data ++ lost). split; cbn; try done.
  - exists lost. split; cbn; try done. intros H. by apply Hlost in H as [_ ?].
Qed.

Lemma down_step_inv g d d' lost :
  down_inv d lost g -> down_step g d d' -> exists lost', down_inv d' lost' g.
Proof.
  intros [Hl Hlost Hsh Ho He] Hs.
  destruct Hs as [d s resp w n Hn Hd|d s resp w n Hn Hd|s resp w Hend];
    cbn [relay_wrote response down down_eof down_shut] in *.
  - assert (lost = []) as -> by (destruct lost; [done|by discriminate Hlost]).
    destruct (Ho eq_refl) as [cs ->]. exists []. split; cbn; [|done| | |done].
    + rewrite Hl, chunks_of_app, chunks_of_some, <- app_assoc. cbn [app]. by rewrite take_drop.
    + exists (cs ++ [take n d]), []. rewrite map_app, app_nil_r. split; [done|by left].
    + intros _. exists (cs ++ [take n d]). by rewrite map_app.
  - assert (lost = []) as -> by (destruct lost; [done|by discriminate Hlost]).
    destruct (Ho eq_refl) as [cs ->]. exists (take n d). split; cbn; [|done| |done|].
    + rewrite Hl. cbn [app]. by rewrite take_drop.
    + exists cs, []. rewrite app_nil_r. split; [done|by left].
    + intros _. left. intros H. assert (length (take n d) = 0) as Hz by by rewrite H.
      rewrite length_take in Hz. lia.
  - assert (lost = []) as -> by (destruct lost; [done|by discriminate Hlost]).
    destruct (Ho eq_refl) as [cs ->]. exists []. split; cbn; [|done| |done|by right; eexists].
    + rewrite Hl, chunks_of_app, chunks_of_none. by rewrite !app_nil_r.
    + exists cs, [(None, true)]. split; [done|]. right. by split_and!.
Qed.

Definition bridge_inv (b : Bridge) : Prop :=
  exists l1 l2, up_inv (upload b) l1 (gone b) /\ down_inv (download b) l2 (gone b).

Lemma bridge_step_inv b b' : bridge_inv b -> bridge_step b b' -> bridge_inv b'.
Proof.
  intros (l1 & l2 & HU & HD) Hs.
  destruct Hs as [u d g u' Hs|u d g d' Ht Hs|e evs p s eof w t r d g|n evs p s eof w t r d g Hn
    |bs u d eof resp w Hc|u d s eof resp w g|u d g]; unfold bridge_inv; cbn [upload download gone] in *.
  - destruct (up_step_inv _ _ _ _ HU Hs) as [l HU']. by exists l, l2.
  - destruct (down_step_inv _ _ _ _ HD Hs) as [l HD']. by exists l1, l.
  - exists l1, l2. split; [|done]. by destruct HU.
  - exists l1, l2. split; [|done]. destruct HU as [H1 H2 H3 H4]. split; cbn in *; try done.
    + rewrite H1. rewrite <- (take_drop n p) at 1. by rewrite <- !app_assoc.
    + rewrite length_drop. lia.
  - exists l1, l2. split; [done|]. destruct HD as [H1 H2 (cs & tail & H3 & H3') H4 H5]. cbn in *.
    split; cbn; try done; [by rewrite H1, <- !app_assoc|].
    exists cs, tail. split; [done|]. destruct H3' as [|(_ & _ & _ & [|])]; [by left|done|done].
  - exists l1, l2. split; [done|]. destruct HD as [H1 H2 (cs & tail & H3 & H3') H4 H5]. cbn in *.
    split; cbn; try done. exists cs, tail. split; [done|]. destruct H3' as [|(? & ? & ? & _)]; [by left|].
    right. split_and!; auto.
  - exists l1, l2. split.
    + destruct HU as [H1 H2 H3 H4]. split; try done. intros H. apply H2 in H as [_ ?]. by split.
    + destruct HD as [H1 H2 (cs & tail & H3 & H3') H4 H5]. split; try done.
      exists cs, tail. split; [done|]. destruct H3' as [|(? & ? & ? & _)]; [by left|].
      right. split_and!; auto.
Qed.

Lemma bridge_reachable_inv b : rtc bridge_step Bridge_new b -> bridge_inv b.
Proof.
  intros Hr. apply (rtc_ind_r bridge_inv Bridge_new) in Hr; [done| |].
  - exists [], []. unfold Bridge_new. split; split; cbn; try done; try lia.
    + exists [], []. split; [done|by left].
    + by exists [].
  - intros b1 b2 _ Hs Hi. by eapply bridge_step_inv.
Qed.

(** C19: the bridge neither invents, reorders nor duplicates bytes in either
    direction, however its branches, the client and the relay interleave: the
    relay has read a prefix of the bodies taken from the client, the response
    is a prefix of what the relay wrote; the pipe never exceeds its capacity;
    and the end of the response is sent once, last, and only after all that the
    relay wrote. *)
Theorem bridge_faithful b :
  rtc bridge_step Bridge_new b ->
  relay_read (upload b) `prefix_of` taken (upload b)
  /\ chunks_of (response (download b)) `prefix_of` relay_wrote (download b)
  /\ length (up (upload b)) <= cap
  /\ exists cs tail, response (download b) = map (fun c => (Some c, false)) cs ++ tail
     /\ (tail = [] \/ tail = [(None, true)] /\ relay_wrote (download b) = concat cs).
Proof.
  intros Hr. apply bridge_reachable_inv in Hr as (l1 & l2 & [H1 H2 H3 H4] & [H5 H6 (cs & tail & H7 & H8) H9 _]).
  split_and!.
  - rewrite H1. by eexists.
  - rewrite H5. by eexists.
  - done.
  - exists cs, tail. split; [done|]. destruct H8 as [|(-> & -> & Hd & _)]; [by left|right]. split; [done|].
    by rewrite H5, H7, Hd, chunks_of_app, chunks_of_none, chunks_of_data, !app_nil_r.
Qed.

(** But a chunk that does not fit the pipe holds up both directions: until
    the relay reads or goes away, nothing more is sent to the client, whatever
    the relay has written for it. *)
Theorem bridge_head_of_line u d x rest b' :
  writing u = Some (x :: rest) -> length (up u) = cap ->
  bridge_step (mkBridge u d false) b' ->
  (response (download b') = response d /\ writing (upload b') = Some (x :: rest))
  /\ (gone b' = true \/ length (up (upload b')) < cap \/ (length (up (upload b')) = cap /\ relay_read (upload b') = relay_read u)).
Proof.
  intros Hw Hc Hs. inversion Hs as [u0 d0 g0 u' Hu|u0 d0 g0 d' Ht Hd|e evs p s eof w t r d0 g0
    |n evs p s eof w t r d0 g0 Hn|bs u0 d0 eof resp w Hcap|u0 d0 s eof resp w g0|u0 d0 g0]; subst;
    cbn [upload download gone response writing up relay_read] in *.
  - inversion Hu; subst; cbn [writing up relay_read] in *; simplify_eq.
    assert (n = 0) as -> by lia. rewrite take_0, drop_0, app_nil_r. split; [done|]. right. right. by split.
  - unfold download_turn in Ht. by rewrite Hw in Ht.
  - split; [done|]. right. right. by split.
  - split; [done|]. right. left. rewrite length_drop. lia.
  - split; [done|]. right. right. by split.
  - split; [done|]. right. right. by split.
  - split; [done|]. by left.
Qed.
End Bridge.

(** ** Examples *)

(** A pipe of two bytes, full, with one byte of the chunk still to be written,
    and two bytes the relay has written for the client. *)
Definition ex_upload : Upload := mkUp [] [1; 2]%Z false false (Some [3]%Z) [1; 2; 3]%Z [].
Definition ex_bridge : Bridge := mkBridge ex_upload (mkDown [7; 8]%Z false false [] [7; 8]%Z) false.

Lemma ex_bridge_reachable : rtc (bridge_step 2) Bridge_new ex_bridge.
Proof.
  eapply rtc_l; [apply (client_sends 2 (BData [1; 2; 3]%Z) [] [] false false None [] [] _ false)|].
  eapply rtc_l; [apply do_up, (up_take 2 false [1; 2; 3]%Z [] [] false [] [])|].
  eapply rtc_l; [apply do_up, (up_write 2 false [] [] false [1; 2; 3]%Z [1; 2; 3]%Z [] 2); [done|simpl; lia|simpl; lia]|].
  apply rtc_once. apply (relay_writes 2 [7; 8]%Z ex_upload [] false [] []). simpl. lia.
Qed.

Lemma bridge_faithful_witness :
  [] `prefix_of` [1; 2; 3]%Z /\ chunks_of [] `prefix_of` [7; 8]%Z /\ 2 <= 2
  /\ exists cs tail, [] = map (fun c : bytes => (Some c, false)) cs ++ tail
     /\ (tail = [] \/ tail = [(None, true)] /\ [7; 8]%Z = concat cs).
Proof. exact (bridge_faithful 2 ex_bridge ex_bridge_reachable). Defined.

Lemma bridge_head_of_line_witness :
  ([] = ([] : list (option bytes * bool)) /\ Some [3]%Z = Some [3]%Z)
  /\ (false = true \/ 2 < 2 \/ (2 = 2 /\ ([] : bytes) = [])).
Proof.
  exact (bridge_head_of_line 2 ex_upload (mkDown [7; 8]%Z false false [] [7; 8]%Z) 3%Z []
    (mkBridge (mkUp [BEnd] [1; 2]%Z false false (Some [3]%Z) [1; 2; 3]%Z [])
       (mkDown [7; 8]%Z false false [] [7; 8]%Z) false) eq_refl eq_refl
    (client_sends 2 BEnd [] [1; 2]%Z false false (Some [3]%Z) [1; 2; 3]%Z [] _ false)).
Defined.
