(* ===== verification/TunnelH2.v ===== *)
(** * An HTTP/2 tunnel, end to end

    The layers of a tunnel that [process_h2_request_pingora] opens put
    together: the body bridge over the client's session, the in-memory pipe,
    the padding transport at the pipe's other half and the relay to the target.
    [tokio::io::DuplexStream] is a parameter ([DuplexPipe]): what its polls do
    to the state shared with the bridge is what its documentation says. *)

From S2P Require Import Prelude RustStr AsyncIo Padding PaddingStream Relay RelayEnd PaddingEnd Bridge.
Open Scope nat_scope.

(** ** The relay's half of the pipe *)

Definition relay_took (k : nat) (b : Bridge) : Bridge :=
  let u := upload b in
  mkBridge (mkUp (body_in u) (drop k (up u)) (up_shut u) (up_eof u) (writing u) (taken u)
              (relay_read u ++ take k (up u))) (download b) (gone b).

Definition relay_put (bs : bytes) (b : Bridge) : Bridge :=
  let d := download b in
  mkBridge (upload b) (mkDown (down d ++ bs) (down_shut d) (down_eof d) (response d) (relay_wrote d ++ bs)) (gone b).

Definition relay_shut (b : Bridge) : Bridge :=
  let d := download b in
  mkBridge (upload b) (mkDown (down d) true (down_eof d) (response d) (relay_wrote d)) (gone b).

(** A half of a pipe of [cap] bytes each way.  A read gives what is in the pipe,
    the end once the other half was shut down or dropped, and waits otherwise; a
    write takes what there is room for and fails once either half is closed. *)
Class DuplexPipe (cap : nat) : Type := {
  #[global] pipe_read :: AsyncRead Bridge;
  #[global] pipe_write :: AsyncWrite Bridge;
  pipe_read_law n b p b' : poll_read n b = (p, b') ->
    match p with
    | Ready (Ok bs) =>
        length bs <= n /\ bs = take (length bs) (up (upload b)) /\ b' = relay_took (length bs) b
        /\ (0 < n -> bs = [] -> up (upload b) = [] /\ (up_shut (upload b) = true \/ finished b))
    | Ready (Err _) => False
    | Pending => b' = b
    end;
  pipe_write_law buf b p b' : poll_write buf b = (p, b') ->
    match p with
    | Ready (Ok k) =>
        k <= length buf /\ (buf <> [] -> 0 < k) /\ length (down (download b)) + k <= cap
        /\ (k = 0 \/ down_shut (download b) = false) /\ b' = relay_put (take k buf) b
    | Ready (Err _) => b' = b /\ (finished b \/ down_shut (download b) = true)
    | Pending => b' = b
    end;
  pipe_flush_law b p b' : poll_flush b = (p, b') -> p = Ready (Ok tt) /\ b' = b;
  pipe_shutdown_law b p b' : poll_shutdown b = (p, b') -> p = Ready (Ok tt) /\ b' = relay_shut b
}.

Section Pipe.
Context {cap : nat} `{!DuplexPipe cap}.

(** ** The shared state *)

Definition event_ok (e : BodyEvent) : Prop :=
  match e with BData data => Forall is_u8 data | BEnd | BError => True end.

Record pipe_ok (b : Bridge) : Prop := {
  po_reach : rtc (bridge_step cap) Bridge_new b;
  po_here : gone b = false;
  po_up : Forall is_u8 (up (upload b));
  po_writing : Forall is_u8 (default [] (writing (upload b)));
  po_body : Forall event_ok (body_in (upload b))
}.

Lemma took_nil b : relay_took 0 b = b.
Proof. destruct b as [[] d g]. unfold relay_took. simpl. by rewrite drop_0, take_0, app_nil_r. Qed.

Lemma put_nil b : relay_put [] b = b.
Proof. destruct b as [u [] g]. unfold relay_put. simpl. by rewrite !app_nil_r. Qed.

Lemma took_ok k b : pipe_ok b -> k <= length (up (upload b)) -> pipe_ok (relay_took k b).
Proof.
  intros Hb Hk. destruct (decide (k = 0)) as [->|Hk0]; [by rewrite took_nil|].
  destruct Hb as [Hr Hg Hu Hw Hb]. split; simpl; try done; [|by apply Forall_drop].
  eapply rtc_r; [exact Hr|]. destruct b as [[evs p s eof w t r] d g]. apply relay_reads. simpl in *. lia.
Qed.

Lemma put_ok bs b :
  pipe_ok b -> length (down (download b)) + length bs <= cap ->
  bs = [] \/ down_shut (download b) = false -> pipe_ok (relay_put bs b).
Proof.
  intros Hb Hc [->|Hd]; [by rewrite put_nil|]. destruct Hb as [Hr Hg Hu Hw Hb]. split; simpl; try done.
  eapply rtc_r; [exact Hr|]. destruct b as [u [d s eof resp w] g]. simpl in *. subst.
  by apply relay_writes.
Qed.

Lemma shut_ok b : pipe_ok b -> pipe_ok (relay_shut b).
Proof.
  intros [Hr Hg Hu Hw Hb]. split; simpl; try done.
  eapply rtc_r; [exact Hr|]. destruct b as [u [d s eof resp w] g]. apply relay_shuts.
Qed.

(** The end of the body is sent once. *)
Lemma shut_eof b : rtc (bridge_step cap) Bridge_new b -> up_shut (upload b) = true -> up_eof (upload b) = true.
Proof.
  revert b. refine (rtc_ind_r (fun b => up_shut (upload b) = true -> up_eof (upload b) = true) Bridge_new _ _);
    [done|].
  intros b1 b2 _ Hs IH. destruct Hs as [u d g u' Hs|u d g d' Ht Hs|e evs p s eof w t r d g|n evs p s eof w t r d g Hn
    |bs u d eof resp w Hc|u d s eof resp w g|u d g]; try exact IH. by destruct Hs.
Qed.

(** ** The half as a stream *)

#[export] Program Instance pipe_read_spec : ReadSpec Bridge := {|
  rd_ok := pipe_ok; rd_log := fun b => relay_read (upload b)
|}.
Next Obligation.
  intros n b p b' Hok Hp. apply pipe_read_law in Hp. destruct p as [|[bs|e]]; simpl; [| |done].
  - subst. rewrite app_nil_r. split_and!; try done. lia.
  - destruct Hp as (Hn & Hbs & -> & _).
    assert (length bs <= length (up (upload b))) as Hle by (rewrite Hbs, length_take; lia).
    split_and!; [by apply took_ok|done| |simpl; by rewrite <- Hbs].
    rewrite Hbs. apply Forall_take, Hok.
Qed.

#[export] Program Instance pipe_write_spec : WriteSpec Bridge := {|
  wr_ok := pipe_ok; wr_log := fun b => relay_wrote (download b); wr_fin := fun b => down_shut (download b)
|}.
Next Obligation.
  intros buf b p b' Hok Hp. apply pipe_write_law in Hp. destruct p as [|[k|e]]; simpl.
  - by subst.
  - destruct Hp as (Hk & _ & Hc & Hd & ->). split_and!; try done. apply put_ok; [done| |].
    + rewrite length_take. lia.
    + destruct Hd as [->|]; [left; by rewrite take_0|by right].
  - destruct Hp as [-> _]. split_and!; try done. exists 0. by rewrite take_0, app_nil_r.
Qed.
Next Obligation. intros b p b' Hok Hp. by apply pipe_flush_law in Hp as [-> ->]. Qed.
Next Obligation. intros b p b' Hok Hp. apply pipe_shutdown_law in Hp as [-> ->]. split; [by apply shut_ok|done]. Qed.

#[export] Instance pipe_duplex : DuplexSpec Bridge.
Proof.
  split.
  - intros n b p b' Hr Hw Hp. pose proof (rd_spec _ _ _ _ Hr Hp) as [? _]. split; [done|].
    apply pipe_read_law in Hp. destruct p as [|[bs|e]]; [by subst| |done]. by destruct Hp as (_ & _ & -> & _).
  - intros buf b p b' Hr Hw Hp. pose proof (wr_spec _ _ _ _ Hw Hp) as [? _]. split; [done|].
    apply pipe_write_law in Hp. destruct p as [|[k|e]]; [by subst| |by destruct Hp as [-> _]].
    by destruct Hp as (_ & _ & _ & _ & ->).
  - intros b p b' Hr Hw Hp. by apply pipe_flush_law in Hp as [-> ->].
  - intros b p b' Hr Hw Hp. pose proof (shutdown_spec _ _ _ Hw Hp) as [? _]. split; [done|].
    by apply pipe_shutdown_law in Hp as [-> ->].
Qed.

#[export] Instance pipe_err_clean : WriteErrClean Bridge.
Proof. intros buf b e b' _ Hp. by apply pipe_write_law in Hp as [-> _]. Qed.

#[export] Program Instance pipe_finite : ReadFinite Bridge := {| rd_avail := fun b => length (up (upload b)) |}.
Next Obligation.
  intros n b bs b' Hp Hbs. apply pipe_read_law in Hp as (_ & Ht & -> & _). simpl. rewrite length_drop.
  assert (0 < length bs) by (destruct bs; [done|simpl; lia]).
  assert (length bs <= length (up (upload b))) by (rewrite Ht, length_take; lia). lia.
Qed.

(** ** Its ends *)

Definition pipe_end (b : Bridge) : Prop :=
  up (upload b) = [] /\ (up_shut (upload b) = true \/ finished b).
Definition pipe_open (b : Bridge) : Prop := down_shut (download b) = false.

(** The bridge is over and dropped its half before the relay was done. *)
Definition pipe_broken (b : Bridge) : Prop := finished b /\ down_shut (download b) = false.

Lemma pipe_poll_read n (b : Bridge) : exists k, (poll_read n b).2 = relay_took k b.
Proof.
  destruct (poll_read n b) as [p b'] eqn:Hp. apply pipe_read_law in Hp. simpl.
  destruct p as [|[bs|e]]; [exists 0; by rewrite took_nil| |done]. destruct Hp as (_ & _ & -> & _). by eexists.
Qed.

Lemma pipe_poll_write buf (b : Bridge) : exists bs, (poll_write buf b).2 = relay_put bs b.
Proof.
  destruct (poll_write buf b) as [p b'] eqn:Hp. apply pipe_write_law in Hp. simpl.
  destruct p as [|[k|e]]; [exists []; by rewrite put_nil| |exists []; by rewrite put_nil; destruct Hp].
  destruct Hp as (_ & _ & _ & _ & ->). by eexists.
Qed.

Lemma pipe_poll_flush (b : Bridge) : (poll_flush b).2 = b.
Proof. destruct (poll_flush b) as [p b'] eqn:Hp. by apply pipe_flush_law in Hp as [_ ->]. Qed.

Lemma pipe_poll_shutdown (b : Bridge) : poll_shutdown b = (Ready (Ok tt), relay_shut b).
Proof. destruct (poll_shutdown b) as [p b'] eqn:Hp. by apply pipe_shutdown_law in Hp as [-> ->]. Qed.

Lemma pipe_ends : BelowEnds pipe_end pipe_open pipe_broken.
Proof.
  split.
  - intros n b p b' _ Hn Hp. apply pipe_read_law in Hp. intros [->|[e ->]]; [|done].
    destruct Hp as (_ & _ & -> & H). simpl. rewrite took_nil. by apply H.
  - intros buf b _ H. by destruct (pipe_poll_write buf b) as [bs ->].
  - intros b _ H. by rewrite pipe_poll_flush.
  - intros b _ H. by rewrite pipe_poll_shutdown.
  - intros n b _ H. by destruct (pipe_poll_read n b) as [k ->].
  - intros buf b _ H. by destruct (pipe_poll_write buf b) as [bs ->].
  - intros b _ H. by rewrite pipe_poll_flush.
  - intros b b' _ _. by rewrite pipe_poll_shutdown.
  - intros n b _ H. by destruct (pipe_poll_read n b) as [k ->].
  - intros buf b p b' _ HJ Hb Hp. apply pipe_write_law in Hp. unfold pipe_open in HJ.
    intros [->|[e ->]]; [destruct Hp as (_ & Hk & _); specialize (Hk Hb); lia|].
    unfold pipe_broken. by destruct Hp as [-> [|Hd]]; [|congruence].
  - intros b e b' _ _ Hp. by apply pipe_flush_law in Hp as [? _].
  - intros b e b' _ _. by rewrite pipe_poll_shutdown.
Qed.

(** Between the relay's polls the bridge and the client take their steps. *)
Definition bridge_env (b b' : Bridge) : Prop :=
  bridge_step cap b b' /\ relay_read (upload b') = relay_read (upload b)
  /\ relay_wrote (download b') = relay_wrote (download b)
  /\ down_shut (download b') = down_shut (download b) /\ gone b' = gone b
  /\ Forall event_ok (body_in (upload b')).

Lemma bridge_env_ok b b' : bridge_env b b' -> pipe_ok b -> pipe_ok b'.
Proof.
  intros (Hs & Hrd & _ & _ & Hg & Hev) [Hr Hh Hu Hw Hb].
  split; [by eapply rtc_r|congruence| | |done];
    destruct Hs as [u d g u' Hs|u d g d' Ht Hs|e evs p s eof w t r d g|n evs p s eof w t r d g Hn
      |bs u d eof resp w Hc|u d s eof resp w g|u d g]; try done; try (by apply Forall_drop);
    destruct Hs; simpl in *; try done.
  - apply Forall_app. split; [done|by apply Forall_take].
  - by apply Forall_cons in Hb as [? _].
  - by apply Forall_drop.
Qed.

Lemma bridge_env_keeps b b' :
  bridge_env b b' -> both_ok b ->
  stream_env b b' /\ (pipe_end b -> pipe_end b') /\ (pipe_open b -> pipe_open b') /\ (pipe_broken b -> pipe_broken b').
Proof.
  intros He [Hb _]. pose proof (bridge_env_ok b b' He Hb) as Hb'. pose proof (shut_eof b (po_reach b Hb)) as Hse.
  destruct He as (Hs & Hrd & Hwr & Hds & Hg & _). unfold pipe_end, pipe_open, pipe_broken, finished in *.
  split; [by split_and!|]. split; [|split; [congruence|]].
  - intros [Hu He]. assert (up_eof (upload b) = true) as Heof by (destruct He as [|[? _]]; auto).
    destruct Hs as [u d g u' Hs|u d g d' Ht Hs|e evs p s eof w t r d g|n evs p s eof w t r d g Hn
      |bs u d eof resp w Hc|u d s eof resp w g|u d g]; simpl in *; try done.
    + destruct Hs; simpl in *; congruence.
    + split; [done|]. destruct He as [|[? Hd]]; [by left|]. destruct Hs; simpl in *; congruence.
    + subst p. simpl in Hn. lia.
  - intros [[Hu Hd] Hsh]. split; [|congruence].
    destruct Hs as [u d g u' Hs|u d g d' Ht Hs|e evs p s eof w t r d g|n evs p s eof w t r d g Hn
      |bs u d eof resp w Hc|u d s eof resp w g|u d g]; simpl in *; try done; destruct Hs; simpl in *; congruence.
Qed.

(** ** The tunnel *)

Definition h2_tunnel (rng : nat -> Z * Z) : Padded Bridge := mkPadded (npt_new Bridge_new) rng 0.

Lemma h2_tunnel_ok rng : both_ok (h2_tunnel rng).
Proof.
  assert (pipe_ok Bridge_new) by by split; constructor.
  split; [by apply npt_rd_ok_new|by apply write_wf_new].
Qed.

(** The capacity of the pipe that [process_h2_request_pingora] makes: what one
    read of either side may hold fits. *)
Definition pipe_capacity (buffer_size : nat) : nat := max buffer_size BRIDGE_BUF.

(** The result of the request once the bridge is over and the relay's task was
    joined: the task's own, or the failure to join it. *)
Definition h2_tunnel_result (joined : result (result unit rstr) rstr) : result unit rstr :=
  match joined with
  | Ok result => result
  | Err join_err => Err (str "tunnel task join failed: " ++ join_err)
  end.

(** The relay's task is over. *)
Definition relay_dropped (b : Bridge) : Bridge := mkBridge (upload b) (download b) true.

Lemma dropped_wrote b b' :
  rtc (bridge_step cap) (relay_dropped b) b' -> relay_wrote (download b') = relay_wrote (download b).
Proof.
  intros Hr. enough (gone b' = true /\ relay_wrote (download b') = relay_wrote (download b)) by tauto.
  revert b' Hr. refine (rtc_ind_r (fun b' => gone b' = true /\ relay_wrote (download b') = relay_wrote (download b))
    (relay_dropped b) _ _); [done|].
  intros b1 b2 _ Hs [Hg Hw]. destruct Hs as [u d g u' Hs|u d g d' Ht Hs|e evs p s eof w t r d g
    |n evs p s eof w t r d g Hn|bs u d eof resp w Hc|u d s eof resp w g|u d g]; simpl in *; try done.
  split; [done|]. by destruct Hs.
Qed.

(** What the client was sent once the bridge is over. *)
Lemma bridge_over b :
  rtc (bridge_step cap) Bridge_new b -> finished b ->
  (exists cs, response (download b) = map (fun c => (Some c, false)) cs ++ [(None, true)]
    /\ concat cs = relay_wrote (download b))
  \/ (exists cs, response (download b) = map (fun c => (Some c, false)) cs
       /\ concat cs `prefix_of` relay_wrote (download b)).
Proof.
  intros Hr [_ Hd]. apply bridge_reachable_inv in Hr as (l1 & l2 & _ & [H1 H2 (cs & tail & H3 & H4) _ H5]).
  destruct H4 as [->|(-> & -> & Hn & _)].
  - right. exists cs. rewrite app_nil_r in H3. split; [done|]. rewrite H1, H3, chunks_of_data. by eexists.
  - left. exists cs. split; [done|]. by rewrite H1, H3, Hn, chunks_of_app, chunks_of_none, chunks_of_data, !app_nil_r.
Qed.

Lemma pipe_all_read b : pipe_ok b -> pipe_end b -> relay_read (upload b) = taken (upload b) /\ up_eof (upload b) = true.
Proof.
  intros Hb [Hu He]. assert (up_eof (upload b) = true) as Heof
    by (destruct He as [|[? _]]; [by apply shut_eof; [apply Hb|]|done]).
  split; [|done]. destruct (bridge_reachable_inv _ _ (po_reach b Hb)) as (l1 & l2 & [H1 H2 H3 _] & _).
  assert (l1 = []) as -> by (destruct l1; [done|destruct (H2 ltac:(done)); pose proof (po_here b Hb); congruence]).
  by rewrite H1, Hu, (H3 Heof), !app_nil_r.
Qed.

Section Tunnel.
Context {B : Type} `{!AsyncRead B, !AsyncWrite B, !ReadSpec B, !WriteSpec B, !DuplexSpec B, !ReadFinite B}.
Variable sleep_ready : Z -> Z -> bool.

(** C2: an HTTP/2 tunnel whose relay completes was faithful from end to end,
    however the client, the bridge and the relay interleave and whatever the
    capacity of the pipe: the target was sent exactly the payload of the whole
    body the session yielded; and when the bridge is over too, the client was
    sent a body whose payload is exactly what the target sent, and its end after
    that, unless the session failed on the way. *)
Theorem h2_tunnel_delivers size idle start rng (b0 : B) st last fuel now t st' :
  0 < size -> rd_ok b0 -> wr_ok b0 ->
  relay_runs sleep_ready (padded_env bridge_env) stream_env size false idle start (h2_tunnel rng) b0 st last ->
  relay_poll sleep_ready fuel idle now st = Some (Ready (Ok true), t, st') ->
  let br := inner (npt (side_a st')) in
  exists down,
    up_eof (upload br) = true
    /\ wr_log (side_b st') = wr_log b0 ++ strip PADDING_FRAMES (taken (upload br))
    /\ rd_log (side_b st') = rd_log b0 ++ down
    /\ bytes_transferred (a_to_b st') = u64_wrap (Z.of_nat (length (strip PADDING_FRAMES (taken (upload br)))))
    /\ bytes_transferred (b_to_a st') = u64_wrap (Z.of_nat (length down))
    /\ (pipe_broken br
        \/ forall br', rtc (bridge_step cap) (relay_dropped br) br' -> finished br' ->
            exists cs, (response (download br') = map (fun c => (Some c, false)) cs ++ [(None, true)]
                        /\ strip PADDING_FRAMES (concat cs) = down)
              \/ (response (download br') = map (fun c => (Some c, false)) cs
                  /\ strip PADDING_FRAMES (concat cs) `prefix_of` down)).
Proof.
  intros Hsz Hrb Hwb Hr Hp br. destruct (h2_tunnel_ok rng) as [Ra Wa].
  pose proof (relay_completed_both _ _ _ _ _ _ (padded_ends _ _ _ pipe_ends) ends_any sleep_ready
    (padded_env bridge_env) stream_env (padded_env_ends _ _ _ _ bridge_env_keeps)
    ltac:(by intros ? ? (? & ? & _))
    (padded_stream_env _ _ _ _ bridge_env_keeps) ltac:(done) _ _ _ _ _ _ _ _ _ _ _ Hsz
    (conj Ra (conj Wa (conj Hrb Hwb))) eq_refl I Hr Hp)
    as ((up & down & R1 & W1 & R2 & W2 & A1 & A2) & HE & _ & HF & _ & Hok & _).
  apply padded_inner in Hok as [Hok _]. fold br in Hok. fold br in HE.
  change (pipe_end br) in HE. destruct (pipe_all_read _ Hok HE) as [Hall Heof].
  assert (up = strip PADDING_FRAMES (taken (upload br))) as ->.
  { rewrite <- Hall. change (rd_log (h2_tunnel rng)) with (strip PADDING_FRAMES []) in R1.
    rewrite strip_nil in R1. exact (eq_sym R1). }
  exists down. split_and!; try done. destruct HF as [[Hw Hf]|HF]; [right|by left].
  intros br' Hr' Hfin.
  assert (rtc (bridge_step cap) Bridge_new br') as Hreach.
  { etrans; [apply (po_reach _ Hok)|]. eapply rtc_l; [|exact Hr']. destruct br. apply relay_drops. }
  assert (strip PADDING_FRAMES (relay_wrote (download br')) = down) as <-.
  { rewrite (dropped_wrote _ _ Hr').
    change (wr_log (h2_tunnel rng)) with (strip PADDING_FRAMES []) in W2.
    rewrite strip_nil in W2. simpl in W2. rewrite <- W2.
    change (wr_log (side_a st')) with (npt_wr_log (npt (side_a st'))).
    unfold npt_wr_log, wire, left_over. by rewrite Hw, app_nil_r. }
  destruct (bridge_over _ Hreach Hfin) as [(cs & Hc & <-)|(cs & Hc & x & ->)]; exists cs; [by left|right].
  split; [done|]. apply strip_prefix.
Qed.
End Tunnel.
End Pipe.

(** ** A pipe, and a tunnel that is run to its end *)

Definition finishedb (b : Bridge) : bool := up_eof (upload b) && down_eof (download b).

Definition ex_pipe_read (n : nat) (b : Bridge) : poll (io_result bytes) * Bridge :=
  match up (upload b) with
  | [] => (if up_shut (upload b) || finishedb b then Ready (Ok []) else Pending, b)
  | bs => (Ready (Ok (take n bs)), relay_took (length (take n bs)) b)
  end.

Definition ex_pipe_write (cap : nat) (buf : bytes) (b : Bridge) : poll (io_result nat) * Bridge :=
  let room := cap - length (down (download b)) in
  if finishedb b || down_shut (download b) then (Ready (Err (mk_io_error BrokenPipe [])), b)
  else if room =? 0 then (Pending, b)
  else (Ready (Ok (room `min` length buf)), relay_put (take (room `min` length buf) buf) b).

Program Definition ex_pipe (cap : nat) : DuplexPipe cap := {|
  pipe_read := ex_pipe_read;
  pipe_write := {| poll_write := ex_pipe_write cap; poll_flush := fun b => (Ready (Ok tt), b);
                   poll_shutdown := fun b => (Ready (Ok tt), relay_shut b) |}
|}.
Next Obligation.
  unfold poll_read, ex_pipe_read, finished, finishedb. intros cap n b p b' Hp.
  destruct (up (upload b)) as [|x bs] eqn:Hu.
  - destruct (_ || _) eqn:Hs; injection Hp as <- <-; [|done].
    rewrite took_nil. split_and!; try done; [simpl; lia|]. intros _ _. split; [done|].
    apply orb_true_iff in Hs as [|Hs]; [by left|right]. by apply andb_true_iff in Hs.
  - injection Hp as <- <-. split_and!; try done; [rewrite length_take; lia| |].
    + by rewrite length_take, <- take_take, firstn_all.
    + intros Hn Ht. destruct n; [lia|done].
Qed.
Next Obligation.
  unfold ex_pipe_write, finished, finishedb. simpl. intros cap buf b p b' Hp. unfold ex_pipe_write in Hp.
  destruct (_ || _) eqn:Hs; [|destruct (_ =? 0) eqn:Hroom]; injection Hp as <- <-; bool_facts.
  - split; [done|]. apply orb_true_iff in Hs as [Hs|]; [left|by right]. by apply andb_true_iff in Hs.
  - done.
  - split_and!; try done; [lia| |lia|by right].
    intros Hb. assert (0 < length buf) by (destruct buf; [done|simpl; lia]). lia.
Qed.
Next Obligation. simpl. by intros cap b p b' [= <- <-]. Qed.
Next Obligation. simpl. by intros cap b p b' [= <- <-]. Qed.

(** A client that sends one padded frame with the bytes 7 and 8 and ends its
    body, and a target that answers with the byte 9 and closes. *)
Definition ex_body : bytes := build_frame [7; 8]%Z [0; 0; 0]%Z.

Definition ex_h2_sent : Bridge :=
  mkBridge (mkUp [] ex_body true true None ex_body []) (mkDown [] false false [] []) false.

Definition ex_h2_target : Mem :=
  {| chunks := [[9]%Z]; eof := true; consumed := []; credits := [5; 5]; accepted := []; fin := false |}.

Definition ex_h2_start : Relay (Padded Bridge) Mem :=
  relay_new 4 false 60 0 (h2_tunnel (fun _ => (0, 0)%Z)) ex_h2_target.

Definition at_bridge (st : Relay (Padded Bridge) Mem) (b : Bridge) : Relay (Padded Bridge) Mem :=
  with_sides st (with_npt (side_a st) (set_inner (npt (side_a st)) b)) (side_b st).

#[local] Instance ex_pipe_300 : DuplexPipe 300 := ex_pipe 300.

Definition ex_h2_done : Relay (Padded Bridge) Mem :=
  match relay_poll at_deadline 9 60 5 (at_bridge ex_h2_start ex_h2_sent)
  with Some (_, _, st) => st | None => ex_h2_start end.

(** The session's and the bridge's steps before that poll. *)
Definition ex_h2_steps : list Bridge :=
  let d := mkDown [] false false [] [] in
  [mkBridge (mkUp [BData ex_body] [] false false None [] []) d false;
   mkBridge (mkUp [] [] false false (Some ex_body) ex_body []) d false;
   mkBridge (mkUp [] ex_body false false (Some []) ex_body []) d false;
   mkBridge (mkUp [] ex_body false false None ex_body []) d false;
   mkBridge (mkUp [BEnd] ex_body false false None ex_body []) d false;
   ex_h2_sent].

Fixpoint env_chain (b : Bridge) (bs : list Bridge) : Prop :=
  match bs with [] => True | b' :: bs => bridge_env (cap := 300) b b' /\ env_chain b' bs end.

Lemma ex_h2_chain : env_chain Bridge_new ex_h2_steps.
Proof.
  assert (Forall is_u8 ex_body) as Hu by (repeat constructor; by vm_compute).
  unfold ex_h2_steps. cbn [env_chain]. unfold bridge_env.
  split_and!; try done; try (by repeat constructor).
  - apply (client_sends 300 (BData ex_body) [] [] false false None [] [] _ false).
  - apply do_up, (up_write 300 false [] [] false ex_body ex_body [] (length ex_body)); [done|lia|simpl; lia].
  - apply (client_sends 300 BEnd [] ex_body false false None ex_body [] _ false).
Qed.

Definition ex_h2_runs : Relay (Padded Bridge) Mem -> Z -> Prop :=
  relay_runs at_deadline (padded_env (bridge_env (cap := 300))) stream_env 4 false 60 0
    (h2_tunnel (fun _ => (0, 0)%Z)) ex_h2_target.

Lemma chain_runs b bs :
  env_chain b bs -> ex_h2_runs (at_bridge ex_h2_start b) 0 ->
  ex_h2_runs (at_bridge ex_h2_start (List.last bs b)) 0.
Proof.
  revert b. induction bs as [|b' bs IH]; intros b; [done|]. intros [Hb Hc] Hr.
  assert (ex_h2_runs (at_bridge ex_h2_start b') 0) as Hr'.
  { apply (run_env at_deadline (padded_env (bridge_env (cap := 300))) stream_env 4 false 60 0 _ _
      (at_bridge ex_h2_start b) 0 _ ex_h2_target Hr).
    - by apply (below_changes bridge_env (side_a (at_bridge ex_h2_start b)) b').
    - split_and!; repeat constructor; by vm_compute. }
  apply (IH _ Hc) in Hr'. destruct bs as [|b2 bs]; [done|].
  replace (List.last (b' :: b2 :: bs) b) with (List.last (b2 :: bs) b'); [done|].
  cbn [List.last]. clear. revert b2. induction bs as [|b3 bs IH]; intros b2; [done|apply IH].
Qed.

Lemma ex_h2_run : ex_h2_runs (at_bridge ex_h2_start ex_h2_sent) 0.
Proof. apply (chain_runs Bridge_new ex_h2_steps ex_h2_chain). apply run_start. Qed.

Lemma h2_tunnel_delivers_witness :
  let br := inner (npt (side_a ex_h2_done)) in
  exists down,
    up_eof (upload br) = true
    /\ wr_log (side_b ex_h2_done) = wr_log ex_h2_target ++ strip PADDING_FRAMES (taken (upload br))
    /\ rd_log (side_b ex_h2_done) = rd_log ex_h2_target ++ down
    /\ bytes_transferred (a_to_b ex_h2_done)
       = u64_wrap (Z.of_nat (length (strip PADDING_FRAMES (taken (upload br)))))
    /\ bytes_transferred (b_to_a ex_h2_done) = u64_wrap (Z.of_nat (length down))
    /\ (pipe_broken br
        \/ forall br', rtc (bridge_step 300) (relay_dropped br) br' -> finished br' ->
            exists cs, (response (download br') = map (fun c => (Some c, false)) cs ++ [(None, true)]
                        /\ strip PADDING_FRAMES (concat cs) = down)
              \/ (response (download br') = map (fun c => (Some c, false)) cs
                  /\ strip PADDING_FRAMES (concat cs) `prefix_of` down)).
Proof.
  apply (h2_tunnel_delivers at_deadline 4 60 0 (fun _ => (0, 0)%Z) ex_h2_target
    (at_bridge ex_h2_start ex_h2_sent) 0 9 5 Completed ex_h2_done).
  - lia.
  - repeat constructor; by vm_compute.
  - repeat constructor; by vm_compute.
  - exact ex_h2_run.
  - vm_compute. reflexivity.
Defined.

(** What the target and the pipe have in that run. *)
Example ex_h2_tunnel :
  accepted (side_b ex_h2_done) = [7; 8]%Z /\ fin (side_b ex_h2_done) = true
  /\ strip PADDING_FRAMES (relay_wrote (download (inner (npt (side_a ex_h2_done))))) = [9]%Z
  /\ down_shut (download (inner (npt (side_a ex_h2_done)))) = true.
Proof. by vm_compute. Qed.
