(* ===== verification/Connection.v ===== *)
(** * [src/core/connection.rs]: the connection manager

    The two maps, the counter and the cancellation tokens; each operation is
    the composition of its atomic steps (one per lock acquisition of a
    [DashMap] or per atomic instruction), and [Threads] interleaves those
    steps. *)

From S2P Require Import Prelude RustNet.
Open Scope nat_scope.

(** [UserId] is [i64], [ConnectionId] is [u64]; a token is a cell of the
    token store. *)
Abbreviation UserId := Z.
Abbreviation ConnectionId := Z.
Abbreviation Token := nat.

Record ConnectionInfo : Type := {
  user_id : UserId;
  peer_addr : SocketAddr;
  connected_at : Z
}.

Record ActiveConnection : Type := {
  info : ConnectionInfo;
  cancel_token : Token
}.

(** [tokens] counts the tokens made, [cancelled] holds the cancelled ones. *)
Record ConnectionManager : Type := mkManager {
  next_conn_id : Z;
  connections : gmap ConnectionId ActiveConnection;
  user_connections : gmap UserId (gset ConnectionId);
  tokens : nat;
  cancelled : gset Token
}.

Definition Manager_new : ConnectionManager := {|
  next_conn_id := 1;
  connections := ∅;
  user_connections := ∅;
  tokens := 0;
  cancelled := ∅
|}.

Definition with_connections (m : ConnectionManager) (c : gmap ConnectionId ActiveConnection)
    : ConnectionManager :=
  mkManager (next_conn_id m) c (user_connections m) (tokens m) (cancelled m).

Definition with_users (m : ConnectionManager) (u : gmap UserId (gset ConnectionId))
    : ConnectionManager :=
  mkManager (next_conn_id m) (connections m) u (tokens m) (cancelled m).

(** *** The atomic steps *)

(** [next_conn_id.fetch_add(1)] and [CancellationToken::new()]. *)
Definition alloc (m : ConnectionManager) : ConnectionId * Token * ConnectionManager :=
  (next_conn_id m, tokens m,
   mkManager (u64_wrap (next_conn_id m + 1)) (connections m) (user_connections m)
     (S (tokens m)) (cancelled m)).

(** [connections.insert(conn_id, conn)]. *)
Definition insert_conn (id : ConnectionId) (c : ActiveConnection) (m : ConnectionManager)
    : ConnectionManager :=
  with_connections m (<[id := c]> (connections m)).

(** [user_connections.entry(user_id).or_default().insert(conn_id)]. *)
Definition index_conn (user : UserId) (id : ConnectionId) (m : ConnectionManager)
    : ConnectionManager :=
  with_users m (<[user := {[id]} ∪ default ∅ (user_connections m !! user)]> (user_connections m)).

(** [connections.remove(&conn_id)]. *)
Definition remove_conn (id : ConnectionId) (m : ConnectionManager)
    : option ActiveConnection * ConnectionManager :=
  (connections m !! id, with_connections m (delete id (connections m))).

(** [user_connections.remove_if_mut(&user_id, ..)]: take the id out of the
    user's set, and the entry out of the map once the set is empty. *)
Definition unindex_conn (user : UserId) (id : ConnectionId) (m : ConnectionManager)
    : ConnectionManager :=
  match user_connections m !! user with
  | None => m
  | Some ids =>
      let ids := ids ∖ {[id]} in
      with_users m
        (if bool_decide (ids = ∅) then delete user (user_connections m)
         else <[user := ids]> (user_connections m))
  end.

(** One turn of the loop of [kick_user]; [true] counts it. *)
Definition cancel_conn (id : ConnectionId) (m : ConnectionManager) : bool * ConnectionManager :=
  match connections m !! id with
  | Some conn =>
      (true, mkManager (next_conn_id m) (connections m) (user_connections m) (tokens m)
               ({[cancel_token conn]} ∪ cancelled m))
  | None => (false, m)
  end.

Fixpoint cancel_conns (ids : list ConnectionId) (m : ConnectionManager)
    : nat * ConnectionManager :=
  match ids with
  | [] => (0, m)
  | id :: ids =>
      let '(hit, m) := cancel_conn id m in
      let '(n, m) := cancel_conns ids m in
      ((if hit then S n else n), m)
  end.

(** *** The operations *)

Definition register (user : UserId) (addr : SocketAddr) (now : Z) (m : ConnectionManager)
    : (ConnectionId * Token) * ConnectionManager :=
  let '(conn_id, token, m) := alloc m in
  let info := {| user_id := user; peer_addr := addr; connected_at := now |} in
  let conn := {| info := info; cancel_token := token |} in
  let m := insert_conn conn_id conn m in
  let m := index_conn user conn_id m in
  ((conn_id, token), m).

Definition unregister (conn_id : ConnectionId) (m : ConnectionManager) : ConnectionManager :=
  match remove_conn conn_id m with
  | (Some conn, m) => unindex_conn (user_id (info conn)) conn_id m
  | (None, m) => m
  end.

Definition kick_user (user : UserId) (m : ConnectionManager) : nat * ConnectionManager :=
  match user_connections m !! user with
  | Some conn_ids => cancel_conns (elements conn_ids) m
  | None => (0, m)
  end.

(** [connections.iter()] visits every entry of the map. *)
Definition cancel_all (m : ConnectionManager) : nat * ConnectionManager :=
  cancel_conns (map fst (map_to_list (connections m))) m.

Definition connection_count (m : ConnectionManager) : nat := size (connections m).
Definition user_count (m : ConnectionManager) : nat := size (user_connections m).

Definition is_cancelled (t : Token) (m : ConnectionManager) : bool := bool_decide (t ∈ cancelled m).

(** ** The invariant *)

(** The second map is the inverse of the first, without empty entries; ids and
    tokens in use were allocated, and no two connections share a token. *)
Record manager_wf (m : ConnectionManager) : Prop := {
  wf_index id c : connections m !! id = Some c ->
    exists ids, user_connections m !! user_id (info c) = Some ids /\ id ∈ ids;
  wf_inverse user ids id : user_connections m !! user = Some ids -> id ∈ ids ->
    exists c, connections m !! id = Some c /\ user_id (info c) = user;
  wf_nonempty user ids : user_connections m !! user = Some ids -> ids <> ∅;
  wf_ids id c : connections m !! id = Some c -> (1 <= id < next_conn_id m)%Z;
  wf_next : (1 <= next_conn_id m <= u64_max)%Z;
  wf_tokens id c : connections m !! id = Some c -> cancel_token c < tokens m;
  wf_token_inj i j c d : connections m !! i = Some c -> connections m !! j = Some d ->
    cancel_token c = cancel_token d -> i = j;
  wf_cancelled t : t ∈ cancelled m -> t < tokens m
}.

Lemma Manager_new_wf : manager_wf Manager_new.
Proof.
  split; simpl; intros; try by rewrite lookup_empty in *; done.
  - unfold u64_max. lia.
  - set_solver.
Qed.

Lemma register_wf user addr now m :
  manager_wf m -> (next_conn_id m < u64_max)%Z -> manager_wf (register user addr now m).2.
Proof.
  intros W Hlt. unfold register, alloc, insert_conn, index_conn, with_users, with_connections.
  cbn [snd connections user_connections next_conn_id tokens cancelled].
  assert (connections m !! next_conn_id m = None) as Hfresh.
  { destruct (connections m !! next_conn_id m) eqn:E; [|done]. apply (wf_ids m W) in E. lia. }
  destruct W. rewrite u64_wrap_small by (unfold is_u64, u64_max in *; lia).
  split; cbn [connections user_connections next_conn_id tokens cancelled].
  - intros id c. rewrite lookup_insert_Some. intros [[<- <-]|[Hne Hc]].
    + simpl. eexists. rewrite lookup_insert_eq. split; [done|set_solver].
    + destruct (wf_index0 _ _ Hc) as (ids & Hids & Hin).
      destruct (decide (user = user_id (info c))) as [->|Hn].
      * eexists. rewrite lookup_insert_eq, Hids. simpl. split; [done|set_solver].
      * exists ids. by rewrite lookup_insert_ne.
  - intros u ids id. rewrite lookup_insert_Some. intros [[<- <-]|[Hne Hu]] Hin.
    + apply elem_of_union in Hin as [->%elem_of_singleton|Hin].
      * eexists. by rewrite lookup_insert_eq.
      * destruct (user_connections m !! user) as [ids|] eqn:E; simpl in Hin; [|set_solver].
        destruct (wf_inverse0 _ _ _ E Hin) as (c & Hc & Hu). exists c.
        rewrite lookup_insert_ne; [done|congruence].
    + destruct (wf_inverse0 _ _ _ Hu Hin) as (c & Hc & Huc). exists c.
      rewrite lookup_insert_ne; [done|congruence].
  - intros u ids. rewrite lookup_insert_Some. intros [[<- <-]|[Hne Hu]]; [set_solver|eauto].
  - intros id c. rewrite lookup_insert_Some. intros [[<- <-]|[Hne Hc]]; [lia|].
    apply wf_ids0 in Hc. lia.
  - lia.
  - intros id c. rewrite lookup_insert_Some. intros [[<- <-]|[Hne Hc]]; [simpl; lia|].
    apply wf_tokens0 in Hc. lia.
  - intros i j c d. rewrite !lookup_insert_Some.
    intros [[<- <-]|[? Hc]] [[<- <-]|[? Hd]]; simpl; [done|..|eauto].
    + apply wf_tokens0 in Hd. lia.
    + apply wf_tokens0 in Hc. lia.
  - intros t Ht. apply wf_cancelled0 in Ht. lia.
Qed.

Lemma unregister_wf id m : manager_wf m -> manager_wf (unregister id m).
Proof.
  intros W. unfold unregister, remove_conn, unindex_conn, with_users, with_connections.
  destruct (connections m !! id) as [c|] eqn:Ec.
  2:{ rewrite delete_id by done. by destruct m. }
  destruct W. cbn [user_connections]. destruct (wf_index0 _ _ Ec) as (ids & Hids & Hin).
  rewrite Hids. split; cbn [connections user_connections next_conn_id tokens cancelled]; try done.
  - intros j d. rewrite lookup_delete_Some. intros [Hne Hd].
    destruct (wf_index0 _ _ Hd) as (ids' & Hids' & Hin').
    destruct (decide (user_id (info d) = user_id (info c))) as [He|Hn].
    + rewrite He in *. assert (ids' = ids) as -> by congruence.
      case_bool_decide as Hemp; [set_solver|]. exists (ids ∖ {[id]}).
      rewrite lookup_insert_eq. split; [done|set_solver].
    + exists ids'. case_bool_decide; [by rewrite lookup_delete_ne|by rewrite lookup_insert_ne].
  - intros u ids' j Hu Hj.
    assert (j <> id /\ exists ids0, user_connections m !! u = Some ids0 /\ j ∈ ids0) as [Hne (ids0 & H0 & Hj0)].
    { case_bool_decide as Hemp.
      - apply lookup_delete_Some in Hu as [Hn Hu]. split; [|by eauto]. intros ->.
        destruct (wf_inverse0 _ _ _ Hu Hj) as (d & Hd & Hud). congruence.
      - apply lookup_insert_Some in Hu as [[<- <-]|[Hn Hu]]; [set_solver|]. split; [|by eauto].
        intros ->. destruct (wf_inverse0 _ _ _ Hu Hj) as (d & Hd & Hud). congruence. }
    destruct (wf_inverse0 _ _ _ H0 Hj0) as (d & Hd & Hud). exists d. by rewrite lookup_delete_ne.
  - intros u ids'. case_bool_decide as Hemp.
    + intros [Hn Hu]%lookup_delete_Some. eauto.
    + intros [[<- <-]|[Hn Hu]]%lookup_insert_Some; eauto.
  - intros j d [_ Hd]%lookup_delete_Some. eauto.
  - intros j d [_ Hd]%lookup_delete_Some. eauto.
  - intros i j ci cj [_ Hi]%lookup_delete_Some [_ Hj]%lookup_delete_Some. eauto.
Qed.

Lemma cancel_conns_frame ids m :
  let m' := (cancel_conns ids m).2 in
  next_conn_id m' = next_conn_id m /\ connections m' = connections m
  /\ user_connections m' = user_connections m /\ tokens m' = tokens m.
Proof.
  revert m. induction ids as [|id ids IH]; intros m; cbn [cancel_conns]; [done|].
  destruct (cancel_conn id m) as [hit m1] eqn:E.
  specialize (IH m1). destruct (cancel_conns ids m1) as [n m2]. cbn [snd] in *.
  unfold cancel_conn in E. destruct (connections m !! id); by injection E as _ <-.
Qed.

(** Exactly the tokens of the connections visited are cancelled. *)
Lemma cancel_conns_cancelled ids m t :
  t ∈ cancelled (cancel_conns ids m).2 <->
  t ∈ cancelled m \/ exists id c, id ∈ ids /\ connections m !! id = Some c /\ cancel_token c = t.
Proof.
  revert m. induction ids as [|id ids IH]; intros m; cbn [cancel_conns].
  { split; [by left|]. intros [?|(id & c & H & _)]; [done|]. by apply elem_of_nil in H. }
  destruct (cancel_conn id m) as [hit m1] eqn:E.
  specialize (IH m1). destruct (cancel_conns ids m1) as [n m2]. cbn [snd] in *. rewrite IH.
  setoid_rewrite elem_of_cons.
  unfold cancel_conn in E. destruct (connections m !! id) as [c|] eqn:Ec; injection E as _ <-;
    cbn [connections cancelled].
  - rewrite elem_of_union, elem_of_singleton. split.
    + intros [[->|H]|(j & d & Hj & Hd & Ht)]; [right|by left|right].
      * exists id, c. by split; [left|].
      * exists j, d. by split; [right|].
    + intros [H|(j & d & [->|Hj] & Hd & Ht)]; [by auto|left; left; congruence|right; by eauto].
  - split.
    + intros [H|(j & d & Hj & Hd & Ht)]; [by left|right]. exists j, d. by split; [right|].
    + intros [H|(j & d & [->|Hj] & Hd & Ht)]; [by auto|congruence|right; by eauto].
Qed.

Lemma cancel_conns_count ids m :
  (forall id, id ∈ ids -> is_Some (connections m !! id)) -> (cancel_conns ids m).1 = length ids.
Proof.
  revert m. induction ids as [|id ids IH]; intros m H; cbn [cancel_conns]; [done|].
  destruct (H id) as [c Hc]; [by left|]. unfold cancel_conn. rewrite Hc.
  set (m1 := mkManager _ _ _ _ _). specialize (IH m1 ltac:(intros; apply H; by right)).
  destruct (cancel_conns ids m1). simpl in *. by rewrite IH.
Qed.

Lemma cancel_conns_wf ids m : manager_wf m -> manager_wf (cancel_conns ids m).2.
Proof.
  intros W. destruct (cancel_conns_frame ids m) as (E1 & E2 & E3 & E4).
  destruct W. split; rewrite ?E1, ?E2, ?E3, ?E4; try done.
  intros t. rewrite cancel_conns_cancelled. intros [?|(id & c & _ & Hc & <-)]; eauto.
Qed.

(** ** Sequential properties *)

Inductive op : Type :=
  | Register (user : UserId) (addr : SocketAddr) (now : Z)
  | Unregister (id : ConnectionId)
  | KickUser (user : UserId)
  | CancelAll.

Definition run_op (o : op) (m : ConnectionManager) : ConnectionManager :=
  match o with
  | Register user addr now => (register user addr now m).2
  | Unregister id => unregister id m
  | KickUser user => (kick_user user m).2
  | CancelAll => (cancel_all m).2
  end.

Definition run_ops (os : list op) (m : ConnectionManager) : ConnectionManager :=
  fold_left (fun m o => run_op o m) os m.

Lemma kick_user_wf user m : manager_wf m -> manager_wf (kick_user user m).2.
Proof.
  intros. unfold kick_user. destruct (user_connections m !! user); [by apply cancel_conns_wf|done].
Qed.

Lemma unregister_next id m : next_conn_id (unregister id m) = next_conn_id m.
Proof.
  unfold unregister, remove_conn, unindex_conn. destruct (connections m !! id); [|done].
  simpl. by destruct (user_connections m !! _).
Qed.

Lemma kick_user_next user m : next_conn_id (kick_user user m).2 = next_conn_id m.
Proof.
  unfold kick_user. destruct (user_connections m !! user); [|done]. apply cancel_conns_frame.
Qed.

Lemma run_op_next o m :
  manager_wf m -> (next_conn_id m < u64_max)%Z ->
  (next_conn_id (run_op o m) <= next_conn_id m + 1)%Z.
Proof.
  intros W Hlt. destruct o; simpl.
  - rewrite u64_wrap_small; [lia|]. pose proof (wf_next m W). unfold is_u64, u64_max in *. lia.
  - rewrite unregister_next. lia.
  - rewrite kick_user_next. lia.
  - unfold cancel_all. destruct (cancel_conns_frame (map fst (map_to_list (connections m))) m) as [-> _].
    lia.
Qed.

Lemma run_ops_wf_from os m :
  manager_wf m -> (next_conn_id m + Z.of_nat (length os) < u64_max)%Z ->
  manager_wf (run_ops os m).
Proof.
  revert m. induction os as [|o os IH]; intros m W Hlt; [done|]. simpl in *. apply IH.
  - destruct o; simpl.
    + apply register_wf; [done|lia].
    + by apply unregister_wf.
    + by apply kick_user_wf.
    + by apply cancel_conns_wf.
  - pose proof (run_op_next o m W ltac:(lia)). lia.
Qed.

(** C15: the manager's two maps stay inverse to each other, without empty
    entries, and ids and tokens stay unique, under every sequence of fewer than
    [2^64 - 2] operations. *)
Theorem run_ops_wf os :
  (Z.of_nat (length os) < u64_max - 1)%Z -> manager_wf (run_ops os Manager_new).
Proof.
  intros Hlen. apply run_ops_wf_from; [apply Manager_new_wf|simpl; lia].
Qed.

(** [register] gives a connection id and a token that no connection has,
    the token not cancelled; and [unregister] of that id gives the maps back as
    they were, the empty entry of a new user included. *)
Theorem register_unregister user addr now m :
  manager_wf m -> (next_conn_id m < u64_max)%Z ->
  let '((id, token), m1) := register user addr now m in
  connections m !! id = None
  /\ connections m1 !! id = Some {|
       info := {| user_id := user; peer_addr := addr; connected_at := now |};
       cancel_token := token |}
  /\ is_cancelled token m1 = false
  /\ connection_count m1 = S (connection_count m)
  /\ connections (unregister id m1) = connections m
  /\ user_connections (unregister id m1) = user_connections m.
Proof.
  intros W Hlt. unfold register, alloc. set (id := next_conn_id m).
  set (c := Build_ActiveConnection _ _).
  assert (connections m !! id = None) as Hfresh.
  { destruct (connections m !! id) eqn:E; [|done]. apply (wf_ids m W) in E. unfold id in *. lia. }
  cbn [insert_conn index_conn with_connections with_users connections user_connections].
  split_and!; [done|by rewrite lookup_insert_eq| | | |].
  - unfold is_cancelled. cbn [index_conn insert_conn with_connections with_users cancelled].
    apply bool_decide_eq_false. intros Ht. apply (wf_cancelled m W) in Ht. lia.
  - unfold connection_count. cbn [index_conn insert_conn with_connections with_users connections].
    by rewrite map_size_insert_None.
  - unfold unregister, remove_conn, unindex_conn, index_conn, insert_conn, with_connections, with_users.
    cbn [connections user_connections]. rewrite lookup_insert_eq. cbn [info c user_id].
    rewrite lookup_insert_eq. simpl. by rewrite delete_insert_id.
  - unfold unregister, remove_conn, unindex_conn, index_conn, insert_conn, with_connections, with_users.
    cbn [connections user_connections]. rewrite lookup_insert_eq. cbn [info c user_id].
    rewrite lookup_insert_eq. cbn [user_connections].
    destruct (user_connections m !! user) as [ids|] eqn:Eu; simpl.
    + assert (id ∉ ids) as Hn.
      { intros Hin. destruct (wf_inverse m W _ _ _ Eu Hin) as (d & Hd & _). congruence. }
      pose proof (wf_nonempty m W _ _ Eu) as Hne.
      replace (({[id]} ∪ ids) ∖ {[id]}) with ids by set_solver.
      rewrite bool_decide_eq_false_2 by done. rewrite insert_insert_eq. by apply insert_id.
    + rewrite union_empty_r_L, difference_diag_L, bool_decide_eq_true_2 by done.
      by apply delete_insert_id.
Qed.

(** [kick_user] cancels the tokens of that user's connections and no other,
    returns their number and leaves both maps alone (each task unregisters its
    own connection). *)
Theorem kick_user_spec user m :
  manager_wf m ->
  let '(n, m') := kick_user user m in
  n = size (default ∅ (user_connections m !! user))
  /\ connections m' = connections m /\ user_connections m' = user_connections m
  /\ forall id c, connections m !! id = Some c ->
     (is_cancelled (cancel_token c) m' = true <->
      is_cancelled (cancel_token c) m = true \/ user_id (info c) = user).
Proof.
  intros W. unfold kick_user. destruct (user_connections m !! user) as [ids|] eqn:Eu; simpl.
  - destruct (cancel_conns (elements ids) m) as [n m'] eqn:E.
    pose proof (cancel_conns_frame (elements ids) m) as (_ & H1 & H2 & _).
    pose proof (cancel_conns_count (elements ids) m) as Hn.
    pose proof (fun t => cancel_conns_cancelled (elements ids) m t) as Hc.
    rewrite E in *. cbn [fst snd] in *. split_and!; try done.
    + rewrite Hn; [done|]. intros id Hid%elem_of_elements.
      destruct (wf_inverse m W _ _ _ Eu Hid) as (c & Hc' & _). by exists c.
    + intros id c Hid. unfold is_cancelled. rewrite !bool_decide_eq_true, Hc. split.
      * intros [?|(j & d & Hj%elem_of_elements & Hd & Ht)]; [by left|right].
        assert (j = id) as -> by eauto using wf_token_inj.
        destruct (wf_inverse m W _ _ _ Eu Hj) as (c' & Hc' & Hu). congruence.
      * intros [?|Hu]; [by left|right]. exists id, c. split_and!; try done.
        apply elem_of_elements. destruct (wf_index m W _ _ Hid) as (ids' & Hids & Hin). congruence.
  - split_and!; try done. intros id c Hid. split; [by left|]. intros [?|Hu]; [done|].
    destruct (wf_index m W _ _ Hid) as (ids' & Hids & Hin). congruence.
Qed.

(** [cancel_all] cancels every registered connection and counts them. *)
Theorem cancel_all_spec m :
  let '(n, m') := cancel_all m in
  n = connection_count m /\ connections m' = connections m
  /\ (forall id c, connections m !! id = Some c -> is_cancelled (cancel_token c) m' = true)
  /\ (forall t, is_cancelled t m = true -> is_cancelled t m' = true).
Proof.
  unfold cancel_all. set (ids := map fst (map_to_list (connections m))).
  assert (forall id, id ∈ ids -> is_Some (connections m !! id)) as Hids.
  { intros id Hid. unfold ids in Hid. apply list_elem_of_fmap in Hid as ([j c] & -> & Hj).
    apply elem_of_map_to_list in Hj. by exists c. }
  destruct (cancel_conns ids m) as [n m'] eqn:E.
  pose proof (cancel_conns_frame ids m) as (_ & H1 & _).
  pose proof (cancel_conns_count ids m Hids) as Hn.
  pose proof (fun t => cancel_conns_cancelled ids m t) as Hc.
  rewrite E in *. cbn [fst snd] in *. split_and!; [|done| |].
  - rewrite Hn. unfold ids, connection_count. by rewrite length_map, length_map_to_list.
  - intros id c Hid. apply bool_decide_eq_true, Hc. right. exists id, c. split_and!; try done.
    unfold ids. apply list_elem_of_fmap. exists (id, c). split; [done|]. by apply elem_of_map_to_list.
  - intros t. unfold is_cancelled. rewrite !bool_decide_eq_true, Hc. by left.
Qed.

(** ** Interleavings

    The tasks of the server share one manager.  A task of a connection goes
    through [register]'s three atomic steps, holds its id, and through
    [unregister]'s two; a task that kicks a user holds the read guard of that
    user's entry while it visits the ids of the set in some order, and the
    guard keeps the steps that write the entry waiting.  A task in [cancel_all]
    iterates over the shards of the first map: it holds the read guard of a
    shard while it visits the entries that are in it, which keeps the steps that
    write to that shard waiting, and no guard of the other shards. *)

Inductive Thread : Type :=
  | TRegister (user : UserId) (addr : SocketAddr) (now : Z)
  | TInsert (id : ConnectionId) (token : Token) (user : UserId) (addr : SocketAddr) (now : Z)
  | TIndex (id : ConnectionId) (token : Token) (user : UserId)
  | THold (id : ConnectionId) (token : Token) (user : UserId)
  | TUnindex (id : ConnectionId) (user : UserId)
  | TKick (user : UserId) (todo : list ConnectionId)
  | TSweep (before : gset ConnectionId) (entered : nat) (todo : list ConnectionId)
  | TDone.

Abbreviation Pool := (gmap nat Thread).

Section Interleaving.
(** The shard of an entry of the first map, and how many there are: a choice of
    the [dashmap] crate. *)
Variable shard : ConnectionId -> nat.
Variable shards : nat.

(** No task holds the guard of the user's entry. *)
Definition unguarded (user : UserId) (p : Pool) : Prop :=
  forall k ids, p !! k <> Some (TKick user ids).

(** No task holds the guard of the shard of the entry: a sweep holds that of the
    shard it entered last. *)
Definition unlocked (id : ConnectionId) (p : Pool) : Prop :=
  forall k b i todo, p !! k = Some (TSweep b i todo) -> i <> S (shard id).

(** The entries of a shard. *)
Definition in_shard (i : nat) (m : ConnectionManager) : gset ConnectionId :=
  filter (fun id => shard id = i) (dom (connections m)).

(** The counter is a [u64] that no run exhausts.  [before] is what was registered
    when the sweep began. *)
Inductive step : ConnectionManager * Pool -> ConnectionManager * Pool -> Prop :=
  | step_spawn m p k user addr now :
      p !! k = None -> step (m, p) (m, <[k := TRegister user addr now]> p)
  | step_alloc m p k user addr now id token m' :
      p !! k = Some (TRegister user addr now) -> (next_conn_id m < u64_max)%Z ->
      alloc m = (id, token, m') ->
      step (m, p) (m', <[k := TInsert id token user addr now]> p)
  | step_insert m p k id token user addr now :
      p !! k = Some (TInsert id token user addr now) -> unlocked id p ->
      step (m, p)
        (insert_conn id {| info := {| user_id := user; peer_addr := addr; connected_at := now |};
                           cancel_token := token |} m,
         <[k := TIndex id token user]> p)
  | step_index m p k id token user :
      p !! k = Some (TIndex id token user) -> unguarded user p ->
      step (m, p) (index_conn user id m, <[k := THold id token user]> p)
  | step_remove m p k id token user conn m' :
      p !! k = Some (THold id token user) -> unlocked id p -> remove_conn id m = (Some conn, m') ->
      step (m, p) (m', <[k := TUnindex id (user_id (info conn))]> p)
  | step_remove_none m p k id token user m' :
      p !! k = Some (THold id token user) -> remove_conn id m = (None, m') ->
      step (m, p) (m', <[k := TDone]> p)
  | step_unindex m p k id user :
      p !! k = Some (TUnindex id user) -> unguarded user p ->
      step (m, p) (unindex_conn user id m, <[k := TDone]> p)
  | step_kick m p k user ids todo :
      p !! k = None -> user_connections m !! user = Some ids -> todo ≡ₚ elements ids ->
      step (m, p) (m, <[k := TKick user todo]> p)
  | step_kick_none m p k user :
      p !! k = None -> user_connections m !! user = None ->
      step (m, p) (m, <[k := TKick user []]> p)
  | step_cancel m p k user id todo :
      p !! k = Some (TKick user (id :: todo)) ->
      step (m, p) ((cancel_conn id m).2, <[k := TKick user todo]> p)
  | step_kicked m p k user :
      p !! k = Some (TKick user []) -> step (m, p) (m, <[k := TDone]> p)
  | step_sweep m p k :
      p !! k = None -> step (m, p) (m, <[k := TSweep (dom (connections m)) 0 []]> p)
  | step_enter m p k b i todo :
      p !! k = Some (TSweep b i []) -> i < shards -> todo ≡ₚ elements (in_shard i m) ->
      step (m, p) (m, <[k := TSweep b (S i) todo]> p)
  | step_sweep_cancel m p k b i id todo :
      p !! k = Some (TSweep b i (id :: todo)) ->
      step (m, p) ((cancel_conn id m).2, <[k := TSweep b i todo]> p)
  | step_swept m p k b :
      p !! k = Some (TSweep b shards []) -> step (m, p) (m, <[k := TDone]> p).

Inductive reachable : ConnectionManager * Pool -> Prop :=
  | reach_init : reachable (Manager_new, ∅)
  | reach_step s s' : reachable s -> step s s' -> reachable s'.

(** The id a thread allocated; the connection it has in the first map; its
    entry in the second one. *)
Definition owns (th : Thread) : option ConnectionId :=
  match th with
  | TInsert id _ _ _ _ | TIndex id _ _ | THold id _ _ | TUnindex id _ => Some id
  | _ => None
  end.

Definition has_conn (th : Thread) : option (ConnectionId * Token * UserId) :=
  match th with TIndex id t u | THold id t u => Some (id, t, u) | _ => None end.

Definition has_index (th : Thread) : option (ConnectionId * UserId) :=
  match th with THold id _ u | TUnindex id u => Some (id, u) | _ => None end.

(** What the sweep has done: every connection that was there before and is in a
    shard it entered is cancelled or still to be visited. *)
Record sweep_ok (m : ConnectionManager) (p : Pool) (b : gset ConnectionId) (i : nat) (todo : list ConnectionId) : Prop := {
  s_bound id : id ∈ b -> (id < next_conn_id m)%Z;
  s_fresh k id t u a n : p !! k = Some (TInsert id t u a n) -> id ∉ b;
  s_done k th id t u : p !! k = Some th -> has_conn th = Some (id, t, u) -> id ∈ b -> shard id < i ->
    id ∈ todo \/ t ∈ cancelled m
}.

Record inv (m : ConnectionManager) (p : Pool) : Prop := {
  i_owner k th id : p !! k = Some th -> owns th = Some id -> (id < next_conn_id m)%Z;
  i_uniq k k' th th' id : p !! k = Some th -> p !! k' = Some th' ->
    owns th = Some id -> owns th' = Some id -> k = k';
  i_conn k th id t u : p !! k = Some th -> has_conn th = Some (id, t, u) ->
    exists c, connections m !! id = Some c /\ cancel_token c = t /\ user_id (info c) = u;
  i_conn_inv id c : connections m !! id = Some c ->
    exists k th, p !! k = Some th /\ has_conn th = Some (id, cancel_token c, user_id (info c));
  i_index k th id u : p !! k = Some th -> has_index th = Some (id, u) ->
    exists ids, user_connections m !! u = Some ids /\ id ∈ ids;
  i_index_inv u ids id : user_connections m !! u = Some ids -> id ∈ ids ->
    exists k th, p !! k = Some th /\ has_index th = Some (id, u);
  i_nonempty u ids : user_connections m !! u = Some ids -> ids <> ∅;
  i_kick k u ids k' id t : p !! k = Some (TKick u ids) -> p !! k' = Some (THold id t u) ->
    id ∈ ids \/ t ∈ cancelled m;
  i_sweep k b i todo : p !! k = Some (TSweep b i todo) -> sweep_ok m p b i todo;
  i_next : (1 <= next_conn_id m <= u64_max)%Z
}.

Lemma has_conn_owns th id t u : has_conn th = Some (id, t, u) -> owns th = Some id.
Proof. destruct th; simpl; congruence. Qed.

Lemma has_index_owns th id u : has_index th = Some (id, u) -> owns th = Some id.
Proof. destruct th; simpl; congruence. Qed.

(** The pool and the manager change around a sweep. *)
Lemma sweep_ok_step m m' p k th th' b i todo :
  sweep_ok m p b i todo -> (next_conn_id m <= next_conn_id m')%Z -> cancelled m ⊆ cancelled m' ->
  (p !! k = None /\ th = TDone) \/ p !! k = Some th ->
  (forall id t u a n, th' = TInsert id t u a n -> id ∉ b) ->
  (forall id t u, has_conn th' = Some (id, t, u) -> id ∈ b -> has_conn th = Some (id, t, u)) ->
  sweep_ok m' (<[k := th']> p) b i todo.
Proof.
  intros [H1 H2 H3] Hn Hc Hk Hi Hh. split.
  - intros id Hid. specialize (H1 id Hid). lia.
  - intros j id t u a n [[<- Hx]|[_ Hj]]%lookup_insert_Some; [by eapply Hi|by eapply H2].
  - intros j x id t u [[<- <-]|[_ Hj]]%lookup_insert_Some Hx Hb Hs.
    + specialize (Hh _ _ _ Hx Hb). destruct Hk as [[_ ->]|Hk]; [done|].
      destruct (H3 _ _ _ _ _ Hk Hh Hb Hs) as [|]; [by left|right; set_solver].
    + destruct (H3 _ _ _ _ _ Hj Hx Hb Hs) as [|]; [by left|right; set_solver].
Qed.

(** A thread that appears, or moves without touching its entries. *)
Lemma inv_move m p k th th' :
  inv m p -> (p !! k = None /\ th = TDone) \/ p !! k = Some th ->
  owns th' = owns th -> has_conn th' = has_conn th -> has_index th' = has_index th ->
  (forall id t u, th' = THold id t u -> th = THold id t u) ->
  (forall u ids k' id t, th' = TKick u ids -> p !! k' = Some (THold id t u) ->
     id ∈ ids \/ t ∈ cancelled m) ->
  (forall id t u a n, th' = TInsert id t u a n -> th = TInsert id t u a n) ->
  (forall b i todo, th' = TSweep b i todo -> sweep_ok m p b i todo) ->
  inv m (<[k := th']> p).
Proof.
  intros I Hk Ho Hc Hi Hh Hkick Hins Hsw.
  assert (forall j x, <[k := th']> p !! j = Some x ->
    (j = k /\ x = th') \/ (j <> k /\ p !! j = Some x)) as Hlk.
  { intros j x [[<- <-]|[? ?]]%lookup_insert_Some; auto. }
  assert (forall id, owns th = Some id -> p !! k = Some th) as Hp.
  { intros id Hid. destruct Hk as [[_ ->]|]; [done|done]. }
  destruct I. split; try done.
  - intros j x id [[-> ->]|[Hn Hj]]%Hlk Hx; [rewrite Ho in Hx|]; eauto.
  - intros j j' x x' id [[-> ->]|[Hn Hj]]%Hlk [[-> ->]|[Hn' Hj']]%Hlk Hx Hx'; try done;
      rewrite ?Ho in *; eauto.
  - intros j x id t u [[-> ->]|[Hn Hj]]%Hlk Hx; [|by eauto]. rewrite Hc in Hx.
    eapply i_conn0; [|exact Hx]. by eapply Hp, has_conn_owns.
  - intros id c Hid. destruct (i_conn_inv0 _ _ Hid) as (j & x & Hj & Hx).
    destruct (decide (j = k)) as [->|Hn].
    + exists k, th'. rewrite lookup_insert_eq. split; [done|]. rewrite Hc.
      destruct Hk as [[Hk _]|Hk]; congruence.
    + exists j, x. by rewrite lookup_insert_ne.
  - intros j x id u [[-> ->]|[Hn Hj]]%Hlk Hx; [|by eauto]. rewrite Hi in Hx.
    eapply i_index0; [|exact Hx]. by eapply Hp, has_index_owns.
  - intros u ids id Hu Hid. destruct (i_index_inv0 _ _ _ Hu Hid) as (j & x & Hj & Hx).
    destruct (decide (j = k)) as [->|Hn].
    + exists k, th'. rewrite lookup_insert_eq. split; [done|]. rewrite Hi.
      destruct Hk as [[Hk _]|Hk]; congruence.
    + exists j, x. by rewrite lookup_insert_ne.
  - intros j u ids j' id t [[-> He]|[Hn Hj]]%Hlk [[-> He']|[Hn' Hj']]%Hlk.
    + congruence.
    + eauto.
    + symmetry in He'. apply Hh in He' as ->. eapply i_kick0; [done|].
      by eapply Hp.
    + eauto.
  - intros j b i todo Hj. assert (sweep_ok m p b i todo) as Hs
      by (apply Hlk in Hj as [[_ He]|[_ Hj]]; [by apply Hsw|by eapply i_sweep0]).
    apply (sweep_ok_step m m p k th); [done|lia|done|done| |].
    + intros id t u a n He. pose proof (Hins _ _ _ _ _ He) as Hth. destruct Hk as [[_ ?]|Hk]; [congruence|].
      rewrite Hth in Hk. by eapply (s_fresh _ _ _ _ _ Hs).
    + intros id t u Hx _. congruence.
Qed.

Ltac pool_cases :=
  repeat match goal with
  | H : <[_ := _]> _ !! _ = Some _ |- _ => apply lookup_insert_Some in H as [[? ?]|[? ?]]
  end; simplify_eq/=.

(** [k <> j] is among the hypotheses. *)
Ltac pool_other k j := match goal with Hn : k <> j |- _ => apply Hn end.

Ltac pool_same j x := exists j, x; rewrite lookup_insert_ne by congruence; done.

Lemma inv_alloc m p k user addr now id token m' :
  inv m p -> p !! k = Some (TRegister user addr now) -> (next_conn_id m < u64_max)%Z ->
  alloc m = (id, token, m') -> inv m' (<[k := TInsert id token user addr now]> p).
Proof.
  intros I Hk Hlt [= <- <- <-]. pose proof (i_owner m p I) as Hown. destruct I.
  split; cbn [next_conn_id connections user_connections cancelled];
    rewrite ?u64_wrap_small by (unfold is_u64, u64_max in *; lia).
  - intros j x i Hj Hx. pool_cases; [lia|]. eapply Hown in Hx; [|eassumption]. lia.
  - intros j j' x x' i Hj Hj' Hx Hx'. pool_cases; try done; [|..|by eauto].
    + eapply Hown in Hx; [|eassumption]. lia.
    + eapply Hown in Hx'; [|eassumption]. lia.
  - intros j x i t u Hj Hx. pool_cases. eauto.
  - intros i c Hi. destruct (i_conn_inv0 _ _ Hi) as (j & x & Hj & Hx).
    assert (k <> j) by (intros ->; rewrite Hk in Hj; by simplify_eq/=). pool_same j x.
  - intros j x i u Hj Hx. pool_cases. eauto.
  - intros u ids i Hu Hi. destruct (i_index_inv0 _ _ _ Hu Hi) as (j & x & Hj & Hx).
    assert (k <> j) by (intros ->; rewrite Hk in Hj; by simplify_eq/=). pool_same j x.
  - done.
  - intros j u ids j' i t Hj Hj'. pool_cases. eauto.
  - intros j b i todo Hj. pool_cases. eapply sweep_ok_step; [by eauto|simpl; lia|done|by right| |done].
    intros i' t u a n [= <- <- <- <- <-] Hb. eapply (s_bound _ _ _ _ _ (i_sweep0 _ _ _ _ ltac:(eassumption))) in Hb. lia.
  - lia.
Qed.

Lemma inv_insert m p k id token user addr now :
  inv m p -> p !! k = Some (TInsert id token user addr now) ->
  inv (insert_conn id {| info := {| user_id := user; peer_addr := addr; connected_at := now |};
                         cancel_token := token |} m)
      (<[k := TIndex id token user]> p).
Proof.
  intros I Hk. destruct I. split; cbn [insert_conn with_connections next_conn_id connections user_connections cancelled]; try done.
  - intros j x i Hj Hx. pool_cases; [by eapply (i_owner0 _ _ _ Hk)|by eauto].
  - intros j j' x x' i Hj Hj' Hx Hx'. pool_cases; try done; [|..|by eauto].
    + by eapply i_uniq0; [eassumption|eassumption|..].
    + by eapply i_uniq0; [eassumption|eassumption|..].
  - intros j x i t u Hj Hx. pool_cases.
    + eexists. by rewrite lookup_insert_eq.
    + assert (i <> id).
      { intros ->. pool_other k j. eapply (i_uniq0 k j _ _ id Hk); [done|done|]. by eapply has_conn_owns. }
      rewrite lookup_insert_ne by done. eauto.
  - intros i c Hi. apply lookup_insert_Some in Hi as [[<- <-]|[Hne Hi]].
    + exists k, (TIndex id token user). by rewrite lookup_insert_eq.
    + destruct (i_conn_inv0 _ _ Hi) as (j & x & Hj & Hx).
      assert (k <> j) by (intros ->; rewrite Hk in Hj; by simplify_eq/=). pool_same j x.
  - intros j x i u Hj Hx. pool_cases. eauto.
  - intros u ids i Hu Hi. destruct (i_index_inv0 _ _ _ Hu Hi) as (j & x & Hj & Hx).
    assert (k <> j) by (intros ->; rewrite Hk in Hj; by simplify_eq/=). pool_same j x.
  - intros j u ids j' i t Hj Hj'. pool_cases. eauto.
  - intros j b i todo Hj. pool_cases. pose proof (i_sweep0 _ _ _ _ ltac:(eassumption)) as Hs.
    eapply sweep_ok_step; [exact Hs|done|done|by right|done|].
    intros i' t u [= <- <- <-] Hb. by destruct (s_fresh _ _ _ _ _ Hs _ _ _ _ _ _ Hk).
Qed.

Lemma inv_index m p k id token user :
  inv m p -> p !! k = Some (TIndex id token user) -> unguarded user p ->
  inv (index_conn user id m) (<[k := THold id token user]> p).
Proof.
  intros I Hk Hg. destruct I. split; cbn [index_conn with_users next_conn_id connections user_connections cancelled]; try done.
  - intros j x i Hj Hx. pool_cases; [by eapply (i_owner0 _ _ _ Hk)|by eauto].
  - intros j j' x x' i Hj Hj' Hx Hx'. pool_cases; try done; [|..|by eauto].
    + by eapply i_uniq0; [eassumption|eassumption|..].
    + by eapply i_uniq0; [eassumption|eassumption|..].
  - intros j x i t u Hj Hx. pool_cases; [by eapply (i_conn0 _ _ _ _ _ Hk)|by eauto].
  - intros i c Hi. destruct (i_conn_inv0 _ _ Hi) as (j & x & Hj & Hx).
    destruct (decide (k = j)) as [<-|]; [|by pool_same j x].
    rewrite Hk in Hj. simplify_eq/=. eexists k, _. by rewrite lookup_insert_eq.
  - intros j x i u Hj Hx. pool_cases.
    + eexists. rewrite lookup_insert_eq. split; [done|set_solver].
    + destruct (i_index0 _ _ _ _ ltac:(eassumption) Hx) as (ids & Hu & Hin).
      destruct (decide (u = user)) as [->|].
      * eexists. rewrite lookup_insert_eq, Hu. split; [done|set_solver].
      * exists ids. by rewrite lookup_insert_ne.
  - intros u ids i Hu Hi.
    assert ((u = user /\ i = id) \/ exists ids0, user_connections m !! u = Some ids0 /\ i ∈ ids0) as Hcase.
    { apply lookup_insert_Some in Hu as [[<- <-]|[Hne Hu]]; [|by eauto].
      apply elem_of_union in Hi as [->%elem_of_singleton|Hi]; [by left|right].
      destruct (user_connections m !! user) as [ids0|]; simpl in Hi; [by eauto|set_solver]. }
    destruct Hcase as [[-> ->]|(ids0 & Hu0 & Hi0)].
    + exists k, (THold id token user). by rewrite lookup_insert_eq.
    + destruct (i_index_inv0 _ _ _ Hu0 Hi0) as (j & x & Hj & Hx).
      assert (k <> j) by (intros ->; rewrite Hk in Hj; by simplify_eq/=). pool_same j x.
  - intros u ids [[<- <-]|[Hne Hu]]%lookup_insert_Some; [set_solver|by eauto].
  - intros j u ids j' i t Hj Hj'. pool_cases; [|by eauto]. by destruct (Hg j ids).
  - intros j b i todo Hj. pool_cases. by eapply sweep_ok_step; [eauto|done|done|right|done|].
Qed.

Lemma inv_remove m p k id token user conn m' :
  inv m p -> p !! k = Some (THold id token user) -> remove_conn id m = (Some conn, m') ->
  inv m' (<[k := TUnindex id (user_id (info conn))]> p).
Proof.
  intros I Hk. unfold remove_conn. intros [= Hc <-]. destruct I.
  destruct (i_conn0 _ _ id token user Hk eq_refl) as (c & Hc' & Ht & Hu).
  assert (c = conn) as -> by congruence. rewrite Hu.
  split; cbn [with_connections next_conn_id connections user_connections cancelled]; try done.
  - intros j x i Hj Hx. pool_cases; [by eapply (i_owner0 _ _ _ Hk)|by eauto].
  - intros j j' x x' i Hj Hj' Hx Hx'. pool_cases; try done; [|..|by eauto].
    + by eapply i_uniq0; [eassumption|eassumption|..].
    + by eapply i_uniq0; [eassumption|eassumption|..].
  - intros j x i t u Hj Hx. pool_cases.
    assert (i <> id).
    { intros ->. pool_other k j. eapply (i_uniq0 k j _ _ id Hk); [done|done|]. by eapply has_conn_owns. }
    rewrite lookup_delete_ne by done. eauto.
  - intros i c [Hne Hi]%lookup_delete_Some. destruct (i_conn_inv0 _ _ Hi) as (j & x & Hj & Hx).
    assert (k <> j) by (intros ->; rewrite Hk in Hj; by simplify_eq/=). pool_same j x.
  - intros j x i u Hj Hx. pool_cases; [by eapply (i_index0 _ _ _ _ Hk)|by eauto].
  - intros u ids i Hi Hin. destruct (i_index_inv0 _ _ _ Hi Hin) as (j & x & Hj & Hx).
    destruct (decide (k = j)) as [<-|]; [|by pool_same j x].
    rewrite Hk in Hj. simplify_eq/=. eexists k, _. by rewrite lookup_insert_eq.
  - intros j u ids j' i t Hj Hj'. pool_cases. eauto.
  - intros j b i todo Hj. pool_cases. by eapply sweep_ok_step; [eauto|done|done|right|done|].
Qed.

Lemma inv_unindex m p k id user :
  inv m p -> p !! k = Some (TUnindex id user) -> unguarded user p ->
  inv (unindex_conn user id m) (<[k := TDone]> p).
Proof.
  intros I Hk Hg. destruct I.
  destruct (i_index0 _ _ id user Hk eq_refl) as (ids & Hu & Hin).
  assert (forall u ids', user_connections (unindex_conn user id m) !! u = Some ids' ->
    ids' <> ∅ /\ exists ids0, user_connections m !! u = Some ids0
      /\ forall i, i ∈ ids' -> i ∈ ids0 /\ (u, i) <> (user, id)) as Hback.
  { intros u ids'. unfold unindex_conn. rewrite Hu. case_bool_decide as Hemp; simpl.
    - intros [Hne H]%lookup_delete_Some. split; [by eauto|]. exists ids'. split; [done|].
      intros i Hi. split; [done|congruence].
    - intros [[<- <-]|[Hne H]]%lookup_insert_Some; (split; [by eauto|]); eexists; (split; [done|]);
        intros i Hi; (split; [set_solver|]); [|congruence]. intros [= ->]. set_solver. }
  assert (forall u i, (exists ids0, user_connections m !! u = Some ids0 /\ i ∈ ids0) -> i <> id ->
    exists ids', user_connections (unindex_conn user id m) !! u = Some ids' /\ i ∈ ids') as Hfwd.
  { intros u i (ids0 & H0 & Hi) Hne. unfold unindex_conn. rewrite Hu. simpl.
    destruct (decide (u = user)) as [->|Hnu].
    - assert (ids0 = ids) as -> by congruence. rewrite bool_decide_eq_false_2 by set_solver.
      eexists. rewrite lookup_insert_eq. split; [done|set_solver].
    - exists ids0. case_bool_decide; [by rewrite lookup_delete_ne|by rewrite lookup_insert_ne]. }
  assert (next_conn_id (unindex_conn user id m) = next_conn_id m
    /\ connections (unindex_conn user id m) = connections m
    /\ cancelled (unindex_conn user id m) = cancelled m) as (E1 & E2 & E3)
    by (unfold unindex_conn; by rewrite Hu).
  split; rewrite ?E1, ?E2, ?E3; try done.
  - intros j x i Hj Hx. pool_cases. eauto.
  - intros j j' x x' i Hj Hj' Hx Hx'. pool_cases. eauto.
  - intros j x i t u Hj Hx. pool_cases. eauto.
  - intros i c Hi. destruct (i_conn_inv0 _ _ Hi) as (j & x & Hj & Hx).
    assert (k <> j) by (intros ->; rewrite Hk in Hj; by simplify_eq/=). pool_same j x.
  - intros j x i u Hj Hx. pool_cases. apply Hfwd; [by eauto|]. intros ->. pool_other k j.
    eapply (i_uniq0 k j _ _ id Hk); [done|done|]. by eapply has_index_owns.
  - intros u ids' i Hi Hin'. destruct (Hback _ _ Hi) as (_ & ids0 & H0 & Hsub).
    destruct (Hsub _ Hin') as [Hin0 Hne]. destruct (i_index_inv0 _ _ _ H0 Hin0) as (j & x & Hj & Hx).
    assert (k <> j) by (intros ->; rewrite Hk in Hj; by simplify_eq/=). pool_same j x.
  - intros u ids' Hi. by apply (Hback _ _ Hi).
  - intros j u ids' j' i t Hj Hj'. pool_cases. eauto.
  - intros j b i todo Hj. pool_cases. eapply sweep_ok_step; [eauto|by rewrite E1|by rewrite E3|by right|done|done].
Qed.

Lemma cancel_conn_frame id m :
  next_conn_id (cancel_conn id m).2 = next_conn_id m
  /\ connections (cancel_conn id m).2 = connections m
  /\ user_connections (cancel_conn id m).2 = user_connections m
  /\ forall t, t ∈ cancelled (cancel_conn id m).2 <-> t ∈ cancelled m
     \/ exists c, connections m !! id = Some c /\ cancel_token c = t.
Proof.
  unfold cancel_conn. destruct (connections m !! id) as [c|]; simpl; split_and!; try done.
  - intros t. rewrite elem_of_union, elem_of_singleton. split.
    + intros [->|]; [right; by exists c|by left].
    + intros [|(c' & Hc & <-)]; [by right|left; congruence].
  - intros t. split; [by left|]. intros [|(c' & Hc & _)]; [done|congruence].
Qed.

(** Cancelling disturbs nobody. *)
Lemma inv_cancel m p id : inv m p -> inv (cancel_conn id m).2 p.
Proof.
  destruct (cancel_conn_frame id m) as (E1 & E2 & E3 & E4). intros []. split; rewrite ?E1, ?E2, ?E3; try done.
  - intros k u ids k' i t Hk Hk'. rewrite E4. destruct (i_kick0 _ _ _ _ _ _ Hk Hk'); auto.
  - intros k b i todo Hk. destruct (i_sweep0 _ _ _ _ Hk) as [H1 H2 H3]. split; [by rewrite E1|done|].
    intros k' th j t u Hk' Hx Hb Hs. rewrite E4. destruct (H3 _ _ _ _ _ Hk' Hx Hb Hs); auto.
Qed.

(** The connection of a thread is cancelled once its id was visited. *)
Lemma cancel_conn_hits m p k th id t u :
  inv m p -> p !! k = Some th -> has_conn th = Some (id, t, u) -> t ∈ cancelled (cancel_conn id m).2.
Proof.
  intros I Hk Hx. destruct (i_conn _ _ I _ _ _ _ _ Hk Hx) as (c & Hc & Ht & _).
  apply cancel_conn_frame. right. by exists c.
Qed.

Lemma inv_kick_cancel m p k user id todo :
  inv m p -> p !! k = Some (TKick user (id :: todo)) ->
  inv (cancel_conn id m).2 (<[k := TKick user todo]> p).
Proof.
  intros I Hk. pose proof (inv_cancel m p id I) as I'.
  eapply inv_move; [exact I'|right; exact Hk|done..| |done|done].
  intros u ids k' i t [= <- <-] Hk'.
  destruct (i_kick _ _ I' _ _ _ _ _ _ Hk Hk') as [[->|Hin]%elem_of_cons|]; [right|by left|by right].
  by apply (cancel_conn_hits m p k' (THold id t user) id t user I).
Qed.

Lemma inv_sweep m p k : inv m p -> p !! k = None -> inv m (<[k := TSweep (dom (connections m)) 0 []]> p).
Proof.
  intros I Hk. eapply inv_move; [exact I|left; split; [exact Hk|done]|done..|]. intros b i todo [= <- <- <-].
  assert (forall id, id ∈ dom (connections m) -> exists k th t u, p !! k = Some th /\ has_conn th = Some (id, t, u)) as Hdom.
  { intros id [c Hc]%elem_of_dom. destruct (i_conn_inv _ _ I _ _ Hc) as (j & x & Hj & Hx). by eexists _, _, _, _. }
  split; [| |lia].
  - intros id (j & x & t & u & Hj & Hx)%Hdom. eapply i_owner; [exact I|exact Hj|by eapply has_conn_owns].
  - intros j id t u a n Hj (j' & x & t' & u' & Hj' & Hx)%Hdom.
    assert (j = j') as <- by (eapply (i_uniq _ _ I _ _ _ _ id Hj Hj'); [done|by eapply has_conn_owns]).
    rewrite Hj in Hj'. by injection Hj' as <-.
Qed.

Lemma inv_enter m p k b i todo :
  inv m p -> p !! k = Some (TSweep b i []) -> todo ≡ₚ elements (in_shard i m) ->
  inv m (<[k := TSweep b (S i) todo]> p).
Proof.
  intros I Hk Ht. eapply inv_move; [exact I|right; exact Hk|done..|]. intros b' i' todo' [= <- <- <-].
  destruct (i_sweep _ _ I _ _ _ _ Hk) as [H1 H2 H3]. split; [done|done|].
  intros j th id t u Hj Hx Hb Hs. destruct (decide (shard id = i)) as [Hi|].
  - left. rewrite Ht. apply elem_of_elements, elem_of_filter. split; [done|].
    destruct (i_conn _ _ I _ _ _ _ _ Hj Hx) as (c & Hc & _). by apply elem_of_dom_2 in Hc.
  - destruct (H3 _ _ _ _ _ Hj Hx Hb ltac:(lia)) as [?%elem_of_nil|]; [done|by right].
Qed.

Lemma inv_sweep_cancel m p k b i id todo :
  inv m p -> p !! k = Some (TSweep b i (id :: todo)) ->
  inv (cancel_conn id m).2 (<[k := TSweep b i todo]> p).
Proof.
  intros I Hk. pose proof (inv_cancel m p id I) as I'.
  eapply inv_move; [exact I'|right; exact Hk|done..|]. intros b' i' todo' [= <- <- <-].
  destruct (i_sweep _ _ I' _ _ _ _ Hk) as [H1 H2 H3]. split; [done|done|].
  intros j th x t u Hj Hx Hb Hs.
  destruct (H3 _ _ _ _ _ Hj Hx Hb Hs) as [[->|Hin]%elem_of_cons|]; [right|by left|by right].
  by eapply cancel_conn_hits.
Qed.

Lemma step_inv s s' : step s s' -> inv s.1 s.2 -> inv s'.1 s'.2.
Proof.
  intros H I. destruct H as [| | | | |m p k id token user m' Hk Hr| |m p k user ids todo Hk Hu Hperm
    |m p k user Hk Hu| | | | | |]; cbn [fst snd] in *.
  - eapply inv_move; [done|by left|done..].
  - by eapply inv_alloc.
  - by apply inv_insert.
  - by apply inv_index.
  - by eapply inv_remove.
  - exfalso. destruct (i_conn _ _ I _ _ id token user Hk eq_refl) as (c & Hc & _).
    unfold remove_conn in Hr. congruence.
  - by apply inv_unindex.
  - eapply inv_move; [done|by left|done..| |done|done]. intros u ids' k' id t [= <- <-] Hk'. left.
    destruct (i_index _ _ I _ _ id user Hk' eq_refl) as (ids0 & Hu' & Hin).
    rewrite Hperm. apply elem_of_elements. congruence.
  - eapply inv_move; [done|by left|done..| |done|done]. intros u ids' k' id t [= <- <-] Hk'.
    destruct (i_index _ _ I _ _ id user Hk' eq_refl) as (ids0 & Hu' & Hin). congruence.
  - by apply inv_kick_cancel.
  - eapply inv_move; [done|right; eassumption|done..].
  - by apply inv_sweep.
  - by apply inv_enter.
  - by apply inv_sweep_cancel.
  - eapply inv_move; [done|right; eassumption|done..].
Qed.

Lemma reachable_inv s : reachable s -> inv s.1 s.2.
Proof.
  induction 1 as [|s s' _ IH Hs]; [|by eapply step_inv].
  split; simpl; try by (intros; rewrite lookup_empty in *; done).
  unfold u64_max. lia.
Qed.

(** C13: when a task's [kick_user] returns, every connection of that user whose
    [register] had returned by then and whose [unregister] has not begun is
    cancelled, whatever the other tasks did meanwhile. *)
Theorem kick_user_concurrent m p k user k' id token :
  reachable (m, p) -> p !! k = Some (TKick user []) -> p !! k' = Some (THold id token user) ->
  token ∈ cancelled m.
Proof.
  intros H%reachable_inv Hk Hk'. destruct (i_kick _ _ H _ _ _ _ _ _ Hk Hk') as [Hin|]; [|done].
  by apply elem_of_nil in Hin.
Qed.

(** C27: when a task's [cancel_all] returns, every connection that was registered
    when it began and still is, is cancelled, whatever the other tasks did
    meanwhile and however the entries are spread over the shards. *)
Theorem cancel_all_concurrent m p k before k' th id token user :
  (forall id, shard id < shards) ->
  reachable (m, p) -> p !! k = Some (TSweep before shards []) ->
  p !! k' = Some th -> has_conn th = Some (id, token, user) -> id ∈ before ->
  token ∈ cancelled m.
Proof.
  intros Hs H%reachable_inv Hk Hk' Hx Hb.
  destruct (s_done _ _ _ _ _ (i_sweep _ _ H _ _ _ _ Hk) _ _ _ _ _ Hk' Hx Hb (Hs id)) as [Hin|]; [|done].
  by apply elem_of_nil in Hin.
Qed.

(** C14: nothing leaks: once no task is between its [register] and the end of
    its [unregister], both maps are empty. *)
Theorem manager_no_leak m p :
  reachable (m, p) -> (forall k th, p !! k = Some th -> owns th = None) ->
  connection_count m = 0 /\ user_count m = 0.
Proof.
  intros H%reachable_inv Hp. cbn [fst snd] in H. unfold connection_count, user_count.
  assert (forall id, connections m !! id = None) as Hc.
  { intros id. destruct (connections m !! id) as [c|] eqn:E; [|done].
    destruct (i_conn_inv _ _ H _ _ E) as (k & th & Hk & Hth). apply has_conn_owns in Hth.
    by rewrite (Hp _ _ Hk) in Hth. }
  assert (forall u, user_connections m !! u = None) as Hu.
  { intros u. destruct (user_connections m !! u) as [ids|] eqn:E; [|done].
    destruct (set_choose_L ids (i_nonempty _ _ H _ _ E)) as [id Hid].
    destruct (i_index_inv _ _ H _ _ _ E Hid) as (k & th & Hk & Hth). apply has_index_owns in Hth.
    by rewrite (Hp _ _ Hk) in Hth. }
  split; apply map_size_empty_iff; apply map_eq; intros; by rewrite lookup_empty.
Qed.

End Interleaving.

(** ** Witnesses *)

Definition addr0 : SocketAddr := SocketAddr_new (V4 (IPv4addr 127 0 0 1)) 1234.
Definition conn0 : ActiveConnection :=
  {| info := {| user_id := 7; peer_addr := addr0; connected_at := 0 |}; cancel_token := 0 |}.

(** A map of four shards. *)
Definition ex_shard (id : ConnectionId) : nat := Z.to_nat (id mod 4).

(** A connection of user 7 that has not reached [user_connections]. *)
Definition m_insert : ConnectionManager := insert_conn 1 conn0 (alloc Manager_new).2.
Definition p_insert : Pool := {[0 := TIndex 1 0 7]}.

Lemma reach_insert : reachable ex_shard 4 (m_insert, <[0 := TIndex 1 0 7]>
  (<[0 := TInsert 1 0 7 addr0 0]> (<[0 := TRegister 7 addr0 0]> ∅))).
Proof.
  eapply reach_step; [|apply step_insert; [apply lookup_insert_eq|]].
  2: { intros [|k] b i todo; [by rewrite lookup_insert_eq|]. by rewrite !lookup_insert_ne, lookup_empty by done. }
  eapply reach_step; [|eapply (step_alloc _ _ Manager_new); [apply lookup_insert_eq|reflexivity|reflexivity]].
  eapply reach_step; [apply reach_init|apply step_spawn; apply lookup_empty].
Qed.

(** A task that kicks user 7, after that connection was indexed. *)
Definition m_hold : ConnectionManager := index_conn 7 1 m_insert.
Definition p_hold : Pool :=
  <[0 := THold 1 0 7]> (<[0 := TIndex 1 0 7]>
    (<[0 := TInsert 1 0 7 addr0 0]> (<[0 := TRegister 7 addr0 0]> ∅))).

Lemma reach_hold : reachable ex_shard 4 (m_hold, p_hold).
Proof.
  eapply reach_step; [apply reach_insert|]. apply step_index; [apply lookup_insert_eq|].
  intros k ids. destruct k as [|k]; [by rewrite lookup_insert_eq|].
  rewrite !lookup_insert_ne, lookup_empty by done. done.
Qed.

Definition m_kick : ConnectionManager := (cancel_conn 1 m_hold).2.
Definition p_kick : Pool := <[1 := TKick 7 []]> (<[1 := TKick 7 [1%Z]]> p_hold).

Lemma reach_kick : reachable ex_shard 4 (m_kick, p_kick).
Proof.
  eapply reach_step; [|eapply step_cancel; apply lookup_insert_eq].
  eapply reach_step; [apply reach_hold|]. eapply step_kick; [reflexivity|reflexivity|].
  vm_compute. reflexivity.
Qed.

Lemma kick_user_concurrent_witness : 0 ∈ cancelled m_kick.
Proof.
  apply (kick_user_concurrent ex_shard 4 m_kick p_kick 1 7 0 1 0 reach_kick); reflexivity.
Defined.

(** A sweep that began after that connection was registered, at its end. *)
Definition p_sweep (i : nat) (todo : list ConnectionId) (p : Pool) : Pool := <[1 := TSweep {[1%Z]} i todo]> p.
Definition p_swept : Pool :=
  p_sweep 4 [] (p_sweep 3 [] (p_sweep 2 [] (p_sweep 2 [1%Z] (p_sweep 1 [] (p_sweep 0 [] p_hold))))).

Lemma reach_swept : reachable ex_shard 4 (m_kick, p_swept).
Proof.
  unfold p_swept.
  do 2 (eapply reach_step; [|eapply step_enter; [apply lookup_insert_eq|lia|vm_compute; reflexivity]]).
  eapply reach_step; [|eapply step_sweep_cancel; apply lookup_insert_eq].
  do 2 (eapply reach_step; [|eapply step_enter; [apply lookup_insert_eq|lia|vm_compute; reflexivity]]).
  eapply reach_step; [apply reach_hold|]. by apply (step_sweep ex_shard 4 m_hold p_hold 1).
Qed.

Lemma cancel_all_concurrent_witness : 0 ∈ cancelled m_kick.
Proof.
  apply (cancel_all_concurrent ex_shard 4 m_kick p_swept 1 {[1%Z]} 0 (THold 1 0 7) 1 0 7).
  - intros id. unfold ex_shard. pose proof (Z.mod_pos_bound id 4). lia.
  - exact reach_swept.
  - reflexivity.
  - reflexivity.
  - reflexivity.
  - by apply elem_of_singleton.
Defined.

(** Both tasks at their ends: the kick returns, then the connection is taken out
    of the first map and out of the second. *)
Definition m_removed : ConnectionManager := (remove_conn 1 m_kick).2.
Definition m_gone : ConnectionManager := unindex_conn 7 1 m_removed.
Definition p_kicked : Pool := <[1 := TDone]> p_kick.
Definition p_removed : Pool := <[0 := TUnindex 1 7]> p_kicked.
Definition p_gone : Pool := <[0 := TDone]> p_removed.

Lemma p_gone_done k th : p_gone !! k = Some th -> th = TDone.
Proof.
  destruct k as [|[|k]]; [by intros [= <-]|by intros [= <-]|].
  unfold p_gone, p_removed, p_kicked, p_kick, p_hold. by rewrite !lookup_insert_ne, lookup_empty by done.
Qed.

Lemma p_removed_free k th : p_removed !! k = Some th -> th = TDone \/ th = TUnindex 1 7.
Proof.
  destruct k as [|k]; [intros [= <-]; by right|]. intros H. left. apply (p_gone_done (S k)).
  unfold p_gone. by rewrite lookup_insert_ne.
Qed.

Lemma p_kicked_free k th : p_kicked !! k = Some th -> th = TDone \/ th = THold 1 0 7.
Proof.
  destruct k as [|k]; [intros [= <-]; by right|]. intros H. left. apply (p_gone_done (S k)).
  unfold p_gone, p_removed. by rewrite !lookup_insert_ne.
Qed.

Lemma reach_gone : reachable ex_shard 4 (m_gone, p_gone).
Proof.
  eapply reach_step; [|apply step_unindex; [apply lookup_insert_eq|]].
  2: { intros k ids H. by destruct (p_removed_free _ _ H). }
  eapply reach_step; [|apply (step_remove _ _ m_kick p_kicked 0 1 0 7 conn0); [reflexivity| |reflexivity]].
  2: { intros k b i todo H. by destruct (p_kicked_free _ _ H). }
  eapply reach_step; [apply reach_kick|]. eapply step_kicked. apply lookup_insert_eq.
Qed.

(** The connection that was registered, kicked and unregistered is gone. *)
Lemma manager_no_leak_witness :
  (connection_count m_kick = 1 /\ user_count m_kick = 1)
  /\ connection_count m_gone = 0 /\ user_count m_gone = 0.
Proof.
  split; [by vm_compute|]. apply (manager_no_leak ex_shard 4 m_gone p_gone reach_gone).
  intros k th H. by rewrite (p_gone_done _ _ H).
Defined.

(** The guarantee does not reach a connection between the two inserts of
    its [register]: a kick that runs there finds no entry for the user, and the
    connection goes on uncancelled after both have returned. *)
Theorem kick_misses_pending_register :
  exists m p m' p', reachable ex_shard 4 (m, p)
    /\ p !! 0 = Some (TIndex 1 0 7) /\ p !! 1 = Some (TKick 7 [])
    /\ rtc (step ex_shard 4) (m, p) (m', p')
    /\ p' !! 0 = Some (THold 1 0 7) /\ p' !! 1 = Some TDone
    /\ connections m' !! 1%Z = Some conn0 /\ is_cancelled 0 m' = false.
Proof.
  set (p0 := <[0 := TIndex 1 0 7]> (<[0 := TInsert 1 0 7 addr0 0]> (<[0 := TRegister 7 addr0 0]> ∅))
    : Pool).
  exists m_insert, (<[1 := TKick 7 []]> p0), (index_conn 7 1 m_insert),
    (<[0 := THold 1 0 7]> (<[1 := TDone]> (<[1 := TKick 7 []]> p0))).
  split_and!; try reflexivity.
  - eapply reach_step; [apply reach_insert|]. by apply step_kick_none.
  - eapply rtc_l; [by eapply step_kicked; apply lookup_insert_eq|].
    apply rtc_once. eapply step_index; [reflexivity|].
    intros [|[|k]] ids; try by vm_compute.
    unfold p0. by rewrite !lookup_insert_ne, lookup_empty by done.
Qed.

Definition two_users : ConnectionManager :=
  run_ops [Register 7 addr0 0; Register 8 addr0 0; Register 7 addr0 1] Manager_new.

Lemma run_ops_wf_witness : manager_wf two_users.
Proof. apply run_ops_wf. unfold u64_max. simpl. lia. Defined.

Lemma two_users_wf : manager_wf two_users.
Proof. apply run_ops_wf_from; [apply Manager_new_wf|]. unfold u64_max. simpl. lia. Qed.

Lemma register_unregister_witness :
  let '((id, token), m1) := register 9 addr0 5 two_users in
  connections two_users !! id = None
  /\ connections m1 !! id = Some {|
       info := {| user_id := 9; peer_addr := addr0; connected_at := 5 |};
       cancel_token := token |}
  /\ is_cancelled token m1 = false
  /\ connection_count m1 = S (connection_count two_users)
  /\ connections (unregister id m1) = connections two_users
  /\ user_connections (unregister id m1) = user_connections two_users.
Proof.
  apply (register_unregister 9 addr0 5 two_users two_users_wf). vm_compute. reflexivity.
Defined.

