(* ===== verification/Address.v ===== *)
(** * [src/core/address.rs]: network addresses *)

From S2P Require Import Prelude RustStr RustNet.
Open Scope Z_scope.

Inductive Address : Type :=
  | IPv4 (ip : bytes) (port : Z)
  | IPv6 (ip : bytes) (port : Z)
  | Domain (domain : rstr) (port : Z).

#[export] Instance Address_eq_dec : EqDecision Address.
Proof. solve_decision. Defined.

(** The types of the fields: [[u8; 4]], [[u8; 16]], [String] and [u16]. *)
Definition address_wf (a : Address) : Prop :=
  match a with
  | IPv4 ip port => length ip = 4%nat /\ Forall is_u8 ip /\ is_u16 port
  | IPv6 ip port => v6_wf ip /\ is_u16 port
  | Domain _ port => is_u16 port
  end.

(** [Display]. *)
Definition Address_fmt (a : Address) : rstr :=
  match a with
  | IPv4 ip port => show_ipv4 (v4_of_octets ip) ++ str ":" ++ show_dec port
  | IPv6 ip port => str "[" ++ show_ipv6 ip ++ str "]:" ++ show_dec port
  | Domain domain port => domain ++ str ":" ++ show_dec port
  end.

Definition from_authority (authority : rstr) : option Address :=
  if starts_with (str "[") authority then
    close ← find_byte 93 authority;
    let host := drop 1 (take close authority) in
    let rest := drop (S close) authority in
    port_str ← trim <$> strip_prefix (str ":") rest;
    port ← parse_u16 port_str;
    ipv6 ← parse_ipv6 host;
    Some (IPv6 ipv6 port)
  else
    colon ← rfind_byte 58 authority;
    let host := take colon authority in
    let port_str := drop (S colon) authority in
    port ← parse_u16 port_str;
    match parse_ipv4 host with
    | Some ipv4 => Some (IPv4 (v4_octets ipv4) port)
    | None => Some (Domain host port)
    end.

Definition port (a : Address) : Z :=
  match a with IPv4 _ p | IPv6 _ p | Domain _ p => p end.

Definition host (a : Address) : rstr :=
  match a with
  | IPv4 ip _ => show_ipv4 (v4_of_octets ip)
  | IPv6 ip _ => show_ipv6 ip
  | Domain domain _ => domain
  end.

(** ** Lemmas *)

Lemma v4_of_octets_wf ip : length ip = 4%nat -> Forall is_u8 ip ->
  v4_wf (v4_of_octets ip) /\ v4_octets (v4_of_octets ip) = ip.
Proof.
  destruct ip as [|a [|b [|c [|d [|]]]]]; try done. intros _ H.
  rewrite !Forall_cons in H. destruct H as (? & ? & ? & ? & _). done.
Qed.

Lemma show_port_chars p : is_u16 p -> Forall (fun b => 48 <= b <= 57) (show_dec p).
Proof. intros. by apply show_dec_chars, is_u16_u64. Qed.

Lemma parse_u16_show p : is_u16 p -> parse_u16 (show_dec p) = Some p.
Proof. intros H. apply parse_uint_show; [done|by apply is_u16_u64]. Qed.

Lemma rfind_colon_port s p :
  is_u16 p -> rfind_byte 58 (s ++ 58 :: show_dec p) = Some (length s).
Proof.
  intros Hp. apply rfind_byte_app. eapply Forall_impl; [by apply show_port_chars|]. simpl. lia.
Qed.

(** The general branch, on the text of a host and a port. *)
Lemma from_authority_host h p :
  starts_with (str "[") (h ++ 58 :: show_dec p) = false -> is_u16 p ->
  from_authority (h ++ 58 :: show_dec p) = Some
    match parse_ipv4 h with Some ip => IPv4 (v4_octets ip) p | None => Domain h p end.
Proof.
  intros Hb Hp. unfold from_authority. rewrite Hb, rfind_colon_port by done. simpl.
  rewrite take_app_length, drop_app_ge by lia. replace (S (length h) - length h)%nat with 1%nat by lia.
  simpl. rewrite drop_0, parse_u16_show by done. simpl. by destruct (parse_ipv4 h).
Qed.

Lemma show_dec_head z r : is_u64 z -> exists b s, show_dec z ++ r = b :: s /\ 48 <= b <= 57.
Proof.
  intros Hz. pose proof (show_dec_chars z Hz) as Hc.
  destruct (show_dec z) as [|b s] eqn:E; [by apply (show_radix_nonempty 10 z) in E|].
  apply Forall_cons in Hc as [Hb _]. by exists b, (s ++ r).
Qed.

Lemma show_ipv4_head ip r : v4_wf ip -> exists b s, show_ipv4 ip ++ r = b :: s /\ 48 <= b <= 57.
Proof.
  intros (H & _). unfold show_ipv4. rewrite <- app_assoc. apply show_dec_head.
  unfold is_u8, u8_max in H. unfold is_u64, u64_max. lia.
Qed.

Lemma not_bracket b s : b <> 91 -> starts_with (str "[") (b :: s) = false.
Proof. intros H. unfold starts_with. change (str "[") with [91]. cbn [strip_prefix].
  by rewrite (proj2 (Z.eqb_neq 91 b)) by lia.
Qed.

(** A host that prints back as a domain: it is not bracketed and not an IPv4
    literal. *)
Definition plain_domain (d : rstr) : Prop := hd 58 d <> 91 /\ parse_ipv4 d = None.

(** Every character of the text of an IPv6 address is a hexadecimal digit, a
    colon or a dot. *)
Definition v6_char (b : Z) : Prop := 46 <= b <= 58 \/ 97 <= b <= 102.

Lemma show_hex_v6 g : is_u16 g -> Forall v6_char (show_hex g).
Proof.
  intros Hg. eapply Forall_impl; [apply (show_radix_chars 16); [lia|by apply is_u16_u64]|].
  simpl. unfold v6_char. lia.
Qed.

Lemma show_dec_v6 z : is_u64 z -> Forall v6_char (show_dec z).
Proof. intros Hz. eapply Forall_impl; [by apply show_dec_chars|]. simpl. unfold v6_char. lia. Qed.

Lemma show_ipv4_v6 ip : v4_wf ip -> Forall v6_char (show_ipv4 ip).
Proof.
  intros (H1 & H2 & H3 & H4).
  assert (forall a, is_u8 a -> is_u64 a) as Hu by (unfold is_u8, u8_max, is_u64, u64_max; lia).
  unfold show_ipv4. rewrite !Forall_app.
  split_and!; try (apply show_dec_v6; by apply Hu); constructor; try constructor;
    unfold v6_char; simpl; lia.
Qed.

Lemma join_groups_v6 gs : Forall is_u16 gs -> Forall v6_char (join_groups gs).
Proof.
  induction 1 as [|g gs Hg Hgs IH]; simpl; [constructor|].
  destruct gs as [|g' gs]; [by apply show_hex_v6|]. rewrite !Forall_app.
  split; [by apply show_hex_v6|]. constructor; [unfold v6_char; lia|done].
Qed.

Lemma show_ipv6_v6 o : v6_wf o -> Forall v6_char (show_ipv6 o).
Proof.
  intros [Hl Hu]. unfold show_ipv6, to_ipv4_mapped. case_bool_decide as Hm.
  - apply Forall_app. split.
    { repeat (constructor; [unfold v6_char; simpl; lia|]). constructor. }
    apply show_ipv4_v6. apply v4_of_octets_wf; [by rewrite length_drop, Hl|by apply Forall_drop].
  - apply segments_wf in Hu. unfold show_segments. destruct (_ <? _)%nat; [|by apply join_groups_v6].
    apply Forall_app. split; [by apply join_groups_v6, Forall_take|].
    do 2 (constructor; [unfold v6_char; lia|]). by apply join_groups_v6, Forall_drop.
Qed.

(** The bracketed branch, on the text of a host and a port. *)
Lemma from_authority_bracket h p :
  Forall (fun b => b <> 93) h -> is_u16 p ->
  from_authority (91 :: h ++ 93 :: 58 :: show_dec p) = (o ← parse_ipv6 h; Some (IPv6 o p)).
Proof.
  intros Hh Hp. set (s := 91 :: h ++ 93 :: 58 :: show_dec p).
  assert (find_byte 93 s = Some (length (91 :: h))) as Hf
    by (unfold s; apply (find_byte_app 93 (91 :: h)); by constructor).
  assert (take (length (91 :: h)) s = 91 :: h) as Ht
    by (unfold s; apply (take_app_length (91 :: h))).
  assert (drop (S (length (91 :: h))) s = 58 :: show_dec p) as Hd.
  { unfold s. change (91 :: h ++ 93 :: 58 :: show_dec p)
      with ((91 :: h) ++ [93] ++ 58 :: show_dec p).
    rewrite app_assoc. apply drop_app_length'. rewrite length_app. simpl. lia. }
  unfold from_authority. replace (starts_with (str "[") s) with true by reflexivity.
  rewrite Hf. cbn [mbind option_bind]. rewrite Ht, Hd.
  replace (strip_prefix (str ":") (58 :: show_dec p)) with (Some (show_dec p)) by reflexivity.
  cbn [fmap option_fmap option_map mbind option_bind].
  rewrite trim_id by (eapply Forall_impl; [by apply show_port_chars|]; simpl; lia).
  rewrite parse_u16_show by done. cbn [mbind option_bind drop]. by rewrite drop_0.
Qed.

Lemma from_authority_v6 o p : v6_wf o -> is_u16 p ->
  from_authority (str "[" ++ show_ipv6 o ++ str "]:" ++ show_dec p) = Some (IPv6 o p).
Proof.
  intros Ho Hp. change (from_authority (91 :: show_ipv6 o ++ 93 :: 58 :: show_dec p) = Some (IPv6 o p)).
  rewrite from_authority_bracket, parse_ipv6_show; try done.
  eapply Forall_impl; [by apply show_ipv6_v6|]. simpl. unfold v6_char. lia.
Qed.

(** ** Properties *)

(** C34: an address printed and parsed again is the address, for every IPv4 and
    IPv6 address and every domain that is neither bracketed nor the text of an
    IPv4 address. *)
Theorem from_authority_fmt a :
  address_wf a -> match a with Domain d _ => plain_domain d | _ => True end ->
  from_authority (Address_fmt a) = Some a.
Proof.
  destruct a as [ip p|ip p|d p]; simpl.
  - intros (Hl & Hu & Hp) _. destruct (v4_of_octets_wf ip Hl Hu) as [W E].
    change (str ":" ++ show_dec p) with (58 :: show_dec p).
    rewrite from_authority_host, parse_ipv4_show, E; [done|done| |done].
    destruct (show_ipv4_head _ (58 :: show_dec p) W) as (b & s & -> & Hb).
    apply not_bracket. lia.
  - intros [Ho Hp] _. by apply from_authority_v6.
  - intros Hp [Hb Hd]. change (str ":" ++ show_dec p) with (58 :: show_dec p).
    rewrite from_authority_host, Hd; [done| |done].
    destruct d as [|b d]; by apply not_bracket.
Qed.

(** Whatever the text, what is parsed is an address of the declared types
    whose host is that text up to the port: a domain is kept as it is written,
    and a literal is the address it denotes. *)
Theorem from_authority_wf s a :
  from_authority s = Some a ->
  address_wf a
  /\ match a with
     | IPv4 ip _ => exists h r, s = h ++ 58 :: r /\ parse_ipv4 h = Some (v4_of_octets ip)
     | IPv6 ip _ => exists h r, s = 91 :: h ++ 93 :: 58 :: r /\ parse_ipv6 h = Some ip
     | Domain d p => exists r, s = d ++ 58 :: r /\ parse_u16 r = Some p /\ parse_ipv4 d = None
     end.
Proof.
  assert (forall r p, parse_u16 r = Some p -> is_u16 p) as Hport.
  { intros r p H. apply parse_uint_range in H; [done|unfold u16_max; lia]. }
  unfold from_authority. destruct (starts_with (str "[") s) eqn:Eb.
  - destruct s as [|b s]; [done|].
    assert (b = 91) as ->.
    { destruct (decide (b = 91)); [done|]. by rewrite not_bracket in Eb. }
    destruct (find_byte 93 (91 :: s)) as [c|] eqn:Ec; [|done]. cbn [mbind option_bind].
    destruct (strip_prefix (str ":") (drop (S c) (91 :: s))) as [r|] eqn:Er; [|done].
    cbn [fmap option_fmap option_map mbind option_bind].
    destruct (parse_u16 (trim r)) as [p|] eqn:Ep; [|done]. cbn [mbind option_bind].
    destruct (parse_ipv6 _) as [o|] eqn:Eo; [|done]. cbn [mbind option_bind]. intros [= <-].
    split; [split; [by eapply parse_ipv6_wf|by eapply Hport]|].
    apply find_byte_split in Ec as [Es _]. destruct c as [|c]; [simplify_eq/=|].
    cbn [take drop app] in Es, Eo, Er. rewrite drop_0 in Eo. injection Es as Es.
    exists (take c s), r. split; [|done]. rewrite Es at 1. do 3 f_equal.
    destruct (drop (S c) s) as [|x y]; [done|].
    change (str ":") with [58] in Er. cbn [strip_prefix] in Er.
    destruct (58 =? x) eqn:E58; [|done]. bool_facts. by simplify_eq.
  - destruct (rfind_byte 58 s) as [c|] eqn:Ec; simpl; [|done].
    apply rfind_byte_split in Ec. destruct (parse_u16 _) as [p|] eqn:Ep; simpl; [|done].
    destruct (parse_ipv4 (take c s)) as [ip|] eqn:Ei; intros [= <-].
    + pose proof (parse_ipv4_wf _ _ Ei) as W. split.
      * destruct W as (? & ? & ? & ?). split; [done|]. split; [|by eapply Hport].
        unfold v4_octets. by repeat apply Forall_cons_2.
      * exists (take c s), (drop (S c) s). split; [done|]. rewrite Ei. by destruct ip.
    + split; [by eapply Hport|]. by exists (drop (S c) s).
Qed.

Lemma from_authority_fmt_witness :
  from_authority (Address_fmt (IPv6 [32;1;13;184; 0;0;0;0; 0;0;0;0; 0;0;0;1] 443))
  = Some (IPv6 [32;1;13;184; 0;0;0;0; 0;0;0;0; 0;0;0;1] 443).
Proof.
  apply from_authority_fmt; [|done]. split; [split; [done|]|].
  - repeat apply Forall_cons_2; try apply Forall_nil_2; unfold is_u8, u8_max; lia.
  - unfold is_u16, u16_max. lia.
Defined.

Lemma from_authority_wf_witness :
  address_wf (Domain (str "example.com") 443)
  /\ exists r, str "example.com:443" = str "example.com" ++ 58 :: r
     /\ parse_u16 r = Some 443 /\ parse_ipv4 (str "example.com") = None.
Proof.
  exact (from_authority_wf (str "example.com:443") (Domain (str "example.com") 443) eq_refl).
Defined.
