(* ===== verification/IpFilter.v ===== *)
(** * [src/core/ip_filter.rs]: the private address ranges *)

From S2P Require Import Prelude RustNet.
Open Scope Z_scope.

Definition is_private_ipv4 (ip : Ipv4Addr) : bool :=
  let octets := v4_octets ip in
  v4_is_loopback ip
  || v4_is_private ip
  || v4_is_link_local ip
  || (nth 0 octets 0 =? 0)
  || ((nth 0 octets 0 =? 100) && (Z.land (nth 1 octets 0) 0xC0 =? 64))
  || ((nth 0 octets 0 =? 192) && (nth 1 octets 0 =? 0) && (nth 2 octets 0 =? 0))
  || v4_is_broadcast ip
  || v4_is_multicast ip.

Definition is_ipv6_ula (ip : bytes) : bool :=
  Z.land (nth 0 (segments ip) 0) 0xfe00 =? 0xfc00.

Definition is_ipv6_link_local (ip : bytes) : bool :=
  Z.land (nth 0 (segments ip) 0) 0xffc0 =? 0xfe80.

Definition is_private_ipv6 (ip : bytes) : bool :=
  v6_is_loopback ip || is_ipv6_ula ip || is_ipv6_link_local ip.

(** The test as the callers make it, on either family. *)
Definition is_private_ip (ip : IpAddr) : bool :=
  match ip with V4 a => is_private_ipv4 a | V6 o => is_private_ipv6 o end.

(** ** The ranges as prefixes *)

Fixpoint be_value (o : bytes) : Z :=
  match o with [] => 0 | b :: r => b * 256 ^ Z.of_nat (length r) + be_value r end.

(** [o] lies in [net/len]: the first [len] bits agree. *)
Definition in_cidr (o net : bytes) (len : Z) : Prop :=
  let s := 8 * Z.of_nat (length net) - len in
  be_value o / 2 ^ s = be_value net / 2 ^ s.

Definition private_nets_v4 : list (bytes * Z) :=
  [([127;0;0;0], 8); ([10;0;0;0], 8); ([172;16;0;0], 12); ([192;168;0;0], 16);
   ([169;254;0;0], 16); ([0;0;0;0], 8); ([100;64;0;0], 10); ([192;0;0;0], 24);
   ([255;255;255;255], 32); ([224;0;0;0], 4)].

Definition private_nets_v6 : list (bytes * Z) :=
  [(v6_localhost, 128);
   ([252;0;0;0; 0;0;0;0; 0;0;0;0; 0;0;0;0], 7);
   ([254;128;0;0; 0;0;0;0; 0;0;0;0; 0;0;0;0], 10)].

(** *** Masks as ranges *)

Lemma upto_forall (n : nat) (f : Z -> bool) z :
  forallb f (seqZ 0 (Z.of_nat n)) = true -> 0 <= z < Z.of_nat n -> f z = true.
Proof.
  rewrite forallb_forall. intros H Hz. apply H. apply list_elem_of_In, elem_of_seqZ. lia.
Qed.

Lemma land_c0 b : is_u8 b -> (Z.land b 0xC0 =? 64) = (b / 64 =? 1).
Proof.
  intros Hb. apply Bool.eqb_prop. revert b Hb. unfold is_u8, u8_max. intros b Hb.
  apply (upto_forall 256 (fun b => Bool.eqb (Z.land b 0xC0 =? 64) (b / 64 =? 1))); [|lia].
  vm_compute. reflexivity.
Qed.

(** The same for a segment, by its two octets. *)
Lemma segment_forall (f : Z -> bool) g :
  forallb (fun a => forallb (fun b => f (a * 256 + b)) (seqZ 0 256)) (seqZ 0 256) = true ->
  is_u16 g -> f g = true.
Proof.
  intros H Hg. unfold is_u16, u16_max in Hg. rewrite (Z.div_mod g 256), Z.mul_comm by lia.
  apply (upto_forall 256 (fun b => f (g / 256 * 256 + b))); [|Z.div_mod_to_equations; lia].
  apply (upto_forall 256 (fun a => forallb (fun b => f (a * 256 + b)) (seqZ 0 256)));
    [exact H|Z.div_mod_to_equations; lia].
Qed.

Lemma land_fe00 g : is_u16 g -> (Z.land g 0xfe00 =? 0xfc00) = (g / 512 =? 126).
Proof.
  intros Hg. apply Bool.eqb_prop.
  apply (segment_forall (fun g => Bool.eqb (Z.land g 0xfe00 =? 0xfc00) (g / 512 =? 126))); [|done].
  vm_compute. reflexivity.
Qed.

Lemma land_ffc0 g : is_u16 g -> (Z.land g 0xffc0 =? 0xfe80) = (g / 64 =? 1018).
Proof.
  intros Hg. apply Bool.eqb_prop.
  apply (segment_forall (fun g => Bool.eqb (Z.land g 0xffc0 =? 0xfe80) (g / 64 =? 1018))); [|done].
  vm_compute. reflexivity.
Qed.

Lemma be_value_range o : Forall is_u8 o -> 0 <= be_value o < 256 ^ Z.of_nat (length o).
Proof.
  induction 1 as [|b o Hb _ IH]; simpl be_value; [simpl; lia|].
  unfold is_u8, u8_max in Hb. simpl length. rewrite Nat2Z.inj_succ, Z.pow_succ_r by lia. nia.
Qed.

Lemma be_value_app l r : be_value (l ++ r) = be_value l * 256 ^ Z.of_nat (length r) + be_value r.
Proof.
  induction l as [|b l IH]; [done|]. cbn [be_value app]. rewrite IH, length_app, Nat2Z.inj_add.
  rewrite Z.pow_add_r by lia. ring.
Qed.

(** The first bits of a value are the first bits of its first octets. *)
Lemma be_value_head l r k :
  Forall is_u8 r -> 0 <= k ->
  be_value (l ++ r) / 2 ^ (8 * Z.of_nat (length r) + k) = be_value l / 2 ^ k.
Proof.
  intros H Hk. pose proof (be_value_range _ H) as Hr. rewrite be_value_app.
  rewrite Z.pow_add_r, <- Z.div_div by lia.
  replace (2 ^ (8 * Z.of_nat (length r))) with (256 ^ Z.of_nat (length r))
    by (rewrite (Z.pow_mul_r 2 8) by lia; reflexivity).
  rewrite Z.div_add_l, (Z.div_small (be_value r)) by lia. by rewrite Z.add_0_r.
Qed.

Lemma be_value_inj o o' :
  length o = length o' -> Forall is_u8 o -> Forall is_u8 o' -> be_value o = be_value o' -> o = o'.
Proof.
  revert o'. induction o as [|b o IH]; intros [|b' o'] Hl H H' He; try done.
  apply Forall_cons in H as [Hb H]. apply Forall_cons in H' as [Hb' H']. simpl in Hl, He.
  injection Hl as Hl. pose proof (be_value_range _ H) as R. pose proof (be_value_range _ H') as R'.
  rewrite Hl in *. set (M := 256 ^ Z.of_nat (length o')) in *.
  assert (b = b') as -> by nia. f_equal. apply IH; try done. lia.
Qed.

(** Membership in a prefix, by the octets it covers. *)
Lemma in_cidr_head l r l' r' k :
  Forall is_u8 r -> Forall is_u8 r' -> length r = length r' -> length l = length l' -> 0 <= k ->
  (in_cidr (l ++ r) (l' ++ r') (8 * Z.of_nat (length l) - k) <->
   be_value l / 2 ^ k = be_value l' / 2 ^ k).
Proof.
  intros Hr Hr' Hl Hl' Hk. unfold in_cidr. rewrite length_app, <- Hl, <- Hl'.
  replace (8 * Z.of_nat (length l + length r) - (8 * Z.of_nat (length l) - k))
    with (8 * Z.of_nat (length r) + k) by lia.
  rewrite be_value_head by done. rewrite Hl. by rewrite be_value_head by done.
Qed.

(** An octet list given by its elements. *)
Ltac octets := repeat apply Forall_cons_2; try apply Forall_nil_2; unfold is_u8, u8_max in *; lia.

Section V4.
Context (a b c d x y z t : Z).
Context (Ha : is_u8 a) (Hb : is_u8 b) (Hc : is_u8 c) (Hd : is_u8 d).
Context (Hx : is_u8 x) (Hy : is_u8 y) (Hz : is_u8 z) (Ht : is_u8 t).

Lemma cidr4 : in_cidr [a; b; c; d] [x; y; z; t] 4 <-> a / 16 = x / 16.
Proof.
  rewrite (in_cidr_head [a] [b; c; d] [x] [y; z; t] 4) by (done || octets).
  simpl be_value. by rewrite !Z.mul_1_r, !Z.add_0_r.
Qed.

Lemma cidr8 : in_cidr [a; b; c; d] [x; y; z; t] 8 <-> a = x.
Proof.
  rewrite (in_cidr_head [a] [b; c; d] [x] [y; z; t] 0) by (done || octets).
  simpl be_value. rewrite !Z.div_1_r. lia.
Qed.

Lemma cidr10 : in_cidr [a; b; c; d] [x; y; z; t] 10 <-> a = x /\ b / 64 = y / 64.
Proof.
  rewrite (in_cidr_head [a; b] [c; d] [x; y] [z; t] 6) by (done || octets).
  unfold is_u8, u8_max in *. simpl be_value. change (256 ^ 1) with 256. change (2 ^ 6) with 64.
  Z.div_mod_to_equations; lia.
Qed.

Lemma cidr12 : in_cidr [a; b; c; d] [x; y; z; t] 12 <-> a = x /\ b / 16 = y / 16.
Proof.
  rewrite (in_cidr_head [a; b] [c; d] [x; y] [z; t] 4) by (done || octets).
  unfold is_u8, u8_max in *. simpl be_value. change (256 ^ 1) with 256. change (2 ^ 4) with 16.
  Z.div_mod_to_equations; lia.
Qed.

Lemma cidr16 : in_cidr [a; b; c; d] [x; y; z; t] 16 <-> a = x /\ b = y.
Proof.
  rewrite (in_cidr_head [a; b] [c; d] [x; y] [z; t] 0) by (done || octets).
  unfold is_u8, u8_max in *. simpl be_value. rewrite !Z.div_1_r. lia.
Qed.

Lemma cidr24 : in_cidr [a; b; c; d] [x; y; z; t] 24 <-> a = x /\ b = y /\ c = z.
Proof.
  rewrite (in_cidr_head [a; b; c] [d] [x; y; z] [t] 0) by (done || octets).
  unfold is_u8, u8_max in *. simpl be_value. rewrite !Z.div_1_r. lia.
Qed.

Lemma cidr32 : in_cidr [a; b; c; d] [x; y; z; t] 32 <-> a = x /\ b = y /\ c = z /\ d = t.
Proof.
  rewrite (in_cidr_head [a; b; c; d] [] [x; y; z; t] [] 0) by (done || octets).
  unfold is_u8, u8_max in *. simpl be_value. rewrite !Z.div_1_r. lia.
Qed.
End V4.

(** The IPv4 test is exactly membership in the ten private prefixes
    (loopback, the three private-use ranges, link-local, "this network",
    carrier-grade NAT, protocol assignments, broadcast and multicast). *)
Lemma is_private_ipv4_cidr ip :
  v4_wf ip ->
  (is_private_ipv4 ip = true <->
   Exists (fun n => in_cidr (v4_octets ip) n.1 n.2) private_nets_v4).
Proof.
  destruct ip as [a b c d]. intros (Ha & Hb & Hc & Hd). simpl in Ha, Hb, Hc, Hd.
  unfold private_nets_v4. rewrite !Exists_cons, Exists_nil. unfold v4_octets.
  cbn [fst snd oct0 oct1 oct2 oct3].
  rewrite !cidr4, !cidr8, !cidr10, !cidr12, !cidr16, !cidr24, !cidr32
    by (unfold is_u8, u8_max in *; lia).
  unfold is_private_ipv4, v4_is_loopback, v4_is_private, v4_is_link_local, v4_is_broadcast,
    v4_is_multicast, v4_octets. cbn [nth oct0 oct1 oct2 oct3]. rewrite land_c0 by done.
  change (16 / 16) with 1. change (64 / 64) with 1. change (224 / 16) with 14.
  rewrite !orb_true_iff, !andb_true_iff, !Z.eqb_eq, !Z.leb_le.
  assert ((16 <= b /\ b <= 31) <-> b / 16 = 1) as E1 by (unfold is_u8, u8_max in *; Z.div_mod_to_equations; lia).
  assert ((224 <= a /\ a <= 239) <-> a / 16 = 14) as E2 by (unfold is_u8, u8_max in *; Z.div_mod_to_equations; lia).
  tauto.
Qed.

(** The IPv6 test is exactly membership in [::1/128], [fc00::/7] and
    [fe80::/10]. *)
Lemma is_private_ipv6_cidr o :
  v6_wf o ->
  (is_private_ipv6 o = true <-> Exists (fun n => in_cidr o n.1 n.2) private_nets_v6).
Proof.
  intros [Hl Hu]. unfold private_nets_v6. rewrite !Exists_cons, Exists_nil. cbn [fst snd].
  assert (in_cidr o v6_localhost 128 <-> o = v6_localhost) as ->.
  { unfold in_cidr. change (8 * Z.of_nat (length v6_localhost) - 128) with 0.
    rewrite !Z.div_1_r. split; [|by intros ->]. intros H.
    apply be_value_inj; [done|done| |done]. unfold v6_localhost.
    repeat apply Forall_cons_2; try apply Forall_nil_2; unfold is_u8, u8_max; lia. }
  destruct o as [|a [|b r]]; try done. cbn [length] in Hl. injection Hl as Hl.
  apply Forall_cons in Hu as [Ha [Hb Hu]%Forall_cons].
  rewrite (in_cidr_head [a] (b :: r) [252] (replicate 15 0) 1)
    by (done || (by constructor) || (simpl; lia) || octets).
  rewrite (in_cidr_head [a; b] r [254; 128] (replicate 14 0) 6)
    by (done || (simpl; lia) || octets).
  unfold is_u8, u8_max in Ha, Hb. simpl be_value. change (256 ^ 1) with 256.
  change (2 ^ 6) with 64. change (2 ^ 1) with 2.
  unfold is_private_ipv6, v6_is_loopback, is_ipv6_ula, is_ipv6_link_local. cbn [segments nth].
  rewrite land_fe00, land_ffc0 by (unfold is_u16, u16_max; lia).
  rewrite !orb_true_iff, bool_decide_eq_true, !Z.eqb_eq.
  assert ((a * 256 + b) / 512 = 126 <-> (a * 1 + 0) / 2 = (252 * 1 + 0) / 2) as ->
    by (Z.div_mod_to_equations; lia).
  assert ((a * 256 + b) / 64 = 1018 <-> (a * 256 + (b * 1 + 0)) / 64 = (254 * 256 + (128 * 1 + 0)) / 64)
    as -> by (Z.div_mod_to_equations; lia).
  tauto.
Qed.

(** The bytes of an address, and the private networks of its family. *)
Definition ip_octets (ip : IpAddr) : bytes := match ip with V4 ip => v4_octets ip | V6 o => o end.
Definition private_nets (ip : IpAddr) : list (bytes * Z) :=
  match ip with V4 _ => private_nets_v4 | V6 _ => private_nets_v6 end.

(** C32: the filter is exactly membership in a list of networks: for IPv4 the ten
    private prefixes (loopback, the three private-use ranges, link-local, "this
    network", carrier-grade NAT, protocol assignments, broadcast and multicast),
    for IPv6 [::1/128], [fc00::/7] and [fe80::/10]. *)
Theorem is_private_ip_cidr ip :
  ip_wf ip ->
  (is_private_ip ip = true <-> Exists (fun n => in_cidr (ip_octets ip) n.1 n.2) (private_nets ip)).
Proof. destruct ip; [apply is_private_ipv4_cidr|apply is_private_ipv6_cidr]. Qed.

(** The test has no prefix for the IPv6 forms of IPv4 addresses: no
    [::ffff:a.b.c.d] is private, a loopback or private [a.b.c.d] included, and
    neither is the unspecified address [::]. *)
Theorem is_private_ipv6_mapped ip :
  is_private_ipv6 (mapped_prefix ++ v4_octets ip) = false
  /\ is_private_ipv6 (replicate 16 0) = false.
Proof.
  split; [|reflexivity]. unfold is_private_ipv6, v6_is_loopback.
  rewrite bool_decide_eq_false_2; [reflexivity|]. by intros [= ].
Qed.

Lemma is_private_ip_cidr_witness :
  is_private_ip (V4 (IPv4addr 100 64 0 1)) = true <->
  Exists (fun n => in_cidr [100; 64; 0; 1] n.1 n.2) private_nets_v4.
Proof.
  apply (is_private_ip_cidr (V4 (IPv4addr 100 64 0 1))).
  repeat split; simpl; unfold u8_max; lia.
Defined.
