(* ===== verification/Routing.v ===== *)
(** * [src/core/dns.rs], [src/core/hooks.rs]: resolution and the direct router

    The resolver (crate [dns_cache_rs]) is the operation of the class
    [DnsCache]: its answer to the [k]-th query of the run, so that it may answer
    each query differently.  Operations that query it take the number of queries
    made and return the new one.  [OutboundRouter] is the trait of that name and
    [ClosedRouter] what the connect path relies on when private addresses are
    blocked. *)

From S2P Require Import Prelude RustStr RustNet Address IpFilter.
Open Scope nat_scope.

(** [dns_cache_rs::DnsError]; a duration is in nanoseconds. *)
Inductive DnsError : Type :=
  | DnsNotFound (host : rstr)
  | DnsTimeout (d : Z)
  | DnsInvalidHost (host : rstr)
  | DnsOther (message : rstr).

(** The routing decision; [H] is the type of outbound handlers. *)
Inductive OutboundType (H : Type) : Type :=
  | Direct (resolved : option (list IpAddr)) (dialer : option H)
  | Reject
  | Proxy (handler : H).
Arguments Direct {H}.
Arguments Reject {H}.
Arguments Proxy {H}.

(** [std::io::Error::other]. *)
Definition io_other (msg : rstr) : io_error := mk_io_error (OtherKind 0) msg.

(** [resolve_with_port_iter] of the cache: query number, host, port. *)
Class DnsCache := dns : nat -> rstr -> Z -> result (list SocketAddr) DnsError.

(** [{d:?}] of a [Duration]. *)
Class DebugDuration := debug_duration : Z -> rstr.

(** The trait [OutboundRouter], for a router [R] with handlers [H]. *)
Class OutboundRouter (R H : Type) :=
  route : R -> nat -> Address -> OutboundType H * nat.

Section Dns.
Context {cache : DnsCache} {fmt : DebugDuration}.

Definition dns_error_to_io (err : DnsError) : io_error :=
  match err with
  | DnsNotFound host => mk_io_error NotFound (str "no addresses found for " ++ host)
  | DnsTimeout d => mk_io_error TimedOut (str "DNS query timeout after " ++ debug_duration d)
  | DnsInvalidHost h => mk_io_error InvalidInput (str "invalid host: " ++ h)
  | DnsOther e => io_other e
  end.

Definition resolve_socket_addr (k : nat) (addr : Address) : io_result SocketAddr * nat :=
  match addr with
  | IPv4 ip port => (Ok (SocketAddr_new (V4 (v4_of_octets ip)) port), k)
  | IPv6 ip port => (Ok (SocketAddr_new (V6 ip) port), k)
  | Domain host port =>
      (match dns k host port with
       | Err e => Err (dns_error_to_io e)
       | Ok [] => Err (mk_io_error NotFound (str "no addresses found for " ++ host))
       | Ok (sa :: _) => Ok sa
       end, S k)
  end.

(** The loop over the resolved addresses: the first private one decides. *)
Fixpoint scan_public (sas : list SocketAddr) (public : list IpAddr) : bool * option (list IpAddr) :=
  match sas with
  | [] => (false, if is_empty public then None else Some public)
  | sa :: sas =>
      if is_private_ip (sa_ip sa) then (true, None)
      else scan_public sas (public ++ [sa_ip sa])
  end.

Definition check_private_and_resolve (k : nat) (addr : Address)
    : (bool * option (list IpAddr)) * nat :=
  match addr with
  | IPv4 ip _ => ((is_private_ipv4 (v4_of_octets ip), None), k)
  | IPv6 ip _ => ((is_private_ipv6 ip, None), k)
  | Domain host port =>
      (match dns k host port with
       | Err _ => (false, None)
       | Ok sas => scan_public sas []
       end, S k)
  end.

Record DirectRouter : Type := { dr_block_private_ip : bool }.

(** [DirectRouter::route]. *)
#[export] Instance DirectRouter_route {H} : OutboundRouter DirectRouter H := fun r k addr =>
  if dr_block_private_ip r then
    let '((is_private, resolved), k) := check_private_and_resolve k addr in
    if is_private then (Reject, k)
    else
      match resolved, addr with
      | None, Domain _ _ => (Reject, k)
      | _, _ => (Direct resolved None, k)
      end
  else (Direct None None, k).

(** ** Lemmas *)

(** The literal an address names, if it is one. *)
Definition literal_ip (addr : Address) : option IpAddr :=
  match addr with
  | IPv4 ip _ => Some (V4 (v4_of_octets ip))
  | IPv6 ip _ => Some (V6 ip)
  | Domain _ _ => None
  end.

Lemma scan_public_spec sas pub :
  scan_public sas pub =
  if existsb (fun sa => is_private_ip (sa_ip sa)) sas then (true, None)
  else (false, if is_empty (pub ++ map sa_ip sas) then None else Some (pub ++ map sa_ip sas)).
Proof.
  revert pub. induction sas as [|sa sas IH]; intros pub; simpl; [by rewrite app_nil_r|].
  destruct (is_private_ip (sa_ip sa)); [done|]. rewrite IH, <- app_assoc. done.
Qed.

Lemma existsb_private_false sas :
  existsb (fun sa => is_private_ip (sa_ip sa)) sas = false ->
  Forall (fun ip => is_private_ip ip = false) (map sa_ip sas).
Proof.
  induction sas as [|sa sas IH]; simpl; [constructor|]. intros Hp. bool_facts. constructor; auto.
Qed.

(** What the check promises to the routers, and they to the connect path: a
    literal is public, and the addresses handed on are public and not none. *)
Record checked (addr : Address) (resolved : option (list IpAddr)) : Prop := {
  ck_literal ip : literal_ip addr = Some ip -> is_private_ip ip = false /\ resolved = None;
  ck_public ips : resolved = Some ips -> ips <> [] /\ Forall (fun ip => is_private_ip ip = false) ips
}.

Lemma check_private_checked k addr resolved k' :
  check_private_and_resolve k addr = ((false, resolved), k') -> checked addr resolved.
Proof.
  unfold check_private_and_resolve. destruct addr as [ip p|ip p|h p].
  1,2: intros [= Hp <- _]; split; [intros ? [= <-]; by split|done].
  destruct (dns k h p) as [sas|e].
  2:{ intros [= <- _]. by split. }
  rewrite scan_public_spec. destruct (existsb _ sas) eqn:E; [done|]. intros [= <- _].
  split; [done|]. intros ips. simpl. destruct (is_empty (map sa_ip sas)) eqn:Em; [done|].
  intros [= <-]. split; [by destruct sas|by apply existsb_private_false].
Qed.

(** The check of a domain is exact: it reports a private target if and only
    if some resolved address is private, and otherwise hands on all of the
    addresses, in the resolver's order, or nothing if there are none. *)
Theorem check_private_and_resolve_domain k h p :
  (check_private_and_resolve k (Domain h p)).1 =
  match dns k h p with
  | Err _ => (false, None)
  | Ok sas =>
      if existsb (fun sa => is_private_ip (sa_ip sa)) sas then (true, None)
      else match sas with [] => (false, None) | _ => (false, Some (map sa_ip sas)) end
  end.
Proof.
  unfold check_private_and_resolve. cbn [fst]. destruct (dns k h p) as [sas|e]; [|done].
  rewrite scan_public_spec. simpl. by destruct sas.
Qed.

Lemma DirectRouter_closed_aux {H} r k addr resolved (dialer : option H) k' :
  dr_block_private_ip r = true -> route r k addr = (Direct resolved dialer, k') ->
  checked addr resolved /\ (literal_ip addr = None -> resolved <> None).
Proof.
  unfold route, DirectRouter_route. intros ->.
  destruct (check_private_and_resolve k addr) as [[priv res] k1] eqn:E.
  destruct priv; [done|]. apply check_private_checked in E.
  destruct res as [ips|]; [intros [= <- <- <-]; by split_and!|].
  destruct addr; intros H0; simplify_eq/=; by split_and!.
Qed.

(** C12: under [block_private_ip] the direct router is closed: whatever it lets
    through is a public literal, or a domain with a non-empty list of resolved
    addresses all of them public; everything else is rejected. *)
Theorem DirectRouter_closed {H} k addr :
  match route (H := H) {| dr_block_private_ip := true |} k addr with
  | (Direct resolved dialer, _) =>
      dialer = None /\ checked addr resolved /\ (literal_ip addr = None -> resolved <> None)
  | (Reject, _) =>
      match addr with
      | IPv4 ip _ => is_private_ipv4 (v4_of_octets ip) = true
      | IPv6 ip _ => is_private_ipv6 ip = true
      | Domain h p =>
          match dns k h p with
          | Err _ => True
          | Ok sas => sas = [] \/ Exists (fun sa => is_private_ip (sa_ip sa) = true) sas
          end
      end
  | (Proxy _, _) => False
  end.
Proof.
  destruct (route _ k addr) as [[resolved dialer| |h] k'] eqn:E.
  - split; [|exact (DirectRouter_closed_aux {| dr_block_private_ip := true |} k addr resolved dialer k' eq_refl E)].
    revert E. unfold route, DirectRouter_route. simpl.
    destruct (check_private_and_resolve k addr) as [[[] [ips|]] k1]; try done; [by intros [=]|].
    destruct addr; by intros [=].
  - revert E. unfold route, DirectRouter_route. simpl.
    destruct addr as [ip p|ip p|h p]; simpl; [by destruct (is_private_ipv4 _)|by destruct (is_private_ipv6 _)|].
    destruct (dns k h p) as [sas|e]; [|done]. rewrite scan_public_spec.
    destruct (existsb _ sas) eqn:Ex; [|destruct sas; [by left|done]].
    intros _. right. apply existsb_exists in Ex as (sa & Hin & Hp). apply Exists_exists.
    exists sa. split; [by apply list_elem_of_In|done].
  - revert E. unfold route, DirectRouter_route. simpl.
    destruct (check_private_and_resolve k addr) as [[[] [ips|]] k1]; try done. by destruct addr.
Qed.
End Dns.

(** The interface to the connect path: a router whose [Direct] decisions are
    checked whenever it is [closed]. *)
Class ClosedRouter (R H : Type) `{!OutboundRouter R H} := {
  closed : R -> bool;
  route_checked r k addr resolved dialer k' :
    closed r = true -> route r k addr = (Direct resolved dialer, k') ->
    checked addr resolved /\ (literal_ip addr = None -> resolved <> None)
}.

#[export] Instance DirectRouter_is_closed `{!DnsCache} {H} : ClosedRouter DirectRouter H := {|
  closed := dr_block_private_ip;
  route_checked := DirectRouter_closed_aux
|}.

(** ** Witnesses *)

(** A resolver that knows two names, and gives the second one a private
    address at every other query. *)
Definition dns_ex : DnsCache := fun k h p =>
  if str_eqb h (str "example.com")
  then Ok [SocketAddr_new (V4 (IPv4addr 93 184 216 34)) p; SocketAddr_new (V4 (IPv4addr 93 184 216 35)) p]
  else if str_eqb h (str "rebind.example")
  then Ok [SocketAddr_new (V4 (if Nat.even k then IPv4addr 8 8 8 8 else IPv4addr 127 0 0 1)) p]
  else Err (DnsNotFound h).
