(* ===== verification/Acl.v ===== *)
(** * [src/acl.rs]: outbounds, the rule engine and the router

    The crate [acl_engine_rs] (outbound dialers, rule compiler and matcher) and
    the sockets the configuration is tested on are the operations of the
    classes [AclEngineRs] and [TestSockets]; nothing is assumed of them. *)

From S2P Require Import Prelude RustStr RustNet Address IpFilter Routing.
Open Scope nat_scope.

(** ** Configuration *)

Record Socks5Config : Type := {
  s5_addr : rstr;
  s5_username : option rstr;
  s5_password : option rstr;
  s5_allow_udp : bool
}.

Definition default_allow_udp : bool := true.

Record HttpConfig : Type := {
  http_addr : rstr;
  http_username : option rstr;
  http_password : option rstr;
  http_https : bool
}.

Record DirectConfig : Type := {
  d_mode : rstr;
  d_bind_ipv4 : option rstr;
  d_bind_ipv6 : option rstr;
  d_bind_device : option rstr;
  d_fast_open : bool;
  d_tcp_nodelay : bool;
  d_tcp_keepalive_secs : Z;
  d_connect_timeout_secs : Z
}.

Definition default_ip_mode : rstr := str "auto".
Definition default_tcp_nodelay : bool := true.
Definition default_tcp_keepalive_secs : Z := 60.

Definition DirectConfig_default : DirectConfig := {|
  d_mode := default_ip_mode;
  d_bind_ipv4 := None;
  d_bind_ipv6 := None;
  d_bind_device := None;
  d_fast_open := false;
  d_tcp_nodelay := default_tcp_nodelay;
  d_tcp_keepalive_secs := default_tcp_keepalive_secs;
  d_connect_timeout_secs := 0
|}.

Record OutboundEntry : Type := {
  name : rstr;
  outbound_type : rstr;
  socks5 : option Socks5Config;
  http : option HttpConfig;
  direct : option DirectConfig
}.

Record AclConfig : Type := { outbounds : list OutboundEntry; inline : list rstr }.

(** ** The libraries *)

Inductive DirectMode : Type := Auto | Only4 | Only6 | Prefer46 | Prefer64.

#[export] Instance DirectMode_eq_dec : EqDecision DirectMode.
Proof. solve_decision. Defined.

(** Durations in seconds. *)
Record DirectOptions : Type := {
  mode : DirectMode;
  bind_ip4 : option Ipv4Addr;
  bind_ip6 : option bytes;
  bind_device : option rstr;
  fast_open : bool;
  timeout : option Z;
  tcp_nodelay : bool;
  tcp_keepalive : option Z
}.

Inductive OutboundHandler (D S H R : Type) : Type :=
  | HDirect (inner : D) (custom_dial : bool)
  | HSocks5 (inner : S) (allow_udp : bool)
  | HHttp (inner : H)
  | HReject (inner : R).
Arguments HDirect {D S H R}.
Arguments HSocks5 {D S H R}.
Arguments HHttp {D S H R}.
Arguments HReject {D S H R}.

Inductive HostInfo : Type := from_ip (ip : IpAddr) | from_name (host : rstr).

Inductive Protocol : Type := TCP | UDP.

(** The geo database loader, as it is configured. *)
Inductive GeoLoader : Type := AutoGeo (data_dir : option rstr) (update_now : bool) | NilGeo.

(** [acl_engine_rs]; errors are their messages. *)
Class AclEngineRs := {
  DirectT : Type;
  Socks5T : Type;
  HttpT : Type;
  RejectT : Type;
  RuleSet : Type;
  Compiled : Type;
  Direct_new : DirectT;
  Direct_with_options : DirectOptions -> result DirectT rstr;
  Socks5_new : rstr -> Socks5T;
  Socks5_with_auth : rstr -> rstr -> rstr -> result Socks5T rstr;
  Http_new : rstr -> HttpT;
  Http_try_new : rstr -> bool -> result HttpT rstr;
  Http_with_auth : HttpT -> rstr -> rstr -> HttpT;
  Reject_new : RejectT;
  parse_rules : rstr -> result RuleSet rstr;
  compile : RuleSet -> gmap rstr (OutboundHandler DirectT Socks5T HttpT RejectT) -> Z -> GeoLoader ->
    result Compiled rstr;
  compiled_match_host : Compiled -> HostInfo -> Protocol -> Z ->
    option (OutboundHandler DirectT Socks5T HttpT RejectT);
  compiled_rule_count : Compiled -> nat
}.

(** [socket2], as the configuration test uses it. *)
Class TestSockets := {
  socket_new : result unit rstr;
  socket_bind : SocketAddr -> result unit rstr;
  socket_bind_device : rstr -> result unit rstr
}.

Section Acl.
Context {lib : AclEngineRs} {sockets : TestSockets}.

Definition Handler : Type := OutboundHandler DirectT Socks5T HttpT RejectT.

Definition Handler_fmt (h : Handler) : rstr :=
  match h with
  | HDirect _ _ => str "Direct"
  | HSocks5 _ allow_udp => str "Socks5(udp=" ++ (if allow_udp then str "true" else str "false") ++ str ")"
  | HHttp _ => str "Http"
  | HReject _ => str "Reject"
  end.

(** [Debug] of a routing decision. *)
Definition OutboundType_fmt (o : OutboundType Handler) : rstr :=
  match o with
  | Direct _ None => str "Direct"
  | Direct _ (Some h) => str "Direct(" ++ Handler_fmt h ++ str ")"
  | Reject => str "Reject"
  | Proxy h => str "Proxy(" ++ Handler_fmt h ++ str ")"
  end.

(** *** [OutboundHandler::from_entry] *)

Definition parse_mode (name mode : rstr) : result DirectMode rstr :=
  if str_eqb mode (str "auto") then Ok Auto
  else if str_eqb mode (str "4") || str_eqb mode (str "only4") then Ok Only4
  else if str_eqb mode (str "6") || str_eqb mode (str "only6") then Ok Only6
  else if str_eqb mode (str "prefer4") || str_eqb mode (str "46") then Ok Prefer46
  else if str_eqb mode (str "prefer6") || str_eqb mode (str "64") then Ok Prefer64
  else Err (str "Invalid direct mode '" ++ mode ++ str "' for outbound '" ++ name
    ++ str "', valid values: auto, 4, only4, 6, only6, prefer4, 46, prefer6, 64").

Definition parse_bind4 (s : rstr) : result Ipv4Addr rstr :=
  match parse_ipv4 s with
  | Some ip => Ok ip
  | None => Err (str "Invalid bindIPv4 '" ++ s ++ str "': invalid IPv4 address syntax")
  end.

Definition parse_bind6 (s : rstr) : result bytes rstr :=
  match parse_ipv6 s with
  | Some ip => Ok ip
  | None => Err (str "Invalid bindIPv6 '" ++ s ++ str "': invalid IPv6 address syntax")
  end.

(** [Option::map(f).transpose()]. *)
Definition transpose {A B} (f : A -> result B rstr) (o : option A) : result (option B) rstr :=
  match o with
  | None => Ok None
  | Some a => match f a with Ok b => Ok (Some b) | Err e => Err e end
  end.

Definition test_socket : result unit rstr :=
  result_map_err (fun e => str "Failed to create test socket: " ++ e) socket_new.

Definition test_bind4 (name : rstr) (ip : Ipv4Addr) : result unit rstr :=
  let? _ := test_socket in
  result_map_err (fun e => str "FATAL: outbound '" ++ name ++ str "' bindIPv4 " ++ show_ipv4 ip
    ++ str " failed: " ++ e) (socket_bind (SocketAddr_new (V4 ip) 0)).

Definition test_bind6 (name : rstr) (ip : bytes) : result unit rstr :=
  let? _ := test_socket in
  result_map_err (fun e => str "FATAL: outbound '" ++ name ++ str "' bindIPv6 " ++ show_ipv6 ip
    ++ str " failed: " ++ e) (socket_bind (SocketAddr_new (V6 ip) 0)).

(** On Linux. *)
Definition test_device (name device : rstr) : result unit rstr :=
  let? _ := test_socket in
  result_map_err (fun e => str "FATAL: outbound '" ++ name ++ str "' bindDevice '" ++ device
    ++ str "' failed: " ++ e) (socket_bind_device device).

Definition when_some {A} (o : option A) (f : A -> result unit rstr) : result unit rstr :=
  match o with Some a => f a | None => Ok tt end.

Definition opt_map {A B} (f : A -> B) (o : option A) : option B :=
  match o with Some a => Some (f a) | None => None end.

Definition or_default {A} (o : option A) (d : A) : A := match o with Some a => a | None => d end.

Definition positive_secs (secs : Z) : option Z := if (0 <? secs)%Z then Some secs else None.

(** The options a bare connect cannot apply. *)
Definition custom_dial_of (o : DirectOptions) (tcp_keepalive_secs : Z) : bool :=
  bool_decide (bind_ip4 o <> None)
  || bool_decide (bind_ip6 o <> None)
  || bool_decide (bind_device o <> None)
  || bool_decide (mode o <> Auto)
  || fast_open o
  || negb (tcp_nodelay o)
  || negb (tcp_keepalive_secs =? default_tcp_keepalive_secs)%Z
  || bool_decide (timeout o <> None).

Definition direct_from_entry (entry : OutboundEntry) : result Handler rstr :=
  let config := direct entry in
  let mode := or_default (opt_map d_mode config) (str "auto") in
  let? direct_mode := parse_mode (name entry) mode in
  let? ip4 := transpose parse_bind4 (d ← config; d_bind_ipv4 d) in
  let? ip6 := transpose parse_bind6 (d ← config; d_bind_ipv6 d) in
  let device := d ← config; d_bind_device d in
  let fast_open := or_default (opt_map d_fast_open config) false in
  let nodelay := or_default (opt_map d_tcp_nodelay config) default_tcp_nodelay in
  let keepalive_secs := or_default (opt_map d_tcp_keepalive_secs config) default_tcp_keepalive_secs in
  let connect_timeout_secs := or_default (opt_map d_connect_timeout_secs config) 0%Z in
  let? _ := when_some ip4 (test_bind4 (name entry)) in
  let? _ := when_some ip6 (test_bind6 (name entry)) in
  let? _ := when_some device (test_device (name entry)) in
  let opts := {|
    mode := direct_mode;
    bind_ip4 := ip4;
    bind_ip6 := ip6;
    bind_device := device;
    fast_open := fast_open;
    timeout := positive_secs connect_timeout_secs;
    tcp_nodelay := nodelay;
    tcp_keepalive := positive_secs keepalive_secs |} in
  let custom_dial := custom_dial_of opts keepalive_secs in
  let? inner := result_map_err (fun e => str "Invalid direct outbound '" ++ name entry ++ str "': " ++ e)
    (Direct_with_options opts) in
  Ok (HDirect inner custom_dial).

Definition socks5_from_entry (entry : OutboundEntry) : result Handler rstr :=
  match socks5 entry with
  | None => Err (str "socks5 config required for outbound '" ++ name entry ++ str "'")
  | Some config =>
      let? inner :=
        match s5_username config, s5_password config with
        | Some username, Some password =>
            result_map_err (fun e => str "Invalid socks5 outbound '" ++ name entry ++ str "': " ++ e)
              (Socks5_with_auth (s5_addr config) username password)
        | _, _ => Ok (Socks5_new (s5_addr config))
        end in
      Ok (HSocks5 inner (s5_allow_udp config))
  end.

Definition http_from_entry (entry : OutboundEntry) : result Handler rstr :=
  match http entry with
  | None => Err (str "http config required for outbound '" ++ name entry ++ str "'")
  | Some config =>
      let? h :=
        if http_https config then
          result_map_err (fun e => str "Invalid http outbound '" ++ name entry ++ str "': " ++ e)
            (Http_try_new (http_addr config) true)
        else Ok (Http_new (http_addr config)) in
      Ok (HHttp (match http_username config, http_password config with
                 | Some username, Some password => Http_with_auth h username password
                 | _, _ => h
                 end))
  end.

Definition from_entry (entry : OutboundEntry) : result Handler rstr :=
  let t := outbound_type entry in
  if str_eqb t (str "direct") then direct_from_entry entry
  else if str_eqb t (str "socks5") then socks5_from_entry entry
  else if str_eqb t (str "http") then http_from_entry entry
  else if str_eqb t (str "reject") then Ok (HReject Reject_new)
  else Err (str "Unknown outbound type '" ++ t ++ str "' for outbound '" ++ name entry ++ str "'").

Definition is_reject (h : Handler) : bool := match h with HReject _ => true | _ => false end.

Definition custom_dialer (h : Handler) : option Handler :=
  match h with HDirect _ true => Some h | _ => None end.

Definition allows_udp (h : Handler) : bool :=
  match h with
  | HDirect _ _ => true
  | HSocks5 _ allow_udp => allow_udp
  | HHttp _ => false
  | HReject _ => false
  end.

(** ** The engine *)

Record AclEngine : Type := {
  compiled : Compiled;
  engine_outbounds : gmap rstr Handler
}.

Fixpoint load_outbounds (entries : list OutboundEntry) (m : gmap rstr Handler)
    : result (gmap rstr Handler) rstr :=
  match entries with
  | [] => Ok m
  | entry :: entries =>
      let? handler := from_entry entry in
      load_outbounds entries (<[name entry := handler]> m)
  end.

(** [HashMap::entry(k).or_insert_with(..)]. *)
Definition or_insert (k : rstr) (h : Handler) (m : gmap rstr Handler) : gmap rstr Handler :=
  match m !! k with Some _ => m | None => <[k := h]> m end.

Definition with_builtins (m : gmap rstr Handler) : gmap rstr Handler :=
  or_insert (str "direct") (HDirect Direct_new false)
    (or_insert (str "reject") (HReject Reject_new) m).

(** [join("\n")]. *)
Fixpoint join_lines (ls : list rstr) : rstr :=
  match ls with
  | [] => []
  | [l] => l
  | l :: ls => l ++ 10%Z :: join_lines ls
  end.

Definition AclEngine_new (config : AclConfig) (data_dir : option rstr) (refresh_geodata : bool)
    : result AclEngine rstr :=
  let? m := load_outbounds (outbounds config) ∅ in
  let m := with_builtins m in
  let rules := match inline config with [] => [str "direct(all)"] | rs => rs end in
  let? text_rules := result_map_err (fun e => str "Failed to parse ACL rules: " ++ e)
    (parse_rules (join_lines rules)) in
  let? c := result_map_err (fun e => str "Failed to compile ACL rules: " ++ e)
    (compile text_rules m 4096 (AutoGeo data_dir refresh_geodata)) in
  Ok {| compiled := c; engine_outbounds := m |}.

Definition AclEngine_new_default : result AclEngine rstr :=
  let m := <[str "reject" := HReject Reject_new]> {[str "direct" := HDirect Direct_new false]} in
  let? text_rules := result_map_err (fun e => str "Failed to parse default rules: " ++ e)
    (parse_rules (str "direct(all)")) in
  let? c := result_map_err (fun e => str "Failed to compile default rules: " ++ e)
    (compile text_rules m 1024 NilGeo) in
  Ok {| compiled := c; engine_outbounds := m |}.

Definition match_host (e : AclEngine) (host : rstr) (port : Z) (protocol : Protocol)
    : option Handler :=
  let host_info := match parse_ip host with Some ip => from_ip ip | None => from_name host end in
  match compiled_match_host (compiled e) host_info protocol port with
  | Some handler => Some handler
  | None => engine_outbounds e !! str "direct"
  end.

Definition rule_count (e : AclEngine) : nat := compiled_rule_count (compiled e).

(** ** The router *)

Record AclRouter : Type := { engine : AclEngine; block_private_ip : bool }.

Definition direct_decision (r : AclRouter) (addr : Address) (resolved : option (list IpAddr))
    (dialer : option Handler) : OutboundType Handler :=
  match resolved, addr with
  | None, Domain _ _ => if block_private_ip r then Reject else Direct resolved dialer
  | _, _ => Direct resolved dialer
  end.

Definition route_addr_with_resolved (r : AclRouter) (addr : Address) (resolved : option (list IpAddr))
    : OutboundType Handler :=
  match match_host (engine r) (host addr) (port addr) TCP with
  | Some handler =>
      match handler with
      | HDirect _ _ => direct_decision r addr resolved (custom_dialer handler)
      | HSocks5 _ _ | HHttp _ => Proxy handler
      | HReject _ => Reject
      end
  | None => direct_decision r addr resolved None
  end.

Context {cache : DnsCache}.

#[export] Instance AclRouter_route : OutboundRouter AclRouter Handler := fun r k addr =>
  if block_private_ip r then
    let '((is_private, ips), k) := check_private_and_resolve k addr in
    if is_private then (Reject, k) else (route_addr_with_resolved r addr ips, k)
  else (route_addr_with_resolved r addr None, k).

(** ** Properties *)

(** The options of an outbound with nothing configured. *)
Definition plain_options : DirectOptions := {|
  mode := Auto;
  bind_ip4 := None;
  bind_ip6 := None;
  bind_device := None;
  fast_open := false;
  timeout := None;
  tcp_nodelay := true;
  tcp_keepalive := Some default_tcp_keepalive_secs |}.

Lemma result_bind_ok {X Y E} (r : result X E) (f : X -> result Y E) y :
  result_bind r f = Ok y -> exists x, r = Ok x /\ f x = Ok y.
Proof. destruct r; [by eexists|done]. Qed.

Lemma result_map_err_ok {X E F} (f : E -> F) (r : result X E) x : result_map_err f r = Ok x -> r = Ok x.
Proof. destruct r; simpl; congruence. Qed.

Lemma custom_dial_plain opts secs :
  tcp_keepalive opts = positive_secs secs -> custom_dial_of opts secs = false -> opts = plain_options.
Proof.
  intros Hk Hc. unfold custom_dial_of in Hc. bool_facts.
  repeat match goal with
  | E : bool_decide (_ <> _) = false |- _ => apply bool_decide_eq_false, dec_stable in E
  end.
  destruct opts as [m b4 b6 dev fo t nd ka]. simpl in *. subst. done.
Qed.

Lemma direct_from_entry_ok entry h :
  direct_from_entry entry = Ok h -> exists opts secs inner,
    tcp_keepalive opts = positive_secs secs /\ Direct_with_options opts = Ok inner
    /\ h = HDirect inner (custom_dial_of opts secs).
Proof.
  unfold direct_from_entry. intros H.
  do 7 (apply result_bind_ok in H as (? & ? & H)).
  injection H as <-. eexists _, _, _. split_and!; [|by eapply result_map_err_ok|done]. done.
Qed.

Lemma from_entry_cases entry h :
  from_entry entry = Ok h ->
  direct_from_entry entry = Ok h \/ (forall inner c, h <> HDirect inner c).
Proof.
  unfold from_entry, socks5_from_entry, http_from_entry. intros H.
  destruct (str_eqb _ (str "direct")); [by left|right]. intros inner c ->. revert H.
  destruct (str_eqb _ (str "socks5")).
  { destruct (socks5 entry); [|done]. intros H. by apply result_bind_ok in H as (? & _ & ?). }
  destruct (str_eqb _ (str "http")); [|by destruct (str_eqb _ _)].
  destruct (http entry); [|done]. intros H. by apply result_bind_ok in H as (? & _ & ?).
Qed.

(** [custom_dial] misses no option: a direct outbound for which it is false,
    which the router lets the bare connect path dial, was built with exactly
    the options of an outbound with nothing configured. *)
Theorem custom_dial_complete entry inner :
  from_entry entry = Ok (HDirect inner false) -> Direct_with_options plain_options = Ok inner.
Proof.
  intros H. apply from_entry_cases in H as [H|H]; [|by destruct (H inner false)].
  apply direct_from_entry_ok in H as (opts & secs & i & Hk & Ho & [= -> Hc]).
  by rewrite <- (custom_dial_plain opts secs).
Qed.

Lemma or_insert_some k h m : or_insert k h m !! k <> None.
Proof. unfold or_insert. destruct (m !! k) eqn:E; [congruence|]. by rewrite lookup_insert_eq. Qed.

Lemma or_insert_keep k h m k' h' : m !! k' = Some h' -> or_insert k h m !! k' = Some h'.
Proof.
  unfold or_insert. intros H. destruct (m !! k) eqn:E; [done|].
  rewrite lookup_insert_ne; [done|]. congruence.
Qed.

Lemma AclEngine_new_outbounds config dir refresh e :
  AclEngine_new config dir refresh = Ok e ->
  exists m, load_outbounds (outbounds config) ∅ = Ok m /\ engine_outbounds e = with_builtins m.
Proof.
  unfold AclEngine_new. intros H. do 3 (apply result_bind_ok in H as (? & ? & H)).
  injection H as <-. by eexists.
Qed.

(** Of several entries of one name the last one counts. *)
Lemma load_outbounds_lookup entries m m' nm :
  load_outbounds entries m = Ok m' ->
  match list_find (fun e => name e = nm) (reverse entries) with
  | Some (_, entry) => exists h, from_entry entry = Ok h /\ m' !! nm = Some h
  | None => m' !! nm = m !! nm
  end.
Proof.
  revert m. induction entries as [|e entries IH]; intros m; simpl; [by intros [= <-]|].
  intros H. apply result_bind_ok in H as (h & Hh & H). apply IH in H.
  rewrite reverse_cons. destruct (list_find _ (reverse entries)) as [[i x]|] eqn:Ef.
  - by erewrite list_find_app_l.
  - rewrite list_find_app_r by done. simpl. destruct (decide (name e = nm)) as [<-|Hn]; simpl.
    + exists h. split; [done|]. by rewrite H, lookup_insert_eq.
    + by rewrite H, lookup_insert_ne.
Qed.

(** An engine that was built has a handler for every host, port and
    protocol: that of the first rule that matches, and the outbound named
    "direct" when none does - the configured one, or a plain one if the
    configuration has none. *)
Theorem match_host_total config dir refresh e h p proto :
  AclEngine_new config dir refresh = Ok e ->
  exists handler, match_host e h p proto = Some handler /\
  match compiled_match_host (compiled e)
          (match parse_ip h with Some ip => from_ip ip | None => from_name h end) proto p with
  | Some rule => handler = rule
  | None =>
      match list_find (fun entry => name entry = str "direct") (reverse (outbounds config)) with
      | Some (_, entry) => from_entry entry = Ok handler
      | None => handler = HDirect Direct_new false
      end
  end.
Proof.
  intros H. apply AclEngine_new_outbounds in H as (m & Hm & He). unfold match_host.
  destruct (compiled_match_host _ _ _ _) as [rule|]; [by eexists|].
  apply (load_outbounds_lookup _ _ _ (str "direct")) in Hm. rewrite He. unfold with_builtins.
  destruct (list_find _ _) as [[i entry]|].
  - destruct Hm as (hd & Hh & Hm). exists hd. split; [|done].
    by apply or_insert_keep, or_insert_keep.
  - rewrite lookup_empty in Hm.
    assert (or_insert (str "reject") (HReject Reject_new) m !! str "direct" = None) as Hn.
    { unfold or_insert. destruct (m !! str "reject"); [done|]. by rewrite lookup_insert_ne. }
    exists (HDirect Direct_new false). split; [|done].
    unfold or_insert at 1. by rewrite Hn, lookup_insert_eq.
Qed.

Lemma route_with_resolved_direct r addr resolved res dialer :
  route_addr_with_resolved r addr resolved = Direct res dialer ->
  res = resolved /\ (block_private_ip r = true -> literal_ip addr = None -> resolved <> None).
Proof.
  unfold route_addr_with_resolved. intros H.
  assert (exists dl, direct_decision r addr resolved dl = Direct res dialer) as [dl Hd].
  { destruct (match_host _ _ _ _) as [[]|]; try done; by eexists. }
  revert Hd. unfold direct_decision. destruct resolved as [ips|]; [by intros [= <- _]|].
  destruct addr as [ip p|ip p|d p]; [by intros [= <- _]..|].
  destruct (block_private_ip r); [done|]. by intros [= <- _].
Qed.

Lemma AclRouter_closed_aux r k addr resolved dialer k' :
  block_private_ip r = true -> route r k addr = (Direct resolved dialer, k') ->
  checked addr resolved /\ (literal_ip addr = None -> resolved <> None).
Proof.
  unfold route, AclRouter_route. intros Hb. rewrite Hb.
  destruct (check_private_and_resolve k addr) as [[priv ips] k1] eqn:E.
  destruct priv; [done|]. apply check_private_checked in E. intros [= H _].
  apply route_with_resolved_direct in H as [-> H]. split; [done|by apply H].
Qed.

#[export] Instance AclRouter_is_closed : ClosedRouter AclRouter Handler := {|
  closed := block_private_ip;
  route_checked := AclRouter_closed_aux
|}.

(** What the resolver's answer to query [k] and the filter say of a target: it
    is public, and [resolved] are the addresses a name was given; it has a
    private address; it is a name with no address. *)
Definition known_public (k : nat) (addr : Address) (resolved : option (list IpAddr)) : Prop :=
  match addr with
  | IPv4 ip _ => is_private_ipv4 (v4_of_octets ip) = false /\ resolved = None
  | IPv6 ip _ => is_private_ipv6 ip = false /\ resolved = None
  | Domain h p =>
      exists sas, dns k h p = Ok sas /\ sas <> [] /\ resolved = Some (map sa_ip sas)
        /\ Forall (fun sa => is_private_ip (sa_ip sa) = false) sas
  end.

Definition known_private (k : nat) (addr : Address) : Prop :=
  match addr with
  | IPv4 ip _ => is_private_ipv4 (v4_of_octets ip) = true
  | IPv6 ip _ => is_private_ipv6 ip = true
  | Domain h p => exists sas, dns k h p = Ok sas /\ Exists (fun sa => is_private_ip (sa_ip sa) = true) sas
  end.

Definition unresolved (k : nat) (addr : Address) : Prop :=
  match addr with
  | Domain h p => dns k h p = Ok [] \/ exists e, dns k h p = Err e
  | _ => False
  end.

Lemma known_public_unique k addr ips ips' : known_public k addr ips -> known_public k addr ips' -> ips = ips'.
Proof.
  destruct addr; simpl; [by intros [_ ->] [_ ->]..|].
  intros (sas & Hd & _ & -> & _) (sas' & Hd' & _ & -> & _). congruence.
Qed.

Lemma known_public_not_private k addr ips : known_public k addr ips -> ~ known_private k addr.
Proof.
  destruct addr as [ip p|ip p|h p]; simpl; [intros [-> _]; done..|].
  intros (sas & Hd & _ & _ & HF) (sas' & Hd' & HE). rewrite Hd in Hd'. injection Hd' as <-.
  apply Exists_exists in HE as (sa & Hin & Hp). rewrite Forall_forall in HF. apply HF in Hin. congruence.
Qed.

Lemma unresolved_not_private k addr : unresolved k addr -> ~ known_private k addr.
Proof.
  destruct addr; simpl; [done..|]. intros [H|[e H]] (sas & Hd & HE); [|congruence].
  rewrite H in Hd. injection Hd as <-. by inversion HE.
Qed.

Lemma unresolved_not_public k addr ips : unresolved k addr -> ~ known_public k addr ips.
Proof.
  destruct addr; simpl; [done..|]. intros [H|[e H]] (sas & Hd & Hne & _); congruence.
Qed.

(** The check tells them apart. *)
Lemma check_private_cases k addr :
  match (check_private_and_resolve k addr).1 with
  | (true, _) => known_private k addr
  | (false, Some ips) => known_public k addr (Some ips)
  | (false, None) => (literal_ip addr <> None /\ known_public k addr None) \/ unresolved k addr
  end.
Proof.
  destruct addr as [ip p|ip p|h p].
  1: simpl; destruct (is_private_ipv4 _); [done|by left].
  1: simpl; destruct (is_private_ipv6 _); [done|by left].
  rewrite check_private_and_resolve_domain. simpl. destruct (dns k h p) as [sas|e] eqn:Hd; [|eauto].
  destruct (existsb _ sas) eqn:Ex.
  - exists sas. split; [done|]. apply existsb_exists in Ex as (sa & Hin & Hp). apply Exists_exists.
    exists sa. split; [by apply list_elem_of_In|done].
  - destruct sas as [|sa sas]; [by right; left|]. apply existsb_private_false in Ex.
    rewrite Forall_map in Ex. by exists (sa :: sas).
Qed.

(** The dialer of a direct connection, where the rules give one. *)
Definition direct_rule (rule : option Handler) (dialer : option Handler) : Prop :=
  match rule with
  | Some (HDirect i true) => dialer = Some (HDirect i true)
  | Some (HDirect _ false) | None => dialer = None
  | Some _ => False
  end.

Definition is_proxy (h : Handler) : Prop :=
  match h with HSocks5 _ _ | HHttp _ => True | _ => False end.

Lemma route_with_resolved_cases r addr resolved :
  let rule := match_host (engine r) (host addr) (port addr) TCP in
  match route_addr_with_resolved r addr resolved with
  | Direct ips dialer =>
      direct_rule rule dialer /\ ips = resolved
      /\ (block_private_ip r = true -> literal_ip addr = None -> resolved <> None)
  | Proxy h => rule = Some h /\ is_proxy h
  | Reject =>
      (exists i, rule = Some (HReject i))
      \/ ((exists dialer, direct_rule rule dialer) /\ resolved = None /\ literal_ip addr = None)
  end.
Proof.
  cbv zeta. destruct (route_addr_with_resolved r addr resolved) as [ips dialer| |h] eqn:E.
  { pose proof (route_with_resolved_direct _ _ _ _ _ E) as Hr. split; [|exact Hr]. revert E.
    unfold route_addr_with_resolved, direct_decision.
    destruct (match_host _ _ _ _) as [[i []|i u|i|i]|], resolved, addr, (block_private_ip r); by intros [=]. }
  all: revert E; unfold route_addr_with_resolved, direct_decision.
  - destruct (match_host _ _ _ _) as [[i c|i u|i|i]|]; [|done..|by left; exists i|];
      destruct resolved, addr, (block_private_ip r); try done; intros _; right; split_and!; try done.
    + destruct c; by eexists.
    + by eexists.
  - destruct (match_host _ _ _ _) as [[i c|i u|i|i]|]; [|by intros [= <-]..|done|];
      by destruct resolved, addr, (block_private_ip r).
Qed.

(** C11: the decision of an ACL router that blocks private addresses, by what
    the rules say of the target's name or literal and what the resolver's
    answer and the filter say of its addresses.  It is direct just when the
    target is public and its rule is direct, or missing, with the addresses
    that were checked and the dialer of the rule; a proxy just when its rule is
    that proxy and the target has no private address as far as the resolver
    knows; and it is refused just when the target has a private address, its
    rule refuses it, or it is a name with no address whose rule is direct. *)
Theorem AclRouter_closed r k addr :
  block_private_ip r = true ->
  let rule := match_host (engine r) (host addr) (port addr) TCP in
  let decision := (route r k addr).1 in
  (forall resolved dialer,
     decision = Direct resolved dialer <-> known_public k addr resolved /\ direct_rule rule dialer)
  /\ (forall h, decision = Proxy h <-> rule = Some h /\ is_proxy h /\ ~ known_private k addr)
  /\ (decision = Reject <->
        known_private k addr \/ (exists i, rule = Some (HReject i))
        \/ (unresolved k addr /\ exists dialer, direct_rule rule dialer)).
Proof.
  intros Hb rule decision.
  pose proof (check_private_cases k addr) as Hc. unfold decision, route, AclRouter_route. rewrite Hb.
  destruct (check_private_and_resolve k addr) as [[[] ips] k']; cbn [fst] in *.
  { split_and!; [intros resolved dialer; split; [done|]|intros h; split; [done|]|split; [by left|done]].
    - intros [Hp _]. by apply known_public_not_private in Hp.
    - by intros (_ & _ & []). }
  pose proof (route_with_resolved_cases r addr ips) as Hr. cbv zeta in Hr. fold rule in Hr.
  assert (~ known_private k addr) as Hnp.
  { destruct ips; [by eapply known_public_not_private|]. destruct Hc as [[_ Hc]|Hc];
      [by eapply known_public_not_private|by apply unresolved_not_private]. }
  assert (forall res, known_public k addr res -> res = ips) as Hu.
  { intros res Hp. destruct ips; [by eapply known_public_unique|]. destruct Hc as [[_ Hc]|Hc];
      [by eapply known_public_unique|by eapply unresolved_not_public in Hp]. }
  destruct (route_addr_with_resolved r addr ips) as [res dl| |h].
  - destruct Hr as (Hd & -> & Hl). split_and!.
    + intros resolved dialer. split.
      * intros [= <- <-]. split; [|done]. destruct ips; [done|]. destruct Hc as [[_ Hc]|Hc]; [done|].
        destruct addr; [done..|]. by destruct (Hl Hb eq_refl).
      * intros [Hp Hd']. apply Hu in Hp as ->. f_equal. revert Hd Hd'.
        destruct rule as [[i []| | |]|]; simpl; try done; by intros -> ->.
    + intros h. split; [done|]. intros (-> & Hp & _). destruct h as [? []| | |]; done.
    + split; [done|]. intros [?|[[i ->]|[Hun _]]]; [done..|]. exfalso.
      destruct ips; [by eapply unresolved_not_public in Hc|]. destruct addr; [done..|].
      by apply (Hl Hb eq_refl).
  - split_and!; [intros; split; [done|]|intros; split; [done|]|split; [|done]].
    + intros [Hp Hd]. pose proof (Hu _ Hp) as Hres. destruct Hr as [[i Hr]|(_ & Hn & Hl)].
      * by rewrite Hr in Hd.
      * destruct addr; [done..|]. destruct Hp as (sas & _ & _ & Hp & _). congruence.
    + intros (Hh & Hp & _). destruct Hr as [[i Hr]|([dl Hd] & _)].
      * rewrite Hr in Hh. injection Hh as <-. done.
      * rewrite Hh in Hd. by destruct h as [? []| | |].
    + intros _. destruct Hr as [Hr|(Hd & -> & Hl)]; [by right; left|]. right. right.
      split; [|done]. by destruct Hc as [[? _]|].
  - destruct Hr as [Hr Hp]. split_and!.
    + intros. split; [done|]. intros [_ Hd]. rewrite Hr in Hd. by destruct h as [? []| | |].
    + intros h'. split; [by intros [= <-]|]. intros (Hh & _). congruence.
    + split; [done|]. intros [?|[[i Hi]|(_ & dl & Hd)]]; [done|..].
      * rewrite Hr in Hi. injection Hi as ->. done.
      * rewrite Hr in Hd. by destruct h as [? []| | |].
Qed.

(** The address check has a hole: an IPv4-mapped literal such as
    [::ffff:127.0.0.1] is never private, so a router that blocks private
    addresses sends it on the direct path (with no rule that says otherwise),
    to the loopback interface or the private network of the host. *)
Theorem route_mapped_loopback r k v4 p :
  block_private_ip r = true ->
  match_host (engine r) (show_ipv6 (mapped_prefix ++ v4_octets v4)) p TCP = Some (HDirect Direct_new false) ->
  route r k (IPv6 (mapped_prefix ++ v4_octets v4) p) = (Direct None None, k).
Proof.
  intros Hb Hm. unfold route, AclRouter_route. rewrite Hb. unfold check_private_and_resolve.
  assert (is_private_ipv6 (mapped_prefix ++ v4_octets v4) = false) as ->.
  { unfold is_private_ipv6, v6_is_loopback. by rewrite bool_decide_eq_false_2. }
  unfold route_addr_with_resolved. unfold host, port. by rewrite Hm.
Qed.
End Acl.

(** ** Witnesses *)

(** A library whose rule sets are one handler for every host. *)
Definition one_rule (h : OutboundHandler DirectOptions rstr rstr unit) : AclEngineRs := {|
  DirectT := DirectOptions;
  Socks5T := rstr;
  HttpT := rstr;
  RejectT := unit;
  RuleSet := rstr;
  Compiled := rstr;
  Direct_new := plain_options;
  Direct_with_options := fun o => Ok o;
  Socks5_new := fun a => a;
  Socks5_with_auth := fun a _ _ => Ok a;
  Http_new := fun a => a;
  Http_try_new := fun a _ => Ok a;
  Http_with_auth := fun h _ _ => h;
  Reject_new := tt;
  parse_rules := fun t => Ok t;
  compile := fun rs _ _ _ => Ok rs;
  compiled_match_host := fun _ _ _ _ => Some h;
  compiled_rule_count := fun _ => 1
|}.

Definition no_sockets : TestSockets := {|
  socket_new := Ok tt; socket_bind := fun _ => Ok tt; socket_bind_device := fun _ => Ok tt |}.

Definition plain_rule : AclEngineRs := one_rule (HDirect plain_options false).

Definition direct_entry : OutboundEntry := {|
  name := str "plain"; outbound_type := str "direct"; socks5 := None; http := None;
  direct := Some DirectConfig_default |}.

Lemma custom_dial_complete_witness :
  @Direct_with_options plain_rule plain_options = Ok plain_options.
Proof.
  apply (@custom_dial_complete plain_rule no_sockets direct_entry). vm_compute. reflexivity.
Defined.

Definition acl_ex : AclConfig := {| outbounds := [direct_entry]; inline := [] |}.

Definition engine_ex : @AclEngine plain_rule :=
  @Build_AclEngine plain_rule (str "direct(all)")
    (@with_builtins plain_rule {[str "plain" := HDirect plain_options false]}).

Definition router_ex : @AclRouter plain_rule := @Build_AclRouter plain_rule engine_ex true.

Lemma match_host_total_witness :
  exists handler, @match_host plain_rule engine_ex (str "example.com") 443 TCP = Some handler
    /\ handler = HDirect plain_options false.
Proof.
  apply (@match_host_total plain_rule no_sockets acl_ex None false engine_ex
    (str "example.com") 443 TCP).
  vm_compute. reflexivity.
Defined.

Lemma route_mapped_loopback_witness :
  @route _ _ (@AclRouter_route plain_rule dns_ex) router_ex 0
    (IPv6 (mapped_prefix ++ [127; 0; 0; 1]%Z) 80) = (Direct None None, 0).
Proof.
  apply (@route_mapped_loopback plain_rule dns_ex router_ex 0 (IPv4addr 127 0 0 1) 80); reflexivity.
Defined.

(** A name with two public addresses, one that has a private address at this
    query, and one that the resolver does not know. *)
Lemma AclRouter_closed_witness :
  let decision k h := (@route _ _ (@AclRouter_route plain_rule dns_ex) router_ex k (Domain h 443)).1 in
  decision 0 (str "example.com")
    = Direct (Some [V4 (IPv4addr 93 184 216 34); V4 (IPv4addr 93 184 216 35)]) None
  /\ decision 1 (str "rebind.example") = Reject
  /\ decision 0 (str "nowhere.example") = Reject.
Proof.
  intros decision. split_and!.
  - apply (@AclRouter_closed plain_rule dns_ex router_ex 0 (Domain (str "example.com") 443) eq_refl).
    split; [|exact eq_refl]. eexists. split_and!; [exact eq_refl|done|exact eq_refl|by repeat constructor].
  - apply (@AclRouter_closed plain_rule dns_ex router_ex 1 (Domain (str "rebind.example") 443) eq_refl).
    left. eexists. split; [exact eq_refl|]. by repeat constructor.
  - apply (@AclRouter_closed plain_rule dns_ex router_ex 0 (Domain (str "nowhere.example") 443) eq_refl).
    right. right. split; [right; eexists; exact eq_refl|]. exists None. exact eq_refl.
Defined.
