(* ===== verification/Connect.v ===== *)
(** * [src/handler.rs], second half: the outbound connections

    [connect_one], [connect_ip_list] and [connect_direct] dial with the
    operating system's [tcp_connect]; [handle_direct_connect] and
    [handle_proxy_connect] up to their relay.  The run keeps the number of
    queries made to the resolver and the list of addresses dialled. *)

From S2P Require Import Prelude RustStr RustNet Address IpFilter Routing Acl.
Open Scope nat_scope.

Definition TCP_KEEPALIVE_SECS : Z := 15.

(** A connected [TcpStream] with the options set on it. *)
Record TcpStream : Type := mkStream {
  peer : SocketAddr;
  nodelay : bool;
  keepalive : option (Z * Z)
}.

(** What [timeout(t, TcpStream::connect(addr))] comes to. *)
Inductive connect_outcome : Type := Connected | Refused (e : io_error) | Elapsed.

(** The network: the outcome of the [k]-th attempt, within the timeout. *)
Class Network := tcp_connect : nat -> SocketAddr -> Z -> connect_outcome.

Record Dial : Type := mkDial { queries : nat; attempts : list SocketAddr }.

(** The configuration the connect path reads. *)
Record ConnectConfig : Type := { tcp_nodelay : bool; connect_timeout : Z }.

(** [acl_engine_rs]'s address, with what was resolved for it, and its dialers. *)
Record ResolveInfo : Type := { ri_ipv4 : option Ipv4Addr; ri_ipv6 : option bytes }.

Record AclAddr : Type := { aa_host : rstr; aa_port : Z; aa_resolve_info : option ResolveInfo }.

Class Dialer (Hnd Strm : Type) := {
  ResolveInfo_new : ResolveInfo;
  dial_tcp : Hnd -> AclAddr -> Z -> option (result Strm rstr)
}.

(** [AsyncOutbound for OutboundHandler]: the outbound's own dialler, a stream or
    a datagram association ([udp]). *)
Class OutboundDial (D S H R Conn : Type) := {
  direct_dial : bool -> D -> AclAddr -> Z -> option (result Conn rstr);
  socks5_dial : bool -> S -> AclAddr -> Z -> option (result Conn rstr);
  http_dial : bool -> H -> AclAddr -> Z -> option (result Conn rstr);
  reject_dial : bool -> R -> AclAddr -> Z -> option (result Conn rstr);
  outbound_resolve_info : ResolveInfo
}.

Definition OutboundHandler_dial {D S H R Conn} `{!OutboundDial D S H R Conn} (udp : bool)
    (h : OutboundHandler D S H R) (addr : AclAddr) (t : Z) : option (result Conn rstr) :=
  match h with
  | HDirect inner _ => direct_dial udp inner addr t
  | HSocks5 inner _ => socks5_dial udp inner addr t
  | HHttp h => http_dial udp h addr t
  | HReject r => reject_dial udp r addr t
  end.

(** The handlers of the ACL router are dialers of the connect path. *)
Definition OutboundHandler_dialer {D S H R Conn} `{!OutboundDial D S H R Conn}
    : Dialer (OutboundHandler D S H R) Conn := {|
  ResolveInfo_new := outbound_resolve_info;
  dial_tcp := OutboundHandler_dial false
|}.

Section Connect.
Context {cache : DnsCache} {fmt : DebugDuration} {net : Network}.

Definition apply_socket_opts (s : TcpStream) (tcp_nodelay : bool) : TcpStream :=
  {| peer := peer s;
     nodelay := if tcp_nodelay then true else nodelay s;
     keepalive := Some (TCP_KEEPALIVE_SECS, TCP_KEEPALIVE_SECS) |}.

Definition timed_out : io_error := mk_io_error TimedOut (str "connect timeout").

Definition connect_one (addr : SocketAddr) (tcp_nodelay : bool) (timeout : Z) (st : Dial)
    : io_result TcpStream * Dial :=
  let outcome := tcp_connect (length (attempts st)) addr timeout in
  let st := {| queries := queries st; attempts := attempts st ++ [addr] |} in
  (match outcome with
   | Connected => Ok (apply_socket_opts {| peer := addr; nodelay := false; keepalive := None |} tcp_nodelay)
   | Refused e => Err e
   | Elapsed => Err timed_out
   end, st).

Fixpoint connect_ip_list_from (last_err : option io_error) (ips : list IpAddr) (port : Z)
    (tcp_nodelay : bool) (per_addr_timeout : Z) (st : Dial) : io_result TcpStream * Dial :=
  match ips with
  | [] =>
      (Err (match last_err with
            | Some e => e
            | None => io_other (str "no resolved addresses to connect")
            end), st)
  | ip :: ips =>
      match connect_one (SocketAddr_new ip port) tcp_nodelay per_addr_timeout st with
      | (Ok s, st) => (Ok s, st)
      | (Err e, st) => connect_ip_list_from (Some e) ips port tcp_nodelay per_addr_timeout st
      end
  end.

Definition connect_ip_list := connect_ip_list_from None.

Definition connect_direct (cfg : ConnectConfig) (target : Address) (resolved : option (list IpAddr))
    (st : Dial) : io_result TcpStream * Dial :=
  let by_target :=
    let '(remote_addr, k) := resolve_socket_addr (queries st) target in
    let st := {| queries := k; attempts := attempts st |} in
    match remote_addr with
    | Err e => (Err e, st)
    | Ok addr => connect_one addr (tcp_nodelay cfg) (connect_timeout cfg) st
    end in
  match resolved with
  | Some ips =>
      if negb (is_empty ips)
      then connect_ip_list ips (port target) (tcp_nodelay cfg) (connect_timeout cfg) st
      else by_target
  | None => by_target
  end.

(** *** [resolve_info_from_ips] *)

Definition add_resolved (info : ResolveInfo) (ip : IpAddr) : ResolveInfo :=
  match ip with
  | V4 v4 => match ri_ipv4 info with
             | None => {| ri_ipv4 := Some v4; ri_ipv6 := ri_ipv6 info |}
             | Some _ => info
             end
  | V6 v6 => match ri_ipv6 info with
             | None => {| ri_ipv4 := ri_ipv4 info; ri_ipv6 := Some v6 |}
             | Some _ => info
             end
  end.

Context {Hnd Strm : Type} `{!Dialer Hnd Strm}.

Definition resolve_info_from_ips (ips : list IpAddr) : ResolveInfo :=
  fold_left add_resolved ips ResolveInfo_new.

(** The address [handle_direct_connect] hands to a dialer. *)
Definition direct_acl_addr (target : Address) (resolved : option (list IpAddr)) : AclAddr :=
  {| aa_host := host target; aa_port := port target;
     aa_resolve_info := match resolved with
                        | Some ips => Some (resolve_info_from_ips ips)
                        | None => None
                        end |}.

(** The remote stream of a tunnel: our own, or the handler's. *)
Inductive remote : Type := Plain (s : TcpStream) | Handled (s : Strm).

(** [handle_direct_connect] and [handle_proxy_connect] up to [relay]; errors are
    their messages. *)
Definition handle_direct_connect (cfg : ConnectConfig) (target : Address)
    (resolved : option (list IpAddr)) (dialer : option Hnd) (st : Dial)
    : result remote rstr * Dial :=
  match dialer with
  | Some handler =>
      (match dial_tcp handler (direct_acl_addr target resolved) (connect_timeout cfg) with
       | Some (Ok s) => Ok (Handled s)
       | Some (Err e) => Err (str "Direct connect failed: " ++ e)
       | None => Err (str "Direct connect timeout")
       end, st)
  | None =>
      match connect_direct cfg target resolved st with
      | (Ok s, st) => (Ok (Plain s), st)
      | (Err e, st) => (Err (emsg e), st)
      end
  end.

Definition handle_proxy_connect (cfg : ConnectConfig) (target : Address) (handler : Hnd)
    : result remote rstr :=
  match dial_tcp handler {| aa_host := host target; aa_port := port target; aa_resolve_info := None |}
          (connect_timeout cfg) with
  | Some (Ok s) => Ok (Handled s)
  | Some (Err e) => Err (str "Proxy connect failed: " ++ e)
  | None => Err (str "Proxy connect timeout")
  end.

(** ** Lemmas *)

(** The outcome of one attempt, as the result of [connect_one]. *)
Definition attempt (tcp_nodelay : bool) (timeout : Z) (k : nat) (addr : SocketAddr) : io_result TcpStream :=
  match tcp_connect k addr timeout with
  | Connected => Ok (apply_socket_opts {| peer := addr; nodelay := false; keepalive := None |} tcp_nodelay)
  | Refused e => Err e
  | Elapsed => Err timed_out
  end.

Lemma connect_one_eq addr nd t st :
  connect_one addr nd t st
  = (attempt nd t (length (attempts st)) addr,
     {| queries := queries st; attempts := attempts st ++ [addr] |}).
Proof. done. Qed.

(** The dialled addresses are a prefix of the list; the last attempt is the one
    that succeeded, or the list is used up and its last error is the result. *)
Lemma connect_ip_list_from_spec last ips p nd t st :
  let '(r, st') := connect_ip_list_from last ips p nd t st in
  queries st' = queries st /\ exists n, n <= length ips
  /\ attempts st' = attempts st ++ map (fun ip => SocketAddr_new ip p) (take n ips)
  /\ match r with
     | Ok s => exists ip, ips !! pred n = Some ip /\ 0 < n /\ peer s = SocketAddr_new ip p
         /\ attempt nd t (length (attempts st) + pred n) (SocketAddr_new ip p) = Ok s
         /\ forall i ip, i < pred n -> ips !! i = Some ip ->
            is_err (attempt nd t (length (attempts st) + i) (SocketAddr_new ip p)) = true
     | Err e => n = length ips
         /\ (forall i ip, ips !! i = Some ip ->
             is_err (attempt nd t (length (attempts st) + i) (SocketAddr_new ip p)) = true)
         /\ match ips with
            | [] => last = Some e \/ (last = None /\ e = io_other (str "no resolved addresses to connect"))
            | _ => exists ip, ips !! pred n = Some ip
                /\ attempt nd t (length (attempts st) + pred n) (SocketAddr_new ip p) = Err e
            end
     end.
Proof.
  revert last st. induction ips as [|ip ips IH]; intros last st; cbn [connect_ip_list_from].
  { split; [done|]. exists 0. simpl. rewrite app_nil_r. split_and!; try done.
    destruct last; [by left|by right]. }
  rewrite connect_one_eq. destruct (attempt nd t _ _) as [s|e] eqn:Ea.
  - split; [done|]. exists 1. simpl. split_and!; try done; [lia|].
    exists ip. rewrite Nat.add_0_r. split_and!; try done; [lia| |lia].
    unfold attempt in Ea. destruct (tcp_connect _ _ _); [by injection Ea as <-|done..].
  - specialize (IH (Some e) {| queries := queries st; attempts := attempts st ++ [SocketAddr_new ip p] |}).
    destruct (connect_ip_list_from _ _ _ _ _ _) as [r st']. destruct IH as (Hq & n & Hn & Hat & Hr).
    split; [done|]. exists (1 + n). cbn [attempts queries] in *. split; [simpl; lia|].
    split; [by rewrite Hat, <- app_assoc|].
    rewrite length_app in Hr. cbn [length] in Hr.
    destruct r as [s|e'].
    + destruct Hr as (ip' & Hip & Hpos & Hpeer & Hok & Hfail). exists ip'.
      destruct n as [|n]; [lia|]. simpl in *. split_and!; try done; [lia| |].
      * by replace (length (attempts st) + S n) with (length (attempts st) + 1 + n) by lia.
      * intros [|i] ip0 Hi; simpl; [intros [= <-]; rewrite Nat.add_0_r; by rewrite Ea|].
        intros Hl. replace (length (attempts st) + S i) with (length (attempts st) + 1 + i) by lia.
        apply Hfail; [lia|done].
    + destruct Hr as (-> & Hfail & Hlast). split_and!; [done| |].
      * intros [|i] ip0; simpl; [intros [= <-]; rewrite Nat.add_0_r; by rewrite Ea|].
        intros Hl. replace (length (attempts st) + S i) with (length (attempts st) + 1 + i) by lia.
        by apply Hfail.
      * destruct ips as [|ip2 ips]; simpl in *.
        -- exists ip. rewrite Nat.add_0_r. destruct Hlast as [[= ->]|[? _]]; [by split|done].
        -- destruct Hlast as (ip' & Hip & He). exists ip'. split; [done|].
           by replace (length (attempts st) + S (length ips)) with (length (attempts st) + 1 + length ips) by lia.
Qed.

Definition public_addr (sa : SocketAddr) : Prop := is_private_ip (sa_ip sa) = false.

(** Whatever the resolver and the network do, a plain direct connection for
    checked addresses dials public addresses only, and asks the resolver
    nothing. *)
Lemma connect_direct_public cfg target resolved r st st' :
  checked target resolved -> (literal_ip target = None -> resolved <> None) ->
  connect_direct cfg target resolved st = (r, st') ->
  Forall public_addr (attempts st) -> Forall public_addr (attempts st') /\ queries st' = queries st.
Proof.
  intros [Hlit Hpub] Hdom. unfold connect_direct.
  destruct resolved as [ips|].
  - destruct (Hpub ips eq_refl) as [Hne Hips]. replace (is_empty ips) with false by by destruct ips.
    cbn [negb]. unfold connect_ip_list.
    pose proof (connect_ip_list_from_spec None ips (port target) (tcp_nodelay cfg) (connect_timeout cfg) st) as Hs.
    destruct (connect_ip_list_from _ _ _ _ _ _) as [r' st1]. intros [= <- <-] Hst.
    destruct Hs as (Hq & n & _ & Hat & _). split; [|done]. rewrite Hat. apply Forall_app.
    split; [done|]. apply Forall_map. apply Forall_take. done.
  - destruct (literal_ip target) as [ip|] eqn:El; [|by destruct (Hdom eq_refl)].
    destruct (Hlit ip eq_refl) as [Hp _].
    assert (exists p, resolve_socket_addr (queries st) target = (Ok (SocketAddr_new ip p), queries st))
      as [p ->] by (destruct target; simplify_eq/=; by eexists).
    rewrite connect_one_eq. intros [= <- <-] Hst. simpl. split; [|done].
    apply Forall_app. split; [done|]. by constructor.
Qed.

(** *** What a dialer is given *)

Fixpoint first_v4 (ips : list IpAddr) : option Ipv4Addr :=
  match ips with [] => None | V4 a :: _ => Some a | V6 _ :: ips => first_v4 ips end.

Fixpoint first_v6 (ips : list IpAddr) : option bytes :=
  match ips with [] => None | V6 o :: _ => Some o | V4 _ :: ips => first_v6 ips end.

Lemma add_resolved_first ips info :
  fold_left add_resolved ips info =
  {| ri_ipv4 := match ri_ipv4 info with Some a => Some a | None => first_v4 ips end;
     ri_ipv6 := match ri_ipv6 info with Some o => Some o | None => first_v6 ips end |}.
Proof.
  revert info. induction ips as [|[a|o] ips IH]; intros [i4 i6]; cbn [fold_left].
  - by destruct i4, i6.
  - rewrite IH. by destruct i4.
  - rewrite IH. by destruct i6.
Qed.

Lemma first_v4_in ips a : first_v4 ips = Some a -> V4 a ∈ ips.
Proof.
  induction ips as [|[b|o] ips IH]; simpl; [done|intros [= ->]; by left|].
  intros H. right. by apply IH.
Qed.

Lemma first_v6_in ips o : first_v6 ips = Some o -> V6 o ∈ ips.
Proof.
  induction ips as [|[b|x] ips IH]; simpl; [done| |intros [= ->]; by left].
  intros H. right. by apply IH.
Qed.

Lemma first_some ips : ips <> [] -> first_v4 ips <> None \/ first_v6 ips <> None.
Proof. destruct ips as [|[a|o] ips]; [done|by left|by right]. Qed.

(** ** Properties *)

(** C26: the attempts of [connect_ip_list] are the addresses of the list in
    order, up to the first that connects; with the options of the
    configuration set on that stream; and if none connects the error is that of
    the last attempt. *)
Theorem connect_ip_list_spec ips p nd t st :
  let '(r, st') := connect_ip_list ips p nd t st in
  queries st' = queries st /\ exists n, n <= length ips
  /\ attempts st' = attempts st ++ map (fun ip => SocketAddr_new ip p) (take n ips)
  /\ match r with
     | Ok s => exists ip, ips !! pred n = Some ip /\ 0 < n /\ peer s = SocketAddr_new ip p
         /\ attempt nd t (length (attempts st) + pred n) (SocketAddr_new ip p) = Ok s
         /\ forall i ip, i < pred n -> ips !! i = Some ip ->
            is_err (attempt nd t (length (attempts st) + i) (SocketAddr_new ip p)) = true
     | Err e => n = length ips
         /\ (forall i ip, ips !! i = Some ip ->
             is_err (attempt nd t (length (attempts st) + i) (SocketAddr_new ip p)) = true)
         /\ match ips with
            | [] => e = io_other (str "no resolved addresses to connect")
            | _ => exists ip, ips !! pred n = Some ip
                /\ attempt nd t (length (attempts st) + pred n) (SocketAddr_new ip p) = Err e
            end
     end.
Proof.
  unfold connect_ip_list. pose proof (connect_ip_list_from_spec None ips p nd t st) as Hs.
  destruct (connect_ip_list_from _ _ _ _ _ _) as [r st']. destruct Hs as (Hq & n & Hn & Hat & Hr).
  split; [done|]. exists n. split_and!; try done. destruct r as [s|e]; [done|].
  destruct Hr as (? & ? & Hl). split_and!; try done. destruct ips; [|done].
  by destruct Hl as [|[_ ?]].
Qed.

(** No request reaches a private address through the server: whatever the
    resolver answers to each query and whatever the network does, when the
    router is closed and answers [Direct] without a dialer, every address the
    server dials is public, and no name is resolved a second time. *)
Theorem direct_tunnel_public {Rt Hd} `{ClosedRouter Rt Hd} (rt : Rt) k target resolved k' cfg r st' :
  closed rt = true -> route rt k target = (Direct resolved (@None Hd), k') ->
  connect_direct cfg target resolved {| queries := k'; attempts := [] |} = (r, st') ->
  Forall public_addr (attempts st') /\ queries st' = k'.
Proof.
  intros Hc Hr Hd'. apply route_checked in Hr as [Hck Hdom]; [|done].
  by eapply connect_direct_public in Hd'.
Qed.

(** And when it answers [Direct] with a dialer for a name, the dialer is
    given, with the name, one checked address of each family there is (the
    first of that family) and at least one, so that it need not resolve. *)
Theorem dialer_given_checked {Rt Hd} `{ClosedRouter Rt Hd} (rt : Rt) k target resolved dialer k' :
  ResolveInfo_new = {| ri_ipv4 := None; ri_ipv6 := None |} ->
  closed rt = true -> route rt k target = (Direct resolved (Some dialer), k') ->
  literal_ip target = None ->
  exists info ips, resolved = Some ips
    /\ aa_resolve_info (direct_acl_addr target resolved) = Some info
    /\ ri_ipv4 info = first_v4 ips /\ ri_ipv6 info = first_v6 ips
    /\ (ri_ipv4 info <> None \/ ri_ipv6 info <> None)
    /\ (forall a, ri_ipv4 info = Some a -> is_private_ipv4 a = false)
    /\ (forall o, ri_ipv6 info = Some o -> is_private_ipv6 o = false).
Proof.
  intros Hnew Hc Hr Hlit. apply route_checked in Hr as [[_ Hpub] Hdom]; [|done].
  destruct resolved as [ips|]; [|by destruct (Hdom Hlit)].
  destruct (Hpub ips eq_refl) as [Hne Hips]. rewrite Forall_forall in Hips.
  eexists _, ips. split; [done|]. split; [done|].
  unfold resolve_info_from_ips. rewrite Hnew, add_resolved_first. cbn [ri_ipv4 ri_ipv6].
  split_and!; [done|done|by apply first_some| |].
  - intros a Ha. apply (Hips (V4 a)). by apply first_v4_in.
  - intros o Ho. apply (Hips (V6 o)). by apply first_v6_in.
Qed.
End Connect.

(** ** Witnesses *)

(** A network where every other attempt is refused. *)
Definition net_ex : Network := fun k _ _ =>
  if Nat.even k then Refused (mk_io_error (OtherKind 111) (str "refused")) else Connected.

Definition cfg_ex : ConnectConfig := {| tcp_nodelay := true; connect_timeout := 5 |}.

(** The resolver gives this name a private address at its second query. *)
Lemma direct_tunnel_public_witness :
  Forall public_addr [SocketAddr_new (V4 (IPv4addr 8 8 8 8)) 443] /\ 1 = 1.
Proof.
  apply (@direct_tunnel_public dns_ex (fun _ => []) net_ex DirectRouter unit
    (@DirectRouter_route dns_ex unit) (@DirectRouter_is_closed dns_ex unit)
    {| dr_block_private_ip := true |} 0 (Domain (str "rebind.example") 443)
    (Some [V4 (IPv4addr 8 8 8 8)]) 1 cfg_ex
    (Err (mk_io_error (OtherKind 111) (str "refused")))
    {| queries := 1; attempts := [SocketAddr_new (V4 (IPv4addr 8 8 8 8)) 443] |});
    vm_compute; reflexivity.
Defined.

(** A rule that sends every host through a direct outbound with options. *)
Definition bound_rule : AclEngineRs := one_rule (HDirect plain_options true).

Definition bound_router : @AclRouter bound_rule :=
  @Build_AclRouter bound_rule (@Build_AclEngine bound_rule (str "bound(all)") ∅) true.

Definition dialer_ex : Dialer (@Handler bound_rule) unit := {|
  ResolveInfo_new := {| ri_ipv4 := None; ri_ipv6 := None |};
  dial_tcp := fun _ _ _ => Some (Ok tt)
|}.

Lemma dialer_given_checked_witness :
  exists info ips,
    Some [V4 (IPv4addr 93 184 216 34); V4 (IPv4addr 93 184 216 35)] = Some ips
    /\ aa_resolve_info (@direct_acl_addr _ _ dialer_ex (Domain (str "example.com") 443)
         (Some [V4 (IPv4addr 93 184 216 34); V4 (IPv4addr 93 184 216 35)])) = Some info
    /\ ri_ipv4 info = first_v4 ips /\ ri_ipv6 info = first_v6 ips
    /\ (ri_ipv4 info <> None \/ ri_ipv6 info <> None)
    /\ (forall a, ri_ipv4 info = Some a -> is_private_ipv4 a = false)
    /\ (forall o, ri_ipv6 info = Some o -> is_private_ipv6 o = false).
Proof.
  apply (@dialer_given_checked _ _ dialer_ex (@AclRouter bound_rule) (@Handler bound_rule)
    (@AclRouter_route bound_rule dns_ex) (@AclRouter_is_closed bound_rule dns_ex)
    bound_router 0 (Domain (str "example.com") 443) _ (HDirect plain_options true) 1);
    vm_compute; reflexivity.
Defined.
