(* ===== verification/Uot.v ===== *)
(** * [src/uot.rs]: UDP over TCP

    [Codec] is the parsing and printing of addresses and packets, over the bytes
    the client's stream still has to deliver (a read waits for its bytes; it
    fails if the stream ends first); [Session] is [handle_uot_stream]: the
    request, and the two loops as a step relation whose nondeterminism is that
    of [tokio::select!]. *)

From S2P Require Import Prelude RustStr RustNet AsyncIo Address Routing.
Open Scope nat_scope.

Definition MAGIC_V2 : rstr := str "sp.v2.udp-over-tcp.arpa".
Definition MAGIC_V1 : rstr := str "sp.udp-over-tcp.arpa".

Inductive UotVersion : Type := UotV1 | UotV2.

#[export] Instance UotVersion_eq_dec : EqDecision UotVersion.
Proof. solve_decision. Defined.

Definition detect_uot (host : rstr) : option UotVersion :=
  if eq_ignore_ascii_case host MAGIC_V2 then Some UotV2
  else if eq_ignore_ascii_case host MAGIC_V1 then Some UotV1
  else None.

(** ** Reading *)

(** An error: of the stream or the socket, or one with a message. *)
Inductive uot_error : Type := Io (e : io_error) | Msg (m : rstr).

Definition eof_error : uot_error := Io (mk_io_error UnexpectedEof (str "early eof")).

(** A reader: what it returns and the bytes left. *)
Definition reader (A : Type) : Type := bytes -> result (A * bytes) uot_error.

Definition read_exact (n : nat) : reader bytes := fun s =>
  if length s <? n then Err eof_error else Ok (take n s, drop n s).

Definition read_u8 : reader Z := fun s =>
  match s with b :: s => Ok (b, s) | [] => Err eof_error end.

Definition read_u16 : reader Z := fun s =>
  match s with a :: b :: s => Ok ((a * 256 + b)%Z, s) | _ => Err eof_error end.

Definition show_octets (ip : bytes) : rstr :=
  show_dec (nth 0 ip 0%Z) ++ str "." ++ show_dec (nth 1 ip 0%Z) ++ str "."
  ++ show_dec (nth 2 ip 0%Z) ++ str "." ++ show_dec (nth 3 ip 0%Z).

Definition read_socks_addr : reader (rstr * Z) := fun s =>
  let? (ty, s) := read_u8 s in
  if (ty =? 1)%Z then
    let? (ip, s) := read_exact 4 s in
    let? (port, s) := read_u16 s in
    Ok ((show_octets ip, port), s)
  else if (ty =? 4)%Z then
    let? (ip, s) := read_exact 16 s in
    let? (port, s) := read_u16 s in
    Ok ((show_ipv6 ip, port), s)
  else if (ty =? 3)%Z then
    let? (len, s) := read_u8 s in
    let? (domain, s) := read_exact (Z.to_nat len) s in
    let? (port, s) := read_u16 s in
    match from_utf8 domain with
    | Some domain => Ok ((domain, port), s)
    | None => Err (Msg (str "invalid FQDN in UoT request"))
    end
  else Err (Msg (str "unknown SocksaddrSerializer type: 0x" ++ show_hex ty)).

Definition read_addr_parser : reader (rstr * Z) := fun s =>
  let? (ty, s) := read_u8 s in
  if (ty =? 0)%Z then
    let? (ip, s) := read_exact 4 s in
    let? (port, s) := read_u16 s in
    Ok ((show_octets ip, port), s)
  else if (ty =? 1)%Z then
    let? (ip, s) := read_exact 16 s in
    let? (port, s) := read_u16 s in
    Ok ((show_ipv6 ip, port), s)
  else if (ty =? 2)%Z then
    let? (len, s) := read_u8 s in
    let? (domain, s) := read_exact (Z.to_nat len) s in
    let? (port, s) := read_u16 s in
    match from_utf8 domain with
    | Some domain => Ok ((domain, port), s)
    | None => Err (Msg (str "invalid FQDN in UoT packet"))
    end
  else Err (Msg (str "unknown AddrParser type: 0x" ++ show_hex ty)).

(** ** Writing: the buffers given to [write_all], in order *)

Definition u16_be (v : Z) : bytes := [(v / 256) mod 256; v mod 256]%Z.

Definition write_addr_parser (addr : SocketAddr) : list bytes :=
  match sa_ip addr with
  | V4 ip => [[0%Z]; v4_octets ip; u16_be (sa_port addr)]
  | V6 ip => [[1%Z]; ip; u16_be (sa_port addr)]
  end.

Definition write_uot_packet (from : SocketAddr) (data : bytes) (is_connect : bool) : list bytes :=
  (if is_connect then [] else write_addr_parser from)
  ++ [u16_be (Z.of_nat (length data)); data].

(** ** Resolution *)

Section Resolve.
Context {cache : DnsCache}.
(** [Display] of [DnsError]. *)
Variable show_dns_error : DnsError -> rstr.

Definition resolve_host (k : nat) (host : rstr) (port : Z) : result SocketAddr uot_error * nat :=
  match parse_ip host with
  | Some ip => (Ok (SocketAddr_new ip port), k)
  | None =>
      (match dns k host port with
       | Err e => Err (Msg (str "DNS error for " ++ host ++ str ": " ++ show_dns_error e))
       | Ok [] => Err (Msg (str "no address for " ++ host))
       | Ok (sa :: _) => Ok sa
       end, S k)
  end.

(** ** The input direction *)

(** The socket: the result of the [k]-th send, to the connected peer or to an
    address. *)
Variable udp_send : nat -> option SocketAddr -> bytes -> io_result nat.

(** What the loop changes: the bytes to read, the queries made, the datagrams
    sent and the bytes recorded as uploaded. *)
Record InState : Type := mkIn {
  inp : bytes;
  in_queries : nat;
  sent : list (option SocketAddr * bytes);
  uploaded : list Z
}.

Definition dest_of (is_connect : bool) (st : InState)
    : result (option SocketAddr) uot_error * InState :=
  if is_connect then (Ok None, st)
  else
    match read_addr_parser (inp st) with
    | Err e => (Err e, st)
    | Ok ((host, port), s) =>
        let '(r, k) := resolve_host (in_queries st) host port in
        let st := mkIn s k (sent st) (uploaded st) in
        (match r with Ok sa => Ok (Some sa) | Err e => Err e end, st)
    end.

(** The future [next]: one packet. *)
Definition input_next (is_connect : bool) (st : InState) : result unit uot_error * InState :=
  match dest_of is_connect st with
  | (Err e, st) => (Err e, st)
  | (Ok dest, st) =>
      match read_u16 (inp st) with
      | Err e => (Err e, st)
      | Ok (len, s) =>
          let st := mkIn s (in_queries st) (sent st) (uploaded st) in
          if (len =? 0)%Z then (Ok tt, st)
          else
            match read_exact (Z.to_nat len) s with
            | Err e => (Err e, st)
            | Ok (payload, s) =>
                match udp_send (length (sent st)) dest payload with
                | Err e => (Err (Io e), mkIn s (in_queries st) (sent st) (uploaded st))
                | Ok n =>
                    (Ok tt, mkIn s (in_queries st) (sent st ++ [(dest, payload)])
                              (uploaded st ++ [Z.of_nat n]))
                end
            end
      end
  end.

(** The request of version 2: [is_connect] and the fixed destination. *)
Definition read_request (version : UotVersion) (k : nat)
    : reader (bool * option SocketAddr * nat) := fun s =>
  match version with
  | UotV1 => Ok ((false, None, k), s)
  | UotV2 =>
      let? (b, s) := read_u8 s in
      let is_connect := negb (b =? 0)%Z in
      let? ((host, port), s) := read_socks_addr s in
      if is_connect then
        match resolve_host k host port with
        | (Ok sa, k) => Ok ((true, Some sa, k), s)
        | (Err e, _) => Err e
        end
      else Ok ((false, None, k), s)
  end.
End Resolve.

(** ** Lemmas *)

#[local] Arguments read_exact : simpl never.
#[local] Arguments u16_be : simpl never.
#[local] Arguments read_u16 : simpl never.
#[local] Arguments v4_octets : simpl never.

Lemma read_exact_app n s r : length s = n -> read_exact n (s ++ r) = Ok (s, r).
Proof.
  intros H. unfold read_exact. rewrite length_app.
  replace (length s + length r <? n) with false by (symmetry; apply Nat.ltb_ge; lia).
  by rewrite take_app_length', drop_app_length'.
Qed.

Lemma read_u16_be v r : is_u16 v -> read_u16 (u16_be v ++ r) = Ok (v, r).
Proof.
  unfold is_u16, u16_max. intros Hv. unfold u16_be, read_u16. simpl. do 2 f_equal.
  rewrite (Z.mod_small (v / 256)) by (Z.div_mod_to_equations; lia).
  pose proof (Z.div_mod v 256 ltac:(lia)). lia.
Qed.

Lemma show_octets_v4 ip : length ip = 4 -> show_octets ip = show_ipv4 (v4_of_octets ip).
Proof. by destruct ip as [|a [|b [|c [|d [|]]]]]. Qed.

Lemma v4_of_octets_octets ip : v4_of_octets (v4_octets ip) = ip.
Proof. by destruct ip. Qed.

Definition sa_wf (sa : SocketAddr) : Prop := ip_wf (sa_ip sa) /\ is_u16 (sa_port sa).

Lemma read_addr_parser_write sa rest :
  sa_wf sa ->
  read_addr_parser (concat (write_addr_parser sa) ++ rest)
  = Ok ((show_ip (sa_ip sa), sa_port sa), rest).
Proof.
  destruct sa as [ip port]. intros [Hip Hp]. unfold write_addr_parser. cbn [sa_ip sa_port] in *.
  destruct ip as [ip|o]; cbn [concat app]; rewrite app_nil_r, <- ?app_comm_cons, <- app_assoc;
    unfold read_addr_parser; cbn [read_u8 result_bind Z.eqb Pos.eqb].
  - rewrite read_exact_app by done. cbn [result_bind]. rewrite read_u16_be by done.
    rewrite show_octets_v4 by done. by rewrite v4_of_octets_octets.
  - rewrite read_exact_app by apply Hip. cbn [result_bind]. by rewrite read_u16_be by done.
Qed.

(** A client's encoding of a packet. *)
Definition packet (from : SocketAddr) (data : bytes) : bytes :=
  concat (write_uot_packet from data false).

Lemma packet_eq from data :
  packet from data
  = concat (write_addr_parser from) ++ u16_be (Z.of_nat (length data)) ++ data.
Proof. unfold packet, write_uot_packet. rewrite concat_app. simpl. by rewrite app_nil_r. Qed.

(** What a datagram carries fits a length of 16 bits; a packet is never empty. *)
Definition data_fits (data : bytes) : Prop := length data <= Z.to_nat 65535.
Definition data_ok (data : bytes) : Prop := 0 < length data <= Z.to_nat 65535.

Lemma read_exact_short n s : length s < n -> read_exact n s = Err eof_error.
Proof. intros H. unfold read_exact. by rewrite (proj2 (Nat.ltb_lt _ _) H). Qed.

Lemma read_u16_short s : length s < 2 -> read_u16 s = Err eof_error.
Proof. destruct s as [|a [|b s]]; simpl; [done..|lia]. Qed.

(** An address that ends early. *)
Lemma read_addr_parser_short sa s rest :
  sa_wf sa -> concat (write_addr_parser sa) = s ++ rest -> rest <> [] ->
  read_addr_parser s = Err eof_error.
Proof.
  destruct sa as [ip port]. intros [Hip Hp] Hs Hr. unfold write_addr_parser in Hs.
  cbn [sa_ip sa_port] in *.
  assert (exists ty body n, concat (match ip with V4 ip => [[0%Z]; v4_octets ip; u16_be port]
      | V6 ip => [[1%Z]; ip; u16_be port] end) = ty :: body ++ u16_be port
    /\ length body = n /\ forall t, read_addr_parser (ty :: t) =
      (let? (x, s) := read_exact n t in let? (p, s) := read_u16 s in
       Ok ((match ip with V4 _ => show_octets x | V6 _ => show_ipv6 x end, p), s)))
    as (ty & body & n & Hc & Hl & Hread).
  { destruct ip as [ip|o].
    - exists 0%Z, (v4_octets ip), 4. split_and!; [|done|done]. simpl. done.
    - exists 1%Z, o, 16. split_and!; [|apply Hip|done]. cbn [concat app]. by rewrite app_nil_r. }
  rewrite Hc in Hs. destruct s as [|b s]; [done|]. injection Hs as <- Hs. rewrite Hread.
  destruct (decide (length s < n)) as [Hlt|Hge]; [by rewrite read_exact_short|].
  assert (s = body ++ drop n s) as Hsplit.
  { rewrite <- (take_drop n s) at 1. f_equal.
    assert (take n (body ++ u16_be port) = take n (s ++ rest)) as E by by rewrite Hs.
    rewrite take_app_length' in E by done. by rewrite take_app_le in E by lia. }
  rewrite Hsplit, read_exact_app by done. simpl. rewrite read_u16_short; [done|].
  assert (length rest <> 0) by (by destruct rest).
  apply (f_equal length) in Hs. rewrite !length_app in Hs. rewrite length_drop.
  simpl in Hs. lia.
Qed.

(** Where the end of the stream may cut the length and the payload. *)
Lemma payload_cut (data t rest : bytes) :
  data_fits data -> u16_be (Z.of_nat (length data)) ++ data = t ++ rest -> rest <> [] ->
  read_u16 t = Err eof_error
  \/ exists u, read_u16 t = Ok (Z.of_nat (length data), u) /\ length u < length data.
Proof.
  intros Hd Hp Hr. destruct t as [|x [|y t]]; [by left|by left|right]. exists t.
  unfold u16_be in Hp. cbn [app] in Hp. injection Hp as Hx Hy Hp. split.
  - pose proof (read_u16_be (Z.of_nat (length data)) t) as Hlen. unfold u16_be in Hlen.
    rewrite Hx, Hy in Hlen. apply Hlen. unfold data_fits in Hd. unfold is_u16, u16_max. lia.
  - assert (length rest <> 0) by (by destruct rest).
    apply (f_equal length) in Hp. rewrite length_app in Hp. lia.
Qed.

(** Where it may cut a packet. *)
Lemma packet_cut sa data s rest :
  data_fits data -> packet sa data = s ++ rest -> rest <> [] ->
  (exists r, concat (write_addr_parser sa) = s ++ r /\ r <> [])
  \/ exists t, s = concat (write_addr_parser sa) ++ t
    /\ (read_u16 t = Err eof_error
        \/ exists u, read_u16 t = Ok (Z.of_nat (length data), u) /\ length u < length data).
Proof.
  intros Hd Hp Hr. rewrite packet_eq in Hp. set (a := concat (write_addr_parser sa)) in *.
  destruct (decide (length s < length a)) as [Hlt|Hge]; [left|right].
  - exists (drop (length s) a). split.
    + rewrite <- (take_drop (length s) a) at 1. f_equal.
      apply (f_equal (take (length s))) in Hp.
      rewrite take_app_length in Hp. by rewrite take_app_le in Hp by lia.
    + intros E. apply (f_equal length) in E. rewrite length_drop in E. simpl in E. lia.
  - exists (drop (length a) s). assert (s = a ++ drop (length a) s) as Hs.
    { rewrite <- (take_drop (length a) s) at 1. f_equal.
      apply (f_equal (take (length a))) in Hp.
      rewrite take_app_length in Hp. by rewrite take_app_le in Hp by lia. }
    split; [done|]. revert Hs. generalize (drop (length a) s). intros t ->.
    rewrite <- app_assoc in Hp. apply app_inv_head in Hp. by apply (payload_cut data t rest).
Qed.

(** ** What the client reads back *)

(** A reference reader of one packet with its address. *)
Definition read_packet : reader (rstr * Z * bytes) := fun s =>
  let? (addr, s) := read_addr_parser s in
  let? (len, s) := read_u16 s in
  let? (data, s) := read_exact (Z.to_nat len) s in
  Ok ((addr, data), s).

Fixpoint read_packets (fuel : nat) (s : bytes) : list (rstr * Z * bytes) :=
  match fuel with
  | O => []
  | S fuel => match read_packet s with Ok (p, s) => p :: read_packets fuel s | Err _ => [] end
  end.

Lemma read_packet_write sa data rest :
  sa_wf sa -> data_fits data ->
  read_packet (packet sa data ++ rest) = Ok ((show_ip (sa_ip sa), sa_port sa, data), rest).
Proof.
  intros Hsa Hd. unfold read_packet. rewrite packet_eq, <- !app_assoc.
  rewrite read_addr_parser_write by done. cbn [result_bind]. unfold data_fits in Hd.
  rewrite read_u16_be by (unfold is_u16, u16_max; lia). cbn [result_bind].
  by rewrite Nat2Z.id, read_exact_app by done.
Qed.

Lemma read_packet_cut sa data s rest :
  sa_wf sa -> data_fits data -> packet sa data = s ++ rest -> rest <> [] ->
  read_packet s = Err eof_error.
Proof.
  intros Hsa Hd Hp Hr. unfold read_packet.
  apply packet_cut in Hp as [(r & Ha & Hr')|(t & -> & Ht)]; [..|done|done].
  - by rewrite (read_addr_parser_short sa s r).
  - rewrite read_addr_parser_write by done. cbn [result_bind].
    destruct Ht as [->|(v & -> & Hv)]; [done|]. cbn [result_bind].
    by rewrite Nat2Z.id, read_exact_short.
Qed.

Lemma read_packets_write ps tail fuel :
  Forall (fun p => sa_wf p.1 /\ data_fits p.2) ps -> length ps < fuel ->
  is_err (read_packet tail) = true ->
  read_packets fuel (concat (map (fun p => packet p.1 p.2) ps) ++ tail)
  = map (fun p => (show_ip (sa_ip p.1), sa_port p.1, p.2)) ps.
Proof.
  intros Hps. revert fuel. induction Hps as [|[sa d] ps [Hsa Hd] _ IH]; intros [|fuel] Hf Ht;
    try (simpl in Hf; lia); cbn [read_packets map concat fst snd app].
  - by destruct (read_packet tail) as [[]|].
  - rewrite <- app_assoc, read_packet_write by done. f_equal. apply IH; [simpl in Hf; lia|done].
Qed.
(** ** The input direction, packet by packet *)

Section Packets.
Context {cache : DnsCache}.
Variable show_dns_error : DnsError -> rstr.
Variable udp_send : nat -> option SocketAddr -> bytes -> io_result nat.

Lemma resolve_host_literal k ip port :
  ip_wf ip -> resolve_host show_dns_error k (show_ip ip) port = (Ok (SocketAddr_new ip port), k).
Proof. intros Hip. unfold resolve_host. by rewrite parse_ip_show. Qed.

Lemma dest_of_write k sa rest s u :
  sa_wf sa ->
  dest_of show_dns_error false (mkIn (concat (write_addr_parser sa) ++ rest) k s u)
  = (Ok (Some sa), mkIn rest k s u).
Proof.
  intros H. unfold dest_of. cbn [inp]. rewrite read_addr_parser_write by done.
  cbn [in_queries]. rewrite resolve_host_literal by apply H. by destruct sa.
Qed.

Lemma read_len_data (data rest : bytes) :
  data_ok data ->
  read_u16 (u16_be (Z.of_nat (length data)) ++ data ++ rest)
  = Ok (Z.of_nat (length data), data ++ rest).
Proof. unfold data_ok. intros H. apply read_u16_be. unfold is_u16, u16_max. lia. Qed.

(** A whole packet at the head of the stream is sent, or the send fails. *)
Lemma input_next_whole sa data rest k s u :
  sa_wf sa -> data_ok data ->
  input_next show_dns_error udp_send false (mkIn (packet sa data ++ rest) k s u)
  = match udp_send (length s) (Some sa) data with
    | Ok n => (Ok tt, mkIn rest k (s ++ [(Some sa, data)]) (u ++ [Z.of_nat n]))
    | Err e => (Err (Io e), mkIn rest k s u)
    end.
Proof.
  intros Hsa Hd. unfold input_next. rewrite packet_eq, <- !app_assoc, dest_of_write by done.
  cbn [inp]. rewrite read_len_data by done. cbn [in_queries sent uploaded].
  pose proof Hd as [H0 H1]. rewrite (proj2 (Z.eqb_neq _ _)) by lia.
  rewrite Nat2Z.id, read_exact_app by done. by destruct (udp_send _ _ _).
Qed.

(** A packet that the stream ends in. *)
Lemma input_next_cut sa data s rest k q u :
  sa_wf sa -> data_ok data -> packet sa data = s ++ rest -> rest <> [] ->
  let '(r, st) := input_next show_dns_error udp_send false (mkIn s k q u) in
  r = Err eof_error /\ sent st = q /\ uploaded st = u.
Proof.
  intros Hsa Hd Hp Hr. unfold data_ok in Hd.
  apply packet_cut in Hp as [(r & Ha & Hr')|(t & -> & Ht)]; [..|unfold data_fits; lia|done].
  - unfold input_next, dest_of. cbn [inp]. by rewrite (read_addr_parser_short sa s r).
  - unfold input_next. rewrite dest_of_write by done. cbn [inp].
    destruct Ht as [->|(v & -> & Hv)]; [done|]. cbn [in_queries sent uploaded].
    rewrite (proj2 (Z.eqb_neq _ _)) by lia. by rewrite Nat2Z.id, read_exact_short.
Qed.

(** The reader undoes the writer: a packet that the server's own encoder
    would write for a peer address, read by the input loop, is sent to exactly
    that address with exactly that payload - whatever the address, with no
    query to the resolver - and the bytes after it are left. *)
Theorem input_next_packet sa data rest k s u n :
  sa_wf sa -> data_ok data -> udp_send (length s) (Some sa) data = Ok n ->
  input_next show_dns_error udp_send false (mkIn (packet sa data ++ rest) k s u)
  = (Ok tt, mkIn rest k (s ++ [(Some sa, data)]) (u ++ [Z.of_nat n])).
Proof. intros Hsa Hd Hn. by rewrite input_next_whole, Hn. Qed.

(** The same in connected mode, where packets carry no address. *)
Lemma input_next_connected data rest k s u from :
  data_ok data ->
  input_next show_dns_error udp_send true
    (mkIn (concat (write_uot_packet from data true) ++ rest) k s u)
  = match udp_send (length s) None data with
    | Ok n => (Ok tt, mkIn rest k (s ++ [(None, data)]) (u ++ [Z.of_nat n]))
    | Err e => (Err (Io e), mkIn rest k s u)
    end.
Proof.
  intros Hd. unfold input_next, dest_of, write_uot_packet. cbn [app].
  replace (concat [u16_be (Z.of_nat (length data)); data] ++ rest)
    with (u16_be (Z.of_nat (length data)) ++ data ++ rest)
    by (simpl; by rewrite app_nil_r).
  cbn [inp]. rewrite read_len_data by done. cbn [in_queries sent uploaded].
  pose proof Hd as [H0 H1]. rewrite (proj2 (Z.eqb_neq _ _)) by lia.
  rewrite Nat2Z.id, read_exact_app by done. by destruct (udp_send _ _ _).
Qed.

Lemma input_next_connected_cut data s rest k q u from :
  data_ok data -> concat (write_uot_packet from data true) = s ++ rest -> rest <> [] ->
  let '(r, st) := input_next show_dns_error udp_send true (mkIn s k q u) in
  r = Err eof_error /\ sent st = q /\ uploaded st = u.
Proof.
  intros Hd Hp Hr. unfold data_ok in Hd. unfold write_uot_packet in Hp. cbn [concat app] in Hp. rewrite app_nil_r in Hp.
  unfold input_next, dest_of. cbn [inp].
  apply payload_cut in Hp as [->|(v & -> & Hv)]; [done| |unfold data_fits; lia|done].
  cbn [in_queries sent uploaded]. rewrite (proj2 (Z.eqb_neq _ _)) by lia.
  by rewrite Nat2Z.id, read_exact_short.
Qed.

(** Packets until the first error: the loop without its cancellation. *)
Fixpoint input_loop (fuel : nat) (is_connect : bool) (st : InState) : InState :=
  match fuel with
  | O => st
  | S fuel =>
      match input_next show_dns_error udp_send is_connect st with
      | (Ok _, st) => input_loop fuel is_connect st
      | (Err _, st) => st
      end
  end.

(** A whole stream of packets is forwarded in order, one datagram each, and
    the bytes recorded as uploaded are the results of the sends. *)
Theorem input_loop_packets (ps : list (SocketAddr * bytes)) fuel k s u :
  (forall j d p, udp_send j d p = Ok (length p)) ->
  Forall (fun p => sa_wf p.1 /\ data_ok p.2) ps -> length ps < fuel ->
  input_loop fuel false (mkIn (concat (map (fun p => packet p.1 p.2) ps)) k s u)
  = mkIn [] k (s ++ map (fun p => (Some p.1, p.2)) ps)
      (u ++ map (fun p => Z.of_nat (length p.2)) ps).
Proof.
  intros Hsend Hps. revert fuel s u.
  induction Hps as [|[sa data] ps [Hsa Hd] _ IH]; intros [|fuel] s u Hf; try (simpl in Hf; lia).
  - cbn [input_loop map concat]. unfold input_next, dest_of. simpl. by rewrite !app_nil_r.
  - cbn [input_loop map concat fst snd]. rewrite (input_next_packet sa data _ k s u (length data)) by done.
    rewrite IH by (simpl in Hf; lia). by rewrite <- !app_assoc.
Qed.

(** C38: outside connected mode, a packet to a literal address that is cut
    anywhere by the end of the stream is an error and sends nothing. *)
Theorem input_next_truncated sa data s rest k q u :
  sa_wf sa -> data_ok data -> packet sa data = s ++ rest -> rest <> [] ->
  let '(r, st) := input_next show_dns_error udp_send false (mkIn s k q u) in
  r = Err eof_error /\ sent st = q /\ uploaded st = u.
Proof. apply input_next_cut. Qed.

End Packets.

(** ** The session: [handle_uot_stream] after the request

    The input loop and the output loop run in one [tokio::join!]; each waits in
    a [tokio::select!] whose ready branches are taken in any order.  A step of
    the relation is one branch: [inner] and [cancel] are the two tokens.  The
    output loop writes a packet inside the branch's body, where no token is
    looked at: [Writing p k] has given the first [k] bytes of the encoding of
    the datagram [p] to the stream. *)
Inductive OutPhase : Type :=
  | Select
  | Writing (p : SocketAddr * bytes) (k : nat)
  | Ended                       (* out of the loop, before the shutdown *)
  | Shut.

Record Session : Type := mkSession {
  cancel : bool;
  inner : bool;
  in_state : InState;
  in_done : bool;
  out_phase : OutPhase;
  received : list (SocketAddr * bytes);   (* by [recv_from] *)
  written : bytes;                        (* given to the stream *)
  downloaded : list Z                     (* recorded *)
}.

Definition session_new (c : bool) (s : bytes) (k : nat) : Session :=
  mkSession c false (mkIn s k [] []) false Select [] [] [].

(** The encoding of a datagram on the stream. *)
Definition out_packet (is_connect : bool) (p : SocketAddr * bytes) : bytes :=
  concat (write_uot_packet p.1 p.2 is_connect).

Section Session.
Context {cache : DnsCache}.
Variable show_dns_error : DnsError -> rstr.
Variable udp_send : nat -> option SocketAddr -> bytes -> io_result nat.
Variable is_connect : bool.

Definition set_in (s : Session) (st : InState) (done inner' : bool) : Session :=
  mkSession (cancel s) inner' st done (out_phase s) (received s) (written s) (downloaded s).

Definition set_out (s : Session) (ph : OutPhase) (inner' : bool) : Session :=
  mkSession (cancel s) inner' (in_state s) (in_done s) ph (received s) (written s) (downloaded s).

(** A dropped [next] has read some of the bytes of a packet and may have made
    its query. *)
Definition drop_next (st : InState) (k q : nat) : InState :=
  mkIn (drop k (inp st)) (q + in_queries st) (sent st) (uploaded st).

Inductive session_step : Session -> Session -> Prop :=
  | Step_cancel s :                       (* the connection is kicked *)
      session_step s (mkSession true (inner s) (in_state s) (in_done s) (out_phase s)
                        (received s) (written s) (downloaded s))
  | Step_in_packet s st :
      in_done s = false -> input_next show_dns_error udp_send is_connect (in_state s) = (Ok tt, st) ->
      session_step s (set_in s st false (inner s))
  | Step_in_error s e st :
      in_done s = false -> input_next show_dns_error udp_send is_connect (in_state s) = (Err e, st) ->
      session_step s (set_in s st true true)
  | Step_in_cancelled s k q :
      in_done s = false -> cancel s = true ->
      session_step s (set_in s (drop_next (in_state s) k q) true true)
  | Step_in_inner s k q :
      in_done s = false -> inner s = true ->
      session_step s (set_in s (drop_next (in_state s) k q) true (inner s))
  | Step_out_recv s from data :
      out_phase s = Select -> sa_wf from -> data_fits data ->
      session_step s
        (mkSession (cancel s) (inner s) (in_state s) (in_done s) (Writing (from, data) 0)
           (received s ++ [(from, data)]) (written s) (downloaded s))
  | Step_out_recv_error s :
      out_phase s = Select -> session_step s (set_out s Ended true)
  | Step_out_write s p k n :              (* the stream takes [n] more bytes *)
      out_phase s = Writing p k -> k + n <= length (out_packet is_connect p) ->
      session_step s
        (mkSession (cancel s) (inner s) (in_state s) (in_done s) (Writing p (k + n)) (received s)
           (written s ++ take n (drop k (out_packet is_connect p))) (downloaded s))
  | Step_out_written s p :
      out_phase s = Writing p (length (out_packet is_connect p)) ->
      session_step s
        (mkSession (cancel s) (inner s) (in_state s) (in_done s) Select (received s) (written s)
           (downloaded s ++ [Z.of_nat (length p.2)]))
  | Step_out_write_error s p k :
      out_phase s = Writing p k -> session_step s (set_out s Ended true)
  | Step_out_cancelled s :
      out_phase s = Select -> cancel s = true -> session_step s (set_out s Ended true)
  | Step_out_inner s :
      out_phase s = Select -> inner s = true -> session_step s (set_out s Ended (inner s))
  | Step_out_shutdown s :                 (* done, failed or timed out *)
      out_phase s = Ended -> session_step s (set_out s Shut (inner s)).

(** [join!] returns. *)
Definition finished (s : Session) : Prop := in_done s = true /\ out_phase s = Shut.

(** Not waiting for the stream to take bytes. *)
Definition not_writing (s : Session) : Prop := forall p k, out_phase s <> Writing p k.

(** *** What has been written *)

(** The packets written whole, [ps], and the part of the next one. *)
Definition output_inv (s : Session) (ps tail : list (SocketAddr * bytes)) (part : bytes) : Prop :=
  received s = ps ++ tail /\ downloaded s = map (fun p => Z.of_nat (length p.2)) ps
  /\ written s = concat (map (out_packet is_connect) ps) ++ part
  /\ Forall (fun p => sa_wf p.1 /\ data_fits p.2) (received s)
  /\ match out_phase s with
     | Select => tail = [] /\ part = []
     | Writing p k =>
         tail = [p] /\ k <= length (out_packet is_connect p) /\ part = take k (out_packet is_connect p)
     | Ended | Shut =>
         (tail = [] /\ part = []) \/ exists p k, tail = [p] /\ part = take k (out_packet is_connect p)
     end.

Lemma output_inv_step s s' ps tail part :
  output_inv s ps tail part -> session_step s s' ->
  exists ps' tail' part', output_inv s' ps' tail' part'.
Proof.
  intros (Hr & Hd & Hw & Hf & Hp) Hs.
  destruct Hs as [s|s st Hi Hn|s e st Hi Hn|s k q Hi Hc|s k q Hi Hc|s from data Ho Hsa Hl|s Ho
    |s p k n Ho Hk|s p Ho|s p k Ho|s Ho Hc|s Ho Hc|s Ho]; unfold output_inv in *;
    cbn [set_in set_out received downloaded written out_phase] in *; try (by exists ps, tail, part);
    rewrite Ho in Hp.
  - destruct Hp as [-> ->]. rewrite app_nil_r in *. exists ps, [(from, data)], []. split_and!; try done.
    + by rewrite Hr.
    + by rewrite app_nil_r.
    + apply Forall_app. split; [done|].
      apply Forall_cons_2; [by split|apply Forall_nil_2].
    + apply Nat.le_0_l.
  - exists ps, tail, part. split_and!; try done. by left.
  - destruct Hp as (-> & Hle & ->). exists ps, [p], (take (k + n) (out_packet is_connect p)).
    split_and!; try done. by rewrite Hw, <- app_assoc, take_drop_split.
  - destruct Hp as (-> & Hle & ->). exists (ps ++ [p]), [], []. split_and!; try done.
    + by rewrite app_nil_r.
    + by rewrite Hd, map_app.
    + rewrite Hw, map_app, concat_app. cbn [map concat]. by rewrite firstn_all, !app_nil_r.
  - destruct Hp as (-> & Hle & ->). exists ps, [p], (take k (out_packet is_connect p)).
    split_and!; try done. right. by exists p, k.
  - exists ps, tail, part. split_and!; try done. by left.
  - exists ps, tail, part. split_and!; try done. by left.
  - by exists ps, tail, part.
Qed.

Lemma output_inv_reachable c b k s :
  rtc session_step (session_new c b k) s -> exists ps tail part, output_inv s ps tail part.
Proof.
  intros Hr. apply (rtc_ind_r (fun s => exists ps tail part, output_inv s ps tail part)
    (session_new c b k)) in Hr; [done| |].
  - exists [], [], []. unfold output_inv. simpl. split_and!; done.
  - intros s1 s2 _ Hst (ps & tail & part & Hi). by eapply output_inv_step.
Qed.

(** *** The end *)

(** A loop that has ended has signalled the other. *)
Definition ended_inv (s : Session) : Prop :=
  (in_done s = true \/ out_phase s = Ended \/ out_phase s = Shut) -> inner s = true.

Lemma ended_inv_step s s' : ended_inv s -> session_step s s' -> ended_inv s'.
Proof. intros Hi Hs. unfold ended_inv in *.
  destruct Hs; cbn [in_done out_phase inner set_in set_out] in *; intros [?|[?|?]]; try congruence; auto.
Qed.

Lemma ended_inv_reachable c b k s : rtc session_step (session_new c b k) s -> ended_inv s.
Proof.
  intros Hr. apply (rtc_ind_r ended_inv (session_new c b k)) in Hr; [done| |].
  - by intros [|[|]].
  - intros s1 s2 _ Hst Hi. by eapply ended_inv_step.
Qed.

(** What the tunnel and the socket have been given, and what was recorded. *)
Definition effects (s : Session) :=
  (received s, written s, downloaded s, sent (in_state s), uploaded (in_state s)).

Lemma input_ends s :
  (cancel s = true \/ inner s = true) ->
  exists s', rtc session_step s s' /\ in_done s' = true /\ effects s' = effects s
    /\ out_phase s' = out_phase s /\ (inner s' = true \/ (cancel s' = true)).
Proof.
  intros H. destruct (in_done s) eqn:E; [exists s; split_and!; try done; tauto|].
  destruct H as [Hc|Hi].
  - eexists. split; [apply rtc_once; by apply (Step_in_cancelled s 0 0)|]. split_and!; try done. by left.
  - eexists. split; [apply rtc_once; by apply (Step_in_inner s 0 0)|]. split_and!; try done. by left.
Qed.

Lemma output_ends s :
  not_writing s -> (inner s = true \/ cancel s = true) -> in_done s = true ->
  exists s', rtc session_step s s' /\ finished s' /\ effects s' = effects s.
Proof.
  intros Hw H Hd. destruct (out_phase s) as [|p k| |] eqn:Ep.
  - assert (exists s1, session_step s s1 /\ s1 = set_out s Ended true) as (s1 & Hs1 & ->).
    { destruct H as [Hi|Hc].
      - eexists. split; [by apply Step_out_inner|]. by rewrite Hi.
      - eexists. split; [by apply Step_out_cancelled|done]. }
    eexists. split; [eapply rtc_l; [exact Hs1|]; apply rtc_once; by apply Step_out_shutdown|]. done.
  - by destruct (Hw p k).
  - eexists. split; [apply rtc_once; by apply Step_out_shutdown|]. done.
  - by exists s.
Qed.

(** However receiving, writing, cancellation and failure interleave, a
    client that reads packets from the stream until a read fails gets the first
    [n] datagrams the socket received, in order, each with its sender's address,
    and never a part of one; the first [m] of them are what was recorded as
    downloaded, and at most one datagram is between. *)
Theorem session_output c b k s :
  is_connect = false -> rtc session_step (session_new c b k) s ->
  exists m n, m <= n <= length (received s) /\ length (received s) <= S m
    /\ downloaded s = map (fun p => Z.of_nat (length p.2)) (take m (received s))
    /\ read_packets (S (length (received s))) (written s)
       = map (fun p => (show_ip (sa_ip p.1), sa_port p.1, p.2)) (take n (received s)).
Proof.
  intros Hc Hr. apply output_inv_reachable in Hr as (ps & tail & part & Hrec & Hd & Hw & Hf & Hp).
  rewrite Hc in Hw, Hp. assert ((tail = [] /\ part = [])
    \/ exists p j, tail = [p] /\ part = take j (out_packet false p)) as [[-> ->]|(p & j & -> & ->)].
  { destruct (out_phase s) as [|p' j'| |]; try tauto. right. by destruct Hp as (? & _ & ?); exists p', j'. }
  - rewrite app_nil_r in Hrec, Hw. rewrite <- Hrec in Hd, Hw. exists (length (received s)), (length (received s)).
    rewrite firstn_all. split_and!; try lia; [done|]. rewrite Hw, <- (app_nil_r (concat _)).
    by apply read_packets_write; [|lia|].
  - rewrite Hrec in Hf |- *. apply Forall_app in Hf as [Hf Hp1].
    apply Forall_inv in Hp1 as [Hsa Hfit]. rewrite length_app. cbn [length].
    pose proof (take_drop j (out_packet false p)) as Hcut.
    destruct (drop j (out_packet false p)) as [|x rest] eqn:Ed.
    + rewrite app_nil_r in Hcut. rewrite Hcut in Hw. exists (length ps), (length ps + 1).
      rewrite take_app_length, (take_ge (ps ++ [p])) by (rewrite length_app; simpl; lia).
      split_and!; try lia; [done|]. rewrite Hw.
      replace (concat (map (out_packet false) ps) ++ out_packet false p)
        with (concat (map (fun q => packet q.1 q.2) (ps ++ [p])) ++ [])
        by (rewrite map_app, concat_app; cbn [map concat]; by rewrite !app_nil_r).
      apply read_packets_write; [|rewrite length_app; simpl; lia|done].
      apply Forall_app. split; [done|]. apply Forall_cons_2; [by split|apply Forall_nil_2].
    + exists (length ps), (length ps). rewrite take_app_length. split_and!; try lia; [done|].
      rewrite Hw. apply read_packets_write; [done|lia|].
      by rewrite (read_packet_cut p.1 p.2 _ (x :: rest)).
Qed.

(** Once the connection is kicked, or either direction has ended for any
    reason, the session can finish - with the shutdown of the stream - without
    receiving, sending, writing or recording anything more, unless it is inside
    the writing of a packet. *)
Theorem session_ends c b k s :
  rtc session_step (session_new c b k) s -> not_writing s ->
  cancel s = true \/ in_done s = true \/ out_phase s = Ended \/ out_phase s = Shut ->
  exists s', rtc session_step s s' /\ finished s' /\ effects s' = effects s.
Proof.
  intros Hr Hw H. apply ended_inv_reachable in Hr.
  assert (cancel s = true \/ inner s = true) as Hci by (unfold ended_inv in Hr; tauto).
  destruct (input_ends s Hci) as (s1 & Hs1 & Hd1 & He1 & Hp1 & Hi1).
  destruct (output_ends s1) as (s2 & Hs2 & Hf & He2); [|done|done|].
  - intros p j. rewrite Hp1. apply Hw.
  - exists s2. split_and!; [by etrans|done|congruence].
Qed.

(** A session inside the writing of a packet stays there until the stream takes
    bytes or fails, whatever the tokens say: the branches that look at them are
    those of [Select]. *)
Lemma writing_blocks s s' p k :
  session_step s s' -> out_phase s = Writing p k -> k < length (out_packet is_connect p) ->
  written s' = written s ->
  out_phase s' = Writing p k \/ out_phase s' = Ended.
Proof.
  intros Hs Hp Hk Hw.
  destruct Hs as [s|s st Hi Hn|s e st Hi Hn|s j q Hi Hc|s j q Hi Hc|s from data Ho Hsa Hl|s Ho
    |s p' k' n Ho Hle|s p' Ho|s p' k' Ho|s Ho Hc|s Ho Hc|s Ho];
    cbn [out_phase set_in set_out written] in *; try congruence; try (by left); try (by right).
  - rewrite Hp in Ho. injection Ho as <- <-. left. f_equal.
    rewrite <- (app_nil_r (written s)) in Hw at 2. apply app_inv_head in Hw.
    destruct n as [|n]; [lia|]. apply (f_equal length) in Hw.
    rewrite length_take, length_drop in Hw. cbn [length] in Hw. lia.
  - rewrite Hp in Ho. injection Ho as <- ->. lia.
Qed.
End Session.

(** ** Examples *)

Definition ex_send : nat -> option SocketAddr -> bytes -> io_result nat := fun _ _ d => Ok (length d).
Definition ex_show : DnsError -> rstr := fun _ => [].
Definition ex_peer : SocketAddr := SocketAddr_new (V4 (IPv4addr 192 168 1 1)) 53.
Definition ex_peer6 : SocketAddr := SocketAddr_new (V6 (repeat 0%Z 15 ++ [1%Z])) 5353.

Lemma ex_peer_wf : sa_wf ex_peer.
Proof. unfold sa_wf, ex_peer, ip_wf, v4_wf, is_u8, is_u16. simpl. unfold u8_max, u16_max. lia. Qed.

Lemma ex_peer6_wf : sa_wf ex_peer6.
Proof.
  split; [split; [done|]|unfold is_u16, u16_max; simpl; lia].
  simpl. repeat (apply Forall_cons_2; [unfold is_u8, u8_max; lia|]). apply Forall_nil_2.
Qed.

Lemma ex_data_ok : data_ok [1; 2; 3]%Z.
Proof. unfold data_ok. cbn [length]. lia. Qed.

Lemma ex_data_fits : data_fits [1; 2; 3]%Z.
Proof. unfold data_fits. cbn [length]. lia. Qed.

(** The private address of the example is sent to: nothing of the session looks
    at whether an address is private. *)
Lemma input_next_packet_witness :
  input_next (cache := dns_ex) ex_show ex_send false (mkIn (packet ex_peer [1; 2; 3]%Z ++ [9]%Z) 0 [] [])
  = (Ok tt, mkIn [9]%Z 0 [(Some ex_peer, [1; 2; 3]%Z)] [3]%Z).
Proof.
  apply (input_next_packet ex_show ex_send ex_peer [1; 2; 3]%Z [9]%Z 0 [] [] 3).
  - exact ex_peer_wf.
  - exact ex_data_ok.
  - reflexivity.
Defined.

Lemma input_loop_packets_witness :
  input_loop (cache := dns_ex) ex_show ex_send 3 false
    (mkIn (concat (map (fun p => packet p.1 p.2) [(ex_peer, [1; 2; 3]%Z); (ex_peer6, [1; 2; 3]%Z)])) 0 [] [])
  = mkIn [] 0 [(Some ex_peer, [1; 2; 3]%Z); (Some ex_peer6, [1; 2; 3]%Z)] [3; 3]%Z.
Proof.
  apply (input_loop_packets ex_show ex_send [(ex_peer, [1; 2; 3]%Z); (ex_peer6, [1; 2; 3]%Z)] 3 0 [] []).
  - reflexivity.
  - apply Forall_cons_2; [split; [exact ex_peer_wf|exact ex_data_ok]|].
    apply Forall_cons_2; [split; [exact ex_peer6_wf|exact ex_data_ok]|apply Forall_nil_2].
  - simpl. lia.
Defined.

Lemma input_next_truncated_witness :
  let '(r, st) := input_next (cache := dns_ex) ex_show ex_send false
    (mkIn (take 10 (packet ex_peer [1; 2; 3]%Z)) 0 [] []) in
  r = Err eof_error /\ sent st = [] /\ uploaded st = [].
Proof.
  apply (input_next_truncated ex_show ex_send ex_peer [1; 2; 3]%Z
    (take 10 (packet ex_peer [1; 2; 3]%Z)) [2; 3]%Z 0 [] []).
  - exact ex_peer_wf.
  - exact ex_data_ok.
  - vm_compute. reflexivity.
  - discriminate.
Defined.

(** A session that has received a datagram and written six bytes of it. *)
Definition ex_session : Session :=
  mkSession false false (mkIn [] 0 [] []) false (Writing (ex_peer, [1; 2; 3]%Z) 6)
    [(ex_peer, [1; 2; 3]%Z)] (take 6 (packet ex_peer [1; 2; 3]%Z)) [].

Lemma ex_session_reachable :
  rtc (session_step (cache := dns_ex) ex_show ex_send false) (session_new false [] 0) ex_session.
Proof.
  set (s1 := mkSession false false (mkIn [] 0 [] []) false (Writing (ex_peer, [1; 2; 3]%Z) 0)
    [(ex_peer, [1; 2; 3]%Z)] [] []).
  apply (rtc_l _ _ s1).
  - apply (Step_out_recv ex_show ex_send false (session_new false [] 0) ex_peer [1; 2; 3]%Z);
      [done|exact ex_peer_wf|exact ex_data_fits].
  - apply rtc_once. apply (Step_out_write ex_show ex_send false s1 (ex_peer, [1; 2; 3]%Z) 0 6); [done|].
    vm_compute. lia.
Qed.

Lemma session_output_witness :
  exists m n, m <= n <= 1 /\ 1 <= S m
    /\ downloaded ex_session = map (fun p => Z.of_nat (length p.2)) (take m (received ex_session))
    /\ read_packets 2 (written ex_session)
       = map (fun p => (show_ip (sa_ip p.1), sa_port p.1, p.2)) (take n (received ex_session)).
Proof.
  exact (session_output ex_show ex_send false false [] 0 ex_session eq_refl ex_session_reachable).
Defined.

Lemma session_ends_witness :
  exists s', rtc (session_step (cache := dns_ex) ex_show ex_send true) (session_new true [] 0) s'
    /\ finished s' /\ effects s' = effects (session_new true [] 0).
Proof.
  apply (session_ends ex_show ex_send true true [] 0).
  - apply rtc_refl.
  - intros p k. discriminate.
  - left. reflexivity.
Defined.
