(* ===== verification/UotStream.v ===== *)
(** * [src/uot.rs] on a stream: the futures of a session

    [Uot] models the reads of a session as functions of the bytes the stream
    still delivers.  Here they are the futures that the code awaits: programs
    of reads and resolutions ([prog]), run by turns that poll a stream, and the
    session that polls them while packets are written to the same stream and
    the other parties go on ([live_step]).  The theorems are refinements: a
    program reads what the function of [Uot] reads, and every run of the
    session on a stream is a run of [session_step] on the bytes it delivers. *)

From S2P Require Import Prelude RustStr RustNet AsyncIo Address Routing Relay RelayEnd Uot.
Open Scope nat_scope.

(** ** Programs *)

(** An [async] block that reads from the stream and resolves names. *)
Inductive prog (A : Type) : Type :=
  | Ret (r : result A uot_error)
  | ReadExact (n : nat) (k : bytes -> prog A)
  | Resolve (host : rstr) (port : Z) (k : SocketAddr -> prog A).
Arguments Ret {A}.
Arguments ReadExact {A}.
Arguments Resolve {A}.

(** [.await?]: an error ends the block. *)
Fixpoint await {A B} (p : prog A) (f : A -> prog B) : prog B :=
  match p with
  | Ret (Ok a) => f a
  | Ret (Err e) => Ret (Err e)
  | ReadExact n k => ReadExact n (fun b => await (k b) f)
  | Resolve host port k => Resolve host port (fun sa => await (k sa) f)
  end.

Notation "'let*' x := p 'in' q" := (await p (fun x => q))
  (at level 10, x pattern, p at level 100, q at level 200).

Definition p_exact (n : nat) : prog bytes := ReadExact n (fun b => Ret (Ok b)).
Definition p_u8 : prog Z := ReadExact 1 (fun b => Ret (Ok (nth 0 b 0%Z))).
Definition p_u16 : prog Z := ReadExact 2 (fun b => Ret (Ok (nth 0 b 0 * 256 + nth 1 b 0)%Z)).

Definition p_socks_addr : prog (rstr * Z) :=
  let* ty := p_u8 in
  if (ty =? 1)%Z then
    let* ip := p_exact 4 in
    let* port := p_u16 in
    Ret (Ok (show_octets ip, port))
  else if (ty =? 4)%Z then
    let* ip := p_exact 16 in
    let* port := p_u16 in
    Ret (Ok (show_ipv6 ip, port))
  else if (ty =? 3)%Z then
    let* len := p_u8 in
    let* domain := p_exact (Z.to_nat len) in
    let* port := p_u16 in
    match from_utf8 domain with
    | Some domain => Ret (Ok (domain, port))
    | None => Ret (Err (Msg (str "invalid FQDN in UoT request")))
    end
  else Ret (Err (Msg (str "unknown SocksaddrSerializer type: 0x" ++ show_hex ty))).

Definition p_addr_parser : prog (rstr * Z) :=
  let* ty := p_u8 in
  if (ty =? 0)%Z then
    let* ip := p_exact 4 in
    let* port := p_u16 in
    Ret (Ok (show_octets ip, port))
  else if (ty =? 1)%Z then
    let* ip := p_exact 16 in
    let* port := p_u16 in
    Ret (Ok (show_ipv6 ip, port))
  else if (ty =? 2)%Z then
    let* len := p_u8 in
    let* domain := p_exact (Z.to_nat len) in
    let* port := p_u16 in
    match from_utf8 domain with
    | Some domain => Ret (Ok (domain, port))
    | None => Ret (Err (Msg (str "invalid FQDN in UoT packet")))
    end
  else Ret (Err (Msg (str "unknown AddrParser type: 0x" ++ show_hex ty))).

Definition p_resolve (host : rstr) (port : Z) : prog SocketAddr :=
  Resolve host port (fun sa => Ret (Ok sa)).

(** What [next] comes to before it sends: an empty packet is left out. *)
Inductive Next : Type := Skip | Forward (dest : option SocketAddr) (payload : bytes).

Definition p_next (is_connect : bool) : prog Next :=
  let* dest :=
    if is_connect then Ret (Ok None)
    else
      let* (host, port) := p_addr_parser in
      let* sa := p_resolve host port in
      Ret (Ok (Some sa)) in
  let* len := p_u16 in
  if (len =? 0)%Z then Ret (Ok Skip)
  else
    let* payload := p_exact (Z.to_nat len) in
    Ret (Ok (Forward dest payload)).

(** The request: whether the socket is connected, and its destination. *)
Definition p_request (version : UotVersion) : prog (bool * option SocketAddr) :=
  match version with
  | UotV1 => Ret (Ok (false, None))
  | UotV2 =>
      let* b := p_u8 in
      let is_connect := negb (b =? 0)%Z in
      let* (host, port) := p_socks_addr in
      if is_connect then
        let* dest := p_resolve host port in
        Ret (Ok (true, Some dest))
      else Ret (Ok (false, None))
  end.

Section Prog.
Context {cache : DnsCache}.
Variable show_dns_error : DnsError -> rstr.

(** A program on the bytes a stream delivers before its end: its result with
    the bytes left, and the queries made. *)
Fixpoint run {A} (p : prog A) (q : nat) (s : bytes) : result (A * bytes) uot_error * nat :=
  match p with
  | Ret (Ok a) => (Ok (a, s), q)
  | Ret (Err e) => (Err e, q)
  | ReadExact n k =>
      match read_exact n s with
      | Ok (b, s) => run (k b) q s
      | Err e => (Err e, q)
      end
  | Resolve host port k =>
      match resolve_host show_dns_error q host port with
      | (Ok sa, q) => run (k sa) q s
      | (Err e, q) => (Err e, q)
      end
  end.

(** A program that is a reader of [Uot]. *)
Definition reads {A} (p : prog A) (r : reader A) : Prop := forall q s, run p q s = (r s, q).

Lemma run_await {A B} (p : prog A) (f : A -> prog B) q s :
  run (await p f) q s
  = match run p q s with (Ok (a, s), q) => run (f a) q s | (Err e, q) => (Err e, q) end.
Proof.
  revert q s. induction p as [[a|e]|n k IH|host port k IH]; intros q s; simpl; try done.
  - destruct (read_exact n s) as [[b s']|e]; [apply IH|done].
  - destruct (resolve_host _ _ _ _) as [[sa|e] q']; [apply IH|done].
Qed.

Lemma reads_exact n : reads (p_exact n) (read_exact n).
Proof. intros q s. simpl. by destruct (read_exact n s) as [[b s']|e]. Qed.

Lemma reads_u8 : reads p_u8 read_u8.
Proof. by intros q [|b s]. Qed.

Lemma reads_u16 : reads p_u16 read_u16.
Proof. by intros q [|a [|b s]]. Qed.

(** Run a program and its reader side by side. *)
Ltac read_along :=
  repeat (rewrite ?run_await, ?reads_u8, ?reads_u16, ?reads_exact; cbn [run]; unfold result_bind;
    match goal with
    | |- _ = (match ?r with Ok _ => _ | Err _ => _ end, _) => destruct r as [[? ?]|?]
    | |- _ = (if ?b then _ else _, _) => destruct b
    | |- _ = (match ?o with Some _ => _ | None => _ end, _) => destruct o
    end; cbn [run]; try done).

Lemma reads_socks_addr : reads p_socks_addr read_socks_addr.
Proof. intros q s. unfold p_socks_addr, read_socks_addr, result_bind. read_along. Qed.

Lemma reads_addr_parser : reads p_addr_parser read_addr_parser.
Proof. intros q s. unfold p_addr_parser, read_addr_parser, result_bind. read_along. Qed.

(** The request future reads the request. *)
Lemma run_request version q s :
  match run (p_request version) q s, read_request show_dns_error version q s with
  | (Ok ((ic, dest), s1), q1), Ok ((ic', dest', q1'), s1') => ic = ic' /\ dest = dest' /\ q1 = q1' /\ s1 = s1'
  | (Err e, _), Err e' => e = e'
  | _, _ => False
  end.
Proof.
  destruct version; [by split_and!|]. unfold p_request, read_request. rewrite run_await, reads_u8.
  destruct (read_u8 s) as [[b s1]|e]; [|done]. cbn [result_bind]. rewrite run_await, reads_socks_addr.
  destruct (read_socks_addr s1) as [[[host port] s2]|e]; [|done]. cbn [result_bind].
  destruct (negb _); [|by split_and!]. cbn [run await p_resolve].
  destruct (resolve_host _ _ _ _) as [[sa|e] q']; [by split_and!|done].
Qed.

(** What the input loop does with the result of [next]. *)
Definition next_result (udp_send : nat -> option SocketAddr -> bytes -> io_result nat)
    (r : result (Next * bytes) uot_error * nat) (st : InState) : result unit uot_error * InState :=
  match r with
  | (Err e, q) => (Err e, mkIn (inp st) q (sent st) (uploaded st))
  | (Ok (Skip, s), q) => (Ok tt, mkIn s q (sent st) (uploaded st))
  | (Ok (Forward dest payload, s), q) =>
      match udp_send (length (sent st)) dest payload with
      | Err e => (Err (Io e), mkIn s q (sent st) (uploaded st))
      | Ok n => (Ok tt, mkIn s q (sent st ++ [(dest, payload)]) (uploaded st ++ [Z.of_nat n]))
      end
  end.

(** Equal results, up to the bytes left after an error. *)
Definition same_result (x y : result unit uot_error * InState) : Prop :=
  x.1 = y.1 /\ sent x.2 = sent y.2 /\ uploaded x.2 = uploaded y.2 /\ in_queries x.2 = in_queries y.2
  /\ (x.1 = Ok tt -> inp x.2 = inp y.2).

(** The future [next] with the send after it is one packet of the loop. *)
Lemma run_next udp_send is_connect st :
  same_result (next_result udp_send (run (p_next is_connect) (in_queries st) (inp st)) st)
    (input_next show_dns_error udp_send is_connect st).
Proof.
  unfold p_next, input_next, dest_of. rewrite run_await. destruct st as [s q sn up]. cbn [inp in_queries].
  assert (forall dest s1 q1, same_result
    (next_result udp_send (run (let* len := p_u16 in
       if (len =? 0)%Z then Ret (Ok Skip)
       else let* payload := p_exact (Z.to_nat len) in Ret (Ok (Forward dest payload))) q1 s1) (mkIn s q sn up))
    (match read_u16 s1 with
     | Err e => (Err e, mkIn s1 q1 sn up)
     | Ok (len, s) =>
         let st := mkIn s q1 sn up in
         if (len =? 0)%Z then (Ok tt, st)
         else
           match read_exact (Z.to_nat len) s with
           | Err e => (Err e, st)
           | Ok (payload, s) =>
               match udp_send (length sn) dest payload with
               | Err e => (Err (Io e), mkIn s q1 sn up)
               | Ok n => (Ok tt, mkIn s q1 (sn ++ [(dest, payload)]) (up ++ [Z.of_nat n]))
               end
           end
     end)) as Htail.
  { intros dest s1 q1. rewrite run_await, reads_u16. destruct (read_u16 s1) as [[len s2]|e]; [|done].
    destruct (len =? 0)%Z; [done|]. rewrite run_await, reads_exact.
    destruct (read_exact _ s2) as [[payload s3]|e]; [|done]. cbn [run next_result sent uploaded].
    by destruct (udp_send _ _ _). }
  destruct is_connect; [apply Htail|]. rewrite run_await, reads_addr_parser.
  destruct (read_addr_parser s) as [[[host port] s1]|e]; [|done]. cbn [run await p_resolve in_queries].
  destruct (resolve_host _ _ _ _) as [[sa|e] q1]; [apply Htail|done].
Qed.
End Prog.

(** ** Tasks: a program polled on a stream *)

(** [code] is what is left of the program; a [read_exact] under way has [got]
    some of its bytes; [at_end] is set when the stream ended the program. *)
Record Task (A : Type) : Type := mkTask { code : prog A; got : bytes; queries : nat; at_end : bool }.
Arguments mkTask {A}.
Arguments code {A}.
Arguments got {A}.
Arguments queries {A}.
Arguments at_end {A}.

Definition task_new {A} (p : prog A) (q : nat) : Task A := mkTask p [] q false.

Section Task.
Context {cache : DnsCache}.
Variable show_dns_error : DnsError -> rstr.
Context {T : Type} `{!AsyncRead T}.

(** One turn: a poll of the stream if bytes are missing, the end of a read, or
    the answer of the resolver. *)
Definition task_turn {A} (t : Task A) (s : T) : Task A * T :=
  match code t with
  | Ret _ => (t, s)
  | ReadExact n k =>
      if n <=? length (got t) then (mkTask (k (got t)) [] (queries t) false, s)
      else
        let '(p, s) := poll_read (n - length (got t)) s in
        (match p with
         | Pending => t
         | Ready (Ok bs) =>
             if length bs =? 0 then mkTask (Ret (Err eof_error)) [] (queries t) true
             else mkTask (code t) (got t ++ bs) (queries t) false
         | Ready (Err e) => mkTask (Ret (Err (Io e))) [] (queries t) true
         end, s)
  | Resolve host port k =>
      match resolve_host show_dns_error (queries t) host port with
      | (Ok sa, q) => (mkTask (k sa) [] q false, s)
      | (Err e, q) => (mkTask (Ret (Err e)) [] q false, s)
      end
  end.

(** Equal results, or two errors. *)
Definition agree {A} (x y : result (A * bytes) uot_error * nat) : Prop :=
  match x, y with
  | (Ok a, q), (Ok b, q') => a = b /\ q = q'
  | (Err _, _), (Err _, _) => True
  | _, _ => False
  end.

Lemma agree_refl {A} (x : result (A * bytes) uot_error * nat) : agree x x.
Proof. by destruct x as [[a|e] q]. Qed.

Lemma agree_trans {A} (x y z : result (A * bytes) uot_error * nat) : agree x y -> agree y z -> agree x z.
Proof. destruct x as [[?|?] ?], y as [[?|?] ?], z as [[?|?] ?]; simpl; try done. intros [-> ->] [-> ->]. done. Qed.

(** The task is in the middle of the program [p0], of which it has read
    [part]: whatever the stream still delivers, both come to the same. *)
Record task_inv {A} (p0 : prog A) (q0 : nat) (part : bytes) (t : Task A) : Prop := {
  ti_got : match code t with ReadExact n _ => length (got t) <= n | _ => got t = [] end;
  ti_end : at_end t = true -> exists e, code t = Ret (Err e);
  ti_run rest : (at_end t = true -> rest = []) ->
    agree (run show_dns_error p0 q0 (part ++ rest)) (run show_dns_error (code t) (queries t) (got t ++ rest))
}.

Lemma task_inv_new {A} (p : prog A) q : task_inv p q [] (task_new p q).
Proof. split; cbn [code got queries at_end task_new]; [destruct p; done || (simpl; lia)|done|]. intros rest _. apply agree_refl. Qed.

Lemma read_exact_full n (g rest : bytes) : length g = n -> read_exact n (g ++ rest) = Ok (g, rest).
Proof. apply read_exact_app. Qed.

Context `{!ReadSpec T}.

(** A turn keeps the invariant with the bytes it took from the stream. *)
Lemma task_turn_inv {A} (p0 : prog A) q0 part t s t' s' :
  task_inv p0 q0 part t -> at_end t = false -> rd_ok s -> task_turn t s = (t', s') ->
  rd_ok s' /\ exists bs, rd_log s' = rd_log s ++ bs /\ task_inv p0 q0 (part ++ bs) t'.
Proof.
  intros [Hg He Hr] Hae Hok. rewrite Hae in Hr.
  assert (forall r, agree (run show_dns_error p0 q0 (part ++ r)) (run show_dns_error (code t) (queries t) (got t ++ r)))
    as Hrun by (intros r; by apply Hr).
  destruct t as [c g q ae]; cbn [code got queries at_end] in *. subst ae.
  destruct c as [r|n k|host port k]; unfold task_turn; cbn [code got queries].
  - intros [= <- <-]. split; [done|]. exists []. rewrite !app_nil_r. split; [done|]. by split.
  - destruct (n <=? length g) eqn:En; bool_facts.
    + intros [= <- <-]. split; [done|]. exists []. rewrite !app_nil_r. split; [done|].
      assert (length g = n) as Hn by lia.
      split; cbn [code got queries at_end]; [destruct (k g); done || (simpl; lia)|done|].
      intros rest _. specialize (Hrun rest). cbn [run] in Hrun. by rewrite read_exact_full in Hrun.
    + destruct (poll_read _ s) as [p s1] eqn:Hp. destruct (rd_spec _ _ _ _ Hok Hp) as (Hok' & Hlen & _ & Hlog).
      destruct p as [|[bs|e]]; cbn [read_of] in *; [intros [= <- <-]|intros H|intros [= <- <-]].
      * split; [done|]. exists []. rewrite !app_nil_r in *. split; [done|]. by split.
      * destruct (length bs =? 0) eqn:E0; bool_facts; injection H as <- <-; (split; [done|]); exists bs; (split; [done|]).
        -- apply length_zero_nil in E0 as ->. rewrite app_nil_r.
           split; cbn [code got queries at_end]; [done|by eexists|].
           intros rest Hrest. rewrite Hrest by done. specialize (Hrun []). revert Hrun. cbn [run].
           rewrite (app_nil_r g), read_exact_short by lia. done.
        -- split; cbn [code got queries at_end]; [rewrite length_app; lia|done|].
           intros rest _. rewrite <- !app_assoc. apply Hrun.
      * split; [done|]. exists []. rewrite !app_nil_r in *. split; [done|].
        split; cbn [code got queries at_end]; [done|by eexists|].
        intros rest Hrest. rewrite Hrest by done. specialize (Hrun []). revert Hrun. cbn [run].
        rewrite (app_nil_r g), read_exact_short by lia. done.
  - subst g. assert (forall rest, agree (run show_dns_error p0 q0 (part ++ rest))
      (match resolve_host show_dns_error q host port with
       | (Ok sa, q) => run show_dns_error (k sa) q rest | (Err e, q) => (Err e, q) end)) as Hrun' by exact Hrun.
    destruct (resolve_host _ _ _ _) as [[sa|e] q1]; intros [= <- <-]; (split; [done|]); exists [];
      rewrite !app_nil_r; (split; [done|]); split; cbn [code got queries at_end]; try done.
    + destruct (k sa); done || (simpl; lia).
Qed.

(** A task that is over has read what the program reads. *)
Lemma task_inv_ok {A} (p0 : prog A) q0 part t a rest :
  task_inv p0 q0 part t -> code t = Ret (Ok a) ->
  run show_dns_error p0 q0 (part ++ rest) = (Ok (a, rest), queries t).
Proof.
  intros [Hg He Hr] Hc. destruct (at_end t) eqn:Ea; [destruct (He eq_refl) as [e He']; congruence|].
  rewrite Hc in *. specialize (Hr rest ltac:(done)). rewrite Hg in Hr. cbn [run app] in Hr.
  destruct (run _ _ _ _) as [[[x y]|e] q1]; [|done]. by destruct Hr as [-> ->].
Qed.

Lemma task_inv_err {A} (p0 : prog A) q0 part t e rest :
  task_inv p0 q0 part t -> code t = Ret (Err e) -> (at_end t = true -> rest = []) ->
  exists e' q', run show_dns_error p0 q0 (part ++ rest) = (Err e', q').
Proof.
  intros [Hg He Hr] Hc Hrest. specialize (Hr rest Hrest). rewrite Hc in Hr.
  destruct (run show_dns_error p0 q0 (part ++ rest)) as [[x|e'] q1]; [done|]. by eexists _, _.
Qed.
End Task.

(** ** The session on a stream *)

(** What is left of the buffer that [write_all] is at, when [k] bytes of the
    packet were taken. *)
Fixpoint offer (bufs : list bytes) (k : nat) : bytes :=
  match bufs with
  | [] => []
  | b :: bufs => if k <? length b then drop k b else offer bufs (k - length b)
  end.

Lemma offer_prefix bufs k : offer bufs k `prefix_of` drop k (concat bufs).
Proof.
  revert k. induction bufs as [|b bufs IH]; intros k; simpl; [by rewrite drop_nil|].
  destruct (k <? length b) eqn:E; bool_facts.
  - rewrite drop_app_le by lia. by exists (concat bufs).
  - by rewrite drop_app_ge by lia.
Qed.

Lemma offer_take bufs k n : n <= length (offer bufs k) -> take n (offer bufs k) = take n (drop k (concat bufs)).
Proof. intros H. destruct (offer_prefix bufs k) as [x ->]. by rewrite take_app_le. Qed.

Lemma offer_fits bufs k : k <= length (concat bufs) -> k + length (offer bufs k) <= length (concat bufs).
Proof. intros H. pose proof (prefix_length _ _ (offer_prefix bufs k)) as Hl. rewrite length_drop in Hl. lia. Qed.

(** [l_in] is the future [next] of the input loop, [None] once the loop is
    over; the other fields are those of [Session]. *)
Record Live (T : Type) : Type := mkLive {
  l_stream : T;
  l_cancel : bool;
  l_inner : bool;
  l_in : option (Task Next);
  l_sent : list (option SocketAddr * bytes);
  l_uploaded : list Z;
  l_out : OutPhase;
  l_received : list (SocketAddr * bytes);
  l_downloaded : list Z
}.
Arguments mkLive {T}.
Arguments l_stream {T}.
Arguments l_cancel {T}.
Arguments l_inner {T}.
Arguments l_in {T}.
Arguments l_sent {T}.
Arguments l_uploaded {T}.
Arguments l_out {T}.
Arguments l_received {T}.
Arguments l_downloaded {T}.

Section Live.
Context {cache : DnsCache}.
Variable show_dns_error : DnsError -> rstr.
Variable udp_send : nat -> option SocketAddr -> bytes -> io_result nat.
Variable is_connect : bool.
Context {T : Type} `{!AsyncRead T, !AsyncWrite T, !ReadSpec T, !WriteSpec T, !DuplexSpec T}.

(** What the rest of the process does to the stream between two polls. *)
Variable env : T -> T -> Prop.

Definition live_new (s : T) (c : bool) (q : nat) : Live T :=
  mkLive s c false (Some (task_new (p_next is_connect) q)) [] [] Select [] [].

Definition live_in (l : Live T) (s : T) (t : option (Task Next)) (inner' : bool) : Live T :=
  mkLive s (l_cancel l) inner' t (l_sent l) (l_uploaded l) (l_out l) (l_received l) (l_downloaded l).

Definition live_out (l : Live T) (s : T) (ph : OutPhase) (inner' : bool) : Live T :=
  mkLive s (l_cancel l) inner' (l_in l) (l_sent l) (l_uploaded l) ph (l_received l) (l_downloaded l).

(** The packet being written. *)
Definition bufs_of (p : SocketAddr * bytes) : list bytes := write_uot_packet p.1 p.2 is_connect.

(** One poll of [write_all]: the phase after it. *)
Definition write_turn (p : SocketAddr * bytes) (k : nat) (s : T) : OutPhase * bool * T :=
  let '(r, s) := poll_write (offer (bufs_of p) k) s in
  (match r with
   | Pending => (Writing p k, false)
   | Ready (Ok 0) | Ready (Err _) => (Ended, true)
   | Ready (Ok n) => (Writing p (k + n), false)
   end, s).

Inductive live_step : Live T -> Live T -> Prop :=
  | L_env l s : env (l_stream l) s -> live_step l (live_in l s (l_in l) (l_inner l))
  | L_cancel l :
      live_step l (mkLive (l_stream l) true (l_inner l) (l_in l) (l_sent l) (l_uploaded l) (l_out l)
                     (l_received l) (l_downloaded l))
  | L_turn l t t' s :
      l_in l = Some t -> at_end t = false -> task_turn show_dns_error t (l_stream l) = (t', s) ->
      live_step l (live_in l s (Some t') (l_inner l))
  | L_skip l t :
      l_in l = Some t -> code t = Ret (Ok Skip) ->
      live_step l (live_in l (l_stream l) (Some (task_new (p_next is_connect) (queries t))) (l_inner l))
  | L_forward l t dest payload n :
      l_in l = Some t -> code t = Ret (Ok (Forward dest payload)) ->
      udp_send (length (l_sent l)) dest payload = Ok n ->
      live_step l
        (mkLive (l_stream l) (l_cancel l) (l_inner l) (Some (task_new (p_next is_connect) (queries t)))
           (l_sent l ++ [(dest, payload)]) (l_uploaded l ++ [Z.of_nat n]) (l_out l)
           (l_received l) (l_downloaded l))
  | L_forward_error l t dest payload e :
      l_in l = Some t -> code t = Ret (Ok (Forward dest payload)) ->
      udp_send (length (l_sent l)) dest payload = Err e ->
      live_step l (live_in l (l_stream l) None true)
  | L_in_error l t e :
      l_in l = Some t -> code t = Ret (Err e) -> live_step l (live_in l (l_stream l) None true)
  | L_in_cancelled l t :
      l_in l = Some t -> l_cancel l = true -> live_step l (live_in l (l_stream l) None true)
  | L_in_inner l t :
      l_in l = Some t -> l_inner l = true -> live_step l (live_in l (l_stream l) None (l_inner l))
  | L_recv l from data :
      l_out l = Select -> sa_wf from -> data_fits data ->
      live_step l
        (mkLive (l_stream l) (l_cancel l) (l_inner l) (l_in l) (l_sent l) (l_uploaded l)
           (Writing (from, data) 0) (l_received l ++ [(from, data)]) (l_downloaded l))
  | L_recv_error l : l_out l = Select -> live_step l (live_out l (l_stream l) Ended true)
  | L_write l p k ph i s :
      l_out l = Writing p k -> k < length (out_packet is_connect p) ->
      write_turn p k (l_stream l) = (ph, i, s) ->
      live_step l (live_out l s ph (i || l_inner l))
  | L_written l p :
      l_out l = Writing p (length (out_packet is_connect p)) ->
      live_step l
        (mkLive (l_stream l) (l_cancel l) (l_inner l) (l_in l) (l_sent l) (l_uploaded l) Select
           (l_received l) (l_downloaded l ++ [Z.of_nat (length p.2)]))
  | L_out_cancelled l : l_out l = Select -> l_cancel l = true -> live_step l (live_out l (l_stream l) Ended true)
  | L_out_inner l : l_out l = Select -> l_inner l = true -> live_step l (live_out l (l_stream l) Ended (l_inner l))
  | L_shutdown l p s :
      l_out l = Ended -> poll_shutdown (l_stream l) = (p, s) ->
      live_step l (live_out l s (match p with Pending => Ended | Ready _ => Shut end) (l_inner l))
  | L_shutdown_timeout l : l_out l = Ended -> live_step l (live_out l (l_stream l) Shut (l_inner l)).

(** ** The refinement *)

(** What the environment keeps. *)
Context (env_keeps : forall s s', env s s' -> both_ok s -> stream_env s s').

(** The stream will not be read again. *)
Definition reading_over (l : Live T) : Prop :=
  match l_in l with None => True | Some t => at_end t = true end.

(** The session [a] of [Uot] that the state [l] stands for, when [rest] is what
    the stream still delivers: between two packets both are at the same point;
    within one, [a] is still before it. *)
Record stands_for (w0 : bytes) (rest : bytes) (l : Live T) (a : Session) : Prop := {
  sf_cancel : cancel a = l_cancel l;
  sf_inner : inner a = l_inner l;
  sf_sent : sent (in_state a) = l_sent l;
  sf_uploaded : uploaded (in_state a) = l_uploaded l;
  sf_in : match l_in l with
    | None => in_done a = true
    | Some t => in_done a = false
        /\ exists part, inp (in_state a) = part ++ rest
           /\ task_inv show_dns_error (p_next is_connect) (in_queries (in_state a)) part t
    end;
  sf_out : out_phase a = l_out l;
  sf_writing : forall p k, l_out l = Writing p k -> k <= length (out_packet is_connect p);
  sf_received : received a = l_received l;
  sf_downloaded : downloaded a = l_downloaded l;
  sf_written : wr_log (l_stream l) = w0 ++ written a
}.

Abbreviation abs_step := (session_step show_dns_error udp_send is_connect).

(** The abstract session takes the packet that [next] came to. *)
Lemma packet_step w0 rest l a t (x : Next) st :
  stands_for w0 rest l a -> l_in l = Some t -> code t = Ret (Ok x) ->
  next_result udp_send (Ok (x, rest), queries t) (in_state a) = (Ok tt, st) ->
  abs_step a (set_in a st false (inner a)).
Proof.
  intros [? ? ? ? Hin ? ? ? ? ?] Ht Hc Hn. rewrite Ht in Hin. destruct Hin as (Hd & part & Hp & Hi).
  pose proof (run_next show_dns_error udp_send is_connect (in_state a)) as Hs.
  rewrite Hp, (task_inv_ok _ _ _ _ _ _ rest Hi Hc), Hn in Hs. destruct Hs as (H1 & H2 & H3 & H4 & H5).
  destruct (input_next _ _ _ (in_state a)) as [r st'] eqn:E. cbn [fst snd] in *. subst r.
  assert (st' = st) as -> by (destruct st, st'; cbn in *; f_equal; [symmetry; by apply H5|done..]).
  by apply Step_in_packet.
Qed.

(** And its loop ends when [next] or the send failed. *)
Lemma packet_error w0 l a t e st :
  stands_for w0 [] l a -> l_in l = Some t ->
  next_result udp_send (run show_dns_error (p_next is_connect) (in_queries (in_state a)) (inp (in_state a))) (in_state a)
    = (Err e, st) ->
  exists st', abs_step a (set_in a st' true true) /\ sent st' = sent st /\ uploaded st' = uploaded st.
Proof.
  intros [? ? ? ? Hin ? ? ? ? ?] Ht Hn. rewrite Ht in Hin. destruct Hin as (Hd & part & Hp & Hi).
  pose proof (run_next show_dns_error udp_send is_connect (in_state a)) as Hs. rewrite Hn in Hs.
  destruct Hs as (H1 & H2 & H3 & _). destruct (input_next _ _ _ (in_state a)) as [r st'] eqn:E.
  cbn [fst snd] in *. subst r. exists st'. split; [by eapply Step_in_error|done].
Qed.

(** What a step from [l] to [l'] is for the sessions they stand for. *)
Definition simulated (w0 : bytes) (l l' : Live T) : Prop :=
  both_ok (l_stream l') /\ exists bs, rd_log (l_stream l') = rd_log (l_stream l) ++ bs
    /\ (forall rest a, stands_for w0 rest l a -> reading_over l -> bs = [] /\ reading_over l')
    /\ forall rest a, (reading_over l' -> rest = []) -> stands_for w0 (bs ++ rest) l a ->
        exists a', rtc abs_step a a' /\ stands_for w0 rest l' a'.

(** A step that does not read. *)
Lemma simulated_no_read w0 l l' :
  both_ok (l_stream l') -> rd_log (l_stream l') = rd_log (l_stream l) ->
  (forall rest a, stands_for w0 rest l a -> reading_over l -> reading_over l') ->
  (forall rest a, (reading_over l' -> rest = []) -> stands_for w0 rest l a ->
    exists a', rtc abs_step a a' /\ stands_for w0 rest l' a') ->
  simulated w0 l l'.
Proof. intros Hok HL Hr Hs. split; [done|]. exists []. rewrite app_nil_r. split_and!; try done. intros. split; [done|]. by eapply Hr. Qed.

(** The writer's part of the state changes to [ph], [i], the stream to [s]. *)
Lemma simulated_out w0 l s ph i :
  both_ok s -> rd_log s = rd_log (l_stream l) ->
  (forall rest a, stands_for w0 rest l a ->
    exists a', rtc abs_step a a' /\ cancel a' = cancel a /\ inner a' = i /\ in_state a' = in_state a
      /\ in_done a' = in_done a /\ out_phase a' = ph /\ received a' = received a
      /\ downloaded a' = downloaded a /\ wr_log s = w0 ++ written a'
      /\ forall p k, ph = Writing p k -> k <= length (out_packet is_connect p)) ->
  simulated w0 l (live_out l s ph i).
Proof.
  intros Hok HL Hs. apply simulated_no_read; [done|done|done|].
  intros rest a Hrest Ha. destruct (Hs rest a Ha) as (a' & Hr & E1 & E2 & E3 & E4 & E5 & E6 & E7 & E8 & E9).
  exists a'. split; [done|]. destruct Ha. split; cbn [live_out l_cancel l_inner l_in l_sent l_uploaded l_out
    l_received l_downloaded l_stream]; try congruence; try done. by rewrite E3, E4.
Qed.

Lemma task_turn_stream {A} (t : Task A) s t' s' :
  both_ok s -> task_turn show_dns_error t s = (t', s') ->
  both_ok s' /\ wr_log s' = wr_log s /\ exists bs, rd_log s' = rd_log s ++ bs.
Proof.
  assert (both_ok s -> both_ok s /\ wr_log s = wr_log s /\ exists bs, rd_log s = rd_log s ++ bs) as Hsame
    by (intros ?; split_and!; [done..|exists []; by rewrite app_nil_r]).
  intros [Hr Hw] Hs. unfold task_turn in Hs. destruct (code t) as [r|n k|host port k].
  - injection Hs as <- <-. by apply Hsame.
  - destruct (n <=? _); [injection Hs as <- <-; by apply Hsame|]. destruct (poll_read _ _) as [p s1] eqn:Hp.
    injection Hs as _ <-. destruct (rd_spec _ _ _ _ Hr Hp) as (? & _ & _ & Hlog).
    destruct (read_frame _ _ _ _ Hr Hw Hp) as (? & ? & _). split_and!; [done..|by eexists].
  - destruct (resolve_host _ _ _ _) as [[?|?] ?]; injection Hs as <- <-; by apply Hsame.
Qed.

Lemma simulated_turn w0 l t t' s :
  both_ok (l_stream l) -> l_in l = Some t -> at_end t = false ->
  task_turn show_dns_error t (l_stream l) = (t', s) -> simulated w0 l (live_in l s (Some t') (l_inner l)).
Proof.
  intros Hb Ht He Hs. destruct (task_turn_stream _ _ _ _ Hb Hs) as (Hok & Hwr & bs & Hbs). destruct Hb as [Hr Hw].
  split; [done|]. exists bs. split; [done|]. split; [unfold reading_over; rewrite Ht, He; done|].
  intros rest a Hrest Ha. exists a. split; [apply rtc_refl|]. destruct Ha. rewrite Ht in sf_in0.
  destruct sf_in0 as (Hd & part & Hp & Hi).
  destruct (task_turn_inv _ _ _ _ _ _ _ _ Hi He Hr Hs) as (_ & bs' & Hbs' & Hi').
  assert (bs' = bs) as -> by (rewrite Hbs in Hbs'; by apply app_inv_head in Hbs').
  split; cbn [live_in l_cancel l_inner l_in l_sent l_uploaded l_out l_received l_downloaded l_stream]; try done.
  - split; [done|]. exists (part ++ bs). by rewrite <- app_assoc.
  - congruence.
Qed.

(** The input loop is over; the abstract one takes the step [Hs]. *)
Lemma simulated_done w0 l i :
  both_ok (l_stream l) ->
  (forall a, stands_for w0 [] l a ->
    exists st, abs_step a (set_in a st true i) /\ sent st = l_sent l /\ uploaded st = l_uploaded l) ->
  simulated w0 l (live_in l (l_stream l) None i).
Proof.
  intros Hok Hs. apply simulated_no_read; [done..|].
  intros rest a Hrest Ha. rewrite Hrest in * by done. destruct (Hs a Ha) as (st & Hstep & H1 & H2).
  exists (set_in a st true i). split; [by apply rtc_once|]. destruct Ha. by split.
Qed.

(** The task has come to a result: the next packet begins. *)
Lemma simulated_packet w0 l t x sn up :
  both_ok (l_stream l) -> l_in l = Some t -> code t = Ret (Ok x) ->
  (forall a rest, sent (in_state a) = l_sent l -> uploaded (in_state a) = l_uploaded l ->
    next_result udp_send (Ok (x, rest), queries t) (in_state a) = (Ok tt, mkIn rest (queries t) sn up)) ->
  simulated w0 l
    (mkLive (l_stream l) (l_cancel l) (l_inner l) (Some (task_new (p_next is_connect) (queries t))) sn up
       (l_out l) (l_received l) (l_downloaded l)).
Proof.
  intros Hok Ht Hc Hn. apply simulated_no_read; [done..| |].
  - intros rest a Ha. unfold reading_over. rewrite Ht. intros He. destruct Ha. rewrite Ht in sf_in0.
    destruct sf_in0 as (_ & part & _ & Hi). destruct (ti_end _ _ _ _ _ Hi He) as [e He']. congruence.
  - intros rest a _ Ha. pose proof (packet_step w0 rest l a t x _ Ha Ht Hc (Hn a rest (sf_sent _ _ _ _ Ha) (sf_uploaded _ _ _ _ Ha)))
      as Hstep.
    eexists. split; [by apply rtc_once|]. destruct Ha.
    split; cbn [set_in cancel inner in_state in_done out_phase received downloaded written sent uploaded
      l_cancel l_inner l_in l_sent l_uploaded l_out l_received l_downloaded l_stream]; try done.
    split; [done|]. exists []. split; [done|]. apply task_inv_new.
Qed.

Lemma simulated_write w0 l p k ph i s :
  both_ok (l_stream l) -> l_out l = Writing p k -> k < length (out_packet is_connect p) ->
  write_turn p k (l_stream l) = (ph, i, s) -> simulated w0 l (live_out l s ph (i || l_inner l)).
Proof.
  intros [Hr Hw] Ho Hk Hs. unfold write_turn in Hs. destruct (poll_write _ _) as [r s1] eqn:Hp.
  destruct (wr_spec _ _ _ _ Hw Hp) as (Hw' & Hpost & _). destruct (write_frame _ _ _ _ Hr Hw Hp) as [Hr' HL].
  assert (s1 = s) as -> by congruence.
  assert (forall n, n <= length (offer (bufs_of p) k) -> k + n <= length (out_packet is_connect p)) as Hfit.
  { intros n Hn. pose proof (offer_fits (bufs_of p) k ltac:(unfold out_packet, bufs_of in *; lia)).
    unfold out_packet, bufs_of in *. lia. }
  apply simulated_out; [by split|done|]. intros rest a Ha.
  assert (out_phase a = Writing p k) as Hoa by (by rewrite (sf_out _ _ _ _ Ha)).
  assert (forall n, n <= length (offer (bufs_of p) k) -> abs_step a
    (mkSession (cancel a) (inner a) (in_state a) (in_done a) (Writing p (k + n)) (received a)
       (written a ++ take n (offer (bufs_of p) k)) (downloaded a))) as Hwrite.
  { intros n Hn. rewrite offer_take by done. apply Step_out_write; [done|by apply Hfit]. }
  pose proof (sf_written _ _ _ _ Ha) as Hwa. pose proof (sf_inner _ _ _ _ Ha) as Hia.
  destruct r as [|[n|e]]; cbn [write_post] in Hpost.
  - injection Hs as <- <-. exists a. split_and!; try done; try congruence; try apply rtc_refl.
    intros ? ? [= <- <-]. lia.
  - destruct Hpost as [Hn Hlog]. destruct n as [|n]; injection Hs as <- <-.
    + eexists. split; [apply rtc_once; by eapply Step_out_write_error|]. rewrite take_0, app_nil_r in Hlog.
      split_and!; try done. cbn [set_out written]. congruence.
    + eexists. split; [apply rtc_once; by apply (Hwrite (S n))|].
      split_and!; try done; cbn [written].
      * rewrite Hlog, Hwa. by rewrite app_assoc.
      * intros ? ? [= <- <-]. by apply Hfit.
  - destruct Hpost as [j Hlog]. injection Hs as <- <-.
    set (n := min j (length (offer (bufs_of p) k))).
    assert (take j (offer (bufs_of p) k) = take n (offer (bufs_of p) k)) as Hj.
    { unfold n. destruct (decide (j <= length (offer (bufs_of p) k))) as [|]; [by rewrite Nat.min_l|].
      rewrite Nat.min_r by lia. by rewrite !take_ge by lia. }
    eexists. split; [eapply rtc_l; [apply (Hwrite n); lia|]; apply rtc_once; by eapply Step_out_write_error|].
    split_and!; try done. cbn [set_out written]. by rewrite Hlog, Hj, Hwa, app_assoc.
Qed.

Lemma live_step_simulated w0 l l' :
  live_step l l' -> both_ok (l_stream l) -> simulated w0 l l'.
Proof.
  intros Hs Hok. destruct Hs as [l s He|l|l t t' s Ht Hae Hs|l t Ht Hc|l t dest payload n Ht Hc Hn
    |l t dest payload e Ht Hc Hn|l t e Ht Hc|l t Ht Hc|l t Ht Hi|l from data Ho Hsa Hd|l Ho|l p k ph i s Ho Hk Hs
    |l p Ho|l Ho Hc|l Ho Hi|l p s Ho Hs|l Ho].
  - destruct (env_keeps _ _ He Hok) as (? & ? & ? & ? & _). apply simulated_no_read; [done..|].
    intros rest a _ Ha. exists a. split; [apply rtc_refl|]. destruct Ha. split; cbn; try done. congruence.
  - apply simulated_no_read; [done..|]. intros rest a _ Ha. eexists. split; [apply rtc_once, Step_cancel|].
    by destruct Ha.
  - by eapply simulated_turn.
  - apply (simulated_packet w0 l t Skip (l_sent l) (l_uploaded l)); [done..|]. by intros a rest <- <-.
  - apply (simulated_packet w0 l t (Forward dest payload)); [done..|]. intros a rest H1 H2.
    cbn [next_result]. by rewrite H1, H2, Hn.
  - apply simulated_done; [done|]. intros a Ha.
    destruct (packet_error w0 l a t (Io e) (mkIn [] (queries t) (l_sent l) (l_uploaded l))) as (st & ? & ? & ?);
      [done..| |by exists st].
    pose proof Ha as [? ? H1 H2 Hin ? ? ? ? ?]. rewrite Ht in Hin. destruct Hin as (_ & part & Hp & Hi).
    rewrite Hp, (task_inv_ok _ _ _ _ _ _ [] Hi Hc). cbn [next_result]. by rewrite H1, H2, Hn.
  - apply simulated_done; [done|]. intros a Ha.
    pose proof Ha as [? ? H1 H2 Hin ? ? ? ? ?]. rewrite Ht in Hin. destruct Hin as (_ & part & Hp & Hi).
    destruct (task_inv_err _ _ _ _ _ _ [] Hi Hc ltac:(done)) as (e' & q' & He').
    destruct (packet_error w0 l a t e' (mkIn (inp (in_state a)) q' (l_sent l) (l_uploaded l))) as (st & ? & ? & ?);
      [done..| |by exists st].
    rewrite Hp, He'. cbn [next_result]. by rewrite <- Hp, H1, H2.
  - apply simulated_done; [done|]. intros a Ha. exists (drop_next (in_state a) 0 0). split.
    + apply Step_in_cancelled; [|by rewrite (sf_cancel _ _ _ _ Ha)].
      pose proof (sf_in _ _ _ _ Ha) as Hin. rewrite Ht in Hin. apply Hin.
    + split; [apply (sf_sent _ _ _ _ Ha)|apply (sf_uploaded _ _ _ _ Ha)].
  - apply simulated_done; [done|]. intros a Ha. exists (drop_next (in_state a) 0 0).
    rewrite <- (sf_inner _ _ _ _ Ha). split.
    + apply Step_in_inner; [|by rewrite (sf_inner _ _ _ _ Ha)].
      pose proof (sf_in _ _ _ _ Ha) as Hin. rewrite Ht in Hin. apply Hin.
    + split; [apply (sf_sent _ _ _ _ Ha)|apply (sf_uploaded _ _ _ _ Ha)].
  - apply simulated_no_read; [done..|]. intros rest a _ Ha. pose proof (sf_out _ _ _ _ Ha) as Hoa.
    eexists. split; [apply rtc_once, (Step_out_recv _ _ _ a from data); [congruence|done..]|].
    destruct Ha. split; cbn; try done; [|by f_equal]. intros ? ? [= <- <-]. lia.
  - apply simulated_out; [done..|]. intros rest a Ha. pose proof (sf_out _ _ _ _ Ha) as Hoa.
    eexists. split; [apply rtc_once, Step_out_recv_error; congruence|]. split_and!; try done. apply Ha.
  - by eapply simulated_write.
  - apply simulated_no_read; [done..|]. intros rest a _ Ha. pose proof (sf_out _ _ _ _ Ha) as Hoa.
    eexists. split; [apply rtc_once, (Step_out_written _ _ _ a p); congruence|].
    destruct Ha. split; cbn; try done. by f_equal.
  - apply simulated_out; [done..|]. intros rest a Ha. pose proof (sf_out _ _ _ _ Ha) as Hoa.
    eexists. split; [apply rtc_once, Step_out_cancelled; [congruence|by rewrite (sf_cancel _ _ _ _ Ha)]|].
    split_and!; try done. apply Ha.
  - apply simulated_out; [done..|]. intros rest a Ha. pose proof (sf_out _ _ _ _ Ha) as Hoa.
    eexists. split; [apply rtc_once, Step_out_inner; [congruence|by rewrite (sf_inner _ _ _ _ Ha)]|].
    split_and!; try done; apply Ha.
  - destruct Hok as [Hr Hw]. destruct (shutdown_spec _ _ _ Hw Hs) as (Hw' & HL & _).
    destruct (shutdown_frame _ _ _ Hr Hw Hs) as [Hr' HR]. apply simulated_out; [by split|done|].
    intros rest a Ha. pose proof (sf_out _ _ _ _ Ha) as Hoa. pose proof (sf_written _ _ _ _ Ha) as Hwa.
    pose proof (sf_inner _ _ _ _ Ha) as Hia.
    destruct p as [|r].
    + exists a. split; [apply rtc_refl|]. split_and!; done || congruence.
    + eexists. split; [apply rtc_once, Step_out_shutdown; congruence|]. split_and!; cbn; done || congruence.
  - apply simulated_out; [done..|]. intros rest a Ha. pose proof (sf_out _ _ _ _ Ha) as Hoa.
    eexists. split; [apply rtc_once, Step_out_shutdown; congruence|].
    split_and!; try done; apply Ha.
Qed.

(** Every state the session reaches stands for one that the session of [Uot]
    reaches. *)
Lemma live_reached s0 c q l :
  both_ok s0 -> rtc live_step (live_new s0 c q) l ->
  both_ok (l_stream l) /\ exists delta, rd_log (l_stream l) = rd_log s0 ++ delta
    /\ forall rest, (reading_over l -> rest = []) ->
        exists a, rtc abs_step (session_new c (delta ++ rest) q) a /\ stands_for (wr_log s0) rest l a.
Proof.
  intros H0 Hr.
  apply (rtc_ind_r (fun l => both_ok (l_stream l) /\ exists delta, rd_log (l_stream l) = rd_log s0 ++ delta
    /\ forall rest, (reading_over l -> rest = []) ->
        exists a, rtc abs_step (session_new c (delta ++ rest) q) a /\ stands_for (wr_log s0) rest l a)
    (live_new s0 c q)) in Hr; [done| |].
  - split; [done|]. exists []. rewrite app_nil_r. split; [done|]. intros rest _.
    exists (session_new c rest q). split; [apply rtc_refl|].
    split; cbn; try done; [|by rewrite app_nil_r]. split; [done|]. exists []. split; [done|]. apply task_inv_new.
  - intros l1 l2 _ Hs (Hok & delta & HL & IH).
    destruct (live_step_simulated (wr_log s0) _ _ Hs Hok) as (Hok2 & bs & HL2 & Hover & Hsim).
    split; [done|]. exists (delta ++ bs). split; [by rewrite HL2, HL, app_assoc|]. intros rest Hrest.
    destruct (IH (bs ++ rest)) as (a & Ha & Hfor).
    { intros H1. destruct (IH [] ltac:(done)) as (a0 & _ & Ha0).
      destruct (Hover _ _ Ha0 H1) as [-> H2]. by rewrite Hrest. }
    destruct (Hsim rest a Hrest Hfor) as (a' & Ha' & Hfor'). exists a'. split; [|done].
    rewrite <- app_assoc. by etrans.
Qed.

(** C20: the session on a stream refines the session of [Uot]: whatever the
    polls of the stream return, and however they interleave with the writes to
    the same stream, the tokens and the rest of the process, what was received,
    sent and recorded, and what the stream was given, is that of a run of
    [session_step] on the bytes the stream delivered, followed by any that it
    may still deliver. *)
Theorem live_refines s0 c q l :
  both_ok s0 -> rtc live_step (live_new s0 c q) l ->
  exists delta, rd_log (l_stream l) = rd_log s0 ++ delta
    /\ forall rest, (reading_over l -> rest = []) ->
        exists a, rtc abs_step (session_new c (delta ++ rest) q) a
          /\ sent (in_state a) = l_sent l /\ uploaded (in_state a) = l_uploaded l
          /\ received a = l_received l /\ downloaded a = l_downloaded l
          /\ wr_log (l_stream l) = wr_log s0 ++ written a
          /\ cancel a = l_cancel l /\ inner a = l_inner l /\ out_phase a = l_out l
          /\ (in_done a = true <-> l_in l = None).
Proof.
  intros H0 Hr. destruct (live_reached _ _ _ _ H0 Hr) as (_ & delta & HL & H). exists delta. split; [done|].
  intros rest Hrest. destruct (H rest Hrest) as (a & Ha & []). exists a. split_and!; try done.
  destruct (l_in l); [|done]. destruct sf_in0 as [Hd _]. by rewrite Hd.
Qed.
End Live.

(** ** Streams of packets *)

Abbreviation packets ic ps := (concat (map (out_packet ic) ps)).

Section Mode.
(** Whether the socket is connected, and packets carry no address. *)
Variable ic : bool.

(** Where the server sends a packet, and what a client reads of one. *)
Definition dest_in (p : SocketAddr * bytes) : option SocketAddr := if ic then None else Some p.1.
Definition shown (p : SocketAddr * bytes) : option (rstr * Z) * bytes :=
  (if ic then None else Some (show_ip (sa_ip p.1), sa_port p.1), p.2).

(** A reference reader of one packet, and of as many as there are. *)
Definition read_datagram : reader (option (rstr * Z) * bytes) := fun s =>
  let? (addr, s) := if ic then Ok (None, s) else let? (a, s) := read_addr_parser s in Ok (Some a, s) in
  let? (len, s) := read_u16 s in
  let? (data, s) := read_exact (Z.to_nat len) s in
  Ok ((addr, data), s).

Fixpoint read_datagrams (fuel : nat) (s : bytes) : list (option (rstr * Z) * bytes) :=
  match fuel with
  | O => []
  | S fuel => match read_datagram s with Ok (p, s) => p :: read_datagrams fuel s | Err _ => [] end
  end.

Lemma out_packet_eq p :
  out_packet ic p = (if ic then [] else concat (write_addr_parser p.1)) ++ u16_be (Z.of_nat (length p.2)) ++ p.2.
Proof.
  unfold out_packet, write_uot_packet. destruct ic; [|rewrite concat_app]; cbn [concat app]; by rewrite app_nil_r.
Qed.

Lemma out_packet_pos p : 0 < length (out_packet ic p).
Proof. rewrite out_packet_eq, !length_app. simpl. lia. Qed.

Lemma read_datagram_write p rest :
  sa_wf p.1 -> data_fits p.2 -> read_datagram (out_packet ic p ++ rest) = Ok (shown p, rest).
Proof.
  intros Hsa Hd. unfold read_datagram, shown. rewrite out_packet_eq, <- !app_assoc. unfold data_fits in Hd.
  destruct ic; [cbn [app]|rewrite read_addr_parser_write by done]; cbn [result_bind];
    rewrite read_u16_be by (unfold is_u16, u16_max; lia); cbn [result_bind];
    by rewrite Nat2Z.id, read_exact_app by done.
Qed.

Lemma read_datagram_cut p s rest :
  sa_wf p.1 -> data_fits p.2 -> out_packet ic p = s ++ rest -> rest <> [] -> is_err (read_datagram s) = true.
Proof.
  intros Hsa Hd Hp Hr. unfold read_datagram. unfold out_packet in Hp. destruct ic.
  - unfold write_uot_packet in Hp. cbn [concat app] in Hp. rewrite app_nil_r in Hp. cbn [result_bind].
    apply payload_cut in Hp as [->|(v & -> & Hv)]; [done| |done|done]. cbn [result_bind].
    by rewrite Nat2Z.id, read_exact_short.
  - apply packet_cut in Hp as [(r & Ha & Hr')|(t & -> & Ht)]; [..|done|done].
    + by rewrite (read_addr_parser_short p.1 s r).
    + rewrite read_addr_parser_write by done. cbn [result_bind].
      destruct Ht as [->|(v & -> & Hv)]; [done|]. cbn [result_bind]. by rewrite Nat2Z.id, read_exact_short.
Qed.

Lemma read_datagrams_write ps tail fuel :
  Forall (fun p => sa_wf p.1 /\ data_fits p.2) ps -> length ps < fuel -> is_err (read_datagram tail) = true ->
  read_datagrams fuel (packets ic ps ++ tail) = map shown ps.
Proof.
  intros Hps. revert fuel. induction Hps as [|p ps [Hsa Hd] _ IH]; intros [|fuel] Hf Ht;
    try (simpl in Hf; lia); cbn [read_datagrams map concat app].
  - by destruct (read_datagram tail) as [[]|].
  - rewrite <- app_assoc, read_datagram_write by done. f_equal. apply IH; [simpl in Hf; lia|done].
Qed.

(** The first bytes of a stream of packets: whole packets and a part of one. *)
Lemma packets_prefix (ps : list (SocketAddr * bytes)) w :
  w `prefix_of` packets ic ps ->
  exists n part, n <= length ps /\ w = packets ic (take n ps) ++ part
    /\ (part = [] \/ exists p r, ps !! n = Some p /\ out_packet ic p = part ++ r /\ r <> []).
Proof.
  revert w. induction ps as [|p ps IH]; intros w [x Hx]; cbn [map concat] in Hx.
  - exists 0, []. symmetry in Hx. apply app_eq_nil in Hx as [-> _]. split_and!; [done..|by left].
  - destruct (decide (length (out_packet ic p) <= length w)) as [Hle|Hlt].
    + destruct (IH (drop (length (out_packet ic p)) w)) as (n & part & Hn & Hw & Hp).
      { exists x. apply (f_equal (drop (length (out_packet ic p)))) in Hx.
        by rewrite drop_app_length, drop_app_le in Hx. }
      exists (S n), part. cbn [length take map concat]. split_and!; [lia| |done]. rewrite <- app_assoc, <- Hw.
      apply (f_equal (take (length (out_packet ic p)))) in Hx. rewrite take_app_length, take_app_le in Hx by done.
      rewrite <- (take_drop (length (out_packet ic p)) w) at 1. f_equal. exact (eq_sym Hx).
    + exists 0, w. cbn [take map concat app]. split_and!; [lia|done|]. right.
      exists p, (drop (length w) (out_packet ic p)). split; [done|].
      apply (f_equal (take (length w))) in Hx. rewrite take_app_le, take_app_length in Hx by lia.
      split; [rewrite <- (take_drop (length w) (out_packet ic p)) at 1; by rewrite Hx|].
      intros Hd. apply (f_equal length) in Hd. rewrite length_drop in Hd. simpl in Hd. lia.
Qed.

(** The packet at [n], and those after it. *)
Lemma packets_at ps n m p :
  ps !! n = Some p -> n < m ->
  packets ic (take m ps) = packets ic (take n ps) ++ out_packet ic p ++ packets ic (take (m - S n) (drop (S n) ps)).
Proof.
  intros Hlk Hnm. replace (take m ps) with (take n ps ++ p :: take (m - S n) (drop (S n) ps)).
  - by rewrite map_app, concat_app.
  - rewrite <- (take_drop n (take m ps)), take_take, Nat.min_l by lia. f_equal.
    rewrite skipn_firstn_comm, (drop_S ps p n) by done. by replace (m - n) with (S (m - S n)) by lia.
Qed.

(** A reader of packets gets the whole ones. *)
Lemma read_datagrams_prefix ps w fuel :
  Forall (fun p => sa_wf p.1 /\ data_fits p.2) ps -> length ps < fuel -> w `prefix_of` packets ic ps ->
  exists n, n <= length ps /\ read_datagrams fuel w = map shown (take n ps)
    /\ forall m, m <= length ps -> packets ic (take m ps) `prefix_of` w -> m <= n.
Proof.
  intros Hps Hf Hw. apply packets_prefix in Hw as (n & part & Hn & -> & Hp). exists n. split; [done|]. split.
  - apply read_datagrams_write; [by apply Forall_take|rewrite length_take; lia|].
    destruct Hp as [->|(p & r & Hlk & Hcut & Hr)]; [by unfold read_datagram; destruct ic|].
    destruct (Forall_lookup_1 _ _ _ _ Hps Hlk) as [Hsa Hd]. by apply (read_datagram_cut p part r).
  - intros m Hm [x Hx]. destruct (decide (m <= n)) as [|Hmn]; [done|exfalso].
    destruct (lookup_lt_is_Some_2 ps n ltac:(lia)) as [p Hlk].
    rewrite (packets_at ps n m p Hlk ltac:(lia)) in Hx. apply (f_equal length) in Hx. rewrite !length_app in Hx.
    pose proof (out_packet_pos p) as Hpos.
    destruct Hp as [->|(p' & r & Hlk' & Hcut & Hr)]; [simpl in Hx; lia|].
    assert (p' = p) as -> by congruence. apply (f_equal length) in Hcut. rewrite length_app in Hcut.
    destruct r; [done|simpl in *; lia].
Qed.

Context {cache : DnsCache}.
Variable show_dns_error : DnsError -> rstr.
Variable udp_send : nat -> option SocketAddr -> bytes -> io_result nat.

Abbreviation forwarded ps := (map (fun p => (dest_in p, p.2)) ps).

(** The input loop on a whole packet, and on a part of one. *)
Lemma input_whole p rest k s u :
  sa_wf p.1 -> data_ok p.2 ->
  input_next show_dns_error udp_send ic (mkIn (out_packet ic p ++ rest) k s u)
  = match udp_send (length s) (dest_in p) p.2 with
    | Ok n => (Ok tt, mkIn rest k (s ++ [(dest_in p, p.2)]) (u ++ [Z.of_nat n]))
    | Err e => (Err (Io e), mkIn rest k s u)
    end.
Proof.
  intros Hsa Hd. unfold dest_in, out_packet. destruct ic; [by apply input_next_connected|by apply input_next_whole].
Qed.

Lemma input_cut p s rest k q u :
  sa_wf p.1 -> data_ok p.2 -> out_packet ic p = s ++ rest -> rest <> [] ->
  let '(r, st) := input_next show_dns_error udp_send ic (mkIn s k q u) in
  r = Err eof_error /\ sent st = q /\ uploaded st = u.
Proof.
  intros Hsa Hd. unfold out_packet. destruct ic; intros Hp Hr;
    [by eapply input_next_connected_cut|by eapply input_next_cut].
Qed.

(** A session that is given a part of a stream of packets has sent the first of
    them, and read no further. *)
Lemma session_input c (ps : list (SocketAddr * bytes)) b k s :
  Forall (fun p => sa_wf p.1 /\ data_ok p.2) ps -> b `prefix_of` packets ic ps ->
  rtc (session_step show_dns_error udp_send ic) (session_new c b k) s ->
  exists n, n <= length ps /\ sent (in_state s) = forwarded (take n ps)
    /\ (in_done s = false -> packets ic (take n ps) ++ inp (in_state s) = b).
Proof.
  intros Hps Hb Hr.
  apply (rtc_ind_r (fun s => exists n, n <= length ps /\ sent (in_state s) = forwarded (take n ps)
    /\ (in_done s = false -> packets ic (take n ps) ++ inp (in_state s) = b)) (session_new c b k)) in Hr; [done| |].
  - exists 0. split_and!; [lia|done..].
  - intros s1 s2 _ Hs (n & Hn & Hsent & Hinp).
    destruct Hs as [u|u st Hi Hx|u e st Hi Hx|u q1 q2 Hi Hc|u q1 q2 Hi Hc|u from data Ho Hsa Hl|u Ho
      |u p k' n' Ho Hle|u p' Ho|u p' k' Ho|u Ho Hc|u Ho Hc|u Ho];
      cbn [set_in set_out drop_next in_done in_state sent uploaded inp] in *; try (by exists n);
      specialize (Hinp Hi).
    + destruct (in_state u) as [ip qn sn up]. cbn [sent inp] in *. subst sn.
      rewrite <- Hinp in Hb. rewrite <- (take_drop n ps) in Hb at 2. rewrite map_app, concat_app in Hb.
      apply prefix_app_inv in Hb. apply packets_prefix in Hb as (j & part & Hj & -> & Hp).
      rewrite length_drop in Hj. destruct j as [|j].
      * exfalso. simpl in Hx. destruct Hp as [->|(p & r & Hlk & Hcut & Hrn)]; [by destruct ic|].
        apply (Forall_drop _ n) in Hps. destruct (Forall_lookup_1 _ _ _ _ Hps Hlk) as [Hsa Hd].
        pose proof (input_cut p part r qn (forwarded (take n ps)) up Hsa Hd Hcut Hrn) as H.
        rewrite Hx in H. by destruct H.
      * destruct (lookup_lt_is_Some_2 ps n ltac:(lia)) as [p Hlk].
        destruct (Forall_lookup_1 _ _ _ _ Hps Hlk) as [Hsa Hd].
        rewrite (drop_S ps p n Hlk) in Hx, Hinp. cbn [take map concat] in Hx, Hinp. rewrite <- !app_assoc in Hx.
        rewrite input_whole in Hx by done. destruct (udp_send _ _ _) as [m|e]; [|done].
        injection Hx as <-. exists (S n). rewrite (take_S_r ps n p Hlk), !map_app, concat_app. cbn.
        split_and!; [lia|done|]. intros _. rewrite <- Hinp, app_nil_r, <- !app_assoc. done.
    + exists n. split_and!; [done| |done].
      destruct (in_state u) as [ip qn sn up]. cbn [sent inp] in *. subst sn.
      pose proof (run_next show_dns_error udp_send ic (mkIn ip qn (forwarded (take n ps)) up)) as H.
      rewrite Hx in H. destruct H as (H1 & H2 & _). cbn [inp in_queries fst snd] in *. rewrite <- H2.
      destruct (run _ _ _ _) as [[[[|d pl] r]|e1] q1]; cbn [next_result fst snd sent uploaded] in *; [done| |done].
      by destruct (udp_send _ _ _).
Qed.

(** A whole packet is enough for [next]. *)
Lemma run_next_packet q p rest :
  sa_wf p.1 -> data_ok p.2 ->
  run show_dns_error (p_next ic) q (out_packet ic p ++ rest) = (Ok (Forward (dest_in p) p.2, rest), q).
Proof.
  intros Hsa Hd. pose proof Hd as [? ?].
  assert (forall dest, run show_dns_error (let* len := p_u16 in
       if (len =? 0)%Z then Ret (Ok Skip)
       else let* payload := p_exact (Z.to_nat len) in Ret (Ok (Forward dest payload))) q
      (u16_be (Z.of_nat (length p.2)) ++ p.2 ++ rest) = (Ok (Forward dest p.2, rest), q)) as Htail.
  { intros dest. rewrite run_await, reads_u16, read_len_data by done. rewrite (proj2 (Z.eqb_neq _ _)) by lia.
    rewrite run_await, reads_exact, Nat2Z.id, read_exact_app by done. done. }
  unfold p_next, dest_in. rewrite run_await, out_packet_eq, <- !app_assoc. destruct ic; [apply Htail|].
  rewrite run_await, reads_addr_parser, read_addr_parser_write by done. cbn [run await p_resolve].
  rewrite resolve_host_literal by apply Hsa. cbn [run].
  assert (SocketAddr_new (sa_ip p.1) (sa_port p.1) = p.1) as -> by by destruct p as [[]].
  apply Htail.
Qed.
End Mode.

(** ** What a session delivers *)

Section Delivers.
Context {cache : DnsCache}.
Variable show_dns_error : DnsError -> rstr.
Variable udp_send : nat -> option SocketAddr -> bytes -> io_result nat.
Context {T : Type} `{!AsyncRead T, !AsyncWrite T, !ReadSpec T, !WriteSpec T, !DuplexSpec T}.
Variable env : T -> T -> Prop.
Variable ic : bool.

(** The input loop waits for bytes of the stream. *)
Definition waiting (l : Live T) : Prop :=
  exists t m k, l_in l = Some t /\ code t = ReadExact m k /\ length (got t) < m.

(** Of a stream of packets that begins with [delta], the first packets were sent,
    each to its address; all that are whole in [delta] if the loop waits for
    more. *)
Definition uplink (delta : bytes) (l : Live T) : Prop :=
  forall ps, Forall (fun p => sa_wf p.1 /\ data_ok p.2) ps -> delta `prefix_of` packets ic ps ->
  exists n, n <= length ps /\ l_sent l = map (fun p => (dest_in ic p, p.2)) (take n ps)
    /\ (waiting l -> forall j, j <= length ps -> packets ic (take j ps) `prefix_of` delta -> j <= n).

(** A client that has read a part [w'] of what was written has the first
    datagrams received, whole; those recorded if it has read all. *)
Definition downlink (w : bytes) (l : Live T) : Prop :=
  exists m, m <= length (l_received l) <= S m
    /\ l_downloaded l = map (fun p => Z.of_nat (length p.2)) (take m (l_received l))
    /\ forall w', w' `prefix_of` w ->
       exists n, n <= length (l_received l)
         /\ read_datagrams ic (S (length (l_received l))) w' = map (shown ic) (take n (l_received l))
         /\ (w' = w -> m <= n).

Lemma output_inv_packets s ps tail part :
  output_inv ic s ps tail part -> written s `prefix_of` packets ic (received s)
  /\ packets ic ps `prefix_of` written s.
Proof.
  intros (Hr & _ & Hw & _ & Hp). rewrite Hw, Hr. split; [|by eexists].
  rewrite map_app, concat_app. apply prefix_app.
  destruct (out_phase s) as [|p k| |].
  - by destruct Hp as [-> ->].
  - destruct Hp as (-> & _ & ->). cbn [map concat]. rewrite app_nil_r. apply prefix_take.
  - destruct Hp as [[-> ->]|(p & k & -> & ->)]; [done|]. cbn [map concat]. rewrite app_nil_r. apply prefix_take.
  - destruct Hp as [[-> ->]|(p & k & -> & ->)]; [done|]. cbn [map concat]. rewrite app_nil_r. apply prefix_take.
Qed.

(** What was received is written whole, and recorded, up to the last one. *)
Lemma reached_downlink c b k a (l : Live T) :
  rtc (session_step show_dns_error udp_send ic) (session_new c b k) a ->
  received a = l_received l -> downloaded a = l_downloaded l -> downlink (written a) l.
Proof.
  intros Ha Er Ed. destruct (output_inv_reachable _ _ _ _ _ _ _ Ha) as (ps & tail & part & Hinv).
  destruct (output_inv_packets _ _ _ _ Hinv) as [Hw1 Hw2]. destruct Hinv as (Hrec & Hdown & _ & Hall & Hph).
  unfold downlink. rewrite <- Er, <- Ed.
  assert (length tail <= 1) as Htail.
  { destruct (out_phase a) as [|? ?| |]; [destruct Hph as [-> _]|destruct Hph as [-> _]|destruct Hph as [[-> _]|(? & ? & -> & _)]..];
      simpl; lia. }
  exists (length ps). split; [rewrite Hrec, length_app; lia|].
  split; [by rewrite Hdown, Hrec, take_app_length|].
  intros w' Hw'. destruct (read_datagrams_prefix ic (received a) w' (S (length (received a)))) as (n & Hn & Hread & Hmost);
    [done|lia|by etrans|].
  exists n. split; [done|]. split; [done|]. intros ->. apply Hmost; [rewrite Hrec, length_app; lia|].
  by rewrite Hrec, take_app_length.
Qed.

(** A packet that is whole in what was read is sent before the loop waits. *)
Lemma waiting_sends rest w0 c delta q (l : Live T) a ps n :
  rest = [] -> stands_for show_dns_error ic w0 rest l a -> waiting l ->
  rtc (session_step show_dns_error udp_send ic) (session_new c delta q) a ->
  Forall (fun p => sa_wf p.1 /\ data_ok p.2) ps ->
  (in_done a = false -> packets ic (take n ps) ++ inp (in_state a) = delta) ->
  forall j, j <= length ps -> packets ic (take j ps) `prefix_of` delta -> j <= n.
Proof.
  intros -> Hfor (t & m & k & Ht & Hc & Hg) Ha Hps Hi j Hj [y Hy].
  destruct (decide (j <= n)) as [|Hjn]; [done|exfalso].
  pose proof (sf_in _ _ _ _ _ _ Hfor) as Hin. rewrite Ht in Hin. destruct Hin as (Hd & part & Hp & Hti).
  rewrite app_nil_r in Hp. specialize (Hi Hd). rewrite Hp in Hi.
  destruct (lookup_lt_is_Some_2 ps n ltac:(lia)) as [p Hlk].
  destruct (Forall_lookup_1 _ _ _ _ Hps Hlk) as [Hsa Hda].
  rewrite (packets_at ic ps n j p Hlk ltac:(lia)), <- !app_assoc, <- Hi in Hy. apply app_inv_head in Hy.
  pose proof (ti_run _ _ _ _ _ Hti [] ltac:(done)) as Hagree. rewrite app_nil_r, Hy, run_next_packet in Hagree by done.
  rewrite Hc in Hagree. cbn [run] in Hagree. by rewrite app_nil_r, read_exact_short in Hagree by lia.
Qed.

Lemma live_delivers s0 c q l :
  (forall s s', env s s' -> both_ok s -> stream_env s s') -> both_ok s0 ->
  rtc (live_step show_dns_error udp_send ic env) (live_new ic s0 c q) l ->
  both_ok (l_stream l) /\ exists delta w,
    rd_log (l_stream l) = rd_log s0 ++ delta /\ wr_log (l_stream l) = wr_log s0 ++ w
    /\ uplink delta l /\ downlink w l.
Proof.
  intros He H0 Hr. destruct (live_reached show_dns_error udp_send ic env He _ _ _ _ H0 Hr) as (Hok & delta & HL & Habs).
  split; [done|]. destruct (Habs [] ltac:(done)) as (a & Ha & Hfor). rewrite app_nil_r in Ha.
  exists delta, (written a). split; [done|]. split; [apply Hfor|]. split.
  - intros ps Hps Hpre.
    destruct (session_input ic show_dns_error udp_send _ _ _ _ _ Hps Hpre Ha) as (n & Hn & Hs & Hi).
    exists n. split; [done|]. split; [by rewrite <- (sf_sent _ _ _ _ _ _ Hfor)|].
    intros Hw. by eapply waiting_sends.
  - eapply reached_downlink; [exact Ha|apply Hfor..].
Qed.
End Delivers.

(** ** Runs given by a script *)

(** What is polled next; [ANext] is what the loop does with the result of
    [next], [AWrite] a poll of [write_all] or its end. *)
Inductive Act : Type :=
  | ATurn | ANext | ARecv (from : SocketAddr) (data : bytes) | AWrite
  | AInToken | AOutToken      (* a loop sees one of the two tokens *)
  | AShutdown.

Definition act_ok (a : Act) : Prop :=
  match a with ARecv from data => sa_wf from /\ data_fits data | _ => True end.

Section Acts.
Context {cache : DnsCache}.
Variable show_dns_error : DnsError -> rstr.
Variable udp_send : nat -> option SocketAddr -> bytes -> io_result nat.
Variable is_connect : bool.
Context {T : Type} `{!AsyncRead T, !AsyncWrite T}.
Variable env : T -> T -> Prop.

Definition live_next (l : Live T) (q : nat) : Live T :=
  live_in l (l_stream l) (Some (task_new (p_next is_connect) q)) (l_inner l).

Definition live_act (a : Act) (l : Live T) : option (Live T) :=
  match a with
  | ATurn =>
      t ← l_in l;
      if at_end t then None
      else let '(t, s) := task_turn show_dns_error t (l_stream l) in Some (live_in l s (Some t) (l_inner l))
  | ANext =>
      t ← l_in l;
      match code t with
      | Ret (Ok Skip) => Some (live_next l (queries t))
      | Ret (Ok (Forward dest payload)) =>
          match udp_send (length (l_sent l)) dest payload with
          | Ok n =>
              Some (mkLive (l_stream l) (l_cancel l) (l_inner l) (Some (task_new (p_next is_connect) (queries t)))
                      (l_sent l ++ [(dest, payload)]) (l_uploaded l ++ [Z.of_nat n]) (l_out l)
                      (l_received l) (l_downloaded l))
          | Err _ => Some (live_in l (l_stream l) None true)
          end
      | Ret (Err _) => Some (live_in l (l_stream l) None true)
      | _ => None
      end
  | ARecv from data =>
      match l_out l with
      | Select =>
          Some (mkLive (l_stream l) (l_cancel l) (l_inner l) (l_in l) (l_sent l) (l_uploaded l)
                  (Writing (from, data) 0) (l_received l ++ [(from, data)]) (l_downloaded l))
      | _ => None
      end
  | AWrite =>
      match l_out l with
      | Writing p k =>
          if k <? length (out_packet is_connect p) then
            let '(ph, i, s) := write_turn is_connect p k (l_stream l) in Some (live_out l s ph (i || l_inner l))
          else if k =? length (out_packet is_connect p) then
            Some (mkLive (l_stream l) (l_cancel l) (l_inner l) (l_in l) (l_sent l) (l_uploaded l) Select
                    (l_received l) (l_downloaded l ++ [Z.of_nat (length p.2)]))
          else None
      | _ => None
      end
  | AInToken =>
      _ ← l_in l;
      if l_cancel l then Some (live_in l (l_stream l) None true)
      else if l_inner l then Some (live_in l (l_stream l) None true) else None
  | AOutToken =>
      match l_out l with
      | Select => if l_cancel l || l_inner l then Some (live_out l (l_stream l) Ended true) else None
      | _ => None
      end
  | AShutdown =>
      match l_out l with
      | Ended =>
          let '(p, s) := poll_shutdown (l_stream l) in
          Some (live_out l s (match p with Pending => Ended | Ready _ => Shut end) (l_inner l))
      | _ => None
      end
  end.

Fixpoint live_acts (acts : list Act) (l : Live T) : option (Live T) :=
  match acts with
  | [] => Some l
  | a :: acts => match live_act a l with Some l => live_acts acts l | None => None end
  end.

Lemma live_act_step a l l' :
  act_ok a -> live_act a l = Some l' -> live_step show_dns_error udp_send is_connect env l l'.
Proof.
  destruct a as [| |from data| | | |]; cbn [live_act act_ok]; intros Hok Hl.
  - destruct (l_in l) as [t|] eqn:Ht; [|done]. cbn in Hl. destruct (at_end t) eqn:Ha; [done|].
    destruct (task_turn _ t _) as [t' s] eqn:E. injection Hl as <-. by eapply L_turn.
  - destruct (l_in l) as [t|] eqn:Ht; [|done]. cbn in Hl.
    destruct (code t) as [[[|dest payload]|e]| |] eqn:Hc; try done.
    + injection Hl as <-. by eapply L_skip.
    + destruct (udp_send _ _ _) eqn:Hs; injection Hl as <-; [by eapply L_forward|by eapply L_forward_error].
    + injection Hl as <-. by eapply L_in_error.
  - destruct (l_out l) eqn:Ho; try done. injection Hl as <-. destruct Hok. by apply L_recv.
  - destruct (l_out l) as [|p k| |] eqn:Ho; try done. destruct (k <? _) eqn:Hk; bool_facts.
    + destruct (write_turn _ _ _ _) as [[ph i] s] eqn:Hw. injection Hl as <-. by eapply L_write.
    + destruct (k =? _) eqn:Hk'; bool_facts; [|done]. injection Hl as <-. subst k. by eapply L_written.
  - destruct (l_in l) as [t|] eqn:Ht; [|done]. cbn in Hl. destruct (l_cancel l) eqn:Hc.
    { injection Hl as <-. by eapply L_in_cancelled. }
    destruct (l_inner l) eqn:Hi; [|done]. injection Hl as <-. rewrite <- Hi at 1. by eapply L_in_inner.
  - destruct (l_out l) eqn:Ho; try done. destruct (l_cancel l) eqn:Hc.
    { injection Hl as <-. by apply L_out_cancelled. }
    destruct (l_inner l) eqn:Hi; [|done]. injection Hl as <-. rewrite <- Hi at 1. by apply L_out_inner.
  - destruct (l_out l) eqn:Ho; try done. destruct (poll_shutdown _) as [p s] eqn:Hp. injection Hl as <-.
    by apply L_shutdown.
Qed.

Lemma live_acts_steps acts l l' :
  Forall act_ok acts -> live_acts acts l = Some l' ->
  rtc (live_step show_dns_error udp_send is_connect env) l l'.
Proof.
  intros Ha. revert l. induction Ha as [|a acts Ha _ IH]; intros l; simpl; [intros [= ->]; apply rtc_refl|].
  destruct (live_act a l) as [l1|] eqn:E; [|done]. intros H. eapply rtc_l; [by eapply live_act_step|by apply IH].
Qed.
End Acts.

(** ** A session on a stream in memory *)

(** The client's packet comes in two pieces and another one begins; a datagram
    is received between them, and the stream takes its packet in two writes. *)
Definition ex_live_stream : Mem :=
  {| chunks := [take 4 (packet ex_peer [1; 2; 3]%Z); drop 4 (packet ex_peer [1; 2; 3]%Z) ++ [0]%Z];
     eof := false; consumed := []; credits := [1; 4; 1; 2; 9; 9]; accepted := []; fin := false |}.

Definition ex_live_acts : list Act :=
  repeat ATurn 4 ++ [ARecv ex_peer [4; 5]%Z; AWrite; AWrite] ++ repeat ATurn 9 ++ [ANext]
  ++ repeat AWrite 5 ++ repeat ATurn 3.

Definition ex_live_start : Live Mem := live_new false ex_live_stream false 0.

Definition ex_live : Live Mem :=
  default ex_live_start (live_acts (cache := dns_ex) ex_show ex_send false ex_live_acts ex_live_start).

Lemma ex_live_run :
  rtc (live_step (cache := dns_ex) ex_show ex_send false eq) ex_live_start ex_live.
Proof.
  apply (live_acts_steps ex_show ex_send false eq ex_live_acts).
  - unfold ex_live_acts. cbn [repeat app].
    repeat (apply Forall_cons_2; [first [exact I|split; [exact ex_peer_wf|unfold data_fits; simpl; lia]]|]).
    apply Forall_nil_2.
  - unfold ex_live. assert (match live_acts (cache := dns_ex) ex_show ex_send false ex_live_acts ex_live_start
      with Some _ => true | None => false end = true) as H by by vm_compute.
    by destruct (live_acts _ _ _ _ _).
Qed.

Lemma live_refines_witness :
  exists delta, rd_log (l_stream ex_live) = rd_log ex_live_stream ++ delta
    /\ forall rest, (reading_over ex_live -> rest = []) ->
        exists a, rtc (session_step (cache := dns_ex) ex_show ex_send false) (session_new false (delta ++ rest) 0) a
          /\ sent (in_state a) = l_sent ex_live /\ uploaded (in_state a) = l_uploaded ex_live
          /\ received a = l_received ex_live /\ downloaded a = l_downloaded ex_live
          /\ wr_log (l_stream ex_live) = wr_log ex_live_stream ++ written a
          /\ cancel a = l_cancel ex_live /\ inner a = l_inner ex_live /\ out_phase a = l_out ex_live
          /\ (in_done a = true <-> l_in ex_live = None).
Proof.
  apply (live_refines ex_show ex_send false eq).
  - intros s s' <- [? ?]. by split_and!.
  - split; repeat constructor; by vm_compute.
  - exact ex_live_run.
Defined.

(** What the two sides have in that run. *)
Example ex_live_result :
  l_sent ex_live = [(Some ex_peer, [1; 2; 3]%Z)] /\ l_uploaded ex_live = [3]%Z /\ l_downloaded ex_live = [2]%Z
  /\ accepted (l_stream ex_live) = packet ex_peer [4; 5]%Z /\ l_inner ex_live = false.
Proof. by vm_compute. Qed.
