(* ===== verification/UotTunnel.v ===== *)
(** * UDP over TCP in a tunnel, end to end

    [handle_uot_stream] as a whole: the future that reads the request, the
    sockets it opens, and the session of [UotStream] on the same stream; what it
    records and how it can end; then the same on the streams that the server
    hands to it, the padding transport over an HTTP/3 stream and over the pipe of
    an HTTP/2 bridge. *)

From S2P Require Import Prelude RustStr RustNet AsyncIo Address Routing Uot UotStream Padding PaddingStream Relay RelayEnd PaddingEnd QuicheStream TunnelH3 Bridge TunnelH2.
Open Scope nat_scope.

(** Where [handle_uot_stream] is: in the request, whose future holds the
    stream, in the session, or returned with an error. *)
Inductive Uot (T : Type) : Type :=
  | Requesting (t : Task (bool * option SocketAddr)) (s : T) (cancelled : bool)
  | Running (is_connect : bool) (l : Live T)
  | Failed (s : T) (e : uot_error).
Arguments Requesting {T}.
Arguments Running {T}.
Arguments Failed {T}.

Section Uot.
Context {cache : DnsCache}.
Variable show_dns_error : DnsError -> rstr.

(** [UdpSocket::bind], of the dual-stack address or of that of IPv4 alone, and
    [connect]. *)
Variable udp_bind : bool -> io_result unit.
Variable udp_connect : SocketAddr -> io_result unit.
Variable udp_send : nat -> option SocketAddr -> bytes -> io_result nat.

Definition bind_udp : io_result unit :=
  match udp_bind true with
  | Ok s => Ok s
  | Err _ => udp_bind false
  end.

Definition open_udp (is_connect : bool) (fixed_dest : option SocketAddr) : io_result unit :=
  let? _ := bind_udp in
  if is_connect then
    match fixed_dest with
    | Some dest => udp_connect dest
    | None => Ok tt
    end
  else Ok tt.

Context {T : Type} `{!AsyncRead T, !AsyncWrite T}.
Variable version : UotVersion.
Variable env : T -> T -> Prop.

Definition uot_new (s : T) (c : bool) (q : nat) : Uot T := Requesting (task_new (p_request version) q) s c.

(** No step before the session looks at the token. *)
Inductive uot_step : Uot T -> Uot T -> Prop :=
  | U_env t s s' c : env s s' -> uot_step (Requesting t s c) (Requesting t s' c)
  | U_cancel t s c : uot_step (Requesting t s c) (Requesting t s true)
  | U_turn t t' s s' c :
      at_end t = false -> task_turn show_dns_error t s = (t', s') ->
      uot_step (Requesting t s c) (Requesting t' s' c)
  | U_request_error t s c e :
      code t = Ret (Err e) -> uot_step (Requesting t s c) (Failed s e)
  | U_socket_error t s c ic dest e :
      code t = Ret (Ok (ic, dest)) -> open_udp ic dest = Err e ->
      uot_step (Requesting t s c) (Failed s (Io e))
  | U_open t s c ic dest :
      code t = Ret (Ok (ic, dest)) -> open_udp ic dest = Ok tt ->
      uot_step (Requesting t s c) (Running ic (live_new ic s c (queries t)))
  | U_live ic l l' :
      live_step show_dns_error udp_send ic env l l' -> uot_step (Running ic l) (Running ic l').

(** A property of the stream that its polls and the environment keep. *)
Section Keep.
Context (P : T -> Prop) (HP : Kept P) (HE : forall s s', env s s' -> P s -> P s').

Lemma task_turn_kept {A} (t : Task A) s t' s' : task_turn show_dns_error t s = (t', s') -> P s -> P s'.
Proof.
  unfold task_turn. intros Ht Hs. destruct (code t) as [r|n k|host port k].
  - by injection Ht as _ <-.
  - destruct (n <=? _); [by injection Ht as _ <-|]. destruct (poll_read _ s) as [p s1] eqn:Hp.
    injection Ht as _ <-. pose proof (keep_read P HP (n - length (got t)) s Hs) as H. by rewrite Hp in H.
  - by destruct (resolve_host _ _ _ _) as [[?|?] ?]; injection Ht as _ <-.
Qed.

Lemma live_step_kept ic l l' :
  live_step show_dns_error udp_send ic env l l' -> P (l_stream l) -> P (l_stream l').
Proof.
  intros Hs Hl. destruct Hs as [l s He|l|l t t' s Ht Hae Hs|l t Ht Hc|l t dest payload n Ht Hc Hn
    |l t dest payload e Ht Hc Hn|l t e Ht Hc|l t Ht Hc|l t Ht Hi|l from data Ho Hsa Hd|l Ho|l p k ph i s Ho Hk Hs
    |l p Ho|l Ho Hc|l Ho Hi|l p s Ho Hs|l Ho]; try done.
  - by eapply HE.
  - by eapply task_turn_kept.
  - unfold write_turn in Hs. destruct (poll_write _ _) as [r s1] eqn:Hp.
    pose proof (keep_write P HP (offer (bufs_of ic p) k) _ Hl) as H. rewrite Hp in H. by injection Hs as _ <-.
  - pose proof (keep_shutdown P HP _ Hl) as H. by rewrite Hs in H.
Qed.

Definition uot_stream (u : Uot T) : T :=
  match u with Requesting _ s _ => s | Running _ l => l_stream l | Failed s _ => s end.

Lemma uot_kept s0 c q u : P s0 -> rtc uot_step (uot_new s0 c q) u -> P (uot_stream u).
Proof.
  intros H0 Hr. apply (rtc_ind_r (fun u => P (uot_stream u)) (uot_new s0 c q)) in Hr; [done|done|].
  intros u1 u2 _ Hs IH. destruct Hs; simpl in *; try done.
  - by eapply HE.
  - by eapply task_turn_kept.
  - by eapply live_step_kept.
Qed.
End Keep.
End Uot.

(** The token is not looked at before the session: a connection that is kicked
    while its request is incomplete stays, as long as the client is silent. *)
Section Kick.
Context {cache : DnsCache}.
Variable show_dns_error : DnsError -> rstr.
Variable udp_bind : bool -> io_result unit.
Variable udp_connect : SocketAddr -> io_result unit.
Variable udp_send : nat -> option SocketAddr -> bytes -> io_result nat.
Context {T : Type} `{!AsyncRead T, !AsyncWrite T}.

Lemma request_not_kicked (t : Task (bool * option SocketAddr)) (s : T) n k c u :
  code t = ReadExact n k -> length (got t) < n -> (forall m, poll_read m s = (Pending, s)) ->
  rtc (uot_step show_dns_error udp_bind udp_connect udp_send eq) (Requesting t s c) u ->
  exists c', u = Requesting t s c'.
Proof.
  intros Hc Hn Hs Hr. apply (rtc_ind_r (fun u => exists c', u = Requesting t s c') (Requesting t s c)) in Hr;
    [done|by exists c|].
  intros u1 u2 _ Hstep [c1 ->]. inversion Hstep; subst; try congruence; try by eexists.
  match goal with H : task_turn _ _ _ = _ |- _ => revert H end. unfold task_turn.
  rewrite Hc, (proj2 (Nat.leb_gt _ _) Hn), Hs. intros [= <- <-]. by eexists.
Qed.
End Kick.

(** ** What a session records *)

Section Records.
Context {cache : DnsCache}.
Variable show_dns_error : DnsError -> rstr.
Variable udp_bind : bool -> io_result unit.
Variable udp_connect : SocketAddr -> io_result unit.
Variable udp_send : nat -> option SocketAddr -> bytes -> io_result nat.
Context {T : Type} `{!AsyncRead T, !AsyncWrite T}.
Variable env : T -> T -> Prop.

Definition uot_kicked (u : Uot T) : bool :=
  match u with Requesting _ _ c => c | Running _ l => l_cancel l | Failed _ _ => false end.

Definition uot_uploaded (u : Uot T) : list Z := match u with Running _ l => l_uploaded l | _ => [] end.
Definition uot_downloaded (u : Uot T) : list Z := match u with Running _ l => l_downloaded l | _ => [] end.

(** Recorded are, upwards, for every datagram sent what the socket said it took,
    and downwards the sizes of the datagrams received but for the last one, if
    it is not written or its write failed. *)
Definition datagrams_counted (l : Live T) : Prop :=
  (length (l_uploaded l) = length (l_sent l)
    /\ forall i p, l_sent l !! i = Some p ->
         exists n, udp_send i p.1 p.2 = Ok n /\ l_uploaded l !! i = Some (Z.of_nat n))
  /\ exists ps tail, l_received l = ps ++ tail /\ l_downloaded l = map (fun p => Z.of_nat (length p.2)) ps
     /\ match l_out l with
        | Select => tail = []
        | Writing p _ => tail = [p]
        | Ended | Shut => length tail <= 1
        end.

Lemma datagrams_counted_in l s t i : datagrams_counted l -> datagrams_counted (live_in l s t i).
Proof. done. Qed.

Lemma datagrams_counted_ended l s ph i :
  datagrams_counted l -> ph = Ended \/ ph = Shut -> datagrams_counted (live_out l s ph i).
Proof.
  intros (Hup & ps & tail & Hr & Hd & Ht) Hph. split; [done|]. exists ps, tail. cbn.
  split_and!; [done|done|]. assert (length tail <= 1) by (destruct (l_out l); subst; simpl; lia).
  by destruct Hph as [-> | ->].
Qed.

Lemma live_step_counted ic l l' :
  live_step show_dns_error udp_send ic env l l' -> datagrams_counted l -> datagrams_counted l'.
Proof.
  intros Hs H. destruct Hs as [l s He|l|l t t' s Ht Hae Hs|l t Ht Hc|l t dest payload n Ht Hc Hn
    |l t dest payload e Ht Hc Hn|l t e Ht Hc|l t Ht Hc|l t Ht Hi|l from data Ho Hsa Hd|l Ho|l p k ph i s Ho Hk Hs
    |l p Ho|l Ho Hc|l Ho Hi|l p s Ho Hs|l Ho]; try done; try (apply datagrams_counted_ended; [done|by left]).
  - destruct H as ([Hlen Hup] & Hdown). split; [|done]. cbn. split; [by rewrite !length_app, Hlen|].
    intros i p [[_ Hi]|[-> <-]]%lookup_snoc_Some.
    + destruct (Hup i p Hi) as (k & Hk & Hl). exists k. split; [done|]. by apply lookup_app_l_Some.
    + exists n. split; [done|]. by rewrite <- Hlen, lookup_app_r, Nat.sub_diag by lia.
  - destruct H as (Hup & ps & tail & Hr & Hd' & Ht). rewrite Ho in Ht. subst tail. rewrite app_nil_r in Hr.
    split; [done|]. exists ps, [(from, data)]. cbn. by rewrite Hr.
  - unfold write_turn in Hs. destruct (poll_write _ _) as [r s1].
    assert (ph = Ended \/ exists k', ph = Writing p k') as [->|[k' ->]].
    { destruct r as [|[[|m]|e]]; injection Hs as <- _ _; eauto. }
    + apply datagrams_counted_ended; [done|by left].
    + destruct H as (Hup & ps & tail & Hr & Hd & Ht). rewrite Ho in Ht. split; [done|]. by exists ps, tail.
  - destruct H as (Hup & ps & tail & Hr & Hd & Ht). rewrite Ho in Ht. subst tail. split; [done|].
    exists (ps ++ [p]), []. cbn. by rewrite app_nil_r, Hr, Hd, map_app.
  - apply datagrams_counted_ended; [done|]. destruct p; auto.
  - apply datagrams_counted_ended; [done|by right].
Qed.

Abbreviation rstep := (uot_step show_dns_error udp_bind udp_connect udp_send env).

Definition uot_counted (u : Uot T) : Prop := match u with Running _ l => datagrams_counted l | _ => True end.

Lemma uot_step_counted u u' : rstep u u' -> uot_counted u -> uot_counted u'.
Proof.
  intros Hs H. destruct Hs; try done; [|by eapply live_step_counted].
  split; [done|]. by exists [], [].
Qed.

(** A step records at most one datagram, and takes nothing back. *)
Lemma uot_step_records u u' :
  rstep u u' -> exists up down, uot_uploaded u' = uot_uploaded u ++ up
    /\ uot_downloaded u' = uot_downloaded u ++ down /\ length up + length down <= 1.
Proof.
  assert (forall u u' : Uot T, uot_uploaded u' = uot_uploaded u -> uot_downloaded u' = uot_downloaded u ->
    exists up down, uot_uploaded u' = uot_uploaded u ++ up
    /\ uot_downloaded u' = uot_downloaded u ++ down /\ length up + length down <= 1) as Hsame.
  { intros v v' H1 H2. exists [], []. rewrite !app_nil_r. split_and!; [done|done|simpl; lia]. }
  intros Hs. destruct Hs as [| | | | | |ic l l' Hs]; [by apply Hsame..|].
  destruct Hs; try by apply Hsame.
  - exists [Z.of_nat n], []. cbn. by rewrite app_nil_r.
  - exists [], [Z.of_nat (length p.2)]. cbn. by rewrite app_nil_r.
Qed.
End Records.

(** A session that is kicked, and is not inside the writing of a packet, can
    leave both loops and shut the stream down by steps that wait for nothing
    and nobody, and send, receive and record nothing more. *)
Section Ends.
Context {cache : DnsCache}.
Variable show_dns_error : DnsError -> rstr.
Variable udp_send : nat -> option SocketAddr -> bytes -> io_result nat.
Variable ic : bool.
Context {T : Type} `{!AsyncRead T, !AsyncWrite T}.
Variable env : T -> T -> Prop.

Definition live_finished (l : Live T) : Prop := l_in l = None /\ l_out l = Shut.

Definition live_effects (l : Live T) := (l_sent l, l_uploaded l, l_received l, l_downloaded l).

(** The steps that need nothing of the client, the socket or the resolver:
    the token is seen; a loop that saw it ends, and then the other one by the
    inner token; the stream is shut down, or its shutdown times out. *)
Inductive quiet_step : Live T -> Live T -> Prop :=
  | Q_cancel l :
      quiet_step l (mkLive (l_stream l) true (l_inner l) (l_in l) (l_sent l) (l_uploaded l) (l_out l)
                      (l_received l) (l_downloaded l))
  | Q_in_cancelled l t :
      l_in l = Some t -> l_cancel l = true -> quiet_step l (live_in l (l_stream l) None true)
  | Q_in_inner l t :
      l_in l = Some t -> l_inner l = true -> quiet_step l (live_in l (l_stream l) None (l_inner l))
  | Q_out_cancelled l : l_out l = Select -> l_cancel l = true -> quiet_step l (live_out l (l_stream l) Ended true)
  | Q_out_inner l : l_out l = Select -> l_inner l = true -> quiet_step l (live_out l (l_stream l) Ended (l_inner l))
  | Q_shutdown l p s :
      l_out l = Ended -> poll_shutdown (l_stream l) = (p, s) ->
      quiet_step l (live_out l s (match p with Pending => Ended | Ready _ => Shut end) (l_inner l))
  | Q_shutdown_timeout l : l_out l = Ended -> quiet_step l (live_out l (l_stream l) Shut (l_inner l)).

Lemma quiet_live l l' :
  quiet_step l l' -> live_step show_dns_error udp_send ic env l l' /\ live_effects l' = live_effects l.
Proof.
  intros Hs. destruct Hs; (split; [|done]).
  - apply L_cancel.
  - by eapply L_in_cancelled.
  - by eapply L_in_inner.
  - by apply L_out_cancelled.
  - by apply L_out_inner.
  - by apply L_shutdown.
  - by apply L_shutdown_timeout.
Qed.

(** Without the token, and while both loops run, they change nothing. *)
Lemma quiet_stays l l' :
  quiet_step l l' -> l_cancel l' = false -> l_inner l = false -> l_out l = Select -> False.
Proof. intros Hs. destruct Hs; simpl; congruence. Qed.

Lemma live_ends l :
  (forall p k, l_out l <> Writing p k) ->
  exists l', rtc quiet_step l l' /\ live_finished l' /\ l_cancel l' = true
    /\ (l_out l <> Shut -> l_stream l' = (poll_shutdown (l_stream l)).2).
Proof.
  intros Hw.
  assert (exists l1, rtc quiet_step l l1 /\ l_in l1 = None /\ l_out l1 = l_out l /\ l_cancel l1 = true
    /\ l_stream l1 = l_stream l) as (l1 & H1 & Hi & Ho & Hc & Hst).
  { set (lc := mkLive (l_stream l) true (l_inner l) (l_in l) (l_sent l) (l_uploaded l) (l_out l)
      (l_received l) (l_downloaded l)).
    assert (quiet_step l lc) as Hlc by apply Q_cancel.
    destruct (l_in l) as [t|] eqn:Et; [|exists lc; split; [by apply rtc_once|by rewrite <- Et]].
    exists (live_in lc (l_stream lc) None true). split; [|done]. eapply rtc_l; [exact Hlc|]. apply rtc_once.
    by eapply Q_in_cancelled. }
  assert (l_out l = Shut \/ exists l2, rtc quiet_step l1 l2 /\ l_in l2 = None /\ l_out l2 = Ended
    /\ l_cancel l2 = true /\ l_stream l2 = l_stream l) as [Hs|(l2 & H2 & Hi2 & Ho2 & Hc2 & Hst2)].
  { destruct (l_out l) as [|p k| |] eqn:El; [right| |right|by left].
    - exists (live_out l1 (l_stream l1) Ended true). split; [|done]. apply rtc_once. by apply Q_out_cancelled.
    - by destruct (Hw p k).
    - by exists l1. }
  { exists l1. split_and!; [done|split; congruence|done|congruence]. }
  destruct (poll_shutdown (l_stream l2)) as [p s] eqn:Ep.
  set (l3 := live_out l2 s (match p with Pending => Ended | Ready _ => Shut end) (l_inner l2)).
  assert (quiet_step l2 l3) as H3 by by apply Q_shutdown.
  rewrite Hst2 in Ep. destruct p as [|r].
  - exists (live_out l3 (l_stream l3) Shut (l_inner l3)). split_and!; [|by split|done|by rewrite Ep].
    etrans; [exact H1|]. etrans; [exact H2|]. eapply rtc_l; [exact H3|]. apply rtc_once.
    by apply Q_shutdown_timeout.
  - exists l3. split_and!; [|by split|done|by rewrite Ep].
    etrans; [exact H1|]. etrans; [exact H2|]. by apply rtc_once.
Qed.
End Ends.

(** ** What a connection has read and written *)

Section Reached.
Context {cache : DnsCache}.
Variable show_dns_error : DnsError -> rstr.
Variable udp_bind : bool -> io_result unit.
Variable udp_connect : SocketAddr -> io_result unit.
Variable udp_send : nat -> option SocketAddr -> bytes -> io_result nat.
Context {T : Type} `{!AsyncRead T, !AsyncWrite T, !ReadSpec T, !WriteSpec T, !DuplexSpec T}.
Variable version : UotVersion.
Variable env : T -> T -> Prop.
Context (env_keeps : forall s s', env s s' -> both_ok s -> stream_env s s').

Abbreviation ustep := (uot_step show_dns_error udp_bind udp_connect udp_send env).

(** What follows what a program reads is left. *)
Lemma run_app {A} (p : prog A) q s a s' q' x :
  run show_dns_error p q s = (Ok (a, s'), q') -> run show_dns_error p q (s ++ x) = (Ok (a, s' ++ x), q').
Proof.
  revert q s. induction p as [[r|e]|n k IH|host port k IH]; intros q s; simpl; [by intros [= -> -> ->]|done| |].
  - unfold read_exact. rewrite length_app. destruct (length s <? n) eqn:E; bool_facts; [done|].
    rewrite (proj2 (Nat.ltb_ge _ _)) by lia. rewrite take_app_le, drop_app_le by lia. apply IH.
  - destruct (resolve_host _ _ _ _) as [[sa|e] q1]; [apply IH|done].
Qed.

(** The connection from the stream [s0], of which the request has taken its
    bytes and nothing else. *)
Definition uot_inv (s0 : T) (q : nat) (u : Uot T) : Prop :=
  match u with
  | Requesting t s _ =>
      both_ok s /\ wr_log s = wr_log s0
      /\ exists part, rd_log s = rd_log s0 ++ part /\ task_inv show_dns_error (p_request version) q part t
  | Running ic l =>
      exists s1 c1 q1 req dest,
        both_ok s1 /\ wr_log s1 = wr_log s0 /\ rd_log s1 = rd_log s0 ++ req
        /\ (forall rest, run show_dns_error (p_request version) q (req ++ rest) = (Ok ((ic, dest), rest), q1))
        /\ open_udp udp_bind udp_connect ic dest = Ok tt
        /\ rtc (live_step show_dns_error udp_send ic env) (live_new ic s1 c1 q1) l
  | Failed s e =>
      wr_log s = wr_log s0
      /\ exists part, rd_log s = rd_log s0 ++ part
         /\ ((exists e' q', run show_dns_error (p_request version) q part = (Err e', q'))
             \/ exists ic dest io, open_udp udp_bind udp_connect ic dest = Err io /\ e = Io io)
  end.

Lemma uot_reached s0 c q u : both_ok s0 -> rtc ustep (uot_new version s0 c q) u -> uot_inv s0 q u.
Proof.
  intros H0 Hr. apply (rtc_ind_r (uot_inv s0 q) (uot_new version s0 c q)) in Hr; [done| |].
  - split; [done|]. split; [done|]. exists []. rewrite app_nil_r. split; [done|]. apply task_inv_new.
  - intros u1 u2 _ Hs IH. destruct Hs as [t s s' c1 He|t s c1|t t' s s' c1 Hae Ht|t s c1 e Hc|t s c1 ic dest e Hc Ho
      |t s c1 ic dest Hc Ho|ic l l' Hs]; cbn [uot_inv] in *.
    + destruct IH as (Hok & HW & part & HR & Hi). destruct (env_keeps _ _ He Hok) as (Hr' & Hw' & HL & HW' & _).
      split; [by split|]. split; [congruence|]. exists part. split; [congruence|done].
    + done.
    + destruct IH as (Hok & HW & part & HR & Hi).
      destruct (task_turn_stream _ _ _ _ _ Hok Ht) as (Hok' & HW' & _).
      destruct (task_turn_inv _ _ _ _ _ _ _ _ Hi Hae (proj1 Hok) Ht) as (_ & bs & HL & Hi').
      split; [done|]. split; [congruence|]. exists (part ++ bs). split; [by rewrite HL, HR, app_assoc|done].
    + destruct IH as (Hok & HW & part & HR & Hi). split; [done|]. exists part. split; [done|]. left.
      destruct (task_inv_err _ _ _ _ _ _ [] Hi Hc ltac:(done)) as (e' & q' & He). rewrite app_nil_r in He. by eexists _, _.
    + destruct IH as (Hok & HW & part & HR & Hi). split; [done|]. exists part. split; [done|]. right. by eexists _, _, _.
    + destruct IH as (Hok & HW & part & HR & Hi). exists s, c1, (queries t), part, dest. split_and!; try done.
      intros rest. exact (task_inv_ok _ _ _ _ _ _ rest Hi Hc).
    + destruct IH as (s1 & c1 & q1 & req & dest & H1 & H2 & H3 & H4 & H5 & H6).
      exists s1, c1, q1, req, dest. split_and!; try done. by eapply rtc_r.
Qed.

(** The client's bytes [w] begin with a request and packets: the socket was
    opened as it asks, and the first packets, each to its address - or to the
    connected peer, [ic] - are what was sent; with [all], every packet that is
    whole in [w] was, if the loop waits for more. *)
Definition serves (q : nat) (w : bytes) (all : Prop) (ic : bool) (l : Live T) : Prop :=
  forall req ic0 dest q' ps,
    read_request show_dns_error version q req = Ok ((ic0, dest, q'), []) ->
    Forall (fun p => sa_wf p.1 /\ data_ok p.2) ps -> w `prefix_of` req ++ packets ic0 ps ->
    ic = ic0 /\ open_udp udp_bind udp_connect ic dest = Ok tt
    /\ exists n, n <= length ps /\ l_sent l = map (fun p => (dest_in ic p, p.2)) (take n ps)
      /\ (waiting l -> all -> forall j, j <= length ps -> req ++ packets ic (take j ps) `prefix_of` w -> j <= n).

(** Two requests at the head of a stream are the same. *)
Lemma request_unique q req ic0 dest0 q' x ps y q1 ic dest :
  read_request show_dns_error version q req = Ok ((ic0, dest0, q'), []) ->
  (forall rest, run show_dns_error (p_request version) q (x ++ rest) = (Ok ((ic, dest), rest), q1)) ->
  x ++ y `prefix_of` req ++ ps -> x = req /\ ic = ic0 /\ dest = dest0 /\ y `prefix_of` ps.
Proof.
  intros Hreq Hx [z Hz]. pose proof (run_request show_dns_error version q req) as H. rewrite Hreq in H.
  destruct (run _ _ _ req) as [[[[ic' dest'] s1]|e] q2] eqn:Hr; [|done]. destruct H as (-> & -> & -> & ->).
  apply (run_app _ _ _ _ _ _ ps) in Hr. rewrite Hz, <- app_assoc, Hx in Hr. cbn [app] in Hr.
  injection Hr as -> -> Hps _. rewrite <- Hps, <- app_assoc in Hz. apply app_inv_tail in Hz as ->.
  split_and!; [done..|]. by exists z.
Qed.

Lemma uot_delivers s0 c q ic l :
  both_ok s0 -> rd_log s0 = [] -> wr_log s0 = [] ->
  rtc ustep (uot_new version s0 c q) (Running ic l) ->
  both_ok (l_stream l) /\ serves q (rd_log (l_stream l)) True ic l /\ downlink ic (wr_log (l_stream l)) l.
Proof.
  intros H0 HR0 HW0 Hr. apply uot_reached in Hr; [|done].
  destruct Hr as (s1 & c1 & q1 & x & dest & H1 & H2 & H3 & H4 & Ho & H6).
  destruct (live_delivers show_dns_error udp_send env ic s1 c1 q1 l env_keeps H1 H6)
    as (Hok & delta & w & HL & HW & Hup & Hdown).
  rewrite H2, HW0 in HW. rewrite H3, HR0 in HL. cbn [app] in HL, HW. rewrite HL, HW.
  split; [done|]. split; [|done]. intros req ic0 dest0 q' ps Hreq Hps Hpre.
  destruct (request_unique _ _ _ _ _ _ _ _ _ _ _ Hreq H4 Hpre) as (-> & <- & <- & Hd).
  destruct (Hup ps Hps Hd) as (n & Hn & Hs & Hall). split; [done|]. split; [done|]. exists n.
  split; [done|]. split; [done|]. intros Hw _ j Hj Hpj. apply (Hall Hw j Hj). by apply prefix_app_inv in Hpj.
Qed.

(** The client's bytes go on, and there may be more of them than the session
    was given. *)
Lemma serves_more q w w' (all : Prop) ic l :
  serves q w True ic l -> w `prefix_of` w' -> (all -> w = w') -> serves q w' all ic l.
Proof.
  intros Hs Hw Hall req ic0 dest q' ps Hreq Hps Hpre.
  destruct (Hs req ic0 dest q' ps Hreq Hps ltac:(by etrans)) as (Hic & Ho & n & Hn & H1 & H2).
  split; [done|]. split; [done|]. exists n. split; [done|]. split; [done|].
  intros Hwt Ha. rewrite <- (Hall Ha). by apply H2.
Qed.
End Reached.

(** ** On an HTTP/3 stream and on the pipe of an HTTP/2 bridge *)

(** A part of the wire carries a part of the payload. *)
Lemma strip_mono k w w' : w `prefix_of` w' -> strip k w `prefix_of` strip k w'.
Proof. intros [x ->]. destruct (strip_prefix k w x) as [y ->]. by eexists. Qed.

Section Tunnels.
Context {dnscache : DnsCache}.
Variable show_dns_error : DnsError -> rstr.
Variable udp_bind : bool -> io_result unit.
Variable udp_connect : SocketAddr -> io_result unit.
Variable udp_send : nat -> option SocketAddr -> bytes -> io_result nat.
Variable version : UotVersion.

(** C16: UDP over TCP in an HTTP/3 tunnel is faithful from end to end, at every
    point of a session, whatever the sizes of frames and polls, the progress of
    the connection's driver and the interleaving of the two loops: if the
    payload of the bodies the client sent is the first part of a request and
    packets that are not empty and have literal addresses, the socket was opened as the request asks, and the first of these
    packets were sent as datagrams, each to its address or the connected peer -
    all that are whole, once the loop waits with nothing left in the stream -;
    and the payload of the frames the client was sent is the first part of the
    packets of the datagrams received, of which it has each whole, but for what
    the transport still holds. *)
Theorem uot_h3_delivers n rng c q ic l :
  rtc (uot_step show_dns_error udp_bind udp_connect udp_send (padded_env h3_env))
    (uot_new version (h3_tunnel n rng) c q) (Running ic l) ->
  let t := npt (l_stream l) in
  let h := inner t in
  exists frames w,
    reader_run frames (h3_reader h)
    /\ serves show_dns_error udp_bind udp_connect version q (strip PADDING_FRAMES (bodies frames))
         (pending_bytes (h3_reader h) = []) ic l
    /\ downlink ic w l
    /\ strip PADDING_FRAMES (sent_bytes (queued (h3_writer h))) `prefix_of` w
    /\ (write_pending t = None -> strip PADDING_FRAMES (sent_bytes (queued (h3_writer h))) = w).
Proof.
  intros Hr t h. pose proof (h3_tunnel_ok n rng) as Hok.
  destruct (uot_delivers _ _ _ _ _ _ (padded_stream_env _ _ _ _ h3_env_keeps) _ _ _ _ _ Hok
    (strip_nil _) (strip_nil _) Hr) as (_ & Hs & Hd).
  assert (h3_fed h) as [frames Hfr].
  { apply (uot_kept show_dns_error udp_bind udp_connect udp_send version (padded_env h3_env) _
      (kept_padded _ h3_fed_kept)) in Hr; [exact Hr| |exists []; apply rr_new].
    intros s s' [i Hi]. by apply h3_fed_env. }
  destruct (reader_run_inv _ _ Hfr) as [Hdel _].
  exists frames, (wr_log (l_stream l)). split_and!; [done| |done| |].
  - apply (serves_more _ _ _ _ _ _ _ _ _ _ Hs).
    + apply strip_mono. exists (pending_bytes (h3_reader h)). exact (eq_sym Hdel).
    + intros Hp. rewrite Hp, app_nil_r in Hdel. by rewrite <- Hdel.
  - apply strip_mono. by eexists.
  - intros Hw. change (wr_log (l_stream l)) with (npt_wr_log t).
    unfold npt_wr_log, wire, left_over. by rewrite Hw, app_nil_r.
Qed.

Context {cap : nat} `{!DuplexPipe cap}.

(** C17: the same in an HTTP/2 tunnel, whatever the client, the bridge and the
    session do and whatever the capacity of the pipe, of the body the session
    yielded and of the chunks of the response; also of packets that are not empty
    and have literal addresses. *)
Theorem uot_h2_delivers rng c q ic l :
  rtc (uot_step show_dns_error udp_bind udp_connect udp_send (padded_env (bridge_env (cap := cap))))
    (uot_new version (h2_tunnel rng) c q) (Running ic l) ->
  let t := npt (l_stream l) in
  let br := inner t in
  exists w,
    serves show_dns_error udp_bind udp_connect version q (strip PADDING_FRAMES (taken (upload br)))
      (up (upload br) = [] /\ default [] (writing (upload br)) = []) ic l
    /\ downlink ic w l
    /\ strip PADDING_FRAMES (chunks_of (response (download br))) `prefix_of` w
    /\ (write_pending t = None -> down (download br) = [] -> down_eof (download br) = false ->
        strip PADDING_FRAMES (chunks_of (response (download br))) = w).
Proof.
  intros Hr t br. pose proof (h2_tunnel_ok rng) as Hok.
  destruct (uot_delivers _ _ _ _ _ _ (padded_stream_env _ _ _ _ (bridge_env_keeps (cap := cap))) _ _ _ _ _ Hok
    (strip_nil _) (strip_nil _) Hr) as (Hok' & Hs & Hd).
  destruct (padded_inner _ Hok') as [Hp _].
  destruct (bridge_reachable_inv _ _ (po_reach _ Hp)) as (l1 & l2 & [U1 U2 U3 _] & [D1 D2 _ _ _]).
  assert (l1 = []) as -> by (destruct l1; [done|destruct (U2 ltac:(done)); pose proof (po_here _ Hp); congruence]).
  rewrite app_nil_r in U1. fold t br in U1, D1, D2. exists (wr_log (l_stream l)). split_and!; [|done| |].
  - apply (serves_more _ _ _ _ _ _ _ _ _ _ Hs).
    + apply strip_mono. rewrite U1. by eexists.
    + intros [H1 H2]. rewrite H1, H2, !app_nil_r in U1. by rewrite U1.
  - apply strip_mono. exists ((l2 ++ down (download br)) ++ left_over t). unfold wire.
    change (wr_log (Padding.inner (npt (l_stream l)))) with (relay_wrote (download br)). by rewrite D1, !app_assoc.
  - intros Hw H1 H2. change (wr_log (l_stream l)) with (npt_wr_log t).
    unfold npt_wr_log, wire, left_over. rewrite Hw, app_nil_r.
    change (wr_log (inner t)) with (relay_wrote (download br)). rewrite D1, H1, app_nil_r.
    destruct l2; [by rewrite app_nil_r|]. by rewrite D2 in H2.
Qed.
End Tunnels.

(** ** Runs given by a script *)

Section Script.
Context {cache : DnsCache}.
Variable show_dns_error : DnsError -> rstr.
Variable udp_bind : bool -> io_result unit.
Variable udp_connect : SocketAddr -> io_result unit.
Variable udp_send : nat -> option SocketAddr -> bytes -> io_result nat.
Context {T : Type} `{!AsyncRead T, !AsyncWrite T}.
Variable env : T -> T -> Prop.

(** [n] turns of a task that reads on. *)
Fixpoint turns {A} (n : nat) (t : Task A) (s : T) : Task A * T :=
  match n with
  | O => (t, s)
  | S n =>
      if at_end t then (t, s)
      else let '(t, s) := task_turn show_dns_error t s in turns n t s
  end.

Abbreviation ustep := (uot_step show_dns_error udp_bind udp_connect udp_send env).

Lemma turns_steps n t s c :
  rtc ustep (Requesting t s c) (Requesting (turns n t s).1 (turns n t s).2 c).
Proof.
  revert t s. induction n as [|n IH]; intros t s; simpl; [apply rtc_refl|].
  destruct (at_end t) eqn:Ha; [apply rtc_refl|]. destruct (task_turn _ t s) as [t' s'] eqn:E.
  eapply rtc_l; [by eapply U_turn|apply IH].
Qed.

(** The request read in [n] turns, the sockets opened and a script of the
    session. *)
Lemma script_steps n t s c ic dest acts l :
  code (turns n t s).1 = Ret (Ok (ic, dest)) -> open_udp udp_bind udp_connect ic dest = Ok tt ->
  Forall act_ok acts ->
  live_acts show_dns_error udp_send ic acts (live_new ic (turns n t s).2 c (queries (turns n t s).1)) = Some l ->
  rtc ustep (Requesting t s c) (Running ic l).
Proof.
  intros Hc Ho Ha Hl. etrans; [apply (turns_steps n)|]. eapply rtc_l; [by eapply U_open|].
  apply (live_acts_steps show_dns_error udp_send ic env) in Hl; [|done]. revert Hl.
  generalize (live_new ic (turns n t s).2 c (queries (turns n t s).1)).
  intros l0 Hl. induction Hl as [l0|l0 l1 l2 Hs _ IH]; [apply rtc_refl|].
  eapply rtc_l; [by apply U_live|exact IH].
Qed.
End Script.

(** ** Connections that are run *)

(** A client that asks for an unconnected socket and sends a packet in the same
    padded frame; a datagram comes back. *)
Definition ex_uot_request : bytes := [0; 1; 0; 0; 0; 0; 0; 0]%Z.
Definition ex_uot_wire : bytes := build_frame (ex_uot_request ++ packet ex_peer [1; 2; 3]%Z) [0; 0]%Z.
Definition ex_uot_acts : list Act :=
  repeat ATurn 13 ++ [ANext; ARecv ex_peer [4; 5]%Z] ++ repeat AWrite 6 ++ [ATurn].

Definition ex_bind : bool -> io_result unit := fun _ => Ok tt.
Definition ex_udp_connect : SocketAddr -> io_result unit := fun _ => Ok tt.

Lemma ex_uot_acts_ok : Forall act_ok ex_uot_acts.
Proof.
  unfold ex_uot_acts. cbn [repeat app].
  repeat (apply Forall_cons_2; [first [exact I|split; [exact ex_peer_wf|unfold data_fits; simpl; lia]]|]).
  apply Forall_nil_2.
Qed.

Definition ex_uot_read {T} `{!AsyncRead T} (s : T) : Task (bool * option SocketAddr) * T :=
  turns (cache := dns_ex) ex_show 8 (task_new (p_request UotV2) 0) s.

Definition ex_uot_start {T} `{!AsyncRead T} (s : T) : Live T :=
  live_new false (ex_uot_read s).2 false (queries (ex_uot_read s).1).

Definition ex_uot_live {T} `{!AsyncRead T, !AsyncWrite T} (s : T) : Live T :=
  default (ex_uot_start s) (live_acts (cache := dns_ex) ex_show ex_send false ex_uot_acts (ex_uot_start s)).

Definition ex_uot_ran {T} `{!AsyncRead T, !AsyncWrite T} (s : T) : bool :=
  match live_acts (cache := dns_ex) ex_show ex_send false ex_uot_acts (ex_uot_start s) with
  | Some _ => true
  | None => false
  end.

Lemma ex_uot_run {T} `{!AsyncRead T, !AsyncWrite T} (env : T -> T -> Prop) (s : T) :
  code (ex_uot_read s).1 = Ret (Ok (false, None)) -> ex_uot_ran s = true ->
  rtc (uot_step (cache := dns_ex) ex_show ex_bind ex_udp_connect ex_send env)
    (uot_new UotV2 s false 0) (Running false (ex_uot_live s)).
Proof.
  intros Hc Hr. apply (script_steps ex_show ex_bind ex_udp_connect ex_send env 8 _ s false false None ex_uot_acts);
    [exact Hc|done|exact ex_uot_acts_ok|].
  unfold ex_uot_ran in Hr. unfold ex_uot_live. by destruct (live_acts _ _ _ _ _).
Qed.

Definition ex_uot_h3 : Padded H3Stream :=
  mkPadded (npt_new (join (mkReader [Body ex_uot_wire false] false None false []) (Writer_new 8 true)))
    (fun _ => (0, 0)%Z) 0.

Lemma uot_h3_delivers_witness :
  let l := ex_uot_live ex_uot_h3 in
  let t := npt (l_stream l) in
  let h := inner t in
  exists frames w,
    reader_run frames (h3_reader h)
    /\ serves (cache := dns_ex) ex_show ex_bind ex_udp_connect UotV2 0 (strip PADDING_FRAMES (bodies frames))
         (pending_bytes (h3_reader h) = []) false l
    /\ downlink false w l
    /\ strip PADDING_FRAMES (sent_bytes (queued (h3_writer h))) `prefix_of` w
    /\ (write_pending t = None -> strip PADDING_FRAMES (sent_bytes (queued (h3_writer h))) = w).
Proof.
  apply (uot_h3_delivers ex_show ex_bind ex_udp_connect ex_send UotV2 8 (fun _ => (0, 0)%Z) false 0).
  eapply rtc_l; [|apply ex_uot_run; by vm_compute].
  apply U_env, below_changes.
  apply (driver_frame (join (Reader_new [] false) (Writer_new 8 true)) (Body ex_uot_wire false)); [done|].
  repeat constructor; by vm_compute.
Defined.

(** The client's packet was sent, and the client has the one received. *)
Example ex_uot_h3_result :
  let l := ex_uot_live ex_uot_h3 in
  l_sent l = [(Some ex_peer, [1; 2; 3]%Z)] /\ l_uploaded l = [3]%Z /\ l_downloaded l = [2]%Z
  /\ strip PADDING_FRAMES (sent_bytes (queued (h3_writer (inner (npt (l_stream l)))))) = packet ex_peer [4; 5]%Z.
Proof. by vm_compute. Qed.

#[local] Instance ex_pipe_2000 : DuplexPipe 2000 := ex_pipe 2000.

Definition ex_uot_bridges : list Bridge :=
  let d := mkDown [] false false [] [] in
  [mkBridge (mkUp [BData ex_uot_wire] [] false false None [] []) d false;
   mkBridge (mkUp [] [] false false (Some ex_uot_wire) ex_uot_wire []) d false;
   mkBridge (mkUp [] ex_uot_wire false false (Some []) ex_uot_wire []) d false;
   mkBridge (mkUp [] ex_uot_wire false false None ex_uot_wire []) d false].

Definition ex_uot_h2 : Padded Bridge :=
  mkPadded (npt_new (List.last ex_uot_bridges Bridge_new)) (fun _ => (0, 0)%Z) 0.

Lemma ex_uot_h2_env (b b' : Bridge) t c :
  bridge_step 2000 b b' -> relay_read (upload b') = relay_read (upload b) -> download b' = download b ->
  gone b' = gone b -> Forall event_ok (body_in (upload b')) ->
  uot_step (cache := dns_ex) ex_show ex_bind ex_udp_connect ex_send (padded_env (bridge_env (cap := 2000)))
    (Requesting t (mkPadded (npt_new b) (fun _ => (0, 0)%Z) 0) c)
    (Requesting t (mkPadded (npt_new b') (fun _ => (0, 0)%Z) 0) c).
Proof.
  intros Hs H1 H2 H3 H4. apply U_env.
  apply (below_changes (bridge_env (cap := 2000)) (mkPadded (npt_new b) (fun _ => (0, 0)%Z) 0) b').
  split; [done|]. rewrite H2. by split_and!.
Qed.

Lemma uot_h2_delivers_witness :
  let l := ex_uot_live ex_uot_h2 in
  let t := npt (l_stream l) in
  let br := inner t in
  exists w,
    serves (cache := dns_ex) ex_show ex_bind ex_udp_connect UotV2 0 (strip PADDING_FRAMES (taken (upload br)))
      (up (upload br) = [] /\ default [] (writing (upload br)) = []) false l
    /\ downlink false w l
    /\ strip PADDING_FRAMES (chunks_of (response (download br))) `prefix_of` w
    /\ (write_pending t = None -> down (download br) = [] -> down_eof (download br) = false ->
        strip PADDING_FRAMES (chunks_of (response (download br))) = w).
Proof.
  apply (uot_h2_delivers ex_show ex_bind ex_udp_connect ex_send UotV2 (cap := 2000) (fun _ => (0, 0)%Z) false 0).
  eapply rtc_l; [eapply ex_uot_h2_env; [apply (client_sends 2000 (BData ex_uot_wire))|done..|repeat constructor; by vm_compute]|].
  eapply rtc_l; [eapply ex_uot_h2_env; [apply do_up, up_take|done..|repeat constructor]|].
  eapply rtc_l; [eapply ex_uot_h2_env; [apply do_up, (up_write 2000 false [] [] false ex_uot_wire ex_uot_wire [] (length ex_uot_wire)); [done|lia|simpl; lia]|done..|repeat constructor]|].
  eapply rtc_l; [eapply ex_uot_h2_env; [apply do_up, up_written|done..|repeat constructor]|].
  apply (ex_uot_run _ ex_uot_h2); by vm_compute.
Defined.

Example ex_uot_h2_result :
  let l := ex_uot_live ex_uot_h2 in
  l_sent l = [(Some ex_peer, [1; 2; 3]%Z)] /\ l_uploaded l = [3]%Z /\ l_downloaded l = [2]%Z
  /\ strip PADDING_FRAMES (relay_wrote (download (inner (npt (l_stream l))))) = packet ex_peer [4; 5]%Z.
Proof. by vm_compute. Qed.
