(* ===== verification/Server.v ===== *)
(** * [src/core/server.rs], [src/core/hooks.rs], [src/business/mod.rs], [src/error.rs]

    The hook traits for users and statistics, their implementations over the
    panel's managers (parameters: the classes [UserManager] and [PanelStats]),
    the server and its builder, and the error type. *)

From S2P Require Import Prelude RustStr RustNet Address IpFilter Routing Acl Config Connection.

(** ** Hooks *)

Class Authenticator (T : Type) := authenticate : T -> rstr -> option UserId.

(** A collector is a state that its calls change. *)
Class StatsCollector (T : Type) := {
  record_request : UserId -> T -> T;
  record_upload : UserId -> Z -> T -> T;
  record_download : UserId -> Z -> T -> T
}.

(** [panel_core::UserManager] and [panel_core::StatsCollector]. *)
Class UserManager (U : Type) := um_authenticate : U -> rstr -> option UserId.
Class PanelStats (P : Type) := {
  ps_record_request : UserId -> P -> P;
  ps_record_upload : UserId -> Z -> P -> P;
  ps_record_download : UserId -> Z -> P -> P
}.

Record NaiveAuthenticator (U : Type) : Type := mkAuthenticator { user_manager : U }.
Arguments mkAuthenticator {U}.
Arguments user_manager {U}.

#[export] Instance NaiveAuthenticator_authenticate {U} {um : UserManager U} :
  Authenticator (NaiveAuthenticator U) := fun a credential => um_authenticate (user_manager a) credential.

Record NaiveStatsCollector (P : Type) : Type := mkCollector { panel_stats : P }.
Arguments mkCollector {P}.
Arguments panel_stats {P}.

#[export] Instance NaiveStatsCollector_record {P} {ps : PanelStats P} :
  StatsCollector (NaiveStatsCollector P) := {|
  record_request := fun u s => mkCollector (ps_record_request u (panel_stats s));
  record_upload := fun u n s => mkCollector (ps_record_upload u n (panel_stats s));
  record_download := fun u n s => mkCollector (ps_record_download u n (panel_stats s))
|}.

(** ** The router of a server: [Arc<dyn OutboundRouter>] *)

Section Server.
Context {engines : AclEngineRs} {cache : DnsCache}.

Inductive DynRouter : Type := ByAcl (r : AclRouter) | ByDirect (r : DirectRouter).

#[export] Instance DynRouter_route : OutboundRouter DynRouter Handler := fun r k addr =>
  match r with ByAcl r => route r k addr | ByDirect r => route r k addr end.

Definition DynRouter_closed (r : DynRouter) : bool :=
  match r with ByAcl r => closed r | ByDirect r => closed (H := Handler) r end.

#[export] Program Instance DynRouter_is_closed : ClosedRouter DynRouter Handler := {|
  closed := DynRouter_closed
|}.
Next Obligation. intros [r|r] k addr resolved dialer k' Hc Hr; exact (route_checked r k addr resolved dialer k' Hc Hr). Qed.

(** ** [Server] and its builder *)

Context {Auth Stats Dns : Type}.

Record Server : Type := mkServer {
  s_authenticator : Auth;
  s_stats : Stats;
  s_router : DynRouter;
  s_conn_manager : ConnectionManager;
  s_conn_config : ConnConfig;
  s_dns_cache : Dns
}.

Record ServerBuilder : Type := mkBuilder {
  b_authenticator : option Auth;
  b_stats : option Stats;
  b_router : option DynRouter;
  b_conn_manager : option ConnectionManager;
  b_conn_config : option ConnConfig;
  b_dns_cache : option Dns
}.

Definition ServerBuilder_new : ServerBuilder := mkBuilder None None None None None None.
Definition builder : ServerBuilder := ServerBuilder_new.

Definition authenticator (x : Auth) (b : ServerBuilder) : ServerBuilder :=
  mkBuilder (Some x) (b_stats b) (b_router b) (b_conn_manager b) (b_conn_config b) (b_dns_cache b).
Definition stats (x : Stats) (b : ServerBuilder) : ServerBuilder :=
  mkBuilder (b_authenticator b) (Some x) (b_router b) (b_conn_manager b) (b_conn_config b) (b_dns_cache b).
Definition router (x : DynRouter) (b : ServerBuilder) : ServerBuilder :=
  mkBuilder (b_authenticator b) (b_stats b) (Some x) (b_conn_manager b) (b_conn_config b) (b_dns_cache b).
Definition conn_manager (x : ConnectionManager) (b : ServerBuilder) : ServerBuilder :=
  mkBuilder (b_authenticator b) (b_stats b) (b_router b) (Some x) (b_conn_config b) (b_dns_cache b).
Definition conn_config (x : ConnConfig) (b : ServerBuilder) : ServerBuilder :=
  mkBuilder (b_authenticator b) (b_stats b) (b_router b) (b_conn_manager b) (Some x) (b_dns_cache b).
Definition dns_cache (x : Dns) (b : ServerBuilder) : ServerBuilder :=
  mkBuilder (b_authenticator b) (b_stats b) (b_router b) (b_conn_manager b) (b_conn_config b) (Some x).

(** [expect]: the message of the panic. *)
Definition expect {A} (o : option A) (msg : rstr) : result A rstr :=
  match o with Some x => Ok x | None => Err msg end.

Definition build (b : ServerBuilder) : result Server rstr :=
  let? dns := expect (b_dns_cache b) (str "dns_cache is required") in
  let? auth := expect (b_authenticator b) (str "authenticator is required") in
  let? st := expect (b_stats b) (str "stats collector is required") in
  let rt := default (ByDirect {| dr_block_private_ip := true |}) (b_router b) in
  let mgr := default Manager_new (b_conn_manager b) in
  let? cfg := expect (b_conn_config b) (str "conn_config is required") in
  Ok (mkServer auth st rt mgr cfg dns).

(** A server is built exactly when the authenticator, the collector, the
    configuration and the resolver were given, whatever the order of the
    setters; it has those, and without a router it has one that closes private
    addresses. *)
Theorem build_spec b s :
  build b = Ok s <->
  b_authenticator b = Some (s_authenticator s) /\ b_stats b = Some (s_stats s)
  /\ b_conn_config b = Some (s_conn_config s) /\ b_dns_cache b = Some (s_dns_cache s)
  /\ s_conn_manager s = default Manager_new (b_conn_manager b)
  /\ match b_router b with
     | Some r => s_router s = r
     | None => s_router s = ByDirect {| dr_block_private_ip := true |} /\ closed (s_router s) = true
     end.
Proof.
  destruct b as [[a|] [st|] rt mgr [cfg|] [dns|]]; unfold build; cbn;
    try (split; [done|by intros (? & ? & ? & ? & _)]).
  split.
  - intros [= <-]. cbn. split_and!; try done. by destruct rt.
  - intros ([= ->] & [= ->] & [= ->] & [= ->] & Hm & Hr). destruct s as [a' st' r' m' c' d']. cbn in *.
    subst m'. do 2 f_equal. destruct rt as [r|]; [by subst|]. by destruct Hr as [-> _].
Qed.
End Server.
Arguments Server {engines} Auth Stats Dns.
Arguments ServerBuilder {engines} Auth Stats Dns.

(** ** [src/error.rs] *)

Inductive NaiveError : Type :=
  | ErrIo (e : io_error)
  | ErrConfig (m : rstr)
  | ErrProtocolParse (m : rstr)
  | ErrAuthentication (m : rstr)
  | ErrTls (m : rstr)
  | ErrConnection (m : rstr)
  | ErrTransport (m : rstr)
  | ErrOther (m : rstr).

Definition NaiveError_fmt (e : NaiveError) : rstr :=
  match e with
  | ErrIo e => str "IO error: " ++ emsg e
  | ErrConfig m => str "Configuration error: " ++ m
  | ErrProtocolParse m => str "Protocol parse error: " ++ m
  | ErrAuthentication m => str "Authentication error: " ++ m
  | ErrTls m => str "TLS error: " ++ m
  | ErrConnection m => str "Network connection error: " ++ m
  | ErrTransport m => str "Transport error: " ++ m
  | ErrOther m => m
  end.

(** [From<anyhow::Error>]: of its message. *)
Definition NaiveError_from_anyhow (m : rstr) : NaiveError := ErrOther m.
