(* ===== verification/Handler.v ===== *)
(** * [src/handler.rs], first half: CONNECT requests

    [parse_basic_auth], the two entry points up to the tunnel (HTTP/2 on
    pingora, HTTP/3 on tokio-quiche) as functions of the request and of the
    results of the writes, [process_tunnel] with its registration guard, and the
    end of [relay].  [decide_request] is the specification that both entry points
    refine.

    Parameters: base64, the texts of two decoding errors, and the HTTP
    libraries' view of a request. *)

From S2P Require Import Prelude RustStr RustNet AsyncIo Relay Address IpFilter Routing Acl Config Connection Uot Server.
From S2P Require Padding.
Open Scope nat_scope.

(** [base64]'s standard engine, and the texts of the errors; [to_str] of an HTTP
    header value, and the lossy text of a method. *)
Class Codecs := {
  base64_decode : bytes -> result bytes rstr;
  utf8_error : bytes -> rstr;
  header_to_str : bytes -> option rstr;
  from_utf8_lossy : bytes -> rstr
}.

Section Auth.
Context {codecs : Codecs}.

Definition parse_basic_auth (auth_header : rstr) : result rstr rstr :=
  match strip_prefix (str "Basic ") auth_header with
  | None => Err (str "Expected 'Basic ' prefix in Proxy-Authorization header")
  | Some encoded =>
      match base64_decode (trim encoded) with
      | Err e => Err (str "Base64 decode failed: " ++ e)
      | Ok decoded =>
          match from_utf8 decoded with
          | None => Err (str "UTF-8 decode failed: " ++ utf8_error decoded)
          | Some decoded_str =>
              Ok (match find_byte 58 decoded_str with
                  | Some pos => drop (S pos) decoded_str
                  | None => decoded_str
                  end)
          end
      end
  end.
End Auth.

(** [SocketAddr]'s [Display]. *)
Definition show_socket_addr (a : SocketAddr) : rstr :=
  match sa_ip a with
  | V4 ip => show_ipv4 ip ++ str ":" ++ show_dec (sa_port a)
  | V6 o => str "[" ++ show_ipv6 o ++ str "]:" ++ show_dec (sa_port a)
  end.

(** What the entry points make of a request: an error, nothing more to do, or a
    tunnel. *)
Inductive Head (H : Type) : Type :=
  | Failed (msg : rstr)
  | Answered
  | Tunnel (target : Address) (user : UserId) (outbound : OutboundType H).
Arguments Failed {H}.
Arguments Answered {H}.
Arguments Tunnel {H}.

(** What the transport took of a write, given its error if any. *)
Definition taken {A E} (error : option E) (x : A) : list A :=
  match error with None => [x] | Some _ => [] end.

Definition is_reject_outbound {H} (o : OutboundType H) : bool :=
  match o with Reject => true | _ => false end.

Section Entry.
Context {codecs : Codecs} {Auth Rt H : Type} {au : Authenticator Auth} {rt : OutboundRouter Rt H}.
Variable auth : Auth.
Variable router : Rt.

(** ** HTTP/2 *)

(** The request's head as pingora gives it; [h2_header] is the first value of a
    header. *)
Record H2Request : Type := {
  h2_method : rstr;
  h2_header : rstr -> option bytes;
  h2_authority : option rstr
}.

(** A written response header: its status, its fields and whether it ends the
    response. *)
Record H2Response : Type := mkH2 { h2_status : Z; h2_fields : list (rstr * rstr); h2_end : bool }.

(** What can fail of a response header: to build it ([ResponseHeader::build]), to
    append the padding to it, to write it. *)
Inductive HeaderError : Type := BuildFailed (e : rstr) | AppendFailed (e : rstr) | WriteFailed (e : rstr).

Definition header_error_msg (e : HeaderError) : rstr :=
  match e with
  | BuildFailed e => str "build ResponseHeader: " ++ e
  | AppendFailed e => str "append padding header: " ++ e
  | WriteFailed e => str "write 200 response header: " ++ e
  end.

(** The error, if any, of the [n]-th response header. *)
Variable write_response_header : nat -> option HeaderError.

(** Whatever failed, the caller goes on. *)
Definition send_pingora_status (status : Z) : list H2Response :=
  taken (write_response_header 0) (mkH2 status [] true).

Definition process_h2_request_pingora (req : H2Request) (peer_addr : SocketAddr) (padding : rstr)
    (k : nat) : Head H * list H2Response * nat :=
  if negb (str_eqb (h2_method req) (str "CONNECT")) then
    (Failed (str "Expected CONNECT method, got " ++ h2_method req), send_pingora_status 405, k)
  else if negb (bool_decide (is_Some (h2_header req (str "padding")))) then
    (Failed (str "Missing naive Padding header from " ++ show_socket_addr peer_addr),
     send_pingora_status 400, k)
  else
    match h2_authority req with
    | None =>
        (Failed (str "Missing authority in CONNECT request from " ++ show_socket_addr peer_addr), [], k)
    | Some authority =>
        match from_authority authority with
        | None => (Failed (str "Invalid target address: " ++ authority), [], k)
        | Some target =>
            match (match h2_header req (str "proxy-authorization") with
                   | Some v => header_to_str v | None => None end) with
            | None => (Failed (str "Missing Proxy-Authorization header"), send_pingora_status 407, k)
            | Some auth_header =>
                match parse_basic_auth auth_header with
                | Err e => (Failed e, send_pingora_status 407, k)
                | Ok credential =>
                    match authenticate auth credential with
                    | None =>
                        (Failed (str "Authentication failed for peer " ++ show_socket_addr peer_addr),
                         send_pingora_status 407, k)
                    | Some user_id =>
                        let '(outbound_type, k) := route router k target in
                        if is_reject_outbound outbound_type then
                          (Answered, send_pingora_status 403, k)
                        else
                          match write_response_header 0 with
                          | Some e => (Failed (header_error_msg e), [], k)
                          | None =>
                              (Tunnel target user_id outbound_type,
                               [mkH2 200 [(str "padding", padding)] false], k)
                          end
                    end
                end
            end
        end
    end.

(** ** HTTP/3 *)

Inductive H3Frame : Type := H3Headers (fields : list (bytes * bytes)) | H3Body (data : bytes) (fin : bool).

Definition find_header (name : bytes) (headers : list (bytes * bytes)) : option bytes :=
  match List.find (fun h => str_eqb h.1 name) headers with Some h => Some h.2 | None => None end.

(** The error, if any, of the [n]-th frame sent. *)
Variable send_frame : nat -> option rstr.

Definition h3_send (n : nat) (f : H3Frame) : list H3Frame :=
  taken (send_frame n) f.

Definition send_status (status_bytes : bytes) : list H3Frame :=
  h3_send 0 (H3Headers [(str ":status", status_bytes)]) ++ h3_send 1 (H3Body [] true).

(** [respond_200_to_connect] of [src/quiche_runner.rs]: unlike [send_status] it
    stops when the headers cannot be sent. *)
Definition respond_200_to_connect : list H3Frame :=
  match send_frame 0 with
  | Some _ => []
  | None => H3Headers [(str ":status", str "200")] :: h3_send 1 (H3Body [] true)
  end.

Definition process_h3_request_quiche (headers : list (bytes * bytes)) (peer_addr : SocketAddr)
    (padding : rstr) (k : nat) : Head H * list H3Frame * nat :=
  let find name := find_header (str name) headers in
  let method := default [] (find ":method"%string) in
  if negb (str_eqb method (str "CONNECT")) then
    (Failed (str "Expected CONNECT method, got " ++ from_utf8_lossy method), send_status (str "405"), k)
  else if negb (bool_decide (is_Some (find "padding"%string))) then
    (Failed (str "Missing naive Padding header from " ++ show_socket_addr peer_addr),
     send_status (str "400"), k)
  else
    match (match find ":authority"%string with Some v => from_utf8 v | None => None end) with
    | None => (Failed (str "Missing :authority in H3 CONNECT request"), [], k)
    | Some authority =>
        match from_authority authority with
        | None => (Failed (str "Invalid target address: " ++ authority), [], k)
        | Some target =>
            match (match find "proxy-authorization"%string with
                   | Some v => from_utf8 v | None => None end) with
            | None => (Failed (str "Missing Proxy-Authorization header"), send_status (str "407"), k)
            | Some auth_header =>
                match parse_basic_auth auth_header with
                | Err e => (Failed e, send_status (str "407"), k)
                | Ok credential =>
                    match authenticate auth credential with
                    | None =>
                        (Failed (str "Authentication failed for peer " ++ show_socket_addr peer_addr),
                         send_status (str "407"), k)
                    | Some user_id =>
                        let '(outbound_type, k) := route router k target in
                        if is_reject_outbound outbound_type then
                          (Answered, send_status (str "403"), k)
                        else
                          match send_frame 0 with
                          | Some e => (Failed (str "Failed to send H3-quiche 200 response: " ++ e), [], k)
                          | None =>
                              (Tunnel target user_id outbound_type,
                               [H3Headers [(str ":status", str "200"); (str "padding", padding)]], k)
                          end
                    end
                end
            end
        end
    end.

(** ** The specification of both *)

(** A request's head, and the verdict: a status, no answer, or a tunnel. *)
Record Request : Type := {
  rq_method : rstr;
  rq_padding : bool;
  rq_authority : option rstr;
  rq_authorization : option rstr
}.

Inductive Verdict : Type :=
  | Respond (status : Z)
  | NoAnswer
  | Open (target : Address) (user : UserId) (outbound : OutboundType H).

Definition decide_request (rq : Request) (k : nat) : Verdict * nat :=
  if bool_decide (rq_method rq <> str "CONNECT") then (Respond 405, k)
  else if negb (rq_padding rq) then (Respond 400, k)
  else
    match rq_authority rq ≫= from_authority with
    | None => (NoAnswer, k)
    | Some target =>
        match (rq_authorization rq ≫= (fun h => result_ok (parse_basic_auth h))) ≫= authenticate auth with
        | None => (Respond 407, k)
        | Some user =>
            let '(outbound, k) := route router k target in
            (if is_reject_outbound outbound then Respond 403 else Open target user outbound, k)
        end
    end.

Definition h2_request (req : H2Request) : Request := {|
  rq_method := h2_method req;
  rq_padding := bool_decide (is_Some (h2_header req (str "padding")));
  rq_authority := h2_authority req;
  rq_authorization := h2_header req (str "proxy-authorization") ≫= header_to_str
|}.

Definition h3_request (headers : list (bytes * bytes)) : Request := {|
  rq_method := default [] (find_header (str ":method") headers);
  rq_padding := bool_decide (is_Some (find_header (str "padding") headers));
  rq_authority := find_header (str ":authority") headers ≫= from_utf8;
  rq_authorization := find_header (str "proxy-authorization") headers ≫= from_utf8
|}.

(** How a verdict shows: [Failed] or [Answered] with the response given to the
    transport if it takes it, or the tunnel after the 200. *)
Definition h2_shows (padding : rstr) (v : Verdict) (r : Head H * list H2Response) : Prop :=
  match v with
  | Respond status =>
      (if decide (status = 403)%Z then r.1 = Answered else exists m, r.1 = Failed m)
      /\ r.2 = taken (write_response_header 0) (mkH2 status [] true)
  | NoAnswer => (exists m, r.1 = Failed m) /\ r.2 = []
  | Open target user outbound =>
      match write_response_header 0 with
      | None => r = (Tunnel target user outbound, [mkH2 200 [(str "padding", padding)] false])
      | Some _ => (exists m, r.1 = Failed m) /\ r.2 = []
      end
  end.

Definition h3_shows (padding : rstr) (v : Verdict) (r : Head H * list H3Frame) : Prop :=
  match v with
  | Respond status =>
      (if decide (status = 403)%Z then r.1 = Answered else exists m, r.1 = Failed m)
      /\ r.2 = taken (send_frame 0) (H3Headers [(str ":status", show_dec status)])
               ++ taken (send_frame 1) (H3Body [] true)
  | NoAnswer => (exists m, r.1 = Failed m) /\ r.2 = []
  | Open target user outbound =>
      match send_frame 0 with
      | None => r = (Tunnel target user outbound,
                     [H3Headers [(str ":status", str "200"); (str "padding", padding)]])
      | Some _ => (exists m, r.1 = Failed m) /\ r.2 = []
      end
  end.

Lemma str_eqb_negb a b : negb (str_eqb a b) = bool_decide (a <> b).
Proof. unfold str_eqb. by rewrite bool_decide_not. Qed.

(** The HTTP/2 entry point refines the specification, whatever the
    transport does with the responses: same verdict, same number of resolver
    queries, and a 200 only before a tunnel. *)
Lemma h2_refines req peer padding k :
  let '(head, sent, k') := process_h2_request_pingora req peer padding k in
  let '(v, k'') := decide_request (h2_request req) k in
  k' = k'' /\ h2_shows padding v (head, sent).
Proof.
  unfold process_h2_request_pingora, decide_request, h2_request, send_pingora_status.
  cbn [rq_method rq_padding rq_authority rq_authorization]. rewrite str_eqb_negb.
  destruct (bool_decide (_ <> _)); [by split; [|split; [eexists|]]|].
  destruct (negb _); [by split; [|split; [eexists|]]|].
  destruct (h2_authority req) as [a|]; simpl; [|by split; [|split; [eexists|]]].
  destruct (from_authority a) as [target|]; simpl; [|by split; [|split; [eexists|]]].
  destruct (h2_header req _) as [v|]; simpl;
    [|by split; [|split; [eexists|]]].
  destruct (header_to_str v) as [h|]; simpl;
    [|by split; [|split; [eexists|]]].
  destruct (parse_basic_auth h) as [c|e]; simpl;
    [|by split; [|split; [eexists|]]].
  destruct (authenticate auth c) as [u|]; simpl;
    [|by split; [|split; [eexists|]]].
  destruct (route router k target) as [o k1]. destruct (is_reject_outbound o).
  - split; [done|]. done.
  - destruct (write_response_header 0) eqn:E; (split; [done|]); simpl; rewrite E; [|done].
    split; [by eexists|done].
Qed.

(** And so does the HTTP/3 entry point. *)
Lemma h3_refines headers peer padding k :
  let '(head, sent, k') := process_h3_request_quiche headers peer padding k in
  let '(v, k'') := decide_request (h3_request headers) k in
  k' = k'' /\ h3_shows padding v (head, sent).
Proof.
  unfold process_h3_request_quiche, decide_request, h3_request, send_status, h3_send.
  cbn [rq_method rq_padding rq_authority rq_authorization]. rewrite str_eqb_negb.
  destruct (bool_decide (_ <> _)); [by split; [|split; [eexists|]]|].
  destruct (negb _); [by split; [|split; [eexists|]]|].
  destruct (find_header (str ":authority") headers) as [a0|]; simpl; [|by split; [|split; [eexists|]]].
  destruct (from_utf8 a0) as [a|]; simpl; [|by split; [|split; [eexists|]]].
  destruct (from_authority a) as [target|]; simpl; [|by split; [|split; [eexists|]]].
  destruct (find_header (str "proxy-authorization") headers) as [v|]; simpl; [|by split; [|split; [eexists|]]].
  destruct (from_utf8 v) as [h|]; simpl; [|by split; [|split; [eexists|]]].
  destruct (parse_basic_auth h) as [c|e]; simpl; [|by split; [|split; [eexists|]]].
  destruct (authenticate auth c) as [u|]; simpl; [|by split; [|split; [eexists|]]].
  destruct (route router k target) as [o k1]. destruct (is_reject_outbound o); [by split|].
  destruct (send_frame 0) eqn:E; (split; [done|]); simpl; rewrite E; [|done].
  split; [by eexists|done].
Qed.

(** C10: both entry points refine one specification, so that they answer a
    request in the same way whatever the transports do with the responses: the
    same verdict, the same number of resolver queries, and a 200 only before a
    tunnel. *)
Theorem entry_points_refine :
  (forall req peer padding k,
    let '(head, sent, k') := process_h2_request_pingora req peer padding k in
    let '(v, k'') := decide_request (h2_request req) k in
    k' = k'' /\ h2_shows padding v (head, sent))
  /\ (forall headers peer padding k,
    let '(head, sent, k') := process_h3_request_quiche headers peer padding k in
    let '(v, k'') := decide_request (h3_request headers) k in
    k' = k'' /\ h3_shows padding v (head, sent)).
Proof. split; [apply h2_refines|apply h3_refines]. Qed.

(** What a request needs for a tunnel: a CONNECT with a [Padding] header, to
    the address of its authority, for the user its password authenticates, and
    a router that does not reject the address. *)
Definition opens (rq : Request) (k : nat) (target : Address) (user : UserId) (outbound : OutboundType H)
    (k' : nat) : Prop :=
  rq_method rq = str "CONNECT" /\ rq_padding rq = true
  /\ (exists a, rq_authority rq = Some a /\ from_authority a = Some target)
  /\ (exists h c, rq_authorization rq = Some h /\ parse_basic_auth h = Ok c
      /\ authenticate auth c = Some user)
  /\ route router k target = (outbound, k') /\ outbound <> Reject.

Lemma open_iff rq k target user outbound k' :
  decide_request rq k = (Open target user outbound, k') <-> opens rq k target user outbound k'.
Proof.
  unfold opens, decide_request. case_bool_decide as Hm.
  { split; [done|]. by intros (Hm' & _). }
  destruct (rq_padding rq); simpl; [|split; [done|by intros (_ & ? & _)]].
  destruct (rq_authority rq) as [a|]; simpl; [|split; [done|by intros (_ & _ & (? & ? & _) & _)]].
  destruct (from_authority a) as [t|] eqn:Ea; [|split; [done|]].
  2: { intros (_ & _ & (? & [= <-] & E) & _). by rewrite Ea in E. }
  destruct (rq_authorization rq) as [h|]; simpl; [|split; [done|by intros (_ & _ & _ & (? & ? & ? & _) & _)]].
  destruct (parse_basic_auth h) as [c|e] eqn:Eh; simpl; [|split; [done|]].
  2: { intros (_ & _ & _ & (? & ? & [= <-] & E & _) & _). by rewrite Eh in E. }
  destruct (authenticate auth c) as [u|] eqn:Eu; [|split; [done|]].
  2: { intros (_ & _ & _ & (? & ? & [= <-] & E & E') & _). rewrite Eh in E. injection E as <-.
       by rewrite Eu in E'. }
  destruct (route router k t) as [o k1] eqn:Er. split.
  - destruct (is_reject_outbound o) eqn:Eo; [done|]. intros [= <- <- <- <-].
    split_and!; [done|done|by eexists|by exists h, c|done|by intros ->].
  - intros (_ & _ & (? & [= <-] & E) & (? & ? & [= <-] & E1 & E2) & E3 & Ho).
    rewrite Ea in E. injection E as ->. rewrite Eh in E1. injection E1 as <-.
    rewrite Eu in E2. injection E2 as ->. rewrite Er in E3. injection E3 as -> ->.
    by destruct outbound.
Qed.

Lemma h2_opens req peer padding k target user outbound sent k' :
  process_h2_request_pingora req peer padding k = (Tunnel target user outbound, sent, k') <->
  opens (h2_request req) k target user outbound k' /\ write_response_header 0 = None
  /\ sent = [mkH2 200 [(str "padding", padding)] false].
Proof.
  rewrite <- open_iff. pose proof (h2_refines req peer padding k) as Hr.
  destruct (process_h2_request_pingora req peer padding k) as [[head s] k1].
  destruct (decide_request (h2_request req) k) as [v k2]. destruct Hr as [<- Hr]. split.
  - intros [= -> -> ->]. destruct v as [st| |t u o]; simpl in Hr.
    + destruct Hr as [Hr _]. by destruct (decide (st = 403)%Z); [|destruct Hr].
    + by destruct Hr as [[m Hr] _].
    + destruct (write_response_header 0); [by destruct Hr as [[m Hr] _]|]. by injection Hr as -> -> -> ->.
  - intros ([= -> ->] & Hw & ->). simpl in Hr. rewrite Hw in Hr. by injection Hr as -> ->.
Qed.

Lemma h3_opens headers peer padding k target user outbound sent k' :
  process_h3_request_quiche headers peer padding k = (Tunnel target user outbound, sent, k') <->
  opens (h3_request headers) k target user outbound k' /\ send_frame 0 = None
  /\ sent = [H3Headers [(str ":status", str "200"); (str "padding", padding)]].
Proof.
  rewrite <- open_iff. pose proof (h3_refines headers peer padding k) as Hr.
  destruct (process_h3_request_quiche headers peer padding k) as [[head s] k1].
  destruct (decide_request (h3_request headers) k) as [v k2]. destruct Hr as [<- Hr]. split.
  - intros [= -> -> ->]. destruct v as [st| |t u o]; simpl in Hr.
    + destruct Hr as [Hr _]. by destruct (decide (st = 403)%Z); [|destruct Hr].
    + by destruct Hr as [[m Hr] _].
    + destruct (send_frame 0); [by destruct Hr as [[m Hr] _]|]. by injection Hr as -> -> -> ->.
  - intros ([= -> ->] & Hw & ->). simpl in Hr. rewrite Hw in Hr. by injection Hr as -> ->.
Qed.

(** C9: no tunnel without authentication: an entry point opens a tunnel exactly
    for a CONNECT request with a [Padding] header, to the address of its
    authority, for the user its password authenticates, when the router does
    not reject that address - with the router's decision, after the transport
    took the 200, and with no other response. *)
Theorem tunnel_iff padding k target user outbound k' :
  (forall req peer sent,
    process_h2_request_pingora req peer padding k = (Tunnel target user outbound, sent, k') <->
    opens (h2_request req) k target user outbound k' /\ write_response_header 0 = None
    /\ sent = [mkH2 200 [(str "padding", padding)] false])
  /\ (forall headers peer sent,
    process_h3_request_quiche headers peer padding k = (Tunnel target user outbound, sent, k') <->
    opens (h3_request headers) k target user outbound k' /\ send_frame 0 = None
    /\ sent = [H3Headers [(str ":status", str "200"); (str "padding", padding)]]).
Proof. split; [intros req peer sent; apply h2_opens|intros headers peer sent; apply h3_opens]. Qed.
End Entry.

(** ** Credentials *)

Lemma strip_prefix_app p s : strip_prefix p (p ++ s) = Some s.
Proof. induction p as [|a p IH]; simpl; [done|]. by rewrite Z.eqb_refl. Qed.

Section Credentials.
Context {codecs : Codecs}.

(** The credential is the password: from the encoding of
    [username:password], where the username has no colon, exactly the password
    is taken, colons in it included; and without a colon the whole text. *)
Theorem parse_basic_auth_password user password encoded :
  base64_decode encoded = Ok (user ++ 58%Z :: password) ->
  Forall (fun b => 33 <= b < 128)%Z encoded ->
  utf8_valid (user ++ 58%Z :: password) = true -> Forall (fun b => b <> 58%Z) user ->
  parse_basic_auth (str "Basic " ++ encoded) = Ok password.
Proof.
  intros Hd Ht Hu Hc. unfold parse_basic_auth. rewrite strip_prefix_app, trim_id, Hd by done.
  unfold from_utf8. rewrite Hu, find_byte_app by done.
  change (user ++ 58%Z :: password) with (user ++ [58%Z] ++ password). rewrite app_assoc.
  by rewrite drop_app_length' by (rewrite length_app; simpl; lia).
Qed.
End Credentials.

(** ** The tunnel *)

(** What [process_tunnel] runs for a target and a routing decision. *)
Inductive TunnelKind (H : Type) : Type :=
  | RunUot (version : UotVersion)
  | RunDirect (resolved : option (list IpAddr)) (dialer : option H)
  | RunProxy (handler : H)
  | RunNothing.
Arguments RunUot {H}.
Arguments RunDirect {H}.
Arguments RunProxy {H}.
Arguments RunNothing {H}.

Definition tunnel_kind {H} (target : Address) (outbound_type : OutboundType H) : TunnelKind H :=
  match detect_uot (host target) with
  | Some uot_version => RunUot uot_version
  | None =>
      match outbound_type with
      | Direct resolved dialer => RunDirect resolved dialer
      | Proxy handler => RunProxy handler
      | Reject => RunNothing
      end
  end.

Section Tunnel.
Context {Hnd St : Type} {collector : StatsCollector St}.

(** [body] is the handler of the kind: it is given its token, runs while other
    tasks use the shared manager and collector, and returns its result and their
    states.  The guard's [unregister] runs however it ends. *)
Definition process_tunnel
    (body : TunnelKind Hnd -> Token -> ConnectionManager * St -> result unit rstr * (ConnectionManager * St))
    (target : Address) (peer_addr : SocketAddr) (user_id : UserId) (now : Z)
    (outbound_type : OutboundType Hnd) (mgr : ConnectionManager) (st : St)
    : result unit rstr * (ConnectionManager * St) :=
  let '((conn_id, cancel_token), mgr) := register user_id peer_addr now mgr in
  let st := record_request user_id st in
  let '(r, (mgr, st)) := body (tunnel_kind target outbound_type) cancel_token (mgr, st) in
  (r, (unregister conn_id mgr, st)).

(** ** The end of the relay *)

(** How [relay]'s [select!] ends: the relay's future returned, or the token was
    cancelled and the future dropped. *)
Inductive RelayExit : Type := Returned (r : io_result bool) (t : RelayTermination) | Cancelled.

Section RelayEnd.
Context {A B : Type} `{!AsyncRead A, !AsyncWrite A, !AsyncRead B, !AsyncWrite B}.

(** [shutdown] under its timeout: its polls before it, each after what the rest
    of the process and the peer did to the stream meanwhile. *)
Fixpoint shutdown_within {T} `{!AsyncWrite T} (envs : list (T -> T)) (s : T) : T :=
  match envs with
  | [] => s
  | env :: envs =>
      match poll_shutdown (env s) with (Pending, s) => shutdown_within envs s | (Ready _, s) => s end
  end.

Definition record_opt (f : Z -> St -> St) (o : option Z) (st : St) : St :=
  match o with Some n => f n st | None => st end.

(** The relay of a tunnel at its start, and after its end: the collector is
    called when the future returns; a cancelled tunnel closes both sides. *)
Definition relay_start (cfg : ConnConfig) (now : Z) (padded : A) (remote : B) : Relay A B :=
  relay_new (Z.to_nat (cc_buffer_size cfg)) false (idle_timeout_secs cfg) now padded remote.

Definition relay_end (user_id : UserId) (na : list (A -> A)) (nb : list (B -> B)) (exit : RelayExit) (st : Relay A B) (stats : St)
    : result unit rstr * (A * B) * St :=
  match exit with
  | Returned _ _ =>
      let '(up, down) := record_stats st in
      (Ok tt, (side_a st, side_b st),
       record_opt (record_download user_id) down (record_opt (record_upload user_id) up stats))
  | Cancelled =>
      (Ok tt, (shutdown_within na (side_a st), shutdown_within nb (side_b st)), stats)
  end.
End RelayEnd.
End Tunnel.

(** ** Properties of the tunnel *)

Section TunnelSpec.
Context {Hnd St : Type} {collector : StatsCollector St}.

(** Whatever the tunnel's handler does and returns, and whatever the other
    tasks do to the shared manager meanwhile, once [process_tunnel] is over its
    connection is in neither map. *)
Theorem process_tunnel_unregisters
    (body : TunnelKind Hnd -> Token -> ConnectionManager * St -> result unit rstr * (ConnectionManager * St))
    target peer user now outbound mgr st :
  manager_wf mgr -> (next_conn_id mgr < u64_max)%Z ->
  (forall kd tok m s, manager_wf m -> manager_wf (body kd tok (m, s)).2.1) ->
  let '(_, (mgr', _)) := process_tunnel body target peer user now outbound mgr st in
  manager_wf mgr' /\ connections mgr' !! next_conn_id mgr = None
  /\ forall u ids, user_connections mgr' !! u = Some ids -> next_conn_id mgr ∉ ids.
Proof.
  intros Hwf Hnext Hbody. unfold process_tunnel.
  pose proof (register_wf user peer now mgr Hwf Hnext) as Hwf1.
  destruct (register user peer now mgr) as [[id tok] m1] eqn:Er.
  assert (id = next_conn_id mgr) as -> by (by injection Er as <- _ _).
  specialize (Hbody (tunnel_kind target outbound) tok m1 (record_request user st) Hwf1).
  destruct (body _ _ _) as [r [m2 st2]]. cbn [fst snd] in Hbody.
  apply (unregister_wf (next_conn_id mgr)) in Hbody. split; [done|].
  assert (connections (unregister (next_conn_id mgr) m2) !! next_conn_id mgr = None) as Hn.
  { unfold unregister, remove_conn. destruct (connections m2 !! next_conn_id mgr) as [c|].
    - unfold unindex_conn. cbn [user_connections with_connections connections].
      destruct (user_connections m2 !! _); cbn [connections with_users]; apply lookup_delete_eq.
    - apply lookup_delete_eq. }
  split; [done|]. intros u ids Hu Hin.
  destruct (wf_inverse _ Hbody _ _ _ Hu Hin) as (c & Hc & _). congruence.
Qed.
End TunnelSpec.

Section RelayEndSpec.
Context {A B St : Type} `{!AsyncRead A, !AsyncWrite A, !ReadSpec A, !WriteSpec A, !DuplexSpec A}.
Context `{!AsyncRead B, !AsyncWrite B, !ReadSpec B, !WriteSpec B, !DuplexSpec B}.
Context `{!ReadFinite A, !ReadFinite B} {collector : StatsCollector St}.

(** What may happen to a stream between two polls of its shutdown. *)
Definition env_keeps {T} `{!AsyncRead T, !AsyncWrite T, !ReadSpec T, !WriteSpec T} (env : T -> T) : Prop :=
  forall s, rd_ok s -> wr_ok s -> stream_env s (env s).

(** Shutting down sends nothing but the end. *)
Lemma shutdown_within_spec {T} `{!AsyncRead T, !AsyncWrite T, !ReadSpec T, !WriteSpec T, !DuplexSpec T}
    envs (s : T) :
  Forall env_keeps envs -> rd_ok s -> wr_ok s ->
  rd_log (shutdown_within envs s) = rd_log s /\ wr_log (shutdown_within envs s) = wr_log s.
Proof.
  intros He. revert s. induction He as [|env envs Henv _ IH]; intros s Hr Hw; simpl; [tauto|].
  destruct (Henv s Hr Hw) as (Hr1 & Hw1 & R1 & W1 & _).
  destruct (poll_shutdown (env s)) as [p s'] eqn:E.
  pose proof (shutdown_frame _ p s' Hr1 Hw1 E) as [Hr' HL].
  pose proof (shutdown_spec _ p s' Hw1 E) as (Hw' & HW & _).
  destruct p; [destruct (IH s') as [H1 H2]; [done..|]|]; split; congruence.
Qed.

(** The shutdown succeeds at one of the polls. *)
Fixpoint shuts_within {T} `{!AsyncWrite T} (envs : list (T -> T)) (s : T) : Prop :=
  match envs with
  | [] => False
  | env :: envs =>
      match poll_shutdown (env s) with (Pending, s) => shuts_within envs s | (Ready r, _) => r = Ok tt end
  end.

Lemma shuts_within_fin {T} `{!AsyncRead T, !AsyncWrite T, !ReadSpec T, !WriteSpec T, !DuplexSpec T} envs (s : T) :
  Forall env_keeps envs -> rd_ok s -> wr_ok s -> shuts_within envs s -> wr_fin (shutdown_within envs s) = true.
Proof.
  intros He. revert s. induction He as [|env envs Henv _ IH]; intros s Hr Hw; simpl; [done|].
  destruct (Henv s Hr Hw) as (Hr1 & Hw1 & _).
  destruct (poll_shutdown (env s)) as [p s'] eqn:E.
  pose proof (shutdown_frame _ p s' Hr1 Hw1 E) as [Hr' _].
  pose proof (shutdown_spec _ p s' Hw1 E) as (Hw' & _ & Hf & _). destruct p; [by apply IH|].
  intros ->. by apply Hf.
Qed.

(** C22: a tunnel kicked at any moment has sent each side a prefix of what the
    other one sent, and nothing out of order; both sides are shut down, if they
    let themselves be within the timeout, whatever happens to them meanwhile; and the collector is not called: the
    bytes such a tunnel carried are in no statistics. *)
Theorem relay_cancelled sleep_ready cfg now a0 b0 st last user na nb stats :
  good a0 b0 -> Forall env_keeps na -> Forall env_keeps nb ->
  relay_run sleep_ready (Z.to_nat (cc_buffer_size cfg)) false (idle_timeout_secs cfg) now a0 b0 st last ->
  let '(r, (a, b), stats') := relay_end user na nb Cancelled st stats in
  r = Ok tt /\ stats' = stats
  /\ dir_prefix (rd_log a0) (wr_log b0) a b /\ dir_prefix (rd_log b0) (wr_log a0) b a
  /\ (shuts_within na (side_a st) -> wr_fin a = true)
  /\ (shuts_within nb (side_b st) -> wr_fin b = true).
Proof.
  intros G Hna Hnb Hr. apply relay_run_inv in Hr as ([I1 I2] & _); [|done]. simpl.
  pose proof (di_r _ _ _ _ _ _ I1) as Ra. pose proof (di_w _ _ _ _ _ _ I1) as Wb.
  pose proof (di_r _ _ _ _ _ _ I2) as Rb. pose proof (di_w _ _ _ _ _ _ I2) as Wa.
  destruct (shutdown_within_spec na (side_a st) Hna Ra Wa) as [A1 A2].
  destruct (shutdown_within_spec nb (side_b st) Hnb Rb Wb) as [B1 B2].
  apply dir_inv_prefix in I1 as (u1 & v1 & P1 & Q1), I2 as (u2 & v2 & P2 & Q2).
  split_and!; [done|done| | |by apply shuts_within_fin|by apply shuts_within_fin].
  - exists u1, v1. by rewrite A1, B2.
  - exists u2, v2. by rewrite B1, A2.
Qed.

(** A relay that returned without an error has recorded, for its user,
    exactly the numbers of bytes delivered upwards and downwards - once each,
    and only those that are not zero. *)
Theorem relay_accounting sleep_ready cfg now a0 b0 st last fuel time t ok st' user na nb stats :
  good a0 b0 ->
  relay_run sleep_ready (Z.to_nat (cc_buffer_size cfg)) false (idle_timeout_secs cfg) now a0 b0 st last ->
  relay_poll sleep_ready fuel (idle_timeout_secs cfg) time st = Some (Ready (Ok ok), t, st') ->
  exists up down,
    wr_log (side_b st') = wr_log b0 ++ up /\ wr_log (side_a st') = wr_log a0 ++ down
    /\ relay_end user na nb (Returned (Ok ok) t) st' stats
       = (Ok tt, (side_a st', side_b st'),
          let counted f n s := if (0 <? n)%Z then f user n s else s in
          counted record_download (u64_wrap (Z.of_nat (length down)))
            (counted record_upload (u64_wrap (Z.of_nat (length up))) stats)).
Proof.
  intros G Hr Hp. apply relay_run_inv in Hr as (I & _ & _); [|done].
  pose proof (relay_poll_spec _ _ _ _ _ _ _ _ _ _ I Hp) as Hs.
  assert (relay_inv a0 b0 st') as [I1 I2] by (destruct ok; apply Hs).
  destruct (di_log _ _ _ _ _ _ I1) as (up & _ & HW1 & HA1).
  destruct (di_log _ _ _ _ _ _ I2) as (down & _ & HW2 & HA2).
  exists up, down. split_and!; [done|done|]. simpl. unfold bytes_transferred. rewrite HA1, HA2.
  by destruct (0 <? u64_wrap (Z.of_nat (length up)))%Z, (0 <? u64_wrap (Z.of_nat (length down)))%Z.
Qed.
End RelayEndSpec.

(** With private addresses blocked, which is the default, a request for UDP
    over TCP is answered 403 unless the resolver knows the magic name: the name
    is routed - and resolved - before it is recognised. *)
Theorem uot_needs_resolution {codecs : Codecs} {Auth Hnd} {au : Authenticator Auth} {cache : DnsCache}
    (auth : Auth) rq k port user e :
  rq_method rq = str "CONNECT" -> rq_padding rq = true ->
  rq_authority rq ≫= from_authority = Some (Domain MAGIC_V2 port) ->
  (rq_authorization rq ≫= (fun h => result_ok (parse_basic_auth h))) ≫= authenticate auth = Some user ->
  dns k MAGIC_V2 port = Err e ->
  decide_request (H := Hnd) auth {| dr_block_private_ip := true |} rq k = (Respond 403, S k)
  /\ detect_uot (host (Domain MAGIC_V2 port)) = Some UotV2.
Proof.
  intros Hm Hp Ha Hu Hd. split; [|done]. unfold decide_request.
  rewrite Hm, Hp, Ha, Hu, bool_decide_eq_false_2 by naive_solver. simpl.
  unfold route, DirectRouter_route. cbn [dr_block_private_ip]. unfold check_private_and_resolve.
  rewrite Hd. done.
Qed.

(** ** Examples *)

(** Credentials that are sent as they are. *)
Definition plain_codecs : Codecs := {|
  base64_decode := Ok; utf8_error := fun _ => []; header_to_str := from_utf8; from_utf8_lossy := fun b => b
|}.

(** One user, known by a password. *)
Definition one_user : Authenticator unit := fun _ c => if str_eqb c (str "uuid:1") then Some 7%Z else None.

(** A collector that keeps its calls. *)
Inductive Call : Type := Req (u : UserId) | Up (u : UserId) (n : Z) | Down (u : UserId) (n : Z).

Definition calls : StatsCollector (list Call) := {|
  record_request := fun u s => s ++ [Req u];
  record_upload := fun u n s => s ++ [Up u n];
  record_download := fun u n s => s ++ [Down u n]
|}.

Definition ex_headers : list (bytes * bytes) :=
  [(str ":method", str "CONNECT"); (str ":authority", str "example.com:443");
   (str "padding", str "!!"); (str "proxy-authorization", str "Basic u:uuid:1")].

(** An accepted request, and one with a wrong password. *)
Example open_example :
  decide_request (codecs := plain_codecs) (au := one_user) (rt := @DirectRouter_route dns_ex unit)
    tt {| dr_block_private_ip := true |} (h3_request ex_headers) 0
  = (Open (Domain (str "example.com") 443) 7%Z
       (Direct (Some [V4 (IPv4addr 93 184 216 34); V4 (IPv4addr 93 184 216 35)]) None), 1).
Proof. vm_compute. reflexivity. Qed.

Lemma parse_basic_auth_password_witness :
  parse_basic_auth (codecs := plain_codecs) (str "Basic u:uuid:1") = Ok (str "uuid:1").
Proof.
  apply (parse_basic_auth_password (codecs := plain_codecs) (str "u") (str "uuid:1") (str "u:uuid:1"));
    [reflexivity|change (str "u:uuid:1") with [117; 58; 117; 117; 105; 100; 58; 49]%Z|reflexivity
    |change (str "u") with [117]%Z]; repeat (apply Forall_cons_2; [lia|]); apply Forall_nil_2.
Defined.

Lemma process_tunnel_unregisters_witness :
  let '(_, (mgr', _)) := process_tunnel (collector := calls)
    (fun (_ : TunnelKind unit) _ ms => (Err (str "refused"), ms))
    (Domain (str "example.com") 443) addr0 7%Z 0 (Direct None None) Manager_new [] in
  manager_wf mgr' /\ connections mgr' !! 1%Z = None
  /\ forall u ids, user_connections mgr' !! u = Some ids -> 1%Z ∉ ids.
Proof.
  apply (process_tunnel_unregisters (collector := calls)
    (fun (_ : TunnelKind unit) _ ms => (Err (str "refused"), ms))
    (Domain (str "example.com") 443) addr0 7%Z 0 (Direct None None) Manager_new []).
  - exact Manager_new_wf.
  - reflexivity.
  - intros kd tok m s Hm. exact Hm.
Defined.

Lemma ex_relay_run :
  relay_run at_deadline 4 false 60 0 client silent
    (polled 9 60 5 (relay_new 4 false 60 0 client silent))
    (if progressed (relay_new 4 false 60 0 client silent)
       (polled 9 60 5 (relay_new 4 false 60 0 client silent)) then 5 else 0)%Z.
Proof.
  apply (run_poll at_deadline stream_env stream_env 4 false 60 0 client silent (relay_new 4 false 60 0 client silent) 0 9 5 Completed);
    [constructor|vm_compute; reflexivity].
Qed.

Definition ex_cfg : ConnConfig := from_cli (with_performance (CliArgs_default 1) 4 (from_secs 60)) 10.

(** The peer sends a last byte while the stream is shut down. *)
Definition late_byte (s : Mem) : Mem := {|
  chunks := chunks s ++ [[5]]%Z; eof := eof s; consumed := consumed s;
  credits := credits s; accepted := accepted s; fin := fin s
|}.

Lemma late_byte_keeps : env_keeps late_byte.
Proof.
  intros s Hr Hw. assert (Mem_ok (late_byte s)) as Hok.
  { apply Forall_app. split; [exact Hr|]. repeat constructor; try done; unfold is_u8, u8_max; lia. }
  unfold stream_env. by split_and!.
Qed.

(** The client has sent three bytes that the remote side will not take. *)
Lemma relay_cancelled_witness :
  let st := polled 9 60 5 (relay_new 4 false 60 0 client silent) in
  let '(r, (a, b), stats') := relay_end (collector := calls) 7%Z [late_byte] [late_byte] Cancelled st [] in
  r = Ok tt /\ stats' = []
  /\ dir_prefix (rd_log client) (wr_log silent) a b /\ dir_prefix (rd_log silent) (wr_log client) b a
  /\ (shuts_within [late_byte] (side_a st) -> wr_fin a = true)
  /\ (shuts_within [late_byte] (side_b st) -> wr_fin b = true).
Proof.
  apply (relay_cancelled (collector := calls) at_deadline ex_cfg 0 client silent _
    (if progressed (relay_new 4 false 60 0 client silent)
       (polled 9 60 5 (relay_new 4 false 60 0 client silent)) then 5 else 0)%Z).
  - apply mem_good; [apply client_server_good|apply silent_good].
  - by apply Forall_singleton, late_byte_keeps.
  - by apply Forall_singleton, late_byte_keeps.
  - exact ex_relay_run.
Defined.

Lemma relay_accounting_witness :
  let st := polled 9 60 5 (relay_new 4 false 60 0 client server) in
  exists up down,
    wr_log (side_b st) = wr_log server ++ up /\ wr_log (side_a st) = wr_log client ++ down
    /\ relay_end (collector := calls) 7%Z [] [] (Returned (Ok true) Completed) st []
       = (Ok tt, (side_a st, side_b st),
          let counted f n s := if (0 <? n)%Z then f 7%Z n s else s in
          counted (record_download (StatsCollector := calls)) (u64_wrap (Z.of_nat (length down)))
            (counted (record_upload (StatsCollector := calls)) (u64_wrap (Z.of_nat (length up))) [])).
Proof.
  apply (relay_accounting (collector := calls) at_deadline ex_cfg 0 client server
    (relay_new 4 false 60 0 client server) 0 9 5 Completed true).
  - exact client_server_good.
  - constructor.
  - vm_compute. reflexivity.
Defined.

Lemma uot_needs_resolution_witness :
  decide_request (codecs := plain_codecs) (au := one_user) (rt := @DirectRouter_route dns_ex unit)
    tt {| dr_block_private_ip := true |}
    {| rq_method := str "CONNECT"; rq_padding := true;
       rq_authority := Some (MAGIC_V2 ++ str ":443");
       rq_authorization := Some (str "Basic u:uuid:1") |} 0
  = (Respond 403, 1)
  /\ detect_uot (host (Domain MAGIC_V2 443)) = Some UotV2.
Proof.
  apply (uot_needs_resolution (codecs := plain_codecs) (Hnd := unit) (au := one_user) (cache := dns_ex)
    tt _ 0 443%Z 7%Z (DnsNotFound MAGIC_V2)); vm_compute; reflexivity.
Defined.
