(* ===== verification/Lifecycle.v ===== *)
(** * Tunnels over their lifetime

    The connection manager, the relays and the sessions of UDP over TCP put
    together: every task of a tunnel holds a registration ([Connection]) while it
    opens the outbound connection and relays, or serves a session ([UotTunnel]);
    [relay]'s [select!] ([src/handler.rs]) and the loops of a session watch the
    token of the registration.  Tasks that kick a user or cancel everything run
    beside them.  A run keeps, as a ghost, the pools it
    went through, which tell who was asked to end. *)

From S2P Require Import Prelude RustStr RustNet AsyncIo Routing Relay RelayEnd Config Connection Uot UotStream UotTunnel Server Handler.
Open Scope nat_scope.

(** ** The requests to end a tunnel *)

(** The connection a thread owns, with its user; its token. *)
Definition owner_of (th : Thread) : option (ConnectionId * UserId) :=
  match th with
  | TInsert id _ u _ _ | TIndex id _ u | THold id _ u | TUnindex id u => Some (id, u)
  | _ => None
  end.

Definition token_of (th : Thread) : option (Token * UserId) :=
  match th with TInsert _ t u _ _ | TIndex _ t u | THold _ t u => Some (t, u) | _ => None end.

(** While task [k] had its connection in the manager, a task was kicking its
    user or cancelling everything. *)
Definition asked (past : list Pool) (k : nat) (u : UserId) : Prop :=
  exists q th id t j, q ∈ past /\ q !! k = Some th /\ has_conn th = Some (id, t, u)
    /\ ((exists todo, q !! j = Some (TKick u todo)) \/ exists b i todo, q !! j = Some (TSweep b i todo)).

Lemma asked_incl h h' k u : h ⊆ h' -> asked h k u -> asked h' k u.
Proof. intros Hi (q & th & id & t & j & Hq & H). exists q, th, id, t, j. split; [by apply Hi|done]. Qed.

Lemma asked_more q past k u : asked past k u -> asked (q :: past) k u.
Proof. apply asked_incl. set_solver. Qed.

(** A token is cancelled only for a request that covers its user. *)
Record asked_inv (past : list Pool) (m : ConnectionManager) (p : Pool) : Prop := {
  h_now : p ∈ past;
  h_owner k th id u : p !! k = Some th -> owner_of th = Some (id, u) -> (id < next_conn_id m)%Z;
  h_tok_bound k th t u : p !! k = Some th -> token_of th = Some (t, u) -> t < tokens m;
  h_tok_uniq k k' th th' t u u' : p !! k = Some th -> p !! k' = Some th' ->
    token_of th = Some (t, u) -> token_of th' = Some (t, u') -> k = k';
  h_bound t : t ∈ cancelled m -> t < tokens m;
  h_todo k u todo id k' th u' : p !! k = Some (TKick u todo) -> id ∈ todo ->
    p !! k' = Some th -> owner_of th = Some (id, u') -> u' = u;
  h_todo_bound k u todo id : p !! k = Some (TKick u todo) -> id ∈ todo -> (id < next_conn_id m)%Z;
  h_asked k th t u : p !! k = Some th -> token_of th = Some (t, u) -> t ∈ cancelled m -> asked past k u
}.

Section Asked.
Variable shard : ConnectionId -> nat.
Variable shards : nat.

Lemma owner_owns th id u : owner_of th = Some (id, u) -> owns th = Some id.
Proof. destruct th; simpl; congruence. Qed.

Lemma has_conn_token th id t u : has_conn th = Some (id, t, u) -> token_of th = Some (t, u) /\ owner_of th = Some (id, u).
Proof. destruct th; simpl; try done; by intros [= -> -> ->]. Qed.

(** A step that leaves the tokens, in which one thread moves. *)
Lemma asked_move past m m' p k th th' :
  asked_inv past m p -> (p !! k = None /\ th = TDone) \/ p !! k = Some th ->
  (next_conn_id m <= next_conn_id m')%Z -> tokens m' = tokens m -> cancelled m' = cancelled m ->
  (forall x, owner_of th' = Some x -> owner_of th = Some x) ->
  (forall x, token_of th' = Some x -> token_of th = Some x) ->
  (forall u todo id, th' = TKick u todo -> id ∈ todo ->
     (id < next_conn_id m)%Z /\ forall j x v, p !! j = Some x -> owner_of x = Some (id, v) -> v = u) ->
  asked_inv (<[k := th']> p :: past) m' (<[k := th']> p).
Proof.
  intros I Hk Hn Et Ec Ho Ht Htodo. destruct I.
  assert (forall x, owner_of th' = Some x -> p !! k = Some th) as Hko.
  { intros x Hx. apply Ho in Hx. destruct Hk as [[_ ->]|]; done. }
  assert (forall x, token_of th' = Some x -> p !! k = Some th) as Hkt.
  { intros x Hx. apply Ht in Hx. destruct Hk as [[_ ->]|]; done. }
  assert (forall j x y, <[k := th']> p !! j = Some x -> owner_of x = Some y ->
    exists x', p !! j = Some x' /\ owner_of x' = Some y) as Lo.
  { intros j x y [[<- <-]|[_ Hj]]%lookup_insert_Some Hx; [|by eauto]. exists th. split; [by eapply Hko|by apply Ho]. }
  assert (forall j x y, <[k := th']> p !! j = Some x -> token_of x = Some y ->
    exists x', p !! j = Some x' /\ token_of x' = Some y) as Lt.
  { intros j x y [[<- <-]|[_ Hj]]%lookup_insert_Some Hx; [|by eauto]. exists th. split; [by eapply Hkt|by apply Ht]. }
  assert (forall j u todo id, <[k := th']> p !! j = Some (TKick u todo) -> id ∈ todo ->
     (id < next_conn_id m)%Z /\ forall j x v, p !! j = Some x -> owner_of x = Some (id, v) -> v = u) as Lk.
  { intros j u todo id [[<- He]|[_ Hj]]%lookup_insert_Some Hid; [by eapply Htodo|].
    split; [by eapply h_todo_bound0|]. intros j' x v Hx Hv. by eapply h_todo0. }
  split; rewrite ?Et, ?Ec.
  - by left.
  - intros j x id u Hj Hx. destruct (Lo _ _ _ Hj Hx) as (x' & Hj' & Hx').
    pose proof (h_owner0 _ _ _ _ Hj' Hx'). lia.
  - intros j x t u Hj Hx. destruct (Lt _ _ _ Hj Hx) as (x' & Hj' & Hx'). by eapply h_tok_bound0.
  - intros j j' x x' t u u' Hj Hj' Hx Hx'. destruct (Lt _ _ _ Hj Hx) as (y & ? & ?), (Lt _ _ _ Hj' Hx') as (y' & ? & ?).
    by eapply h_tok_uniq0.
  - done.
  - intros j u todo id j' x v Hj Hid Hj' Hx. destruct (Lo _ _ _ Hj' Hx) as (x' & Hx1 & Hx2).
    destruct (Lk _ _ _ _ Hj Hid) as [_ H]. by eapply H.
  - intros j u todo id Hj Hid. destruct (Lk _ _ _ _ Hj Hid) as [H _]. lia.
  - intros j x t u Hj Hx Hc. destruct (Lt _ _ _ Hj Hx) as (y & ? & ?). eapply asked_more, h_asked0; eauto.
Qed.

(** Visiting a connection cancels its token only, and its user is the one the
    visiting task was asked for. *)
Lemma asked_cancel past m p id :
  inv shard m p -> asked_inv past m p ->
  (forall j x t u, p !! j = Some x -> has_conn x = Some (id, t, u) -> asked past j u) ->
  asked_inv past (cancel_conn id m).2 p.
Proof.
  intros I H Hid. pose proof (cancel_conn_frame id m) as (E1 & _ & _ & E4). destruct H.
  assert (tokens (cancel_conn id m).2 = tokens m) as E5 by (unfold cancel_conn; by destruct (_ !! _)).
  assert (forall t, (exists c, connections m !! id = Some c /\ cancel_token c = t) ->
    exists j x u, p !! j = Some x /\ token_of x = Some (t, u) /\ has_conn x = Some (id, t, u)) as Hown.
  { intros t (c & Hc & <-). destruct (i_conn_inv _ _ _ I _ _ Hc) as (j & x & Hj & Hx).
    eexists _, _, _. split_and!; [done|by apply has_conn_token in Hx as [? _]|done]. }
  split; rewrite ?E1, ?E5; try done.
  - intros t [Ht|(j & x & u & Hj & Hx & _)%Hown]%E4; [by apply h_bound0|by eapply h_tok_bound0].
  - intros k th t u Hk Hx [Ht|(j & x & u' & Hj & Hx' & Ho)%Hown]%E4; [by eapply h_asked0|].
    assert (k = j) as <- by by eapply h_tok_uniq0.
    rewrite Hk in Hj. injection Hj as <-. rewrite Hx in Hx'. injection Hx' as <-. by eapply Hid.
Qed.

(** A new registration has an id and a token of its own. *)
Lemma asked_alloc past m p k user addr now :
  asked_inv past m p -> p !! k = Some (TRegister user addr now) -> (next_conn_id m < u64_max)%Z ->
  (1 <= next_conn_id m)%Z ->
  let p' := <[k := TInsert (next_conn_id m) (tokens m) user addr now]> p in
  asked_inv (p' :: past)
    (mkManager (u64_wrap (next_conn_id m + 1)) (connections m) (user_connections m) (S (tokens m)) (cancelled m)) p'.
Proof.
  intros H Hk Hlt Hge p'. destruct H. unfold p'.
  split; cbn [next_conn_id tokens cancelled]; rewrite ?u64_wrap_small by (unfold is_u64, u64_max in *; lia).
  - by left.
  - intros j x id u [[<- <-]|[_ Hj]]%lookup_insert_Some Hx; [simplify_eq/=; lia|].
    specialize (h_owner0 _ _ _ _ Hj Hx). lia.
  - intros j x t u [[<- <-]|[_ Hj]]%lookup_insert_Some Hx; [simplify_eq/=; lia|].
    specialize (h_tok_bound0 _ _ _ _ Hj Hx). lia.
  - intros j j' x x' t u u' [[<- <-]|[_ Hj]]%lookup_insert_Some [[<- <-]|[_ Hj']]%lookup_insert_Some Hx Hx';
      simplify_eq/=; [done|..|by eapply h_tok_uniq0].
    + specialize (h_tok_bound0 _ _ _ _ Hj' Hx'). lia.
    + specialize (h_tok_bound0 _ _ _ _ Hj Hx). lia.
  - intros t Ht%h_bound0. lia.
  - intros j u todo id j' x v [[<- [=]]|[_ Hj]]%lookup_insert_Some Hid [[<- <-]|[_ Hj']]%lookup_insert_Some Hx;
      [|by eapply h_todo0]. specialize (h_todo_bound0 _ _ _ _ Hj Hid). simplify_eq/=. lia.
  - intros j u todo id [[<- [=]]|[_ Hj]]%lookup_insert_Some Hid.
    specialize (h_todo_bound0 _ _ _ _ Hj Hid). lia.
  - intros j x t u [[<- <-]|[_ Hj]]%lookup_insert_Some Hx Hc.
    + simplify_eq/=. specialize (h_bound0 _ Hc). lia.
    + eapply asked_more, h_asked0; eauto.
Qed.

(** The lists of the tasks that kick are of connections of their user. *)
Lemma index_owner m p u ids id :
  inv shard m p -> user_connections m !! u = Some ids -> id ∈ ids ->
  (id < next_conn_id m)%Z /\ forall j x v, p !! j = Some x -> owner_of x = Some (id, v) -> v = u.
Proof.
  intros I Hu Hid. destruct (i_index_inv _ _ _ I _ _ _ Hu Hid) as (k & th & Hk & Hx). split.
  - eapply (i_owner _ _ _ I); [exact Hk|by eapply has_index_owns].
  - intros j x v Hj Hv.
    assert (k = j) as <- by (eapply (i_uniq _ _ _ I); [exact Hk|exact Hj|by eapply has_index_owns|by eapply owner_owns]).
    rewrite Hk in Hj. injection Hj as <-. destruct th; simplify_eq/=; done.
Qed.

Lemma asked_step past s s' :
  step shard shards s s' -> inv shard s.1 s.2 -> asked_inv past s.1 s.2 -> asked_inv (s'.2 :: past) s'.1 s'.2.
Proof.
  intros Hs I H. destruct Hs as [|m p k user addr now id token m' Hk Hlt [= <- <- <-]| | |m p k id token user conn m' Hk _ [= Hc <-]
    |m p k id token user m' Hk [= _ <-]| |m p k user ids todo Hk Hu Hp| |m p k user id todo Hk| | |
    |m p k b i id todo Hk|]; cbn [fst snd] in *.
  - eapply asked_move; [done|by left|done..].
  - apply asked_alloc; [done|done|done|apply I].
  - eapply asked_move; [done|by right|done..].
  - eapply asked_move; [done|by right|done..].
  - eapply asked_move; [done|by right|done..| |done|done].
    intros x [= <-]. simpl. destruct (i_conn _ _ _ I _ _ id token user Hk eq_refl) as (c & Hc' & _ & <-).
    rewrite Hc in Hc'. by injection Hc' as <-.
  - eapply asked_move; [done|by right|done..].
  - assert (next_conn_id (unindex_conn user id m) = next_conn_id m /\ tokens (unindex_conn user id m) = tokens m
      /\ cancelled (unindex_conn user id m) = cancelled m) as (E1 & E2 & E3)
      by (unfold unindex_conn; by destruct (user_connections m !! user)).
    eapply asked_move; [done|by right|rewrite E1; done|done..].
  - eapply asked_move; [done|by left|done..|]. intros u todo' id [= <- <-] Hid.
    eapply index_owner; [done|done|]. rewrite Hp in Hid. by apply elem_of_elements.
  - eapply asked_move; [done|by left|done..|]. intros u todo id [= <- <-] []%elem_of_nil.
  - eapply (asked_move past (cancel_conn id m).2 _ p k (TKick user (id :: todo))).
    + apply asked_cancel; [done|done|]. intros j x t u Hj Hx. assert (u = user) as ->
        by (eapply (h_todo _ _ _ H); [exact Hk|by left|done|by apply has_conn_token in Hx as [_ ?]]).
      exists p, x, id, t, k. split_and!; [apply H|done|done|]. left. by eexists.
    + by right.
    + done.
    + done.
    + done.
    + done.
    + done.
    + intros u todo' i [= <- <-] Hi. destruct (cancel_conn_frame id m) as (-> & _). split.
      * eapply (h_todo_bound _ _ _ H); [exact Hk|by right].
      * intros j x v Hj Hv. eapply (h_todo _ _ _ H); [exact Hk|by right|done|done].
  - eapply asked_move; [done|by right|done..].
  - eapply asked_move; [done|by left|done..].
  - eapply asked_move; [done|by right|done..].
  - eapply (asked_move past (cancel_conn id m).2 _ p k (TSweep b i (id :: todo))); [|by right|done..].
    apply asked_cancel; [done|done|]. intros j x t u Hj Hx.
    exists p, x, id, t, k. split_and!; [apply H|done|done|]. right. by eexists _, _, _.
  - eapply asked_move; [done|by right|done..].
Qed.
End Asked.

(** ** The tunnels *)

Section Tunnels.
Context {A : Type} `{!AsyncRead A, !AsyncWrite A, !ReadSpec A, !WriteSpec A, !DuplexSpec A, !ReadFinite A}.
Context {B : Type} `{!AsyncRead B, !AsyncWrite B, !ReadSpec B, !WriteSpec B, !DuplexSpec B, !ReadFinite B}.
Context {St : Type} {collector : StatsCollector St}.
Context {cache : DnsCache}.
Variable show_dns_error : DnsError -> rstr.
Variable sleep_ready : Z -> Z -> bool.
Variable cfg : ConnConfig.
Variable shard : ConnectionId -> nat.
Variable shards : nat.

(** One poll of [relay]'s [select!]: it polls its two futures in an order it
    draws, [token_first] or not, and takes the first that is ready. *)
Definition select_poll (token_first cancelled : bool) (fuel : nat) (now : Z) (st : Relay A B)
    : option (option RelayExit * Relay A B) :=
  if token_first && cancelled then Some (Some Cancelled, st)
  else
    match relay_poll sleep_ready fuel (idle_timeout_secs cfg) now st with
    | None => None
    | Some (Ready r, t, st) => Some (Some (Returned r t), st)
    | Some (Pending, _, st) => Some (if cancelled then Some Cancelled else None, st)
    end.

(** The sockets that a session of UDP over TCP opens, and its steps. *)
Record Udp : Type := mkUdp {
  u_bind : bool -> io_result unit;
  u_connect : SocketAddr -> io_result unit;
  u_send : nat -> option SocketAddr -> bytes -> io_result nat
}.

Definition udp_step (net : Udp) : Uot A -> Uot A -> Prop :=
  uot_step show_dns_error (u_bind net) (u_connect net) (u_send net) stream_env.

(** A session: its sockets, its version, its stream and the number of queries
    made when it began. *)
Record SessionOf : Type := mkSessionOf {
  so_user : UserId;
  so_net : Udp;
  so_version : UotVersion;
  so_stream : A;
  so_queries : nat
}.

Definition session_start (o : SessionOf) : Uot A := uot_new (so_version o) (so_stream o) false (so_queries o).

(** How a tunnel ended: the outbound connection failed; the task was dropped; its
    relay, from [a0] and [b0], ended with [a] and [b]; or it served a session as
    far as [x]. *)
Inductive Outcome : Type :=
  | Unconnected
  | Dropped
  | Ended (user : UserId) (exit : RelayExit) (a0 : A) (b0 : B) (a : A) (b : B)
  | Served (o : SessionOf) (x : Uot A).

(** [Opening] until the relay or the session begins: nothing there watches the
    token. *)
Inductive Phase : Type :=
  | Opening
  | Relaying (a0 : A) (b0 : B) (start : Z) (st : Relay A B) (last : Z)
  | Serving (o : SessionOf) (x : Uot A)
  | Over (o : Outcome).

Definition is_over (ph : Phase) : bool := match ph with Over _ => true | _ => false end.
Definition is_serving (ph : Phase) : bool := match ph with Serving _ _ => true | _ => false end.

Record World : Type := mkWorld {
  mgr : ConnectionManager;
  pool : Pool;
  phases : gmap nat Phase;
  stats : St;
  past : list Pool
}.

Definition world_new (s : St) : World := mkWorld Manager_new ∅ ∅ s [∅].

(** The collector's calls in a step of a session from [x] to [x']. *)
Definition record_datagrams (u : UserId) (x x' : Uot A) (s : St) : St :=
  foldl (fun s n => record_download u n s)
    (foldl (fun s n => record_upload u n s) s (drop (length (uot_uploaded x)) (uot_uploaded x')))
    (drop (length (uot_downloaded x)) (uot_downloaded x')).

(** [process_tunnel] registers, counts the request, runs the handler, and
    unregisters when that is over; [na] and [nb] are the polls of the two
    shutdowns that their timeouts leave room for.  A session's tasks see a
    cancelled token only if the token of the registration is cancelled; its
    future may return, or be dropped, in any state. *)
Inductive world_step : World -> World -> Prop :=
  | w_manager m p f s h m' p' :
      step shard shards (m, p) (m', p') ->
      (forall k id t u, p !! k = Some (THold id t u) -> p' !! k = p !! k \/ exists o, f !! k = Some (Over o)) ->
      world_step (mkWorld m p f s h) (mkWorld m' p' f s (p' :: h))
  | w_begin m p f s h k id t u :
      p !! k = Some (THold id t u) -> f !! k = None ->
      world_step (mkWorld m p f s h) (mkWorld m p (<[k := Opening]> f) (record_request u s) h)
  | w_relay m p f s h k now a b :
      f !! k = Some Opening -> good a b ->
      world_step (mkWorld m p f s h)
        (mkWorld m p (<[k := Relaying a b now (relay_start cfg now a b) now]> f) s h)
  | w_failed m p f s h k :
      f !! k = Some Opening -> world_step (mkWorld m p f s h) (mkWorld m p (<[k := Over Unconnected]> f) s h)
  | w_streams m p f s h k a0 b0 start st last a b :
      f !! k = Some (Relaying a0 b0 start st last) -> stream_env (side_a st) a -> stream_env (side_b st) b ->
      world_step (mkWorld m p f s h)
        (mkWorld m p (<[k := Relaying a0 b0 start (with_sides st a b) last]> f) s h)
  | w_poll m p f s h k id t u a0 b0 start st last first fuel now st' :
      p !! k = Some (THold id t u) -> f !! k = Some (Relaying a0 b0 start st last) ->
      select_poll first (is_cancelled t m) fuel now st = Some (None, st') ->
      world_step (mkWorld m p f s h)
        (mkWorld m p (<[k := Relaying a0 b0 start st' (if progressed st st' then now else last)]> f) s h)
  | w_exit m p f s h k id t u a0 b0 start st last first fuel now e st' na nb r a b s' :
      p !! k = Some (THold id t u) -> f !! k = Some (Relaying a0 b0 start st last) ->
      select_poll first (is_cancelled t m) fuel now st = Some (Some e, st') ->
      Forall env_keeps na -> Forall env_keeps nb -> relay_end u na nb e st' s = (r, (a, b), s') ->
      world_step (mkWorld m p f s h) (mkWorld m p (<[k := Over (Ended u e a0 b0 a b)]> f) s' h)
  | w_session m p f s h k id t o :
      p !! k = Some (THold id t (so_user o)) -> f !! k = Some Opening -> both_ok (so_stream o) ->
      world_step (mkWorld m p f s h) (mkWorld m p (<[k := Serving o (session_start o)]> f) s h)
  | w_session_step m p f s h k id t o x x' :
      p !! k = Some (THold id t (so_user o)) -> f !! k = Some (Serving o x) -> udp_step (so_net o) x x' ->
      (uot_kicked x' = true -> is_cancelled t m = true) ->
      world_step (mkWorld m p f s h)
        (mkWorld m p (<[k := Serving o x']> f) (record_datagrams (so_user o) x x' s) h)
  | w_session_over m p f s h k o x :
      f !! k = Some (Serving o x) ->
      world_step (mkWorld m p f s h) (mkWorld m p (<[k := Over (Served o x)]> f) s h)
  | w_dropped m p f s h k ph :
      f !! k = Some ph -> is_over ph = false -> is_serving ph = false ->
      world_step (mkWorld m p f s h) (mkWorld m p (<[k := Over Dropped]> f) s h).

(** What holds of a tunnel in its phase. *)
Definition session_ok (h : list Pool) (k : nat) (o : SessionOf) (x : Uot A) : Prop :=
  both_ok (so_stream o) /\ rtc (udp_step (so_net o)) (session_start o) x
  /\ (uot_kicked x = true -> asked h k (so_user o)).

Definition phase_ok (h : list Pool) (k : nat) (ph : Phase) : Prop :=
  match ph with
  | Relaying a0 b0 start st last =>
      good a0 b0
      /\ relay_run sleep_ready (Z.to_nat (cc_buffer_size cfg)) false (idle_timeout_secs cfg) start a0 b0 st last
  | Over (Ended u e a0 b0 a b) =>
      dir_prefix (rd_log a0) (wr_log b0) a b /\ dir_prefix (rd_log b0) (wr_log a0) b a
      /\ (e = Cancelled -> asked h k u)
  | Serving o x | Over (Served o x) => session_ok h k o x
  | _ => True
  end.

Record world_inv (w : World) : Prop := {
  wi_manager : inv shard (mgr w) (pool w);
  wi_asked : asked_inv (past w) (mgr w) (pool w);
  wi_hold k ph : phases w !! k = Some ph -> is_over ph = false -> exists id t u, pool w !! k = Some (THold id t u);
  wi_phase k ph : phases w !! k = Some ph -> phase_ok (past w) k ph
}.

(** What a poll of the [select!] does. *)
Lemma select_poll_spec first cancelled fuel now st r st' :
  select_poll first cancelled fuel now st = Some (r, st') ->
  match r with
  | None => cancelled = false
      /\ exists t, relay_poll sleep_ready fuel (idle_timeout_secs cfg) now st = Some (Pending, t, st')
  | Some Cancelled => cancelled = true
      /\ (st' = st \/ exists t, relay_poll sleep_ready fuel (idle_timeout_secs cfg) now st = Some (Pending, t, st'))
  | Some (Returned q t) => relay_poll sleep_ready fuel (idle_timeout_secs cfg) now st = Some (Ready q, t, st')
  end.
Proof.
  unfold select_poll. destruct first, cancelled; simpl; try (by intros [= <- <-]; split; [|left]);
    destruct (relay_poll _ _ _ _ _) as [[[[|q] t] s]|]; try done; intros [= <- <-]; naive_solver.
Qed.

(** Every poll returns, and not to wait if the token is cancelled. *)
Lemma select_poll_ends start a0 b0 st last now :
  good a0 b0 ->
  relay_run sleep_ready (Z.to_nat (cc_buffer_size cfg)) false (idle_timeout_secs cfg) start a0 b0 st last ->
  exists fuel, forall fuel' first, fuel <= fuel' ->
    exists e st', select_poll first true fuel' now st = Some (Some e, st').
Proof.
  intros G H. apply relay_run_inv in H as (I & _); [|done].
  destruct (relay_poll_total sleep_ready (idle_timeout_secs cfg) now _ _ _ I) as (fuel & [[p t] st'] & Hp).
  exists fuel. intros fuel' first Hle. unfold select_poll. rewrite (Hp _ Hle).
  destruct first; simpl; [by eexists _, _|]. destruct p; by eexists _, _.
Qed.

Lemma phase_ok_incl h h' k ph : h ⊆ h' -> phase_ok h k ph -> phase_ok h' k ph.
Proof.
  intros Hi. destruct ph as [| |o x|[| | |o x]]; simpl; try done; intros (? & ? & Ha); split_and!; try done;
    intros He; by eapply asked_incl, Ha.
Qed.

(** A step of a tunnel changes its phase only. *)
Lemma inv_phase m p f s s' h k ph :
  world_inv (mkWorld m p f s h) -> phase_ok h k ph ->
  (is_over ph = false -> exists id t u, p !! k = Some (THold id t u)) ->
  world_inv (mkWorld m p (<[k := ph]> f) s' h).
Proof.
  intros [I1 I2 I3 I4] Hp Hh. split; simpl in *; [done|done|..].
  - intros j x [[<- <-]|[_ Hj]]%lookup_insert_Some Hx; [by apply Hh|by eapply I3].
  - intros j x [[<- <-]|[_ Hj]]%lookup_insert_Some; [done|by eapply I4].
Qed.

(** A relay that ends, in whatever way, leaves prefixes. *)
Lemma exit_ok h k first fuel now user na nb a0 b0 start st last e st' s r a b s' cancelled :
  phase_ok h k (Relaying a0 b0 start st last) ->
  (cancelled = true -> asked h k user) ->
  select_poll first cancelled fuel now st = Some (Some e, st') ->
  Forall env_keeps na -> Forall env_keeps nb -> relay_end user na nb e st' s = (r, (a, b), s') ->
  phase_ok h k (Over (Ended user e a0 b0 a b)).
Proof.
  intros (G & Hr) Hc Hp Hna Hnb He. apply relay_run_inv in Hr as (I & _); [|done].
  apply select_poll_spec in Hp. destruct e as [q t|]; simpl in He |- *.
  - destruct (record_stats st') as [up down]. injection He as <- <- <- <-.
    apply (relay_poll_end _ _ _ _ _ _ _ _ _ _ I) in Hp as [P1 P2].
    split_and!; [by eapply dir_end_prefix|by eapply dir_end_prefix|done].
  - injection He as <- <- <- <-. destruct Hp as [Hcan Hst].
    assert (relay_inv a0 b0 st') as [I1 I2].
    { destruct Hst as [->|(t & Hst)]; [done|]. by apply (relay_poll_spec _ _ _ _ _ _ _ _ _ _ I) in Hst as [? _]. }
    destruct (shutdown_within_spec na (side_a st')) as [A1 A2]; [done|apply I1|apply I2|].
    destruct (shutdown_within_spec nb (side_b st')) as [B1 B2]; [done|apply I2|apply I1|].
    apply dir_inv_prefix in I1 as (u1 & v1 & P1 & Q1), I2 as (u2 & v2 & P2 & Q2).
    split_and!; [exists u1, v1; by rewrite A1, B2|exists u2, v2; by rewrite B1, A2|]. intros _. by apply Hc.
Qed.

Lemma world_step_inv w w' : world_step w w' -> world_inv w -> world_inv w'.
Proof.
  intros Hs I. destruct Hs as [m p f s h m' p' Hs Hkeep|m p f s h k id t u Hk _|m p f s h k now a b Hf G
    |m p f s h k Hf|m p f s h k a0 b0 start st last a b Hf Ha Hb
    |m p f s h k id t u a0 b0 start st last first fuel now st' Hk Hf Hp
    |m p f s h k id t u a0 b0 start st last first fuel now e st' na nb r a b s' Hk Hf Hp Hna Hnb He
    |m p f s h k id t o Hk Hf Hok|m p f s h k id t o x x' Hk Hf Hx Hkick|m p f s h k o x Hf|m p f s h k ph Hf Ho].
  - destruct I as [I1 I2 I3 I4]; simpl in *. split; simpl.
    + by apply (step_inv shard shards _ _ Hs).
    + by apply (asked_step shard shards h _ _ Hs).
    + intros k ph Hk Hph. destruct (I3 _ _ Hk Hph) as (id & t & u & Hp).
      destruct (Hkeep _ _ _ _ Hp) as [->|(o & Ho)]; [by eauto|]. rewrite Hk in Ho. by injection Ho as ->.
    + intros k ph Hk. eapply phase_ok_incl, I4; [set_solver|done].
  - eapply inv_phase; [done|done|by eauto].
  - eapply inv_phase; [done| |intros _; by eapply (wi_hold _ I)]. split; [done|apply run_start].
  - by eapply inv_phase.
  - eapply inv_phase; [done| |intros _; by eapply (wi_hold _ I)].
    destruct (wi_phase _ I _ _ Hf) as [G Hr]. split; [done|by apply run_env].
  - eapply inv_phase; [done| |by eauto]. destruct (wi_phase _ I _ _ Hf) as [G Hr]. split; [done|].
    apply select_poll_spec in Hp as (_ & t' & Hp). by eapply run_poll.
  - eapply inv_phase; [done| |done]. eapply exit_ok; [apply (wi_phase _ I _ _ Hf)| |done..].
    intros Hc%bool_decide_eq_true. by eapply (h_asked _ _ _ (wi_asked _ I) k (THold id t u)).
  - eapply inv_phase; [done| |by eauto]. by split_and!; [|apply rtc_refl|].
  - eapply inv_phase; [done| |by eauto]. destruct (wi_phase _ I _ _ Hf) as (Hok & Hr & _).
    split_and!; [done|by eapply rtc_r|].
    intros Hc%Hkick%bool_decide_eq_true. by eapply (h_asked _ _ _ (wi_asked _ I) k (THold id t (so_user o))).
  - eapply inv_phase; [done|by apply (wi_phase _ I _ _ Hf)|done].
  - by eapply inv_phase.
Qed.

Definition world_reachable (s : St) (w : World) : Prop := rtc world_step (world_new s) w.

Lemma world_reachable_inv s w : world_reachable s w -> world_inv w.
Proof.
  intros H. apply (rtc_ind_r world_inv (world_new s)) in H; [done| |intros ? ? _ Hs Hi; by eapply world_step_inv].
  split; simpl; [by apply (reachable_inv shard shards (Manager_new, ∅)), reach_init| |done|done].
  split; simpl; try done. by left.
Qed.

(** Tokens stay cancelled, and a task keeps its registration until its tunnel is
    over. *)
Lemma step_cancelled s1 s2 : step shard shards s1 s2 -> cancelled s1.1 ⊆ cancelled s2.1.
Proof.
  intros Hs. destruct Hs as [|? ? ? ? ? ? ? ? ? ? ? [= _ _ <-]| | |? ? ? ? ? ? ? ? ? ? [= _ <-]|? ? ? ? ? ? ? ? [= _ <-]| | | |m p k u id todo| | | |m p k b i id todo|];
    simpl; try done.
  - unfold unindex_conn. by destruct (user_connections _ !! _).
  - intros t Ht. apply cancel_conn_frame. by left.
  - intros t Ht. apply cancel_conn_frame. by left.
Qed.

Lemma world_step_cancelled w w' : world_step w w' -> cancelled (mgr w) ⊆ cancelled (mgr w').
Proof. intros Hs. destruct Hs as [? ? ? ? ? ? ? Hs| | | | | | | | | |]; [by apply step_cancelled in Hs|done..]. Qed.

Lemma world_step_holds w w' k id t u :
  world_step w w' -> pool w !! k = Some (THold id t u) ->
  pool w' !! k = Some (THold id t u) \/ exists o, phases w' !! k = Some (Over o).
Proof.
  intros Hs Hk. destruct Hs as [m p f s h m' p' Hs Hkeep| | | | | | | | | |]; simpl in *; [|by left..].
  destruct (Hkeep _ _ _ _ Hk) as [->|]; [by left|by right].
Qed.

Lemma world_step_over w w' k o :
  world_step w w' -> phases w !! k = Some (Over o) -> phases w' !! k = Some (Over o).
Proof.
  intros Hs Hk.
  destruct Hs; simpl in *; try done;
    (rewrite lookup_insert_ne; [done|]; intros ->; simplify_eq/=).
Qed.

(** The token of a connection that was registered when a kick of its user had
    returned is cancelled, and the connection stays registered while it lasts. *)
Lemma kicked_cancelled s w k user k' id token w' :
  world_reachable s w ->
  pool w !! k = Some (TKick user []) -> pool w !! k' = Some (THold id token user) ->
  rtc world_step w w' ->
  world_inv w' /\ token ∈ cancelled (mgr w')
  /\ (pool w' !! k' = Some (THold id token user) \/ exists o, phases w' !! k' = Some (Over o)).
Proof.
  intros Hw%world_reachable_inv Hk Hk' Hr.
  assert (token ∈ cancelled (mgr w)) as Hc.
  { destruct (i_kick _ _ _ (wi_manager _ Hw) _ _ _ _ _ _ Hk Hk') as [[]%elem_of_nil|]; done. }
  assert (pool w !! k' = Some (THold id token user) \/ exists o, phases w !! k' = Some (Over o)) as Hh by by left.
  clear Hk Hk'. induction Hr as [w|w w1 w' Hs Hr IH]; [done|]. apply IH; [by eapply world_step_inv| |].
  - apply world_step_cancelled in Hs. set_solver.
  - destruct Hh as [Hh|[o Hh]]; [by eapply world_step_holds|right; exists o; by eapply world_step_over].
Qed.

(** C23: kicking a user ends its tunnels: from the moment a task's [kick_user] has
    returned, and under any interleaving, no poll of a relay whose connection was
    registered by then is answered with a wait, whether it was relaying or still
    opening its outbound connection: each poll returns, the tunnel is over. *)
Theorem kicked_tunnels_end s w k user k' id token w' a0 b0 start st last now :
  world_reachable s w ->
  pool w !! k = Some (TKick user []) -> pool w !! k' = Some (THold id token user) ->
  rtc world_step w w' ->
  phases w' !! k' = Some (Relaying a0 b0 start st last) ->
  pool w' !! k' = Some (THold id token user)
  /\ exists fuel, forall fuel' first, fuel <= fuel' ->
       exists e st', select_poll first (is_cancelled token (mgr w')) fuel' now st = Some (Some e, st').
Proof.
  intros Hw Hk Hk' Hr Hf. destruct (kicked_cancelled _ _ _ _ _ _ _ _ Hw Hk Hk' Hr) as (I & Hc & [Hh|[o Ho]]);
    [|congruence].
  split; [done|]. unfold is_cancelled. rewrite bool_decide_eq_true_2 by done.
  destruct (wi_phase _ I _ _ Hf) as [G Hrun]. by eapply select_poll_ends.
Qed.

(** Task [k] moves its session by a quiet step; nothing else in the world moves. *)
Definition session_quiet (k : nat) (w w' : World) : Prop :=
  exists o ic l l', phases w !! k = Some (Serving o (Running ic l)) /\ quiet_step l l' /\ world_step w w'
    /\ w' = mkWorld (mgr w) (pool w) (<[k := Serving o (Running ic l')]> (phases w)) (stats w) (past w).

Lemma session_quiet_steps m p f s h k id t o ic l l' :
  p !! k = Some (THold id t (so_user o)) -> f !! k = Some (Serving o (Running ic l)) ->
  is_cancelled t m = true -> rtc quiet_step l l' ->
  exists f', rtc (session_quiet k) (mkWorld m p f s h) (mkWorld m p f' s h)
    /\ f' !! k = Some (Serving o (Running ic l')) /\ live_effects l' = live_effects l.
Proof.
  intros Hp Hf Hc Hr. revert f Hf. induction Hr as [l|l l1 l' Hq Hr IH]; intros f Hf; [by exists f|].
  destruct (quiet_live show_dns_error (u_send (so_net o)) ic stream_env _ _ Hq) as [Hs He].
  assert (record_datagrams (so_user o) (Running ic l) (Running ic l1) s = s) as Hrec.
  { unfold live_effects in He. injection He as _ H1 _ H2. unfold record_datagrams. cbn [uot_uploaded uot_downloaded].
    by rewrite H1, H2, !drop_all. }
  destruct (IH (<[k := Serving o (Running ic l1)]> f)) as (f' & Hsteps & Hf' & He'); [apply lookup_insert_eq|].
  exists f'. split; [|by rewrite He']. eapply rtc_l; [|exact Hsteps].
  exists o, ic, l, l1. split_and!; [done|done| |done]. rewrite <- Hrec at 2.
  by eapply w_session_step; [|exact Hf|apply U_live|].
Qed.

(** C18: a kick ends the sessions of UDP over TCP too: once [kick_user] has
    returned, a session of a connection that was registered by then, whose
    request was read and which is not inside the writing of a packet, can leave
    both loops and shut its stream down by its own quiet steps, and its task
    then be over.  These need nothing of the client, the socket or the
    resolver, only the token, without which they do not end a loop
    ([quiet_needs_kick]); nothing more is sent, received or recorded. *)
Theorem kicked_sessions_end s w k user k' id token w' o ic l :
  world_reachable s w ->
  pool w !! k = Some (TKick user []) -> pool w !! k' = Some (THold id token user) ->
  rtc world_step w w' -> so_user o = user ->
  phases w' !! k' = Some (Serving o (Running ic l)) -> (forall p j, l_out l <> Writing p j) ->
  exists w1 w2 l', rtc (session_quiet k') w' w1 /\ world_step w1 w2
    /\ phases w1 !! k' = Some (Serving o (Running ic l'))
    /\ phases w2 !! k' = Some (Over (Served o (Running ic l')))
    /\ live_finished l' /\ live_effects l' = live_effects l /\ stats w2 = stats w'
    /\ (l_out l <> Shut -> l_stream l' = (poll_shutdown (l_stream l)).2).
Proof.
  intros Hw Hk Hk' Hr <- Hf Hl. destruct (kicked_cancelled _ _ _ _ _ _ _ _ Hw Hk Hk' Hr) as (_ & Hc & [Hh|[x Ho]]);
    [|congruence].
  destruct (live_ends l Hl) as (l' & Hls & Hfin & _ & Hst).
  destruct w' as [m p f st h]. simpl in *.
  destruct (session_quiet_steps m p f st h k' id token o ic l l') as (f' & Hsteps & Hf' & He);
    [done|done|by apply bool_decide_eq_true|done|].
  eexists (mkWorld m p f' st h), (mkWorld m p (<[k' := Over (Served o (Running ic l'))]> f') st h), l'.
  split; [exact Hsteps|]. split; [by apply w_session_over|]. split_and!; try done. apply lookup_insert_eq.
Qed.

(** A session sees its token only when it is cancelled. *)
Lemma session_sees_kick w w' k id token u o x o' x' :
  world_step w w' -> pool w !! k = Some (THold id token u) ->
  phases w !! k = Some (Serving o x) -> phases w' !! k = Some (Serving o' x') ->
  uot_kicked x = false -> uot_kicked x' = true -> is_cancelled token (mgr w) = true.
Proof.
  intros Hs Hp Hf Hf' Hx Hx'.
  destruct Hs as [| | | | | | | |m p f s h j id' t o1 x1 x1' Hj Hf1 _ Hkick| |]; simpl in *;
    [congruence| | | | | | | | | |];
    apply lookup_insert_Some in Hf' as [[<- He]|[_ Hf']]; simplify_eq/=; try congruence.
  auto.
Qed.

(** Without a kick there is no quiet step: while the token is not cancelled and
    both loops run, and nothing is being written. *)
Lemma quiet_needs_kick w w' k id token u o ic l :
  pool w !! k = Some (THold id token u) -> is_cancelled token (mgr w) = false ->
  phases w !! k = Some (Serving o (Running ic l)) -> l_cancel l = false -> l_inner l = false ->
  l_out l = Select -> ~ session_quiet k w w'.
Proof.
  intros Hp Ht Hf Hc Hi Ho (o' & ic' & l1 & l' & Hf' & Hq & Hs & ->).
  rewrite Hf in Hf'. injection Hf' as <- <- <-.
  destruct (l_cancel l') eqn:Hc'; [|exact (quiet_stays _ _ Hq Hc' Hi Ho)].
  eapply session_sees_kick in Hs; [|exact Hp|exact Hf|apply lookup_insert_eq|exact Hc|exact Hc']. congruence.
Qed.

(** C33: and no other tunnel is cut: if a relay was ended by its token, or a
    session saw it, then while its connection was in the manager a task was
    kicking its user, or cancelling every connection; and however a relay ended,
    each side was sent a prefix of what the other one sent. *)
Theorem cut_only_if_asked s w k o :
  world_reachable s w -> phases w !! k = Some (Over o) ->
  match o with
  | Ended u e a0 b0 a b =>
      (e = Cancelled -> asked (past w) k u)
      /\ dir_prefix (rd_log a0) (wr_log b0) a b /\ dir_prefix (rd_log b0) (wr_log a0) b a
  | Served o x => uot_kicked x = true -> asked (past w) k (so_user o)
  | Unconnected | Dropped => True
  end.
Proof.
  intros Hw%world_reachable_inv Hk. pose proof (wi_phase _ Hw _ _ Hk) as H.
  destruct o; [done|done|by destruct H as (? & ? & ?)|by destruct H as (_ & _ & ?)].
Qed.
End Tunnels.

(** ** A run

    User 7 opens a tunnel as task 0; while it relays, task 1 kicks the user. *)

Definition ex_conn : ActiveConnection :=
  {| info := {| user_id := 7; peer_addr := addr0; connected_at := 0 |}; cancel_token := 0 |}.
Definition ex_pool : Pool :=
  <[0 := THold 1 0 7]> (<[0 := TIndex 1 0 7]>
    (<[0 := TInsert 1 0 7 addr0 0]> (<[0 := TRegister 7 addr0 0]> ∅))).
Definition ex_mgr : ConnectionManager := index_conn 7 1 (insert_conn 1 ex_conn (alloc Manager_new).2).
Definition ex_relaying : gmap nat (Phase (A := Mem) (B := Mem)) :=
  <[0 := Relaying client silent 0 (relay_start ex_cfg 0 client silent) 0]> (<[0 := Opening]> ∅).

Abbreviation ex_step := (world_step (collector := calls) (cache := dns_ex) ex_show at_deadline ex_cfg ex_shard 4).
Abbreviation ex_reachable := (world_reachable (collector := calls) (cache := dns_ex) ex_show at_deadline ex_cfg ex_shard 4 []).


(** The steps of the manager in this run leave the registration of task 0. *)
Ltac kept :=
  intros [|[|?]] ? ? ? Hk; left; rewrite ?lookup_insert_ne, ?lookup_insert_eq in * by done; simplify_eq/=; done.

Lemma ex_opening : exists h, ex_reachable (mkWorld ex_mgr ex_pool (<[0 := Opening]> ∅) [Req 7] h).
Proof.
  eexists. unfold world_reachable, world_new.
  eapply rtc_l; [eapply w_manager; [apply step_spawn with (k := 0) (user := 7%Z) (addr := addr0) (now := 0%Z); done|kept]|].
  eapply rtc_l; [eapply w_manager; [eapply step_alloc; [apply lookup_insert_eq|reflexivity|reflexivity]|kept]|].
  eapply rtc_l; [eapply w_manager; [apply step_insert; [apply lookup_insert_eq|]|kept]|].
  { intros [|k] b i todo; [by rewrite lookup_insert_eq|]. by rewrite !lookup_insert_ne, lookup_empty by done. }
  eapply rtc_l; [eapply w_manager; [apply step_index; [apply lookup_insert_eq|]|kept]|].
  { intros [|k] ids; [by rewrite lookup_insert_eq|]. by rewrite !lookup_insert_ne, lookup_empty by done. }
  eapply rtc_l; [eapply w_begin; [apply lookup_insert_eq|done]|].
  apply rtc_refl.
Qed.

Lemma ex_registered : exists h, ex_reachable (mkWorld ex_mgr ex_pool ex_relaying [Req 7] h).
Proof.
  destruct ex_opening as [h H]. exists h. eapply rtc_r; [exact H|].
  apply w_relay with (now := 0%Z) (a := client) (b := silent); [apply lookup_insert_eq|].
  apply mem_good; [apply client_server_good|apply silent_good].
Qed.

Definition ex_kicked : Pool := <[1 := TKick 7 []]> (<[1 := TKick 7 [1%Z]]> ex_pool).
Definition ex_cancelled : ConnectionManager := (cancel_conn 1 ex_mgr).2.

Lemma ex_kick f s :
  (exists h, ex_reachable (mkWorld ex_mgr ex_pool f s h)) ->
  exists h, ex_reachable (mkWorld ex_cancelled ex_kicked f s h).
Proof.
  intros [h H]. eexists. unfold world_reachable in *. etransitivity; [exact H|].
  eapply rtc_l; [eapply w_manager; [eapply step_kick with (k := 1) (user := 7%Z) (todo := [1%Z]); [done|reflexivity|]|kept]|].
  { vm_compute. reflexivity. }
  eapply rtc_l; [eapply w_manager; [eapply step_cancel; apply lookup_insert_eq|kept]|].
  apply rtc_refl.
Qed.

Lemma kicked_tunnels_end_witness :
  ex_kicked !! 0 = Some (THold 1 0 7)
  /\ exists fuel, forall fuel' first, fuel <= fuel' ->
       exists e st', select_poll at_deadline ex_cfg first (is_cancelled 0 ex_cancelled) fuel' 5
                       (relay_start ex_cfg 0 client silent) = Some (Some e, st').
Proof.
  destruct (ex_kick _ _ ex_registered) as [h H].
  apply (kicked_tunnels_end (collector := calls) (cache := dns_ex) ex_show at_deadline ex_cfg ex_shard 4 []
    _ 1 7 0 1 0 (mkWorld ex_cancelled ex_kicked ex_relaying [Req 7] h) client silent 0 _ 0 5 H);
    [reflexivity|reflexivity|apply rtc_refl|reflexivity].
Defined.

(** A session of version 1, which has no request to read, on the client's stream. *)
Definition ex_session_of : SessionOf (A := Mem) := mkSessionOf 7 (mkUdp ex_bind ex_udp_connect ex_send) UotV1 client 0.
Definition ex_session_live : Live Mem := live_new false client false 0.
Definition ex_serving : gmap nat (Phase (A := Mem) (B := Mem)) :=
  <[0 := Serving ex_session_of (Running false ex_session_live)]>
    (<[0 := Serving ex_session_of (session_start ex_session_of)]> (<[0 := Opening]> ∅)).

Lemma ex_session_opened : exists h, ex_reachable (mkWorld ex_mgr ex_pool ex_serving [Req 7] h).
Proof.
  destruct ex_opening as [h H]. exists h. eapply rtc_r; [eapply rtc_r; [exact H|]|].
  - apply (w_session ex_show at_deadline ex_cfg ex_shard 4 _ _ _ _ _ 0 1 0 ex_session_of); [done|done|].
    by split; apply client_server_good.
  - apply (w_session_step ex_show at_deadline ex_cfg ex_shard 4 _ _ _ [Req 7] _ 0 1 0 ex_session_of
      (session_start ex_session_of) (Running false ex_session_live)); [done|done|by apply U_open with (dest := None)|done].
Qed.

Lemma kicked_sessions_end_witness :
  exists h w1 w2 l', rtc (session_quiet (collector := calls) (cache := dns_ex) ex_show at_deadline ex_cfg ex_shard 4 0)
      (mkWorld ex_cancelled ex_kicked ex_serving [Req 7] h) w1
    /\ ex_step w1 w2
    /\ phases w1 !! 0 = Some (Serving ex_session_of (Running false l'))
    /\ phases w2 !! 0 = Some (Over (Served ex_session_of (Running false l')))
    /\ live_finished l' /\ live_effects l' = live_effects ex_session_live /\ stats w2 = [Req 7]
    /\ (l_out ex_session_live <> Shut -> l_stream l' = (poll_shutdown (l_stream ex_session_live)).2).
Proof.
  destruct (ex_kick _ _ ex_session_opened) as [h H]. exists h.
  apply (kicked_sessions_end (collector := calls) (cache := dns_ex) ex_show at_deadline ex_cfg ex_shard 4 []
    _ 1 7 0 1 0 (mkWorld ex_cancelled ex_kicked ex_serving [Req 7] h) ex_session_of false ex_session_live H);
    [reflexivity|reflexivity|apply rtc_refl|reflexivity|reflexivity|discriminate].
Defined.

(** A shutdown that is ready at its first poll. *)
Definition at_once : list (Mem -> Mem) := [late_byte].

Lemma at_once_keeps : Forall env_keeps at_once.
Proof. by apply Forall_singleton, late_byte_keeps. Qed.

(** The [select!] looks at the token first. *)
Definition ex_ended : Phase (A := Mem) (B := Mem) :=
  let st := relay_start ex_cfg 0 client silent in
  Over (Ended 7 Cancelled client silent (shutdown_within at_once (side_a st)) (shutdown_within at_once (side_b st))).

Lemma cut_only_if_asked_witness :
  exists past, asked past 0 7
  /\ dir_prefix (rd_log client) (wr_log silent) (shutdown_within at_once client) (shutdown_within at_once silent)
  /\ dir_prefix (rd_log silent) (wr_log client) (shutdown_within at_once silent) (shutdown_within at_once client).
Proof.
  destruct (ex_kick _ _ ex_registered) as [h H]. exists h.
  destruct (cut_only_if_asked (collector := calls) (cache := dns_ex) ex_show at_deadline ex_cfg ex_shard 4 []
    (mkWorld ex_cancelled ex_kicked (<[0 := ex_ended]> ex_relaying) [Req 7] h) 0
    (Ended 7 Cancelled client silent (shutdown_within at_once client) (shutdown_within at_once silent))) as (Ha & Hp).
  - eapply rtc_r; [exact H|].
    eapply (w_exit ex_show at_deadline ex_cfg ex_shard 4 _ _ _ _ _ 0 1 0 7 client silent 0 _ 0 true 0 5 Cancelled _ at_once at_once);
      [reflexivity|reflexivity|reflexivity|exact at_once_keeps|exact at_once_keeps|reflexivity].
  - reflexivity.
  - split; [by apply Ha|exact Hp].
Defined.
