(* ===== verification/Accounting.v ===== *)
(** * The statistics of the server

    What the collector has been told after any run of [Lifecycle], against the
    tunnels of the run: a ledger with one entry for every tunnel that was opened,
    whose totals are the collector's readings. *)

From S2P Require Import Prelude RustStr RustNet AsyncIo Routing Relay RelayEnd Config Connection Uot UotStream UotTunnel Server Handler Lifecycle.
Open Scope Z_scope.

(** ** Collectors that count *)

Inductive Counter : Type := Requests | Uploaded | Downloaded.

#[export] Instance counter_eq_dec : EqDecision Counter.
Proof. solve_decision. Defined.

(** What one call adds to a reading: [n], to the counter and the user that the
    call is about. *)
Definition added (c : Counter) (u : UserId) (n : Z) (c' : Counter) (u' : UserId) : Z :=
  if decide (c' = c /\ u' = u) then n else 0.

(** The panel's collector, as far as the program relies on it: per user, calls
    add up. *)
Class CountingCollector (St : Type) {collector : StatsCollector St} : Type := {
  reading : Counter -> UserId -> St -> Z;
  reading_request u s c v : reading c v (record_request u s) = reading c v s + added Requests u 1 c v;
  reading_upload u n s c v : reading c v (record_upload u n s) = reading c v s + added Uploaded u n c v;
  reading_download u n s c v : reading c v (record_download u n s) = reading c v s + added Downloaded u n c v
}.

(** The log of the calls counts. *)
Definition call_value (c : Counter) (u : UserId) (x : Call) : Z :=
  match x with
  | Req v => added Requests v 1 c u
  | Up v n => added Uploaded v n c u
  | Down v n => added Downloaded v n c u
  end.

Definition log_reading (c : Counter) (u : UserId) (log : list Call) : Z :=
  foldr (fun x acc => call_value c u x + acc) 0 log.

Lemma log_reading_snoc c u log x : log_reading c u (log ++ [x]) = log_reading c u log + call_value c u x.
Proof. unfold log_reading. induction log as [|y log IH]; simpl in *; lia. Qed.

#[export] Program Instance calls_count : CountingCollector (list Call) (collector := calls) := {|
  reading := log_reading
|}.
Next Obligation. intros u s c v. by apply log_reading_snoc. Qed.
Next Obligation. intros u n s c v. by apply log_reading_snoc. Qed.
Next Obligation. intros u n s c v. by apply log_reading_snoc. Qed.

(** ** The ledger *)

Record Entry : Type := mkEntry { e_user : UserId; e_up : Z; e_down : Z }.

Definition entry_value (c : Counter) (u : UserId) (e : Entry) : Z :=
  added c (e_user e) (match c with Requests => 1 | Uploaded => e_up e | Downloaded => e_down e end) c u.

Definition total (c : Counter) (u : UserId) (l : gmap nat Entry) : Z :=
  map_fold (fun _ e acc => entry_value c u e + acc) 0 l.

Lemma total_insert c u k e l : l !! k = None -> total c u (<[k := e]> l) = entry_value c u e + total c u l.
Proof.
  intros Hk. unfold total. rewrite (map_fold_insert_L _ _ k e l); [done| |done]. intros. lia.
Qed.

Lemma total_update c u k e0 e l :
  l !! k = Some e0 -> total c u (<[k := e]> l) = total c u l - entry_value c u e0 + entry_value c u e.
Proof.
  intros Hk. rewrite <- (insert_delete_id _ _ _ Hk) at 2. rewrite <- insert_delete_eq.
  rewrite !total_insert by apply lookup_delete_eq. lia.
Qed.

(** The collector after a relay's end. *)
Lemma record_opt_reading {St} {collector : StatsCollector St} `{!CountingCollector St} (n : Z) u s c v :
  0 <= n ->
  reading c v (record_opt (record_upload u) (if 0 <? n then Some n else None) s)
    = reading c v s + added Uploaded u n c v
  /\ reading c v (record_opt (record_download u) (if 0 <? n then Some n else None) s)
    = reading c v s + added Downloaded u n c v.
Proof.
  intros Hn. destruct (0 <? n) eqn:E; bool_facts; simpl.
  - split; [apply reading_upload|apply reading_download].
  - assert (n = 0) as -> by lia. unfold added. by repeat case_decide; split; lia.
Qed.

(** And after a session recorded some datagrams. *)
Definition sum (l : list Z) : Z := foldr Z.add 0 l.

Lemma sum_app l l' : sum (l ++ l') = sum l + sum l'.
Proof. unfold sum. induction l as [|x l IH]; simpl; lia. Qed.

Lemma record_all_reading {St} {collector : StatsCollector St} `{!CountingCollector St} u c v ns s :
  reading c v (foldl (fun s n => record_upload u n s) s ns) = reading c v s + added Uploaded u (sum ns) c v
  /\ reading c v (foldl (fun s n => record_download u n s) s ns) = reading c v s + added Downloaded u (sum ns) c v.
Proof.
  revert s. induction ns as [|n ns IH]; intros s; simpl.
  - unfold added. repeat case_decide; lia.
  - destruct (IH (record_upload u n s)) as [-> _], (IH (record_download u n s)) as [_ ->].
    rewrite reading_upload, reading_download. unfold added. repeat case_decide; lia.
Qed.

(** ** The entry of a tunnel *)

Section Ledger.
Context {A : Type} `{!AsyncRead A, !AsyncWrite A, !ReadSpec A, !WriteSpec A, !DuplexSpec A, !ReadFinite A}.
Context {B : Type} `{!AsyncRead B, !AsyncWrite B, !ReadSpec B, !WriteSpec B, !DuplexSpec B, !ReadFinite B}.
Context {St : Type} {collector : StatsCollector St} `{!CountingCollector St}.
Context {cache : DnsCache}.
Variable show_dns_error : DnsError -> rstr.
Variable sleep_ready : Z -> Z -> bool.
Variable cfg : ConnConfig.
Variable shard : ConnectionId -> nat.
Variable shards : nat.
Implicit Types w : World (A := A) (B := B) (St := St).

(** Until the future of its relay has returned a tunnel counts for nothing, and
    then for what the relay delivered; a session of UDP over TCP counts for the
    datagrams that it has sent and written. *)
Definition tunnel_entry (ph : Phase (A := A) (B := B)) (e : Entry) : Prop :=
  match ph with
  | Over (Ended u (Returned q _) a0 b0 a b) =>
      e_user e = u /\ dir_end q (rd_log a0) (wr_log b0) (e_up e) a b
      /\ dir_end q (rd_log b0) (wr_log a0) (e_down e) b a
  | Over (Ended u Cancelled _ _ _ _) => e_user e = u /\ e_up e = 0 /\ e_down e = 0
  | Serving o x | Over (Served o x) =>
      e_user e = so_user o /\ e_up e = sum (uot_uploaded x) /\ e_down e = sum (uot_downloaded x)
      /\ uot_counted (u_send (so_net o)) x
  | _ => e_up e = 0 /\ e_down e = 0
  end.

(** Every tunnel has an entry, of the user of its registration while it has one. *)
Record ledger_inv (s0 : St) w (l : gmap nat Entry) : Prop := {
  li_dom : dom l = dom (phases w);
  li_entry k ph e : phases w !! k = Some ph -> l !! k = Some e -> tunnel_entry ph e;
  li_user k ph e : phases w !! k = Some ph -> is_over ph = false -> l !! k = Some e ->
    exists id t, pool w !! k = Some (THold id t (e_user e));
  li_reading c u : reading c u (stats w) = reading c u s0 + total c u l
}.

Lemma li_lookup s0 w l k ph : ledger_inv s0 w l -> phases w !! k = Some ph -> exists e, l !! k = Some e.
Proof.
  intros I Hk. apply elem_of_dom. rewrite (li_dom _ _ _ I). by apply elem_of_dom_2 in Hk.
Qed.

(** A tunnel goes to another phase with the same entry. *)
Lemma ledger_phase s0 m p f s h l k ph ph' :
  ledger_inv s0 (mkWorld m p f s h) l -> f !! k = Some ph -> is_over ph = false ->
  (forall e, l !! k = Some e -> tunnel_entry ph e -> tunnel_entry ph' e) ->
  ledger_inv s0 (mkWorld m p (<[k := ph']> f) s h) l.
Proof.
  intros [D E U R] Hk Ho He. split; simpl in *; [|..|done].
  - rewrite dom_insert_lookup_L; [done|by eexists].
  - intros j x e [[<- <-]|[_ Hj]]%lookup_insert_Some Hl; [by eapply He; [|eapply E]|by eapply E].
  - intros j x e [[<- <-]|[_ Hj]]%lookup_insert_Some Hx Hl; [by eapply U|by eapply U].
Qed.

(** The collector was called for a tunnel: its entry grows by as much. *)
Lemma ledger_grow s0 m p f s h l k ph ph' e0 e s' :
  ledger_inv s0 (mkWorld m p f s h) l -> f !! k = Some ph -> is_over ph = false -> l !! k = Some e0 ->
  e_user e = e_user e0 -> tunnel_entry ph' e ->
  (forall c v, reading c v s' = reading c v s + added Uploaded (e_user e) (e_up e - e_up e0) c v
                                + added Downloaded (e_user e) (e_down e - e_down e0) c v) ->
  ledger_inv s0 (mkWorld m p (<[k := ph']> f) s' h) (<[k := e]> l).
Proof.
  intros [D E U R] Hk Ho Hl Hu He HR. split; simpl in *.
  - rewrite !dom_insert_lookup_L by (by eexists). done.
  - intros j x e' [[<- <-]|[Hn Hj]]%lookup_insert_Some Hl'.
    + rewrite lookup_insert_eq in Hl'. by injection Hl' as <-.
    + rewrite lookup_insert_ne in Hl' by done. by eapply E.
  - intros j x e' [[<- <-]|[Hn Hj]]%lookup_insert_Some Hx Hl'.
    + rewrite lookup_insert_eq in Hl'. injection Hl' as <-. rewrite Hu. by eapply U.
    + rewrite lookup_insert_ne in Hl' by done. by eapply U.
  - intros c v. rewrite HR, R, (total_update _ _ _ _ _ _ Hl). unfold entry_value, added.
    rewrite Hu. destruct c; repeat case_decide; destruct_and?; simplify_eq; lia.
Qed.

(** The step of a session. *)
Lemma record_datagrams_reading (o : SessionOf (A := A)) (x x' : Uot A) s c v :
  udp_step show_dns_error (so_net o) x x' ->
  reading c v (record_datagrams (so_user o) x x' s)
    = reading c v s + added Uploaded (so_user o) (sum (uot_uploaded x') - sum (uot_uploaded x)) c v
      + added Downloaded (so_user o) (sum (uot_downloaded x') - sum (uot_downloaded x)) c v.
Proof.
  intros (up & down & Hup & Hdown & _)%uot_step_records. unfold record_datagrams.
  rewrite Hup, Hdown, !drop_app_length, !sum_app, !Z.add_simpl_l.
  by rewrite (proj2 (record_all_reading _ _ _ down _)), (proj1 (record_all_reading _ _ _ up _)).
Qed.

Lemma ledger_begin s0 m p f s h l k id t u :
  ledger_inv s0 (mkWorld m p f s h) l -> p !! k = Some (THold id t u) -> f !! k = None ->
  ledger_inv s0 (mkWorld m p (<[k := Opening]> f) (record_request u s) h) (<[k := mkEntry u 0 0]> l).
Proof.
  intros [D E U R] Hp Hk. split; simpl in *.
  - by rewrite !dom_insert_L, D.
  - intros j x e [[<- <-]|[Hn Hj]]%lookup_insert_Some Hl.
    + rewrite lookup_insert_eq in Hl. by injection Hl as <-.
    + rewrite lookup_insert_ne in Hl by done. by eapply E.
  - intros j x e [[<- <-]|[Hn Hj]]%lookup_insert_Some Hx Hl.
    + rewrite lookup_insert_eq in Hl. injection Hl as <-. by eexists _, _.
    + rewrite lookup_insert_ne in Hl by done. by eapply U.
  - intros c v. rewrite reading_request, R, total_insert by (apply not_elem_of_dom; rewrite D; by apply not_elem_of_dom).
    unfold entry_value, added. simpl. destruct c; repeat case_decide; destruct_and?; simplify_eq; lia.
Qed.

Lemma ledger_step s0 w w' l :
  world_step show_dns_error sleep_ready cfg shard shards w w' -> world_inv show_dns_error sleep_ready cfg shard w -> ledger_inv s0 w l ->
  exists l', ledger_inv s0 w' l'.
Proof.
  intros Hs W I. destruct Hs as [m p f s h m' p' Hs Hkeep|m p f s h k id t u Hk Hf|m p f s h k now a b Hf G
    |m p f s h k Hf|m p f s h k a0 b0 start st last a b Hf Ha Hb
    |m p f s h k id t u a0 b0 start st last first fuel now st' Hk Hf Hp
    |m p f s h k id t u a0 b0 start st last first fuel now e st' na nb r a b s' Hk Hf Hp Hna Hnb He
    |m p f s h k id t o Hk Hf Hok|m p f s h k id t o x x' Hk Hf Hx _|m p f s h k o x Hf|m p f s h k ph Hf Ho Hse].
  - exists l. destruct I as [D E U R]. split; simpl in *; [done|done| |done].
    intros k ph e Hk Ho Hl. destruct (U _ _ _ Hk Ho Hl) as (id & t & Hp).
    destruct (Hkeep _ _ _ _ Hp) as [->|(o & Ho')]; [by eauto|]. rewrite Hk in Ho'. by injection Ho' as ->.
  - exists (<[k := mkEntry u 0 0]> l). by eapply ledger_begin.
  - exists l. by eapply ledger_phase.
  - exists l. by eapply ledger_phase.
  - exists l. by eapply ledger_phase.
  - exists l. by eapply ledger_phase.
  - destruct (li_lookup _ _ _ _ _ I Hf) as [e0 Hl].
    pose proof (li_entry _ _ _ I _ _ _ Hf Hl) as [Hup Hdown].
    destruct (li_user _ _ _ I _ _ _ Hf eq_refl Hl) as (id' & t' & Hp'). simpl in Hp'.
    rewrite Hk in Hp'. injection Hp' as -> -> Hu.
    destruct e as [q tm|]; simpl in He.
    + destruct (record_stats st') as [up down] eqn:Er. injection He as <- <- <- <-.
      apply (select_poll_spec _ _ shard) in Hp. destruct (wi_phase _ _ _ _ _ W _ _ Hf) as [G Hr].
      apply relay_run_inv in Hr as (Hi & _); [|done].
      pose proof (relay_poll_end _ _ _ _ _ _ _ _ _ _ Hi Hp) as [E1 E2].
      exists (<[k := mkEntry u (amt (a_to_b st')) (amt (b_to_a st'))]> l).
      subst u. eapply ledger_grow; try done. intros c v. rewrite Hup, Hdown, !Z.sub_0_r. cbn [e_user e_up e_down].
      unfold record_stats, bytes_transferred in Er. injection Er as <- <-.
      destruct E1 as (x1 & _ & _ & _ & _ & N1 & _), E2 as (x2 & _ & _ & _ & _ & N2 & _).
      assert (0 <= amt (a_to_b st')) by (rewrite N1; apply u64_wrap_range).
      assert (0 <= amt (b_to_a st')) by (rewrite N2; apply u64_wrap_range).
      rewrite (proj2 (record_opt_reading (amt (b_to_a st')) _ _ c v ltac:(done))).
      by rewrite (proj1 (record_opt_reading (amt (a_to_b st')) _ _ c v ltac:(done))).
    + injection He as <- <- <- <-. exists l. eapply ledger_phase; [done|done|done|].
      intros e He _. rewrite Hl in He. by injection He as <-.
  - exists l. eapply ledger_phase; [done|done|done|]. intros e He [Hup Hdown].
    destruct (li_user _ _ _ I _ _ _ Hf eq_refl He) as (id' & t' & Hp'). simpl in Hp'.
    rewrite Hk in Hp'. injection Hp' as _ _ Hu. by split_and!.
  - destruct (li_lookup _ _ _ _ _ I Hf) as [e0 Hl].
    pose proof (li_entry _ _ _ I _ _ _ Hf Hl) as (Hu & Hup & Hdown & Hc).
    exists (<[k := mkEntry (so_user o) (sum (uot_uploaded x')) (sum (uot_downloaded x'))]> l).
    eapply ledger_grow; try done.
    + split_and!; [done..|]. by eapply uot_step_counted.
    + intros c v. rewrite Hup, Hdown. cbn [e_user e_up e_down]. by apply record_datagrams_reading.
  - exists l. by eapply ledger_phase.
  - exists l. eapply ledger_phase; [done|done|done|]. intros e _. by destruct ph.
Qed.

(** C21: the statistics are those of the tunnels: after any run of any number of
    tasks, the collector's readings have grown by the totals of a ledger with
    one entry for every tunnel that was opened, which counts its request, and
    whose bytes are what its relay delivered, each direction once: nothing while
    it runs or if it was kicked, dropped or never connected; all that the peer
    sent if both directions completed; if the relay failed, what was written
    before the write that failed.  The bytes of a session of UDP over TCP are
    those of its datagrams so far: what the socket took of every one sent, and
    the size of every one received and written, also if the session is kicked. *)
Theorem stats_ledger s0 w :
  world_reachable show_dns_error sleep_ready cfg shard shards s0 w ->
  exists l : gmap nat Entry,
    dom l = dom (phases w)
    /\ (forall k ph e, phases w !! k = Some ph -> l !! k = Some e -> tunnel_entry ph e)
    /\ forall c u, reading c u (stats w) = reading c u s0 + total c u l.
Proof.
  intros H. enough (exists l, ledger_inv s0 w l) as [l [D E _ R]] by by exists l.
  apply (rtc_ind_r (fun w => world_reachable show_dns_error sleep_ready cfg shard shards s0 w /\ exists l, ledger_inv s0 w l) (world_new s0)) in H;
    [by destruct H|..].
  - split; [apply rtc_refl|]. exists ∅. split; simpl; [by rewrite !dom_empty_L|done|done|].
    intros c u. unfold total. rewrite map_fold_empty. lia.
  - intros y z _ Hs [Hr [l Hl]]. split; [by eapply rtc_r|].
    eapply ledger_step; [done|by eapply world_reachable_inv|done].
Qed.
End Ledger.

(** ** A run

    User 7's tunnel relays three bytes up and two bytes down, and completes. *)

Definition ex_poll : option (option RelayExit * Relay Mem Mem) :=
  select_poll at_deadline ex_cfg true false 9 5 (relay_start ex_cfg 0 client server).

Definition ex_final : Relay Mem Mem :=
  match ex_poll with Some (_, st) => st | None => relay_start ex_cfg 0 client server end.

Definition ex_completed : Phase (A := Mem) (B := Mem) :=
  Over (Ended 7 (Returned (Ok true) Completed) client server (side_a ex_final) (side_b ex_final)).

Definition ex_log : list Call := [Req 7; Up 7 3; Down 7 2].

Definition ex_phases : gmap nat (Phase (A := Mem) (B := Mem)) :=
  <[0%nat := ex_completed]> (<[0%nat := Relaying client server 0 (relay_start ex_cfg 0 client server) 0]>
    (<[0%nat := Opening]> ∅)).

Lemma ex_accounted :
  exists h, ex_reachable (mkWorld ex_mgr ex_pool ex_phases ex_log h).
Proof.
  destruct ex_opening as [h H]. exists h. eapply rtc_r; [eapply rtc_r; [exact H|]|].
  - apply w_relay with (now := 0) (a := client) (b := server); [apply lookup_insert_eq|].
    exact client_server_good.
  - eapply (w_exit ex_show at_deadline ex_cfg ex_shard 4 _ _ _ _ _ 0 1 0 7 client server 0 _ 0 true 9 5 _ ex_final [] []);
      [reflexivity|reflexivity|vm_compute; reflexivity|constructor|constructor|vm_compute; reflexivity].
Qed.

Lemma stats_ledger_witness :
  exists l : gmap nat Entry,
    dom l = dom ex_phases
    /\ (forall e, l !! 0%nat = Some e -> tunnel_entry ex_completed e)
    /\ total Uploaded 7 l = 3 /\ total Downloaded 7 l = 2 /\ total Requests 7 l = 1 /\ total Requests 8 l = 0.
Proof.
  destruct ex_accounted as [h H].
  destruct (stats_ledger (cache := dns_ex) ex_show at_deadline ex_cfg ex_shard 4 [] _ H) as (l & Hd & He & Hr).
  exists l. split_and!; [exact Hd|intros e; by apply He|..].
  - by specialize (Hr Uploaded 7).
  - by specialize (Hr Downloaded 7).
  - by specialize (Hr Requests 7).
  - by specialize (Hr Requests 8).
Defined.
