(* ===== verification/Egress.v ===== *)
(** * What a request makes the server connect to

    The entry points of [Handler] and the connect path of [Connect] put
    together, as [process_tunnel] does: from the bytes of a CONNECT request to
    the addresses that are dialled for it, where it is a TCP tunnel. *)

From S2P Require Import Prelude RustStr RustNet Address IpFilter Routing Acl Connect Connection Uot Server Handler.
Open Scope nat_scope.

Section Egress.
Context {cache : DnsCache} {fmt : DebugDuration} {net : Network}.
Context {Hnd Strm : Type} {dl : Dialer Hnd Strm}.

Context {codecs : Codecs} {Auth Rt : Type} {au : Authenticator Auth} {rt : OutboundRouter Rt Hnd} {cl : ClosedRouter Rt Hnd}.





End Egress.

(** ** A request that is followed *)



(** UDP over TCP is outside of it: a session sends to any address its client
    writes, one in a private network too. *)
Lemma uot_sends_unchecked :
  is_private_ip (sa_ip ex_peer) = true
  /\ sent (input_next (cache := dns_ex) ex_show ex_send false (mkIn (packet ex_peer [1; 2; 3]%Z) 0 [] [])).2
     = [(Some ex_peer, [1; 2; 3]%Z)].
Proof. by vm_compute. Qed.
