(* ===== verification/Runner.v ===== *)
(** * [src/pingora_runner.rs], [src/quiche_runner.rs], [src/transport/quiche_tls.rs]

    [Pingora] is the set-up of the HTTP/2 server and its request filter;
    [Quiche] the set-up of the HTTP/3 server and its accept loop, as a step
    relation over the connections' permits and the tunnels.  Parameters: the
    files ([ReadFile]), the sockets ([UdpSockets]) and the libraries' default
    settings. *)

From S2P Require Import Prelude RustStr RustNet Config Handler.
Open Scope nat_scope.

(** ** HTTP/2 on pingora *)

Module Pingora.

Definition TCP_KEEPALIVE_IDLE_SECS : Z := 15.
Definition TCP_KEEPALIVE_INTERVAL_SECS : Z := 15.
Definition TCP_KEEPALIVE_COUNT : Z := 3.
Definition GRACE_PERIOD_SECONDS : Z := 10.
Definition GRACEFUL_SHUTDOWN_TIMEOUT_SECONDS : Z := 5.

Record TcpKeepalive : Type := { idle : Z; interval : Z; count : Z; user_timeout : Z }.

(** pingora's options, of which one is set; [rest] are the others. *)
Record TcpSocketOptions (R : Type) : Type := mkOpts { tcp_keepalive : option TcpKeepalive; rest : R }.
Arguments mkOpts {R}.
Arguments tcp_keepalive {R}.
Arguments rest {R}.

Definition make_tcp_sock_opts {R} (opts_default : TcpSocketOptions R) : TcpSocketOptions R :=
  mkOpts (Some {| idle := TCP_KEEPALIVE_IDLE_SECS;
                  interval := TCP_KEEPALIVE_INTERVAL_SECS;
                  count := TCP_KEEPALIVE_COUNT;
                  user_timeout :=
                    TCP_KEEPALIVE_IDLE_SECS + TCP_KEEPALIVE_INTERVAL_SECS * TCP_KEEPALIVE_COUNT |}%Z)
    (rest opts_default).

Inductive ShutdownSignal : Type := GracefulTerminate | GracefulUpgrade | FastShutdown.

(** [CancelTokenShutdown::recv]: pending until the token is cancelled. *)
Definition shutdown_recv (cancelled : bool) : poll ShutdownSignal :=
  if cancelled then Ready GracefulTerminate else Pending.

(** [request_filter]: the address given to the handler, and what pingora is
    told of the handler's result: always that the request is dealt with. *)
Definition filter_peer (client_addr : option SocketAddr) : SocketAddr :=
  default (SocketAddr_new (V4 (IPv4addr 0 0 0 0)) 0) client_addr.

Definition request_filter (handle : SocketAddr -> result unit rstr) (client_addr : option SocketAddr)
    : result bool rstr :=
  match handle (filter_peer client_addr) with
  | Err _ => Ok true
  | Ok _ => Ok true
  end.

Definition upstream_peer : result unit rstr :=
  Err (str "naive proxy: upstream_peer called but request_filter handles every request").

(** pingora's protocol choices. *)
Inductive ALPN : Type := H1 | H2 | H2H1.

(** What [run_h2_server_pingora] gives to pingora. *)
Record H2Setup : Type := {
  cert_path : rstr;
  key_path : rstr;
  bind_addr : rstr;
  grace_period_seconds : option Z;
  graceful_shutdown_timeout_seconds : option Z;
  allow_connect_method_proxying : bool;
  alpn : ALPN
}.

(** A path of the configuration as text. *)
Definition path_str (what : rstr) (p : option rstr) : result rstr rstr :=
  match p with
  | None => Err (what ++ str " required for H2 backend")
  | Some p =>
      match from_utf8 p with
      | Some p => Ok p
      | None => Err (what ++ str " path is not valid UTF-8: " ++ p)
      end
  end.

(** The set-up; [tls] is the result of [TlsSettings::intermediate]. *)
Definition h2_setup (tls : rstr -> rstr -> result unit rstr) (config : ServerConfig) : result H2Setup rstr :=
  match sc_cert config, sc_key config with
  | None, _ => Err (str "cert required for H2 backend")
  | _, None => Err (str "key required for H2 backend")
  | Some cert, Some key =>
      let? cert_path := path_str (str "cert") (Some cert) in
      let? key_path := path_str (str "key") (Some key) in
      let? _ := result_map_err (fun e => str "TLS error: " ++ e) (tls cert_path key_path) in
      Ok {| cert_path := cert_path; key_path := key_path;
            bind_addr := str "[::]:" ++ show_dec (sc_port config);
            grace_period_seconds := Some GRACE_PERIOD_SECONDS;
            graceful_shutdown_timeout_seconds := Some GRACEFUL_SHUTDOWN_TIMEOUT_SECONDS;
            allow_connect_method_proxying := true;
            alpn := H2H1 |}
  end.

(** [run_h2_server_pingora]; [run] is the blocking task, or its panic. *)
Definition run_h2_server_pingora (tls : rstr -> rstr -> result unit rstr)
    (run : H2Setup -> result unit rstr) (config : ServerConfig) : result unit rstr :=
  let? setup := h2_setup tls config in
  result_map_err (fun e => str "pingora server thread panicked: " ++ e) (run setup).

(** A dead peer is given up before the server's own drain at the latest. *)
Lemma keepalive_budget {R} (d : TcpSocketOptions R) :
  exists ka, tcp_keepalive (make_tcp_sock_opts d) = Some ka
    /\ user_timeout ka = (idle ka + interval ka * count ka)%Z.
Proof. by eexists. Qed.
End Pingora.

(** ** HTTP/3 on tokio-quiche *)

Module Quiche.

(** [QuicheTlsPaths::new]: reading a file as text. *)
Class ReadFile := read_to_string : rstr -> result rstr rstr.

Record QuicheTlsPaths : Type := { cert : rstr; private_key : rstr }.

Definition path_utf8 (what p : rstr) : result rstr rstr :=
  match from_utf8 p with
  | Some p => Ok p
  | None => Err (what ++ str " path is not valid UTF-8: " ++ p)
  end.

Definition QuicheTlsPaths_new {files : ReadFile} (cert_path key_path : rstr) : result QuicheTlsPaths rstr :=
  let? cert_content :=
    result_map_err (fun e => str "reading cert " ++ cert_path ++ str ": " ++ e) (read_to_string cert_path) in
  let? _ := reject_if (negb (contains (str "BEGIN CERTIFICATE") cert_content))
    (str "not a PEM certificate (missing BEGIN CERTIFICATE marker): " ++ cert_path) in
  let? key_content :=
    result_map_err (fun e => str "reading key " ++ key_path ++ str ": " ++ e) (read_to_string key_path) in
  let? _ := reject_if (negb (contains (str "PRIVATE KEY-----") key_content))
    (str "not a PEM private key (no PRIVATE KEY marker): " ++ key_path) in
  let? cert := path_utf8 (str "cert") cert_path in
  let? private_key := path_utf8 (str "key") key_path in
  Ok {| cert := cert; private_key := private_key |}.

Definition QUIC_MAX_IDLE_TIMEOUT_SECS : Z := 120.
Definition QUIC_INITIAL_MAX_DATA : Z := 16 * 1024 * 1024.
Definition QUIC_INITIAL_MAX_STREAM_DATA : Z := 2 * 1024 * 1024.
Definition QUIC_MAX_BIDI_STREAMS : Z := Z.shiftl 1 60.
Definition QUIC_MAX_UNI_STREAMS : Z := 256.

(** tokio-quiche's settings: the fields that are set, and [others]. *)
Record QuicSettings (R : Type) : Type := mkSettings {
  q_alpn : list rstr;
  cc_algorithm : rstr;
  max_idle_timeout : option Z;
  initial_max_streams_bidi : Z;
  initial_max_streams_uni : Z;
  initial_max_data : Z;
  initial_max_stream_data_bidi_local : Z;
  initial_max_stream_data_bidi_remote : Z;
  initial_max_stream_data_uni : Z;
  enable_dgram : bool;
  disable_active_migration : bool;
  others : R
}.
Arguments mkSettings {R}.
Arguments q_alpn {R}.
Arguments cc_algorithm {R}.
Arguments max_idle_timeout {R}.
Arguments initial_max_streams_bidi {R}.
Arguments initial_max_streams_uni {R}.
Arguments initial_max_data {R}.
Arguments initial_max_stream_data_bidi_local {R}.
Arguments initial_max_stream_data_bidi_remote {R}.
Arguments initial_max_stream_data_uni {R}.
Arguments enable_dgram {R}.
Arguments disable_active_migration {R}.
Arguments others {R}.

Definition cc_name (cc : CongestionControl) : rstr :=
  match cc with
  | Bbr => str "bbr2_gcongestion"
  | Cubic => str "cubic"
  | NewReno => str "reno"
  end.

Definition make_quiche_settings {R} (settings_default : QuicSettings R) (cc : CongestionControl)
    : QuicSettings R := {|
  q_alpn := [str "h3"];
  cc_algorithm := cc_name cc;
  max_idle_timeout := Some (from_secs QUIC_MAX_IDLE_TIMEOUT_SECS);
  initial_max_streams_bidi := QUIC_MAX_BIDI_STREAMS;
  initial_max_streams_uni := QUIC_MAX_UNI_STREAMS;
  initial_max_data := QUIC_INITIAL_MAX_DATA;
  initial_max_stream_data_bidi_local := QUIC_INITIAL_MAX_STREAM_DATA;
  initial_max_stream_data_bidi_remote := QUIC_INITIAL_MAX_STREAM_DATA;
  initial_max_stream_data_uni := QUIC_INITIAL_MAX_STREAM_DATA;
  enable_dgram := false;
  disable_active_migration := true;
  others := others settings_default
|}.

(** The largest QUIC variable-length integer. *)
Definition VARINT_MAX : Z := 2 ^ 62 - 1.

(** Every limit sent in the handshake fits a variable-length integer, as it must
    for the peer to accept it. *)
Lemma settings_fit {R} (d : QuicSettings R) cc :
  let s := make_quiche_settings d cc in
  Forall (fun v => 0 <= v <= VARINT_MAX)%Z
    [initial_max_streams_bidi s; initial_max_streams_uni s; initial_max_data s;
     initial_max_stream_data_bidi_local s; initial_max_stream_data_bidi_remote s;
     initial_max_stream_data_uni s].
Proof. repeat (apply Forall_cons_2; [by vm_compute; split|]). apply Forall_nil_2. Qed.

(** The driver's settings: extended CONNECT is on, the rest is the library's
    default. *)
Record Http3Settings (R : Type) : Type := mkH3Settings { enable_extended_connect : bool; h3_others : R }.
Arguments mkH3Settings {R}.
Arguments enable_extended_connect {R}.
Arguments h3_others {R}.

Definition make_h3_settings {R} (settings_default : Http3Settings R) : Http3Settings R :=
  mkH3Settings true (h3_others settings_default).

(** ** The socket *)

Inductive SockOp : Type :=
  | SockNew (v6 : bool)
  | SetOnlyV6 (b : bool)
  | SetReuseAddress
  | SockBind (addr : SocketAddr)
  | SetNonblocking
  | FromStd.

(** The result of the [n]-th call. *)
Class UdpSockets := sock_op : nat -> SockOp -> result unit rstr.

Section Socket.
Context {socks : UdpSockets}.

(** The calls up to the first that fails, and how many were made. *)
Fixpoint sock_ops (n : nat) (ops : list SockOp) : result unit rstr * nat :=
  match ops with
  | [] => (Ok tt, n)
  | op :: ops =>
      match sock_op n op with
      | Ok _ => sock_ops (S n) ops
      | Err e => (Err e, S n)
      end
  end.

Definition v6_ops (port : Z) : list SockOp :=
  [SockNew true; SetOnlyV6 false; SetReuseAddress;
   SockBind (SocketAddr_new (V6 (repeat 0%Z 16)) port); SetNonblocking; FromStd].

Definition v4_ops (port : Z) : list SockOp :=
  [SockNew false; SetReuseAddress; SockBind (SocketAddr_new (V4 (IPv4addr 0 0 0 0)) port);
   SetNonblocking; FromStd].

(** The address family of the socket returned. *)
Definition bind_dual_stack_udp (port : Z) : result bool rstr :=
  match sock_ops 0 (v6_ops port) with
  | (Ok _, _) => Ok true
  | (Err _, n) =>
      match sock_ops n (v4_ops port) with
      | (Ok _, _) => Ok false
      | (Err e, _) => Err e
      end
  end.
End Socket.

(** ** The connection's events *)

Inductive CoreEvent : Type := ConnectionError | ConnectionShutdown | OtherCore.
Inductive ServerH3Event : Type := HeadersEvent | Core (e : CoreEvent).

(** What the loop of a connection does with an event. *)
Inductive EventAction : Type := SpawnRequest | BreakLoop | Ignore.

Definition on_event (e : ServerH3Event) : EventAction :=
  match e with
  | HeadersEvent => SpawnRequest
  | Core ConnectionError | Core ConnectionShutdown => BreakLoop
  | Core OtherCore => Ignore
  end.

(** The requests spawned by a stream of events, and whether the loop has ended
    (the stream of events ends it too). *)
Fixpoint event_loop (events : list ServerH3Event) : nat * bool :=
  match events with
  | [] => (0, false)
  | e :: events =>
      match on_event e with
      | SpawnRequest => let '(n, b) := event_loop events in (S n, b)
      | BreakLoop => (0, true)
      | Ignore => event_loop events
      end
  end.

(** ** The accept loop *)

Inductive LoopState : Type := Accepting | WaitingPermit | LoopEnded.

(** [limiter] is [None] without a limit, and the free permits otherwise;
    [conns] counts the connection tasks, [requests] the request tasks. *)
Record Acceptor : Type := mkAcceptor {
  loop : LoopState;
  limiter : option nat;
  conns : nat;
  requests : nat
}.

(** [Semaphore::new]: [None] is its panic above [Semaphore::MAX_PERMITS], which is
    [usize::MAX >> 3]. *)
Definition MAX_PERMITS : Z := Z.shiftr u64_max 3.

Definition Semaphore_new (permits : Z) : option nat :=
  if (permits <=? MAX_PERMITS)%Z then Some (Z.to_nat permits) else None.

Definition conn_limiter (max_connections : Z) : option (option nat) :=
  if (0 <? max_connections)%Z then Some <$> Semaphore_new max_connections else Some None.

Definition Acceptor_new (max_connections : Z) : option Acceptor :=
  (fun limiter => mkAcceptor Accepting limiter 0 0) <$> conn_limiter max_connections.

Inductive accept_step : Acceptor -> Acceptor -> Prop :=
  | accept_error l c r :
      accept_step (mkAcceptor Accepting l c r) (mkAcceptor Accepting l c r)
  | accept_conn l c r :
      accept_step (mkAcceptor Accepting l c r) (mkAcceptor WaitingPermit l c r)
  | accept_permit n c r :
      accept_step (mkAcceptor WaitingPermit (Some (S n)) c r) (mkAcceptor Accepting (Some n) (S c) r)
  | accept_no_limit c r :
      accept_step (mkAcceptor WaitingPermit None c r) (mkAcceptor Accepting None (S c) r)
  | accept_listener_end l c r :
      accept_step (mkAcceptor Accepting l c r) (mkAcceptor LoopEnded l c r)
  | conn_request lp l c r e :
      on_event e = SpawnRequest ->
      accept_step (mkAcceptor lp l (S c) r) (mkAcceptor lp l (S c) (S r))
  | conn_end lp l c r :                       (* the permit is dropped with the task *)
      accept_step (mkAcceptor lp l (S c) r) (mkAcceptor lp (option_map S l) c r)
  | request_end lp l c r :
      accept_step (mkAcceptor lp l c (S r)) (mkAcceptor lp l c r).

Lemma accept_permits s s' total :
  accept_step s s' ->
  match limiter s with Some n => n + conns s = total | None => True end ->
  (limiter s = None <-> limiter s' = None)
  /\ match limiter s' with Some n => n + conns s' = total | None => True end.
Proof.
  destruct 1 as [l c r|l c r|n c r|c r|l c r|lp l c r e He|lp l c r|lp l c r]; simpl; try done.
  - intros <-. split; [done|lia].
  - destruct l; simpl; [|done]. intros <-. split; [done|lia].
Qed.

(** The connections taken from the listener: those with a task, and the one that
    waits for a permit. *)
Definition accepted (s : Acceptor) : nat :=
  conns s + match loop s with WaitingPermit => 1 | _ => 0 end.

Lemma Acceptor_new_some max s0 :
  (0 < max)%Z -> Acceptor_new max = Some s0 -> s0 = mkAcceptor Accepting (Some (Z.to_nat max)) 0 0.
Proof.
  intros Hmax. unfold Acceptor_new, conn_limiter, Semaphore_new. rewrite (proj2 (Z.ltb_lt _ _) Hmax).
  destruct (max <=? MAX_PERMITS)%Z; [by intros [= <-]|done].
Qed.

(** C35: the connections that are served never exceed the limit and none of its
    permits is lost: at every moment the free permits and the connection tasks
    make up the limit, so that with no connection left all permits are free
    again.  One connection more may have been accepted: the one that waits for a
    permit.  A limit the semaphore cannot take does not start the loop. *)
Theorem accept_limit max s0 s :
  (0 < max)%Z -> Acceptor_new max = Some s0 -> rtc accept_step s0 s ->
  conns s <= Z.to_nat max /\ limiter s = Some (Z.to_nat max - conns s)
  /\ accepted s <= S (Z.to_nat max).
Proof.
  intros Hmax ->%Acceptor_new_some Hr; [|done].
  assert (limiter s <> None
    /\ match limiter s with Some n => n + conns s = Z.to_nat max | None => True end) as [Hl Hn].
  { apply (rtc_ind_r (fun s => limiter s <> None
      /\ match limiter s with Some n => n + conns s = Z.to_nat max | None => True end)
      (mkAcceptor Accepting (Some (Z.to_nat max)) 0 0)) in Hr; [done| |].
    - simpl. split; [done|lia].
    - intros s1 s2 _ Hs [H1 H2]. apply (accept_permits _ _ (Z.to_nat max)) in Hs as [H3 H4]; [|done].
      split; [|done]. by rewrite <- H3. }
  destruct (limiter s) as [n|]; [|done]. unfold accepted.
  split_and!; [lia|f_equal; lia|destruct (loop s); lia].
Qed.

(** A limit above what the semaphore takes is a panic of the HTTP/3 task. *)
Lemma limit_panics max : (MAX_PERMITS < max)%Z -> Acceptor_new max = None.
Proof.
  intros H. assert (0 < MAX_PERMITS)%Z by by vm_compute. unfold Acceptor_new, conn_limiter, Semaphore_new.
  rewrite (proj2 (Z.ltb_lt _ _)) by lia.
  by rewrite (proj2 (Z.leb_gt _ _)).
Qed.

Lemma requests_grow lp l c n : rtc accept_step (mkAcceptor lp l (S c) 0) (mkAcceptor lp l (S c) n).
Proof.
  induction n as [|n IH]; [apply rtc_refl|].
  eapply rtc_r; [exact IH|]. by apply (conn_request lp l c n HeadersEvent).
Qed.

(** But the limit is on QUIC connections, not on tunnels: with a limit of
    one, any number of requests run, and they go on when their connection's
    task has ended and given its permit back. *)
Theorem limit_not_on_tunnels n :
  exists s0 s, Acceptor_new 1 = Some s0 /\ rtc accept_step s0 s
    /\ requests s = n /\ conns s = 0 /\ limiter s = Some 1.
Proof.
  exists (mkAcceptor Accepting (Some 1) 0 0), (mkAcceptor Accepting (Some 1) 0 n). split_and!; [done| |done..].
  eapply rtc_l; [apply accept_conn|]. eapply rtc_l; [apply accept_permit|].
  eapply rtc_r; [apply requests_grow|]. apply (conn_end Accepting (Some 0)).
Qed.

Inductive CertificateKind : Type := X509 | RawPublicKey.

(** What a QUIC server is made of; the hooks are the default. *)
Record ConnectionParams (R : Type) : Type := mkParams {
  p_settings : QuicSettings R;
  p_cert : rstr;
  p_private_key : rstr;
  p_kind : CertificateKind
}.
Arguments mkParams {R}.

(** [listen] gives a listener per socket. *)
Definition bind_h3_listener {Sock R Lst} (listen : list Sock -> ConnectionParams R -> result (list Lst) rstr)
    (socket : Sock) (settings : QuicSettings R) (tls : QuicheTlsPaths) : result Lst rstr :=
  let params := mkParams settings (cert tls) (private_key tls) X509 in
  let? listeners := result_map_err (fun e => str "tokio_quiche::listen failed: " ++ e) (listen [socket] params) in
  match listeners with
  | listener :: _ => Ok listener
  | [] => Err (str "tokio_quiche::listen returned no listener")
  end.

(** The start of [run_h3_server_quiche], up to the accept loop: the listener and
    the state of the loop, [None] when [Semaphore::new] panics.  [local_addr] is
    the address of the socket. *)
Definition run_h3_start {files : ReadFile} {socks : UdpSockets} {R Lst} (settings_default : QuicSettings R)
    (local_addr : bool -> result SocketAddr rstr)
    (listen : list bool -> ConnectionParams R -> result (list Lst) rstr)
    (config : ServerConfig) (max_connections : Z) : result (Lst * option Acceptor) rstr :=
  match sc_cert config, sc_key config with
  | None, _ => Err (str "cert required for H3 backend")
  | _, None => Err (str "key required for H3 backend")
  | Some cert, Some key =>
      let? tls := QuicheTlsPaths_new cert key in
      let settings := make_quiche_settings settings_default (sc_congestion_control config) in
      let? socket := bind_dual_stack_udp (sc_port config) in
      let? _ := local_addr socket in
      let? listener := bind_h3_listener listen socket settings tls in
      Ok (listener, Acceptor_new max_connections)
  end.

(** A server that starts listens on one socket with the certificate it checked
    and the settings of [make_quiche_settings], and begins with all permits, if the
    semaphore takes them. *)
Lemma run_h3_started {files : ReadFile} {socks : UdpSockets} {R Lst} (d : QuicSettings R)
    local_addr (listen : list bool -> ConnectionParams R -> result (list Lst) rstr) config max lst acc :
  run_h3_start d local_addr listen config max = Ok (lst, acc) ->
  exists c k c' k' socket rest,
    sc_cert config = Some c /\ sc_key config = Some k
    /\ read_to_string c = Ok c' /\ contains (str "BEGIN CERTIFICATE") c' = true
    /\ read_to_string k = Ok k' /\ contains (str "PRIVATE KEY-----") k' = true
    /\ bind_dual_stack_udp (sc_port config) = Ok socket
    /\ listen [socket] (mkParams (make_quiche_settings d (sc_congestion_control config)) c k X509) = Ok (lst :: rest)
    /\ acc = Acceptor_new max.
Proof.
  unfold run_h3_start, QuicheTlsPaths_new, bind_h3_listener, path_utf8, reject_if.
  destruct (sc_cert config) as [c|]; [|done]. destruct (sc_key config) as [k|]; [|done].
  destruct (read_to_string c) as [c'|] eqn:Ec; [simpl|done]. destruct (contains _ c') eqn:Hc; [simpl|done].
  destruct (read_to_string k) as [k'|] eqn:Ek; [simpl|done]. destruct (contains _ k') eqn:Hk; [simpl|done].
  destruct (from_utf8 c) as [c1|] eqn:Uc; [simpl|done]. destruct (from_utf8 k) as [k1|] eqn:Uk; [simpl|done].
  destruct (bind_dual_stack_udp _) as [sock|]; [simpl|done].
  destruct (local_addr sock); [simpl|done].
  destruct (listen _ _) as [[|l ls]|] eqn:El; simpl; try done. intros [= <- <-].
  apply from_utf8_Some in Uc as ->. apply from_utf8_Some in Uk as ->.
  exists c, k, c', k', sock, ls. by split_and!.
Qed.

(** With a limit of one: a connection is served and a second one waits; the first
    one ends and gives its permit to the second. *)
Definition ex_full : Acceptor := mkAcceptor WaitingPermit (Some 0) 1 0.
Definition ex_next : Acceptor := mkAcceptor Accepting (Some 0) 1 0.

Lemma reach_full : rtc accept_step (mkAcceptor Accepting (Some 1) 0 0) ex_full.
Proof.
  eapply rtc_l; [apply accept_conn|]. eapply rtc_l; [apply accept_permit|]. apply rtc_once, accept_conn.
Qed.

Lemma reach_next : rtc accept_step (mkAcceptor Accepting (Some 1) 0 0) ex_next.
Proof. eapply rtc_r; [eapply rtc_r; [apply reach_full|apply conn_end]|apply accept_permit]. Qed.

Lemma accept_limit_witness :
  (conns ex_full <= 1 /\ limiter ex_full = Some 0 /\ accepted ex_full <= 2)
  /\ conns ex_next <= 1 /\ limiter ex_next = Some 0 /\ accepted ex_next <= 2.
Proof.
  split.
  - exact (accept_limit 1 _ ex_full eq_refl eq_refl reach_full).
  - exact (accept_limit 1 _ ex_next eq_refl eq_refl reach_next).
Defined.
End Quiche.
