(* ===== verification/Main.v ===== *)
(** * [src/main.rs]: start and stop

    [load_acl_config], [build_router] and the start of [main] up to the running
    server, the reaction to a change of the users, the run until a signal comes or
    the server returns (a step relation), and the shutdown: the drain loop and
    its order of steps.  Parameters: the panel ([Panel]), the reading
    and parsing of the rules file ([AclFile]). *)

From S2P Require Import Prelude RustStr RustNet Address IpFilter Routing Acl ConfigAuto Config Connection Server.
Open Scope nat_scope.

(** ** The router *)

(** Reading the file, and serde_yaml. *)
Class AclFile := {
  read_acl_file : rstr -> result rstr rstr;
  parse_yaml : rstr -> result AclConfig rstr
}.

Section Start.
Context {engines : AclEngineRs} {sockets : TestSockets} {cache : DnsCache}.
Context {fs : FileSystem} {file : AclFile} {sys : SystemLimits} {sj : SerdeJson}.

Definition load_acl_config (path : rstr) : result AclConfig rstr :=
  let? content := result_map_err
    (fun e => str "Failed to read ACL config file '" ++ path ++ str "': " ++ e) (read_acl_file path) in
  result_map_err (fun e => str "Failed to parse ACL config file '" ++ path ++ str "': " ++ e)
    (parse_yaml content).

Definition build_router (config : ServerConfig) (refresh_geodata : bool) : result DynRouter rstr :=
  match sc_acl_conf_file config with
  | Some acl_path =>
      let? _ := reject_if (negb (path_exists acl_path))
        (str "ACL config file not found: " ++ acl_path) in
      let? _ := reject_if (negb (yaml_path acl_path))
        (str "Invalid ACL config file format: expected .yaml or .yml") in
      let? acl_config := load_acl_config acl_path in
      let? engine := AclEngine_new acl_config (Some (sc_data_dir config)) refresh_geodata in
      Ok (ByAcl {| engine := engine; Acl.block_private_ip := sc_block_private_ip config |})
  | None => Ok (ByDirect {| dr_block_private_ip := sc_block_private_ip config |})
  end.

Lemma build_router_closed config refresh r :
  build_router config refresh = Ok r -> DynRouter_closed r = sc_block_private_ip config.
Proof.
  unfold build_router. destruct (sc_acl_conf_file config) as [p|]; [|by intros [= <-]].
  destruct (path_exists p); simpl; [|done]. destruct (yaml_path p); simpl; [|done].
  destruct (load_acl_config p) as [c|]; simpl; [|done].
  destruct (AclEngine_new c _ _) as [e|]; simpl; [|done]. by intros [= <-].
Qed.

(** ** The start *)

(** The panel's client, with the users it manages as its state [U]. *)
Class Panel (U : Type) := {
  api_new : CliArgs -> result unit rstr;
  fetch_config : result NodeConfigEnum rstr;
  initialize : Z -> result unit rstr;
  user_manager_new : U;
  fetch_users : result (option (list (UserId * rstr))) rstr;
  um_init : list (UserId * rstr) -> U -> U
}.

Context {U P : Type} {panel : Panel U} {um : UserManager U} {ps : PanelStats P}.

(** [main] up to the background tasks: the server and whether it runs on
    HTTP/3. *)
Definition main_start (cli : CliArgs) (panel_stats_new : P)
    : result (Server (NaiveAuthenticator U) (NaiveStatsCollector P) unit * ServerConfig * bool) rstr :=
  let? _ := validate cli in
  let? _ := api_new cli in
  let user_manager := user_manager_new in
  let? node_config := fetch_config in
  let? naive_config := parse_naive_config node_config in
  let use_h3 := bool_decide (network naive_config = Udp) in
  let? _ := initialize (server_port naive_config) in
  let? users := fetch_users in
  let user_manager := match users with Some us => um_init us user_manager | None => user_manager end in
  let? server_config := from_remote naive_config cli in
  let auth := mkAuthenticator user_manager in
  let stats_collector := mkCollector panel_stats_new in
  let? rt := build_router server_config (refresh_geodata cli) in
  let resolved_max := resolve (max_connections cli) in
  let cfg := from_cli cli (rm_value resolved_max) in
  let? server :=
    build (dns_cache tt (conn_config cfg (conn_manager Manager_new (router rt
      (stats stats_collector (authenticator auth builder)))))) in
  Ok (server, server_config, use_h3).

(** C24: a server that starts serves under its settings: they were valid; its
    router blocks private addresses exactly when they say so; its limit on
    connections is positive; and it starts with no connection. *)
Theorem main_start_safe cli p s cfg h3 spec_text :
  MaxConnections_from_str spec_text = Ok (max_connections cli) ->
  main_start cli p = Ok (s, cfg, h3) ->
  valid cli
  /\ DynRouter_closed (s_router s) = Config.block_private_ip cli
  /\ (1 <= cc_max_connections (s_conn_config s))%Z
  /\ s_conn_manager s = Manager_new
  /\ sc_cert cfg = Some (cert_file cli) /\ sc_key cfg = Some (key_file cli).
Proof.
  intros Hmax. unfold main_start. destruct (validate cli) as [[]|] eqn:Ev; simpl; [|done].
  destruct (api_new cli); simpl; [|done]. destruct fetch_config as [nc|]; simpl; [|done].
  destruct (parse_naive_config nc) as [c|]; simpl; [|done].
  destruct (initialize _); simpl; [|done]. destruct fetch_users as [us|]; simpl; [|done].
  destruct (build_router _ _) as [rt|] eqn:Er; simpl; [|done]. intros [= <- <- <-].
  split_and!; try done.
  - by apply validate_ok.
  - by apply build_router_closed in Er.
  - simpl. by apply (max_connections_positive spec_text).
Qed.
End Start.

(** ** Users that change *)

Record UserDiff : Type := { removed_ids : list UserId; uuid_changed_ids : list UserId }.

Fixpoint kick_users (ids : list UserId) (m : ConnectionManager) : nat * ConnectionManager :=
  match ids with
  | [] => (0, m)
  | uid :: ids =>
      let '(n, m) := kick_user uid m in
      let '(total, m) := kick_users ids m in
      (n + total, m)
  end.

(** The callback [on_user_diff]. *)
Definition on_user_diff (diff : UserDiff) (m : ConnectionManager) : nat * ConnectionManager :=
  let kick_ids := removed_ids diff ++ uuid_changed_ids diff in
  match kick_ids with [] => (0, m) | _ => kick_users kick_ids m end.

(** C25: when users are removed or their credentials change, exactly the
    connections of those users are cancelled, and none is taken out of the maps
    but by its own task. *)
Theorem on_user_diff_spec diff m :
  manager_wf m ->
  let '(_, m') := on_user_diff diff m in
  manager_wf m' /\ connections m' = connections m /\ user_connections m' = user_connections m
  /\ forall id c, connections m !! id = Some c ->
     (is_cancelled (cancel_token c) m' = true <->
      is_cancelled (cancel_token c) m = true
      \/ user_id (info c) ∈ removed_ids diff \/ user_id (info c) ∈ uuid_changed_ids diff).
Proof.
  assert (forall ids m, manager_wf m ->
    let '(_, m') := kick_users ids m in
    manager_wf m' /\ connections m' = connections m /\ user_connections m' = user_connections m
    /\ forall id c, connections m !! id = Some c ->
       (is_cancelled (cancel_token c) m' = true <->
        is_cancelled (cancel_token c) m = true \/ user_id (info c) ∈ ids)) as Hk.
  { intros ids. induction ids as [|u ids IH]; intros m0 W; cbn [kick_users].
    - split_and!; try done. intros id c _. split; [by left|]. by intros [?|?%elem_of_nil].
    - pose proof (kick_user_spec u m0 W) as Hu. pose proof (kick_user_wf u m0 W) as W1.
      destruct (kick_user u m0) as [n m1]. cbn [snd] in W1. destruct Hu as (_ & H1 & H2 & H3).
      specialize (IH m1 W1). destruct (kick_users ids m1) as [t m2]. destruct IH as (W2 & H4 & H5 & H6).
      split_and!; [done|congruence|congruence|]. intros id c Hc.
      rewrite H6 by (by rewrite H1). rewrite H3 by done. rewrite elem_of_cons. tauto. }
  intros W. specialize (Hk (removed_ids diff ++ uuid_changed_ids diff) m W). unfold on_user_diff.
  assert ((match removed_ids diff ++ uuid_changed_ids diff with
    | [] => (0, m) | _ => kick_users (removed_ids diff ++ uuid_changed_ids diff) m end)
    = kick_users (removed_ids diff ++ uuid_changed_ids diff) m) as ->
    by by destruct (removed_ids diff ++ uuid_changed_ids diff).
  destruct (kick_users _ m) as [t m']. destruct Hk as (? & ? & ? & H). split_and!; try done.
  intros id c Hc. rewrite H by done. by rewrite elem_of_app.
Qed.

(** ** The drain *)

(** What the loop sees at its [k]-th turn: the clock, in milliseconds, and the
    number of connections. *)
Inductive Drained : Type := AllDrained | DrainTimeout (remaining : nat).

Definition DRAIN_MS : Z := 5000.
Definition POLL_MS : Z := 100.

Section Drain.
Variable clock : nat -> Z.
Variable connection_count : nat -> nat.

Fixpoint drain (fuel k : nat) (drain_deadline : Z) : option Drained :=
  match fuel with
  | O => None
  | S fuel =>
      let remaining := connection_count k in
      if remaining =? 0 then Some AllDrained
      else if (drain_deadline <=? clock k)%Z then Some (DrainTimeout remaining)
      else drain fuel (S k) drain_deadline
  end.

(** The result of the drain entered at its [k]-th turn with the deadline [d]. *)
Definition drain_result (d : Z) (k : nat) (r : Drained) : Prop :=
  match r with
  | AllDrained => exists j, j <= k /\ connection_count j = 0
  | DrainTimeout n => exists j, j <= k /\ connection_count j = n /\ 0 < n
      /\ (d <= clock j)%Z /\ forall i, i <= j -> 0 < connection_count i
  end.

(** A drain that must see the deadline at turn [k + n] ends within [n] more turns. *)
Lemma drain_from d n k :
  (d <= clock (k + n))%Z -> (forall j, j < k -> 0 < connection_count j) ->
  exists r, (forall fuel, n < fuel -> drain fuel k d = Some r) /\ drain_result d (k + n) r.
Proof.
  revert k. induction n as [|n IH]; intros k Hd Hpos.
  all: destruct (connection_count k =? 0) eqn:E0;
    [exists AllDrained; split; [intros [|f] ?; [lia|]; simpl; by rewrite E0|bool_facts; exists k; split; [lia|done]]|].
  all: assert (forall i, i <= k -> 0 < connection_count i) as Hpos'
    by (intros i Hi; destruct (decide (i = k)) as [->|]; [bool_facts; lia|apply Hpos; lia]).
  all: destruct (d <=? clock k)%Z eqn:Ed;
    [exists (DrainTimeout (connection_count k)); split;
      [intros [|f] ?; [lia|]; simpl; by rewrite E0, Ed|bool_facts; exists k; split_and!; try done; lia]|].
  - exfalso. rewrite Nat.add_0_r in Hd. bool_facts. lia.
  - destruct (IH (S k)) as (r & H1 & H2); [by rewrite Nat.add_succ_r in Hd|intros j Hj; apply Hpos'; lia|].
    exists r. split; [intros [|f] ?; [lia|]; simpl; rewrite E0, Ed; apply H1; lia|by rewrite Nat.add_succ_r].
Qed.
End Drain.

(** C36: the drain ends: if every sleep takes its 100 ms, after at most 51 turns
    and with one result; and it gives up on connections only after the five seconds. *)
Theorem drain_ends clock count :
  (forall k, (clock k + POLL_MS <= clock (S k))%Z) ->
  exists r, drain clock count 51 0 (clock 0%nat + DRAIN_MS)%Z = Some r
    /\ (forall fuel, 51 <= fuel -> drain clock count fuel 0 (clock 0%nat + DRAIN_MS)%Z = Some r)
    /\ match r with
       | AllDrained => exists k, k <= 50 /\ count k = 0
       | DrainTimeout n => exists k, k <= 50 /\ count k = n /\ 0 < n
           /\ (clock 0%nat + DRAIN_MS <= clock k)%Z /\ forall j, j <= k -> 0 < count j
       end.
Proof.
  intros Hc. assert (forall k, (clock 0%nat + Z.of_nat k * POLL_MS <= clock k)%Z) as Hk.
  { induction k as [|k IH]; [lia|]. specialize (Hc k). lia. }
  destruct (drain_from clock count (clock 0%nat + DRAIN_MS)%Z 50 0) as (r & H1 & H2); [|lia|].
  { specialize (Hk 50). unfold DRAIN_MS, POLL_MS in *. simpl Nat.add. lia. }
  exists r. split_and!; [by apply H1; lia|done|exact H2].
Qed.

(** ** The run *)

(** The background tasks' periods. *)
Record TaskConfig : Type := {
  tc_fetch_users_interval : Z;
  tc_report_traffic_interval : Z;
  tc_heartbeat_interval : Z
}.

Definition task_config (cli : CliArgs) : TaskConfig := {|
  tc_fetch_users_interval := fetch_users_interval cli;
  tc_report_traffic_interval := report_traffics_interval cli;
  tc_heartbeat_interval := heartbeat_interval cli
|}.

(** [main] between the start and the shutdown: the token, whether a signal came,
    whether the task that waits for the signals is over, what the server's future
    returned, and what [main] took from the [select!]. *)
Record MainRun : Type := mkRun {
  token_cancelled : bool;
  signalled : bool;
  signal_task_done : bool;
  server_returned : option (result unit rstr);
  server_result : option (result unit rstr)
}.

Definition MainRun_new : MainRun := mkRun false false false None None.

(** [select!] takes either branch when both are ready; it drops the other. *)
Inductive main_step : MainRun -> MainRun -> Prop :=
  | got_signal tok sg ret res :
      main_step (mkRun tok sg false ret res) (mkRun true true true ret res)
  | signal_task_cancelled sg ret res :
      main_step (mkRun true sg false ret res) (mkRun true sg true ret res)
  | server_returns tok sg sd r :
      main_step (mkRun tok sg sd None None) (mkRun tok sg sd (Some r) None)
  | select_server tok sg sd r :
      main_step (mkRun tok sg sd (Some r) None) (mkRun true sg sd (Some r) (Some r))
  | select_cancelled sg sd ret :
      main_step (mkRun true sg sd ret None) (mkRun true sg sd ret (Some (Ok tt))).

Record main_inv (s : MainRun) : Prop := {
  mi_token : token_cancelled s = true <-> signalled s = true \/ server_result s <> None;
  mi_task : signal_task_done s = true -> token_cancelled s = true;
  mi_result r : server_result s = Some r -> server_returned s = Some r \/ (r = Ok tt /\ signalled s = true)
}.

Lemma main_reachable s : rtc main_step MainRun_new s -> main_inv s.
Proof.
  revert s. refine (rtc_ind_r main_inv MainRun_new _ _).
  - split; simpl; [|done|done]. split; [done|]. by intros [?|[]].
  - intros s1 s2 _ Hs [H1 H2 H3]. destruct Hs; split; simpl in *; try done; try naive_solver.
Qed.

(** The server goes on until a signal comes or it returns; [main] fails exactly
    with an error of the server; and once it left the [select!] the task that
    waits for the signals, which the shutdown joins, is over or can end. *)
Lemma main_run s r :
  rtc main_step MainRun_new s -> server_result s = Some r ->
  token_cancelled s = true
  /\ (signalled s = true \/ server_returned s = Some r)
  /\ (forall e, r = Err e -> server_returned s = Some (Err e))
  /\ (signal_task_done s = true \/ exists s', main_step s s' /\ signal_task_done s' = true /\ server_result s' = Some r).
Proof.
  intros Hr Hs. apply main_reachable in Hr as [H1 H2 H3].
  assert (token_cancelled s = true) as Ht by (apply H1; right; congruence).
  specialize (H3 r Hs). split_and!; [done|naive_solver|naive_solver|].
  destruct s as [tok sg [] ret res]; simpl in *; [by left|right]. subst.
  eexists. split; [apply signal_task_cancelled|done].
Qed.

(** ** The shutdown *)

(** The steps of the end of [main], in order. *)
Inductive ShutdownStep : Type :=
  | CancelToken
  | CancelAll (cancelled : nat)
  | Drain (r : Drained)
  | Unregister (r : result unit rstr)
  | StopBackground.

(** [signal_task] is whether the task waiting for the signals was joined. *)
Definition main_shutdown (clock : nat -> Z) (count : nat -> nat) (fuel : nat) (signal_task : bool)
    (unregister_result : result unit rstr) (m : ConnectionManager)
    : option (list ShutdownStep * ConnectionManager) :=
  let '(cancelled, m) := cancel_all m in
  let tail := if signal_task then [Unregister unregister_result; StopBackground] else [] in
  if 0 <? cancelled then
    match drain clock count fuel 0 (clock 0%nat + DRAIN_MS)%Z with
    | Some r => Some ([CancelToken; CancelAll cancelled; Drain r] ++ tail, m)
    | None => None
    end
  else Some ([CancelToken; CancelAll cancelled] ++ tail, m).

(** A server without connections does not drain. *)
Lemma main_shutdown_empty clock count fuel r m :
  connection_count m = 0 ->
  exists m', main_shutdown clock count fuel true r m
    = Some ([CancelToken; CancelAll 0; Unregister r; StopBackground], m').
Proof.
  intros Hm. unfold main_shutdown. pose proof (cancel_all_spec m) as Hc.
  destruct (cancel_all m) as [n m']. destruct Hc as [-> _]. rewrite Hm. by exists m'.
Qed.

(** ** Examples *)

Lemma on_user_diff_spec_witness :
  let '(_, m') := on_user_diff {| removed_ids := [7%Z]; uuid_changed_ids := [9%Z] |} two_users in
  manager_wf m' /\ connections m' = connections two_users
  /\ user_connections m' = user_connections two_users
  /\ forall id c, connections two_users !! id = Some c ->
     (is_cancelled (cancel_token c) m' = true <->
      is_cancelled (cancel_token c) two_users = true
      \/ user_id (info c) ∈ [7%Z] \/ user_id (info c) ∈ [9%Z]).
Proof.
  apply (on_user_diff_spec {| removed_ids := [7%Z]; uuid_changed_ids := [9%Z] |} two_users two_users_wf).
Defined.

(** One connection that does not go away. *)
Lemma drain_ends_witness :
  let clock k := (Z.of_nat k * 100)%Z in
  exists r, drain clock (fun _ => 1) 51 0 (clock 0%nat + DRAIN_MS)%Z = Some r
    /\ (forall fuel, 51 <= fuel -> drain clock (fun _ => 1) fuel 0 (clock 0%nat + DRAIN_MS)%Z = Some r)
    /\ match r with
       | AllDrained => exists k, k <= 50 /\ 1 = 0
       | DrainTimeout n => exists k, k <= 50 /\ 1 = n /\ 0 < n
           /\ (clock 0%nat + DRAIN_MS <= clock k)%Z /\ forall j, j <= k -> 0 < 1
       end.
Proof. apply (drain_ends (fun k => (Z.of_nat k * 100)%Z) (fun _ => 1)). intros k. unfold POLL_MS. lia. Defined.

(** A panel that sends a node on HTTP/3 with one user. *)
Definition ex_json : SerdeJson := fun _ => Ok (443%Z, Some Udp, None).

Definition ex_panel : Panel (list (UserId * rstr)) := {|
  api_new := fun _ => Ok tt;
  fetch_config := Ok (NaiveNode []);
  initialize := fun _ => Ok tt;
  user_manager_new := [];
  fetch_users := Ok (Some [(7%Z, str "uuid")]);
  um_init := fun us _ => us
|}.

Definition no_acl_file : AclFile := {| read_acl_file := fun _ => Err []; parse_yaml := fun _ => Err [] |}.

Definition ex_server_config : ServerConfig := {|
  sc_port := 443; sc_cert := Some (str "/root/.cert/server.crt");
  sc_key := Some (str "/root/.cert/server.key"); sc_acl_conf_file := None;
  sc_data_dir := DEFAULT_DATA_DIR; sc_block_private_ip := true; sc_congestion_control := Bbr
|}.

Definition ex_server : @Server plain_rule (NaiveAuthenticator (list (UserId * rstr)))
    (NaiveStatsCollector unit) unit :=
  mkServer (mkAuthenticator [(7%Z, str "uuid")]) (mkCollector tt)
    (ByDirect {| dr_block_private_ip := true |}) Manager_new (from_cli (CliArgs_default 1) 20971) tt.

Lemma main_start_safe_witness :
  valid (fs := all_files) (CliArgs_default 1)
  /\ DynRouter_closed (cache := dns_ex) (s_router ex_server) = true
  /\ (1 <= cc_max_connections (s_conn_config ex_server))%Z
  /\ s_conn_manager ex_server = Manager_new
  /\ sc_cert ex_server_config = Some (cert_file (CliArgs_default 1))
  /\ sc_key ex_server_config = Some (key_file (CliArgs_default 1)).
Proof.
  apply (main_start_safe (engines := plain_rule) (sockets := no_sockets) (cache := dns_ex) (fs := all_files) (file := no_acl_file) (sys := machine)
    (sj := ex_json) (panel := ex_panel) (CliArgs_default 1) tt ex_server ex_server_config true
    (str "auto")).
  - reflexivity.
  - vm_compute. reflexivity.
Defined.
