(* ===== verification/DgramBuffer.v ===== *)
(** * [patches/datagram-socket/src/buffer.rs]: datagrams with headroom

    [DgramBuffer] is a [Vec<u8>] and the position at which the datagram starts.
    Its operations are functions that return [None] where the code panics; the
    specification is a datagram and the room in front of it ([View]).
    [overflow_checks] is the setting of the build profile: with it an overflow
    of [usize] panics, without it wraps. *)

From S2P Require Import Prelude RustStr.
Open Scope Z_scope.

(** A [Vec] has at most [isize::MAX] bytes. *)
Definition isize_max : Z := 9223372036854775807.

Definition vec_len {A} (v : list A) : Z := Z.of_nat (length v).

Record DgramBuffer : Type := mkBuffer { data : bytes; start : Z }.

Definition buffer_new : DgramBuffer := mkBuffer [] 0.
Definition from_slice (bs : bytes) : DgramBuffer := mkBuffer bs 0.
Definition with_capacity (capacity : Z) : option DgramBuffer :=
  if isize_max <? capacity then None else Some (mkBuffer [] 0).

Definition with_capacity_and_headroom (capacity headroom : Z) : option DgramBuffer :=
  if (headroom <=? capacity) && (capacity <=? isize_max) then Some (mkBuffer (replicate (Z.to_nat headroom) 0) headroom) else None.

Definition from_vec_with_headroom (v : bytes) (headroom : Z) : option DgramBuffer :=
  if headroom <=? vec_len v then Some (mkBuffer v headroom) else None.

Section Buffer.
Variable overflow_checks : bool.

Definition usize_add (a b : Z) : option Z :=
  if a + b <=? u64_max then Some (a + b) else if overflow_checks then None else Some (u64_wrap (a + b)).

(** [Vec::truncate]. *)
Definition vec_truncate (n : Z) (v : bytes) : bytes := if n <? vec_len v then take (Z.to_nat n) v else v.

Definition truncate (count : Z) (b : DgramBuffer) : option DgramBuffer :=
  n ← usize_add (start b) count; Some (mkBuffer (vec_truncate n (data b)) (start b)).

Definition advance (count : Z) (b : DgramBuffer) : option DgramBuffer :=
  n ← usize_add (start b) count;
  if n <=? vec_len (data b) then Some (mkBuffer (data b) n) else None.

Definition try_add_prefix (prefix : bytes) (b : DgramBuffer) : result unit unit * DgramBuffer :=
  if start b <? vec_len prefix then (Err tt, b)
  else
    let s := start b - vec_len prefix in
    (Ok tt, mkBuffer (splice (Z.to_nat s) prefix (data b)) s).

Definition splice_headroom (headroom : Z) (b : DgramBuffer) : option DgramBuffer :=
  if headroom <=? start b then Some b
  else if isize_max <? headroom + (vec_len (data b) - start b) then None
  else Some (mkBuffer (replicate (Z.to_nat headroom) 0 ++ drop (Z.to_nat (start b)) (data b)) headroom).

Definition clear (b : DgramBuffer) : DgramBuffer := mkBuffer [] 0.

Definition buffer_len (b : DgramBuffer) : Z := vec_len (data b) - start b.
Definition buffer_is_empty (b : DgramBuffer) : bool := buffer_len b =? 0.
Definition as_slice (b : DgramBuffer) : bytes := drop (Z.to_nat (start b)) (data b).
Definition into_parts (b : DgramBuffer) : bytes * Z := (data b, start b).

(** [BufMut]: [put], [put_slice] and [put_bytes] append to the vector. *)
Definition put_slice (src : bytes) (b : DgramBuffer) : option DgramBuffer :=
  if isize_max <? vec_len (data b) + vec_len src then None
  else Some (mkBuffer (data b ++ src) (start b)).

Definition put_bytes (val : Z) (cnt : nat) (b : DgramBuffer) : option DgramBuffer :=
  put_slice (replicate cnt val) b.

(** [{:02x}]. *)
Definition show_02x (byte : Z) : rstr :=
  let s := show_hex byte in if (length s =? 1)%nat then str "0" ++ s else s.

Fixpoint debug_bytes (i : nat) (bs : bytes) : rstr :=
  match bs with
  | [] => []
  | byte :: bs =>
      (if ((0 <? i) && (i mod 4 =? 0))%nat then str "_" else []) ++ show_02x byte ++ debug_bytes (S i) bs
  end.

Definition buffer_debug (b : DgramBuffer) : rstr :=
  if buffer_is_empty b then str "[]"
  else str "[0x" ++ debug_bytes 0 (as_slice b) ++ str ", len=" ++ show_dec (buffer_len b) ++ str "]".

(** ** The specification *)

(** A datagram and the bytes that can be put in front of it. *)
Record View : Type := mkView { headroom : Z; payload : bytes }.

Definition view (b : DgramBuffer) : View := mkView (start b) (as_slice b).

Definition buffer_wf (b : DgramBuffer) : Prop := 0 <= start b <= vec_len (data b) /\ vec_len (data b) <= isize_max.

Inductive buffer_op : Type :=
  | Truncate (count : Z)
  | Advance (count : Z)
  | AddPrefix (prefix : bytes)
  | SpliceHeadroom (room : Z)
  | Clear
  | Put (src : bytes)
  | PutBytes (val : Z) (cnt : nat).

Definition run_op (o : buffer_op) (b : DgramBuffer) : option DgramBuffer :=
  match o with
  | Truncate count => truncate count b
  | Advance count => advance count b
  | AddPrefix prefix => Some (try_add_prefix prefix b).2
  | SpliceHeadroom room => splice_headroom room b
  | Clear => Some (clear b)
  | Put src => put_slice src b
  | PutBytes val cnt => put_bytes val cnt b
  end.

(** What the operations mean: they fail only when asked for more than there is,
    or for more than memory. *)
Definition fits (h : Z) (bs : bytes) : option View :=
  if isize_max <? h + vec_len bs then None else Some (mkView h bs).

Definition spec_op (o : buffer_op) (v : View) : option View :=
  match o with
  | Truncate count => Some (mkView (headroom v) (take (Z.to_nat count) (payload v)))
  | Advance count =>
      if count <=? vec_len (payload v)
      then Some (mkView (headroom v + count) (drop (Z.to_nat count) (payload v))) else None
  | AddPrefix prefix =>
      if headroom v <? vec_len prefix then Some v
      else Some (mkView (headroom v - vec_len prefix) (prefix ++ payload v))
  | SpliceHeadroom room => if room <=? headroom v then Some v else fits room (payload v)
  | Clear => Some (mkView 0 [])
  | Put src => fits (headroom v) (payload v ++ src)
  | PutBytes val cnt => fits (headroom v) (payload v ++ replicate cnt val)
  end.

(** The counts a caller can pass without an overflow of [usize]: any length of
    memory is. *)
Definition op_small (o : buffer_op) : Prop :=
  match o with
  | Truncate c | Advance c => 0 <= c <= isize_max
  | SpliceHeadroom r => 0 <= r
  | _ => True
  end.

Fixpoint run_buffer (ops : list buffer_op) (b : DgramBuffer) : option DgramBuffer :=
  match ops with [] => Some b | o :: ops => b ← run_op o b; run_buffer ops b end.

Fixpoint run_view (ops : list buffer_op) (v : View) : option View :=
  match ops with [] => Some v | o :: ops => v ← spec_op o v; run_view ops v end.

Lemma usize_add_small a b : 0 <= a <= isize_max -> 0 <= b <= isize_max -> usize_add a b = Some (a + b).
Proof. unfold usize_add, isize_max, u64_max. intros. by destruct (Z.leb_spec (a + b) 18446744073709551615); [|lia]. Qed.

Lemma as_slice_len b : buffer_wf b -> vec_len (as_slice b) = buffer_len b.
Proof. unfold buffer_wf, vec_len, as_slice, buffer_len. rewrite length_drop. unfold vec_len. lia. Qed.

Ltac buffer_lia := unfold buffer_wf, vec_len, isize_max in *; cbn [data start headroom payload] in *; lia.

Lemma put_refines src b :
  buffer_wf b ->
  match put_slice src b with
  | Some b' => buffer_wf b' /\ fits (start b) (as_slice b ++ src) = Some (view b')
  | None => fits (start b) (as_slice b ++ src) = None
  end.
Proof.
  destruct b as [d s]. intros Hwf. unfold put_slice, view, fits, as_slice, buffer_wf, vec_len in *.
  cbn [start data] in *. rewrite length_app.
  destruct (Z.ltb_spec isize_max (Z.of_nat (length d) + Z.of_nat (length src))),
    (Z.ltb_spec isize_max (s + Z.of_nat (length (drop (Z.to_nat s) d) + length src)));
    rewrite length_drop in *; try lia; [done|].
  cbn [start data]. rewrite length_app. split; [lia|]. do 2 f_equal. rewrite drop_app_le; [done|lia].
Qed.

(** One operation does what it means. *)
Lemma op_refines o b :
  buffer_wf b -> op_small o ->
  match run_op o b with
  | Some b' => buffer_wf b' /\ spec_op o (view b) = Some (view b')
  | None => spec_op o (view b) = None
  end.
Proof.
  destruct b as [d s]. intros Hwf Ho. pose proof (as_slice_len _ Hwf) as Hlen.
  destruct o as [count|count|pre|room| |src|val cnt]; simpl in Ho |- *.
  - unfold truncate. simpl. rewrite usize_add_small by buffer_lia. simpl. unfold vec_truncate, view, as_slice. simpl.
    destruct (Z.ltb_spec (s + count) (vec_len d)).
    + split.
      * unfold buffer_wf, vec_len in *. simpl in *. rewrite length_take. lia.
      * do 2 f_equal. unfold buffer_wf in Hwf. simpl in Hwf. rewrite <- take_drop_swap by lia. f_equal. lia.
    + split; [done|]. do 2 f_equal. rewrite take_ge; [done|]. rewrite length_drop. buffer_lia.
  - unfold advance. simpl. rewrite usize_add_small by buffer_lia. simpl. rewrite Hlen. unfold buffer_len. simpl.
    destruct (Z.leb_spec (s + count) (vec_len d)), (Z.leb_spec count (vec_len d - s)); try lia; [|done].
    split; [buffer_lia|]. unfold view, as_slice. simpl. do 2 f_equal. rewrite drop_drop. f_equal. buffer_lia.
  - unfold try_add_prefix, view. simpl. destruct (Z.ltb_spec s (vec_len pre)); simpl; [done|].
    unfold buffer_wf, vec_len, as_slice in *. simpl in *. split.
    + rewrite splice_length by lia. lia.
    + do 2 f_equal. unfold splice. rewrite drop_app_ge by (rewrite length_take; lia).
      rewrite length_take. replace (_ - _)%nat with 0%nat by lia. rewrite drop_0. do 2 f_equal. lia.
  - unfold splice_headroom, view, fits. cbn [start data headroom payload]. rewrite Hlen. unfold buffer_len. simpl.
    destruct (Z.leb_spec room s); [done|]. destruct (Z.ltb_spec isize_max (room + (vec_len d - s))); [done|].
    unfold buffer_wf, vec_len, as_slice in *. simpl in *. rewrite length_app, length_replicate, length_drop. split; [lia|].
    do 2 f_equal. by rewrite drop_app_ge, length_replicate, Nat.sub_diag, drop_0 by (rewrite length_replicate; lia).
  - split; [by vm_compute|done].
  - exact (put_refines src (mkBuffer d s) Hwf).
  - exact (put_refines (replicate cnt val) (mkBuffer d s) Hwf).
Qed.

(** C39: a datagram buffer refines its specification, in every build profile, for
    counts up to [isize::MAX], as the length of anything in memory is
    ([op_small]): after any sequence of operations its bytes are those of the
    datagram with the same operations applied to it, its headroom is what it
    should be, and it panics exactly when the specification fails.  Above that
    bound it is false: [truncate_wraps]. *)
Theorem buffer_refines ops b :
  buffer_wf b -> Forall op_small ops ->
  view <$> run_buffer ops b = run_view ops (view b)
  /\ (forall b', run_buffer ops b = Some b' -> buffer_wf b').
Proof.
  intros Hwf Hops. revert b Hwf. induction Hops as [|o ops Ho _ IH]; intros b Hwf; simpl.
  { split; [done|]. by intros b' [= <-]. }
  pose proof (op_refines o b Hwf Ho) as H. destruct (run_op o b) as [b1|]; simpl.
  - destruct H as [Hwf1 ->]. apply (IH b1 Hwf1).
  - by rewrite H.
Qed.

(** A prefix that was added is what advancing over it takes off. *)
Lemma prefix_advance pre b :
  buffer_wf b -> vec_len pre <= start b ->
  advance (vec_len pre) (try_add_prefix pre b).2
    = Some (mkBuffer (splice (Z.to_nat (start b - vec_len pre)) pre (data b)) (start b))
  /\ view <$> advance (vec_len pre) (try_add_prefix pre b).2 = Some (view b).
Proof.
  intros Hwf Hp. pose proof (op_refines (AddPrefix pre) b Hwf I) as [Hwf1 H1].
  assert (0 <= vec_len pre <= isize_max) as Hs by (unfold buffer_wf, vec_len in *; lia).
  pose proof (op_refines (Advance (vec_len pre)) _ Hwf1 Hs) as H2. simpl in H1, H2.
  destruct (Z.ltb_spec (start b) (vec_len pre)); [lia|].
  injection H1 as Hh Hpl. rewrite <- Hh, <- Hpl in H2.
  assert (vec_len pre <= vec_len (pre ++ as_slice b)) as Hle
    by (unfold vec_len; rewrite length_app; lia).
  destruct (Z.leb_spec (vec_len pre) (vec_len (pre ++ as_slice b))); [|lia].
  split.
  - unfold try_add_prefix, advance. destruct (Z.ltb_spec (start b) (vec_len pre)); [lia|]. simpl.
    rewrite usize_add_small by (unfold buffer_wf, isize_max in *; lia). simpl.
    unfold buffer_wf, vec_len in *. rewrite splice_length by lia.
    destruct (Z.leb_spec (start b - Z.of_nat (length pre) + Z.of_nat (length pre)) (Z.of_nat (length (data b)))); [|lia].
    do 2 f_equal. lia.
  - destruct (advance _ _) as [b'|]; [|done]. destruct H2 as [_ H2]. simpl. rewrite <- H2.
    unfold view. do 2 f_equal; [lia|]. unfold vec_len. by rewrite Nat2Z.id, drop_app_length.
Qed.
End Buffer.

(** Without overflow checks a count close to [usize::MAX], which is documented
    to have no effect, cuts into the headroom. *)
Lemma truncate_wraps :
  truncate false u64_max (mkBuffer [0; 0; 0; 1; 2] 3) = Some (mkBuffer [0; 0] 3)
  /\ ~ buffer_wf (mkBuffer [0; 0] 3).
Proof. split; [by vm_compute|]. intros [H _]. unfold vec_len in H. simpl in H. lia. Qed.

Example buffer_debug_ex :
  buffer_debug (mkBuffer [0; 1; 2; 3; 10; 255] 1) = str "[0x0102030a_ff, len=5]".
Proof. by vm_compute. Qed.

(** The prefix of the crate's own test. *)
Definition ex_ops : list buffer_op := [Put [170; 187]; AddPrefix [1; 2]; AddPrefix [66; 35]; AddPrefix [1]].

Lemma buffer_refines_witness :
  view <$> run_buffer true ex_ops (mkBuffer [0; 0; 0; 0] 4) = Some (mkView 0 [66; 35; 1; 2; 170; 187])
  /\ (forall b', run_buffer true ex_ops (mkBuffer [0; 0; 0; 0] 4) = Some b' -> buffer_wf b').
Proof.
  apply (buffer_refines true ex_ops (mkBuffer [0; 0; 0; 0] 4)).
  - split; simpl; [unfold vec_len; simpl; lia|by vm_compute].
  - by repeat constructor.
Defined.
