(* ===== verification/Datagram.v ===== *)
(** * [patches/datagram-socket/src/mmsg.rs]: batches of datagrams

    [recvmmsg] and [sendmmsg] over the system calls of that name, and the poll
    loop of their macros.  The kernel ([Mmsg]) and the readiness of the runtime
    ([Readiness]) are parameters. *)

From S2P Require Import Prelude RustStr RustNet DgramBuffer.
Open Scope nat_scope.

Definition MAX_DATAGRAM_SIZE : nat := 1500.
Definition MAX_MMSG : nat := 16.

(** [tokio::io::ReadBuf]: its capacity and its filled part. *)
Record ReadBuf : Type := mkBuf { capacity : nat; filled : bytes }.

Definition room (b : ReadBuf) : nat := capacity b - length (filled b).
Definition fill_buf (b : ReadBuf) (msg : bytes) : ReadBuf := mkBuf (capacity b) (filled b ++ msg).

(** Fill the buffers with messages, one each, as far as they go. *)
Fixpoint fill_all (bufs : list ReadBuf) (msgs : list bytes) : list ReadBuf :=
  match bufs, msgs with
  | b :: bufs, m :: msgs => fill_buf b m :: fill_all bufs msgs
  | _, _ => bufs
  end.

(** ** [recvmmsg] and [sendmmsg] *)

(** The system calls on a socket: [None] is -1; a call receives at most one
    datagram per buffer, cut to the buffer's room, and takes nothing else from
    the queue; [errno] is what [last_os_error] reads. *)
Class Mmsg (S : Type) : Type := {
  sys_recvmmsg : list nat -> S -> option (list bytes) * S;
  sys_sendmmsg : list bytes -> S -> option nat * S;
  errno : S -> io_error;
  queue : S -> list bytes;
  sent : S -> list bytes;
  recvmmsg_law rooms s r s' : sys_recvmmsg rooms s = (r, s') ->
    match r with
    | None => queue s' = queue s
    | Some msgs => exists ds, queue s = ds ++ queue s' /\ length ds <= length rooms
        /\ msgs = zip_with take rooms ds
    end;
  sendmmsg_law msgs s r s' : sys_sendmmsg msgs s = (r, s') ->
    match r with
    | None => sent s' = sent s
    | Some k => k <= length msgs /\ sent s' = sent s ++ take k msgs
    end
}.

Section Mmsg.
Context {S : Type} `{!Mmsg S}.

(** [for bufs in bufs.chunks_mut(MAX_MMSG)]: the count, the buffers and the
    socket after the loop. *)
Fixpoint recv_chunks (fuel : nat) (bufs : list ReadBuf) (s : S) (ret : nat) : nat * list ReadBuf * S :=
  match fuel, bufs with
  | O, _ | _, [] => (ret, bufs, s)
  | Datatypes.S fuel, _ =>
      let chunk := take MAX_MMSG bufs in
      let rest := drop MAX_MMSG bufs in
      match sys_recvmmsg (map room chunk) s with
      | (None, s) => (ret, bufs, s)
      | (Some msgs, s) =>
          let chunk := fill_all chunk msgs in
          let ret := ret + length msgs in
          if length msgs <? MAX_MMSG then (ret, chunk ++ rest, s)
          else
            let '(ret, rest, s) := recv_chunks fuel rest s ret in
            (ret, chunk ++ rest, s)
      end
  end.

Definition recvmmsg (bufs : list ReadBuf) (s : S) : io_result nat * list ReadBuf * S :=
  let '(ret, bufs, s) := recv_chunks (length bufs) bufs s 0 in
  (if ret =? 0 then Err (errno s) else Ok ret, bufs, s).

Fixpoint send_chunks (fuel : nat) (bufs : list ReadBuf) (s : S) (ret : nat) : nat * S :=
  match fuel, bufs with
  | O, _ | _, [] => (ret, s)
  | Datatypes.S fuel, _ =>
      match sys_sendmmsg (map filled (take MAX_MMSG bufs)) s with
      | (None, s) => (ret, s)
      | (Some result, s) =>
          let ret := ret + result in
          if result <? MAX_MMSG then (ret, s) else send_chunks fuel (drop MAX_MMSG bufs) s ret
      end
  end.

Definition sendmmsg (bufs : list ReadBuf) (s : S) : io_result nat * S :=
  let '(ret, s) := send_chunks (length bufs) bufs s 0 in
  (if ret =? 0 then Err (errno s) else Ok ret, s).

(** *** What they promise *)

(** The datagrams as the buffers hold them. *)
Definition cut (bufs : list ReadBuf) (ds : list bytes) : list bytes := zip_with take (map room bufs) ds.

Lemma cut_length bufs ds : length ds <= length bufs -> length (cut bufs ds) = length ds.
Proof. intros H. unfold cut. rewrite length_zip_with, length_map. lia. Qed.

Lemma fill_all_nil bufs : fill_all bufs [] = bufs.
Proof. by destruct bufs. Qed.

Lemma cut_nil bufs : cut bufs [] = [].
Proof. by destruct bufs. Qed.

Lemma fill_all_app b1 b2 ds1 ds2 :
  length ds1 = length b1 ->
  fill_all (b1 ++ b2) (cut (b1 ++ b2) (ds1 ++ ds2)) = fill_all b1 (cut b1 ds1) ++ fill_all b2 (cut b2 ds2).
Proof.
  revert ds1. induction b1 as [|b b1 IH]; intros [|d ds1]; try done. intros [= H].
  unfold cut in *. simpl. by rewrite (IH ds1 H).
Qed.

Lemma fill_all_short b1 b2 ds :
  length ds <= length b1 -> fill_all (b1 ++ b2) (cut (b1 ++ b2) ds) = fill_all b1 (cut b1 ds) ++ b2.
Proof.
  revert ds. induction b1 as [|b b1 IH]; intros [|d ds]; simpl; intros H; try lia.
  - by rewrite cut_nil, fill_all_nil.
  - done.
  - unfold cut in *. simpl. f_equal. apply IH. lia.
Qed.

Lemma recv_chunks_spec fuel bufs s ret ret' bufs' s' :
  length bufs <= fuel -> recv_chunks fuel bufs s ret = (ret', bufs', s') ->
  exists ds, queue s = ds ++ queue s' /\ length ds <= length bufs /\ ret' = ret + length ds
    /\ bufs' = fill_all bufs (cut bufs ds).
Proof.
  revert bufs s ret ret' bufs' s'. induction fuel as [|fuel IH]; intros bufs s ret ret' bufs' s' Hf.
  { assert (bufs = []) as -> by (destruct bufs; [done|simpl in Hf; lia]).
    intros [= <- <- <-]. exists []. split_and!; try done. }
  destruct bufs as [|b0 bufs0] eqn:Eb.
  { intros [= <- <- <-]. exists []. split_and!; try done. }
  rewrite <- Eb in *. assert (0 < length bufs) as Hpos by (rewrite Eb; simpl; lia).
  replace (recv_chunks (Datatypes.S fuel) bufs s ret) with
    (match sys_recvmmsg (map room (take MAX_MMSG bufs)) s with
     | (None, s) => (ret, bufs, s)
     | (Some msgs, s) =>
         if length msgs <? MAX_MMSG
         then (ret + length msgs, fill_all (take MAX_MMSG bufs) msgs ++ drop MAX_MMSG bufs, s)
         else
           let '(ret, rest, s) := recv_chunks fuel (drop MAX_MMSG bufs) s (ret + length msgs) in
           (ret, fill_all (take MAX_MMSG bufs) msgs ++ rest, s)
     end) by by rewrite Eb.
  clear Eb b0 bufs0.
  destruct (sys_recvmmsg _ s) as [[msgs|] s1] eqn:Es; apply recvmmsg_law in Es.
  2: { intros [= <- <- <-]. exists []. rewrite cut_nil, fill_all_nil, Es. split_and!; simpl; done || lia. }
  destruct Es as (ds & Hq & Hl & ->). rewrite length_map in Hl.
  fold (cut (take MAX_MMSG bufs) ds). rewrite (cut_length _ _ Hl).
  assert (length ds <= length bufs) as Hl' by (rewrite length_take in Hl; lia).
  destruct (length ds <? MAX_MMSG) eqn:E16; bool_facts.
  - intros [= <- <- <-]. exists ds. split_and!; try done.
    by rewrite <- fill_all_short, take_drop by done.
  - assert (length ds = length (take MAX_MMSG bufs)) as Hfull by (rewrite length_take in *; lia).
    destruct (recv_chunks fuel _ s1 _) as [[r2 b2] s2] eqn:E2. intros [= <- <- <-].
    apply IH in E2 as (ds2 & Hq2 & Hl2 & -> & ->); [|rewrite length_drop; unfold MAX_MMSG; lia].
    exists (ds ++ ds2). split_and!.
    + by rewrite Hq, Hq2, app_assoc.
    + rewrite length_app. rewrite length_drop in Hl2. rewrite length_take in Hfull. lia.
    + rewrite length_app. lia.
    + by rewrite <- fill_all_app, take_drop by done.
Qed.

(** [recvmmsg] loses, invents and reorders nothing, however many chunks of
    sixteen it makes and wherever a call stops: the datagrams that left the
    socket's queue are those in the first buffers, one each, in order and cut
    only to the buffer's room; their number is the result, and an error means
    that none was taken. *)
Lemma recvmmsg_faithful bufs s r bufs' s' :
  recvmmsg bufs s = (r, bufs', s') ->
  exists ds, queue s = ds ++ queue s' /\ length ds <= length bufs
    /\ bufs' = fill_all bufs (cut bufs ds)
    /\ match r with
       | Ok n => n = length ds /\ 0 < n
       | Err e => ds = [] /\ bufs' = bufs /\ e = errno s'
       end.
Proof.
  unfold recvmmsg. destruct (recv_chunks _ bufs s 0) as [[ret b] s1] eqn:E.
  apply recv_chunks_spec in E as (ds & Hq & Hl & -> & ->); [|done]. simpl.
  intros [= <- <- <-]. exists ds. split_and!; try done.
  destruct (length ds =? 0) eqn:E0; bool_facts; [|split; [done|lia]].
  apply length_zero_nil in E0 as ->. split_and!; try done. by rewrite cut_nil, fill_all_nil.
Qed.

Lemma send_chunks_spec fuel bufs s ret ret' s' :
  send_chunks fuel bufs s ret = (ret', s') ->
  exists n, n <= length bufs /\ ret' = ret + n /\ sent s' = sent s ++ take n (map filled bufs).
Proof.
  revert bufs s ret. induction fuel as [|fuel IH]; intros bufs s ret.
  { intros [= <- <-]. exists 0. rewrite take_0, app_nil_r. split_and!; [lia..|done]. }
  destruct bufs as [|b bufs0] eqn:Eb.
  { intros [= <- <-]. exists 0. rewrite app_nil_r. split_and!; [lia..|done]. }
  rewrite <- Eb. replace (send_chunks (Datatypes.S fuel) bufs s ret) with
    (match sys_sendmmsg (map filled (take MAX_MMSG bufs)) s with
     | (None, s) => (ret, s)
     | (Some result, s) =>
         if result <? MAX_MMSG then (ret + result, s)
         else send_chunks fuel (drop MAX_MMSG bufs) s (ret + result)
     end) by by rewrite Eb.
  clear Eb b bufs0. destruct (sys_sendmmsg _ s) as [[k|] s1] eqn:Es; apply sendmmsg_law in Es.
  2: { intros [= <- <-]. exists 0. rewrite Es, take_0, app_nil_r. split_and!; [lia..|done]. }
  destruct Es as [Hk Hs]. rewrite length_map, length_take in Hk. rewrite firstn_map, take_take in Hs.
  destruct (k <? MAX_MMSG) eqn:E16; bool_facts.
  - intros [= <- <-]. exists k. split_and!; [lia..|]. rewrite Hs, firstn_map. do 3 f_equal. lia.
  - intros H. apply IH in H as (n & Hn & -> & Hs'). rewrite length_drop in Hn.
    exists (k + n). split_and!; [lia..|]. rewrite Hs', Hs, <- app_assoc. f_equal.
    rewrite Nat.min_l by lia. assert (k = MAX_MMSG) as -> by lia.
    by rewrite !firstn_map, <- map_app, take_drop_split.
Qed.

(** [sendmmsg] sends the datagrams of the first buffers, in order; the result is
    their number, and an error means that none was sent. *)
Lemma sendmmsg_faithful bufs s r s' :
  sendmmsg bufs s = (r, s') ->
  exists n, n <= length bufs /\ sent s' = sent s ++ take n (map filled bufs)
    /\ r = if n =? 0 then Err (errno s') else Ok n.
Proof.
  unfold sendmmsg. destruct (send_chunks _ bufs s 0) as [ret s1] eqn:E.
  apply send_chunks_spec in E as (n & Hn & -> & Hs). intros [= <- <-]. by exists n.
Qed.
End Mmsg.

(** ** The poll loops of the macros *)

(** The registration of a socket with the runtime: [poll_recv_ready] or
    [poll_send_ready]; [clear_ready] is what [try_io] does when the operation
    reports [WouldBlock]; [events] bounds the readiness events still to come. *)
Class Readiness (S : Type) : Type := {
  poll_ready : S -> poll (io_result unit) * S;
  clear_ready : S -> S;
  events : S -> nat;
  ready_law s p s' : poll_ready s = (p, s') -> events s' <= events s;
  clear_law s : events s <> 0 -> events (clear_ready s) < events s;
  event_law s s' : poll_ready s = (Ready (Ok tt), s') -> events s' <> 0
}.

Section PollLoop.
Context {S A : Type} `{!Readiness S}.
(** The closure given to [try_io]. *)
Variable op : S -> io_result A * S.

Fixpoint poll_mmsg (fuel : nat) (s : S) : option (poll (io_result A) * S) :=
  match fuel with
  | O => None
  | Datatypes.S fuel =>
      match poll_ready s with
      | (Pending, s) => Some (Pending, s)
      | (Ready (Err e), s) => Some (Ready (Err e), s)
      | (Ready (Ok _), s) =>
          match op s with
          | (Err e, s) =>
              if bool_decide (ek e = WouldBlock) then poll_mmsg fuel (clear_ready s)
              else Some (Ready (Err e), s)
          | (Ok n, s) => Some (Ready (Ok n), s)
          end
      end
  end.

Context (op_events : forall s, events (op s).2 = events s).

Lemma poll_mmsg_mono fuel fuel' s r :
  poll_mmsg fuel s = Some r -> fuel <= fuel' -> poll_mmsg fuel' s = Some r.
Proof.
  revert fuel' s. induction fuel as [|fuel IH]; intros [|fuel'] s; try done; [lia|]. cbn [poll_mmsg].
  intros H Hle. destruct (poll_ready s) as [[|[[]|e]] s1]; try done.
  destruct (op s1) as [[n|e] s2]; [done|]. case_bool_decide; [|done]. apply IH; [done|lia].
Qed.

Lemma poll_mmsg_total fuel s :
  (forall s' e s'', poll_ready s' = (Ready (Err e), s'') -> ek e <> WouldBlock) -> events s < fuel ->
  exists p s', poll_mmsg fuel s = Some (p, s') /\ forall e, p = Ready (Err e) -> ek e <> WouldBlock.
Proof.
  intros Hr. revert s. induction fuel as [|fuel IH]; intros s Hf; [lia|]. cbn [poll_mmsg].
  destruct (poll_ready s) as [[|[[]|e]] s1] eqn:E.
  - by eexists _, _.
  - pose proof (ready_law _ _ _ E). pose proof (event_law _ _ E) as Hev.
    pose proof (op_events s1) as Ho. destruct (op s1) as [[n|e] s2]; cbn [snd] in Ho.
    + by eexists _, _.
    + case_bool_decide as Hw.
      * pose proof (clear_law s2 ltac:(lia)). apply IH. lia.
      * eexists _, _. split; [done|]. by intros ? [= <-].
  - eexists _, _. split; [done|]. intros ? [= <-]. by eapply Hr.
Qed.

(** A poll of [recv_many] or [send_many] returns, and never with the
    [WouldBlock] that the documentation of the traits excludes, unless the
    runtime itself reports it. *)
Theorem poll_mmsg_returns s :
  (forall s' e s'', poll_ready s' = (Ready (Err e), s'') -> ek e <> WouldBlock) ->
  exists p s', (forall fuel, events s < fuel -> poll_mmsg fuel s = Some (p, s'))
    /\ (forall e, p = Ready (Err e) -> ek e <> WouldBlock).
Proof.
  intros Hr. destruct (poll_mmsg_total (Datatypes.S (events s)) s Hr ltac:(lia)) as (p & s' & Hp & He).
  exists p, s'. split; [|done]. intros fuel Hf. by eapply poll_mmsg_mono.
Qed.
End PollLoop.

(** [poll_sendmmsg!] and [poll_recvmmsg!] on a socket: [events] bounds the turns. *)
Section Macros.
Context {S : Type} `{!Readiness S, !Mmsg S}.

Definition poll_sendmmsg (bufs : list ReadBuf) (s : S) : poll (io_result nat) * S :=
  default (Pending, s) (poll_mmsg (sendmmsg bufs) (Datatypes.S (events s)) s).

(** The closure fills the caller's buffers whatever its result. *)
Definition recv_op (sb : S * list ReadBuf) : io_result nat * (S * list ReadBuf) :=
  let '(r, bufs, s) := recvmmsg sb.2 sb.1 in (r, (s, bufs)).

#[export] Program Instance with_bufs : Readiness (S * list ReadBuf) := {|
  poll_ready := fun sb => let '(p, s) := poll_ready sb.1 in (p, (s, sb.2));
  clear_ready := fun sb => (clear_ready sb.1, sb.2);
  events := fun sb => events sb.1
|}.
Next Obligation.
  intros [s bs] p s'. simpl. destruct (poll_ready s) eqn:E. intros [= <- <-]. by eapply ready_law.
Qed.
Next Obligation. intros [s bs]. apply clear_law. Qed.
Next Obligation.
  intros [s bs] s'. simpl. destruct (poll_ready s) eqn:E. intros [= -> <-]. by eapply event_law.
Qed.

Definition poll_recvmmsg (bufs : list ReadBuf) (s : S) : poll (io_result nat) * list ReadBuf * S :=
  let '(p, (s, bufs)) := default (Pending, (s, bufs)) (poll_mmsg recv_op (Datatypes.S (events s)) (s, bufs)) in
  (p, bufs, s).

(** The runtime's registration neither sends nor receives, and a system call
    makes no readiness event. *)
Class SocketLaws : Prop := {
  ready_sent (s : S) p s' : poll_ready s = (p, s') -> sent s' = sent s /\ queue s' = queue s;
  clear_sent (s : S) : sent (clear_ready s) = sent s /\ queue (clear_ready s) = queue s;
  send_events bufs (s : S) : events (sendmmsg bufs s).2 = events s;
  recv_events bufs (s : S) : events (recvmmsg bufs s).2 = events s;
  ready_error (s : S) e s' : poll_ready s = (Ready (Err e), s') -> ek e <> WouldBlock
}.
Context {laws : SocketLaws}.

Lemma poll_sendmmsg_fuel fuel bufs s p s' :
  poll_mmsg (sendmmsg bufs) fuel s = Some (p, s') ->
  exists n, n <= length bufs /\ sent s' = sent s ++ take n (map filled bufs)
    /\ match p with Ready (Ok k) => k = n /\ 0 < n | _ => n = 0 end.
Proof.
  revert s. induction fuel as [|fuel IH]; intros s; [done|]. cbn [poll_mmsg].
  destruct (poll_ready s) as [q s1] eqn:Er. apply ready_sent in Er as [<- _]. destruct q as [|[[]|e]].
  - intros [= <- <-]. exists 0. rewrite take_0, app_nil_r. split_and!; lia || done.
  - destruct (sendmmsg bufs s1) as [r s2] eqn:Es. apply sendmmsg_faithful in Es as (n & Hn & Hs & ->).
    destruct (n =? 0) eqn:E0; bool_facts.
    + subst n. rewrite take_0, app_nil_r in Hs. rewrite <- Hs. case_bool_decide.
      * intros H0. apply IH in H0. by rewrite (proj1 (clear_sent _)) in H0.
      * intros [= <- <-]. exists 0. rewrite take_0, app_nil_r. split_and!; lia || done.
    + intros [= <- <-]. exists n. split_and!; lia || done.
  - intros [= <- <-]. exists 0. rewrite take_0, app_nil_r. split_and!; lia || done.
Qed.

(** [poll_sendmmsg!] sends a prefix of the datagrams, in order,
    reports its length, and reports an error or waits only when nothing was sent. *)
Lemma poll_sendmmsg_faithful bufs s p s' :
  poll_sendmmsg bufs s = (p, s') ->
  exists n, n <= length bufs /\ sent s' = sent s ++ take n (map filled bufs)
    /\ match p with Ready (Ok k) => k = n /\ 0 < n | Ready (Err e) => n = 0 /\ ek e <> WouldBlock | _ => n = 0 end.
Proof.
  unfold poll_sendmmsg.
  destruct (poll_mmsg_total (sendmmsg bufs) (send_events bufs) (Datatypes.S (events s)) s ready_error ltac:(lia))
    as (q & s2 & Hq & He). rewrite Hq. intros [= <- <-].
  apply poll_sendmmsg_fuel in Hq as (n & Hn & Hs & Hm). exists n. split_and!; try done.
  destruct q as [|[k|e]]; [done..|]. split; [done|]. by apply He.
Qed.
Lemma recv_op_events sb : events (recv_op sb).2 = events sb.
Proof.
  destruct sb as [s bufs]. unfold recv_op. pose proof (recv_events bufs s) as H. simpl in *.
  by destruct (recvmmsg bufs s) as [[r b] s'].
Qed.

Lemma poll_recvmmsg_fuel fuel s bufs p s' bufs' :
  poll_mmsg recv_op fuel (s, bufs) = Some (p, (s', bufs')) ->
  exists ds, queue s = ds ++ queue s' /\ length ds <= length bufs /\ bufs' = fill_all bufs (cut bufs ds)
    /\ match p with Ready (Ok n) => n = length ds /\ 0 < n | _ => ds = [] end.
Proof.
  assert (forall s', exists ds, queue s' = ds ++ queue s' /\ length ds <= length bufs
    /\ bufs = fill_all bufs (cut bufs ds) /\ ds = []) as Hnone.
  { intros s0. exists []. rewrite cut_nil, fill_all_nil. split_and!; simpl; lia || done. }
  revert s. induction fuel as [|fuel IH]; intros s; [done|]. cbn [poll_mmsg].
  unfold poll_ready at 1, with_bufs at 1. cbn [fst snd].
  destruct (poll_ready s) as [q s1] eqn:Er. apply ready_sent in Er as [_ <-]. destruct q as [|[[]|e]].
  - intros [= <- <- <-]. apply Hnone.
  - unfold recv_op at 1. cbn [fst snd]. destruct (recvmmsg bufs s1) as [[r b] s2] eqn:Es.
    apply recvmmsg_faithful in Es as (ds & Hq & Hl & Hb & Hr). destruct r as [n|e].
    + intros [= <- <- <-]. by exists ds.
    + destruct Hr as (-> & -> & _). simpl in Hq. rewrite Hq. case_bool_decide.
      * intros H0. apply IH in H0. by rewrite (proj2 (clear_sent _)) in H0.
      * intros [= <- <- <-]. apply Hnone.
  - intros [= <- <- <-]. apply Hnone.
Qed.

(** C40: a batch receive of a socket, [poll_recvmmsg!], loses, invents and
    reorders nothing, however many chunks of sixteen its system calls make and
    however often it finds the socket not ready after all: the datagrams that
    left the queue are those in the first buffers, one each, in order and cut
    only to the buffer's room; their number is the result, it waits or fails
    only when none was taken, and it never reports [WouldBlock]. *)
Theorem poll_recvmmsg_faithful bufs s p bufs' s' :
  poll_recvmmsg bufs s = (p, bufs', s') ->
  exists ds, queue s = ds ++ queue s' /\ length ds <= length bufs
    /\ bufs' = fill_all bufs (cut bufs ds)
    /\ match p with
       | Ready (Ok n) => n = length ds /\ 0 < n
       | Ready (Err e) => ds = [] /\ ek e <> WouldBlock
       | Pending => ds = []
       end.
Proof.
  unfold poll_recvmmsg.
  destruct (poll_mmsg_total recv_op recv_op_events (Datatypes.S (events s)) (s, bufs))
    as (q & [s2 b2] & Hq & He); [|simpl; lia|].
  { intros [s1 b1] e [s3 b3]. unfold poll_ready, with_bufs. cbn [fst snd].
    destruct (poll_ready s1) eqn:E. intros [= -> <- <-]. by eapply ready_error. }
  rewrite Hq. intros [= <- <- <-].
  apply poll_recvmmsg_fuel in Hq as (ds & H1 & H2 & H3 & H4). exists ds. split_and!; try done.
  destruct q as [|[n|e]]; [done..|]. split; [done|]. by apply He.
Qed.
End Macros.
Arguments SocketLaws S {_ _}.

(** ** A kernel, and its runs *)

(** A socket that holds the datagrams of a list and receives or sends at most
    [burst] of them with one call. *)
Record Sock : Type := mkSock { inbox : list bytes; outbox : list bytes; burst : nat }.

Definition eagain : io_error := mk_io_error WouldBlock [].

#[export] Program Instance Sock_mmsg : Mmsg Sock := {|
  sys_recvmmsg := fun rooms s =>
    match inbox s with
    | [] => (None, s)
    | d :: ds =>
        let ds' := take (burst s `min` length rooms) (d :: ds) in
        (Some (zip_with take rooms ds'), mkSock (drop (burst s `min` length rooms) (d :: ds)) (outbox s) (burst s))
    end;
  sys_sendmmsg := fun msgs s =>
    (Some (burst s `min` length msgs),
     mkSock (inbox s) (outbox s ++ take (burst s `min` length msgs) msgs) (burst s));
  errno := fun _ => eagain;
  queue := inbox;
  sent := outbox
|}.
Next Obligation.
  simpl. intros rooms s r s' H. destruct (inbox s) as [|d ds] eqn:E; injection H as <- <-; [done|].
  exists (take (burst s `min` length rooms) (d :: ds)). simpl inbox. rewrite take_drop, length_take. split_and!; done || lia.
Qed.
Next Obligation. intros msgs s r s'. simpl. intros [= <- <-]. simpl. split; [lia|done]. Qed.

Definition ex_inbox : list bytes := map (fun n => [Z.of_nat n; 7]%Z) (seq 0 18).
Definition ex_bufs : list ReadBuf := replicate 20 (mkBuf 1 []).

Definition ex_received : io_result nat * list ReadBuf * Sock := recvmmsg ex_bufs (mkSock ex_inbox [] 16).

Example recvmmsg_run :
  exists ds, queue (mkSock ex_inbox [] 16) = ds ++ queue ex_received.2 /\ length ds <= length ex_bufs
    /\ ex_received.1.2 = fill_all ex_bufs (cut ex_bufs ds)
    /\ match ex_received.1.1 with
       | Ok n => n = length ds /\ 0 < n
       | Err e => ds = [] /\ ex_received.1.2 = ex_bufs /\ e = errno ex_received.2
       end.
Proof.
  apply (recvmmsg_faithful ex_bufs (mkSock ex_inbox [] 16) ex_received.1.1 ex_received.1.2 ex_received.2).
  by vm_compute.
Defined.

(** Two calls: sixteen datagrams and two, each cut to the buffer's one byte. *)
Example recvmmsg_ex :
  ex_received.1.1 = Ok 18 /\ inbox ex_received.2 = []
  /\ concat (map filled ex_received.1.2) = map Z.of_nat (seq 0 18).
Proof. by vm_compute. Qed.

(** The same socket with the readiness events the runtime still has for it; the
    queue may be empty when one comes. *)
Record Polled : Type := mkPolled { kernel : Sock; wakes : nat }.

#[export] Program Instance Polled_mmsg : Mmsg Polled := {|
  sys_recvmmsg := fun rooms s =>
    let '(r, k) := sys_recvmmsg rooms (kernel s) in (r, mkPolled k (wakes s));
  sys_sendmmsg := fun msgs s =>
    let '(r, k) := sys_sendmmsg msgs (kernel s) in (r, mkPolled k (wakes s));
  errno := fun s => errno (kernel s);
  queue := fun s => queue (kernel s);
  sent := fun s => sent (kernel s)
|}.
Next Obligation.
  cbv beta. intros rooms [k w] r s'. simpl kernel. destruct (sys_recvmmsg rooms k) as [r1 k1] eqn:E.
  intros [= <- <-]. apply recvmmsg_law in E. exact E.
Qed.
Next Obligation.
  cbv beta. intros msgs [k w] r s'. simpl kernel. destruct (sys_sendmmsg msgs k) as [r1 k1] eqn:E.
  intros [= <- <-]. apply sendmmsg_law in E. exact E.
Qed.

#[export] Program Instance Polled_ready : Readiness Polled := {|
  poll_ready := fun s => (if wakes s =? 0 then Pending else Ready (Ok tt), s);
  clear_ready := fun s => mkPolled (kernel s) (wakes s - 1);
  events := wakes
|}.
Next Obligation. intros s p s' [= _ <-]. done. Qed.
Next Obligation. simpl. lia. Qed.
Next Obligation. simpl. intros s s'. destruct (wakes s =? 0) eqn:E; [done|]. intros [= <-]. bool_facts. lia. Qed.

Lemma polled_recv_events fuel bufs (s : Polled) n : wakes (recv_chunks fuel bufs s n).2 = wakes s.
Proof.
  revert bufs s n. induction fuel as [|fuel IH]; intros [|b bufs] [k w] n; try done.
  cbn [recv_chunks]. unfold sys_recvmmsg at 1, Polled_mmsg at 1. cbn [kernel wakes].
  destruct (sys_recvmmsg _ k) as [[msgs|] k1]; [|done]. case_match; [done|].
  match goal with |- context [recv_chunks ?f ?b ?s ?n] => specialize (IH b s n); destruct (recv_chunks f b s n) as [[? ?] ?] end.
  exact IH.
Qed.

Lemma polled_send_events fuel bufs (s : Polled) n : wakes (send_chunks fuel bufs s n).2 = wakes s.
Proof.
  revert bufs s n. induction fuel as [|fuel IH]; intros [|b bufs] [k w] n; try done.
  cbn [send_chunks]. unfold sys_sendmmsg at 1, Polled_mmsg at 1. cbn [kernel wakes].
  destruct (sys_sendmmsg _ k) as [[r|] k1]; [|done]. case_match; [done|]. by rewrite IH.
Qed.

#[export] Instance Polled_laws : SocketLaws Polled.
Proof.
  split.
  - by intros s p s' [= _ <-].
  - done.
  - intros bufs s. unfold sendmmsg. pose proof (polled_send_events (length bufs) bufs s 0) as H.
    by destruct (send_chunks _ _ _ _).
  - intros bufs s. unfold recvmmsg. pose proof (polled_recv_events (length bufs) bufs s 0) as H.
    by destruct (recv_chunks _ _ _ _) as [[? ?] ?].
  - intros s e s'. simpl. by destruct (wakes s =? 0).
Qed.

Definition ex_poll : poll (io_result nat) * list ReadBuf * Polled :=
  poll_recvmmsg ex_bufs (mkPolled (mkSock ex_inbox [] 16) 2).

Lemma poll_recvmmsg_faithful_witness :
  exists ds, queue (mkPolled (mkSock ex_inbox [] 16) 2) = ds ++ queue ex_poll.2 /\ length ds <= length ex_bufs
    /\ ex_poll.1.2 = fill_all ex_bufs (cut ex_bufs ds)
    /\ match ex_poll.1.1 with
       | Ready (Ok n) => n = length ds /\ 0 < n
       | Ready (Err e) => ds = [] /\ ek e <> WouldBlock
       | Pending => ds = []
       end.
Proof.
  apply (poll_recvmmsg_faithful ex_bufs (mkPolled (mkSock ex_inbox [] 16) 2) ex_poll.1.1 ex_poll.1.2 ex_poll.2).
  by vm_compute.
Defined.

(** With an empty queue the events are used up and the poll waits. *)
Example poll_recvmmsg_empty :
  poll_recvmmsg ex_bufs (mkPolled (mkSock [] [] 16) 2) = (Pending, ex_bufs, mkPolled (mkSock [] [] 16) 0).
Proof. by vm_compute. Qed.
