(* ===== verification/DgramSockets.v ===== *)
(** * [patches/datagram-socket/src/datagram.rs]: datagram sockets

    The traits with their default methods, the sockets that implement them,
    [MaybeConnectedSocket], and the forwarding of both traits to an inner
    socket; [is_nonblocking] of [lib.rs].  The single operations of tokio's sockets are parameters; batches
    are those of [Datagram]. *)

From S2P Require Import Prelude RustStr RustNet DgramBuffer Datagram.
Open Scope nat_scope.

(** ** The traits *)

(** [DatagramSocketSend::poll_send_many], the default, over [poll_send]. *)
Section DefaultSend.
Context {T : Type} (poll_send : bytes -> T -> poll (io_result nat) * T).

Fixpoint poll_send_from (sent : nat) (bufs : list ReadBuf) (s : T) : poll (io_result nat) * T :=
  match bufs with
  | [] => (Ready (Ok sent), s)
  | buf :: bufs =>
      match poll_send (filled buf) s with
      | (Ready (Ok _), s) => poll_send_from (sent + 1) bufs s
      | (Ready err, s) => if sent =? 0 then (Ready err, s) else (Ready (Ok sent), s)
      | (Pending, s) => if sent =? 0 then (Pending, s) else (Ready (Ok sent), s)
      end
  end.

Definition default_send_many (bufs : list ReadBuf) (s : T) : poll (io_result nat) * T := poll_send_from 0 bufs s.
End DefaultSend.

Class DatagramSocketSend (T : Type) : Type := {
  poll_send : bytes -> T -> poll (io_result nat) * T;
  poll_send_to : bytes -> SocketAddr -> T -> poll (io_result nat) * T;
  poll_send_many : list ReadBuf -> T -> poll (io_result nat) * T;
  peer_addr : T -> option SocketAddr
}.

(** [DatagramSocketRecv::poll_recv_from] and [poll_recv_many], the defaults, over
    [poll_recv]. *)
Section DefaultRecv.
Context {T : Type} (poll_recv : ReadBuf -> T -> poll (io_result unit) * ReadBuf * T).

(** The address is unspecified. *)
Definition default_recv_from (buf : ReadBuf) (s : T) : poll (io_result SocketAddr) * ReadBuf * T :=
  let '(p, buf, s) := poll_recv buf s in
  (match p with
   | Pending => Pending
   | Ready (Ok _) => Ready (Ok (SocketAddr_new (V4 (IPv4addr 0 0 0 0)) 0))
   | Ready (Err e) => Ready (Err e)
   end, buf, s).

Fixpoint poll_recv_from_nth (read : nat) (bufs : list ReadBuf) (s : T) : poll (io_result nat) * list ReadBuf * T :=
  match bufs with
  | [] => (Ready (Ok read), [], s)
  | buf :: bufs =>
      match poll_recv buf s with
      | (Ready (Ok _), buf, s) =>
          let '(p, bufs, s) := poll_recv_from_nth (read + 1) bufs s in (p, buf :: bufs, s)
      | (Ready (Err e), buf, s) => (Ready (Err e), buf :: bufs, s)
      | (Pending, buf, s) => (if read =? 0 then Pending else Ready (Ok read), buf :: bufs, s)
      end
  end.

Definition default_recv_many (bufs : list ReadBuf) (s : T) : poll (io_result nat) * list ReadBuf * T :=
  poll_recv_from_nth 0 bufs s.
End DefaultRecv.

Class DatagramSocketRecv (T : Type) : Type := {
  poll_recv : ReadBuf -> T -> poll (io_result unit) * ReadBuf * T;
  poll_recv_from : ReadBuf -> T -> poll (io_result SocketAddr) * ReadBuf * T;
  poll_recv_many : list ReadBuf -> T -> poll (io_result nat) * list ReadBuf * T
}.

(** ** The extension traits *)

Section Ext.
Context {T : Type} `{!DatagramSocketSend T, !DatagramSocketRecv T}.

(** [DatagramSocketSendExt::try_send] and [try_send_many]: one poll. *)
Definition now_or_never {A} (p : poll (io_result A)) : io_result A :=
  match p with Ready r => r | Pending => Err (mk_io_error WouldBlock (str "operation would block")) end.

Definition try_send (buf : bytes) (s : T) : io_result nat * T :=
  let '(p, s) := poll_send buf s in (now_or_never p, s).

Definition try_send_many (bufs : list ReadBuf) (s : T) : io_result nat * T :=
  let '(p, s) := poll_send_many bufs s in (now_or_never p, s).

(** [DatagramSocketRecvExt::recv] and [recv_from]: the number of bytes of the
    datagram, and its origin. *)
Definition poll_recv_len (size : nat) (s : T) : poll (io_result (nat * bytes)) * T :=
  match poll_recv (mkBuf size []) s with
  | (Pending, _, s) => (Pending, s)
  | (Ready (Ok _), buf, s) => (Ready (Ok (length (filled buf), filled buf)), s)
  | (Ready (Err e), _, s) => (Ready (Err e), s)
  end.

Definition poll_recv_len_from (size : nat) (s : T) : poll (io_result (nat * bytes * SocketAddr)) * T :=
  match poll_recv_from (mkBuf size []) s with
  | (Pending, _, s) => (Pending, s)
  | (Ready (Ok addr), buf, s) => (Ready (Ok (length (filled buf), filled buf, addr)), s)
  | (Ready (Err e), _, s) => (Ready (Err e), s)
  end.
End Ext.

(** ** Forwarding *)

(** A type that holds a socket: [AsDatagramSocketSend] and
    [AsDatagramSocketRecv], whose implementations for references, boxes and
    [Arc] hold just the socket. *)
Class AsDatagramSocket (T I : Type) : Type := { as_socket : T -> I; with_socket : T -> I -> T }.

#[export] Instance as_reference {I} : AsDatagramSocket I I := {| as_socket := id; with_socket := fun _ i => i |}.

Section Forward.
Context {T I : Type} `{!AsDatagramSocket T I}.

Definition forward {A} (op : I -> A * I) (s : T) : A * T :=
  let '(a, i) := op (as_socket s) in (a, with_socket s i).

Definition forward_send `{!DatagramSocketSend I} : DatagramSocketSend T := {|
  poll_send := fun buf => forward (poll_send buf);
  poll_send_to := fun buf addr => forward (poll_send_to buf addr);
  poll_send_many := fun bufs => forward (poll_send_many bufs);
  peer_addr := fun s => peer_addr (as_socket s)
|}.

Definition forward_recv `{!DatagramSocketRecv I} : DatagramSocketRecv T := {|
  poll_recv := fun buf => forward (poll_recv buf);
  poll_recv_from := fun buf => forward (poll_recv_from buf);
  poll_recv_many := fun bufs => forward (poll_recv_many bufs)
|}.
End Forward.

(** [RawPoolBufDatagramIo::poll_recv_datagrams], the default: the buffers are
    appended to [buffer]. *)
Class RawPoolBufDatagramIo (T : Type) : Type :=
  poll_recv_dgram : T -> poll (io_result DgramBuffer) * T.

Section RawPool.
Context {T : Type} `{!RawPoolBufDatagramIo T}.

Fixpoint recv_datagrams (i k : nat) (buffer : list DgramBuffer) (s : T)
    : poll (io_result nat) * list DgramBuffer * T :=
  match k with
  | O => (Ready (Ok i), buffer, s)
  | Datatypes.S k =>
      match poll_recv_dgram s with
      | (Ready (Ok buf), s) => recv_datagrams (i + 1) k (buffer ++ [buf]) s
      | (Ready (Err err), s) => (if 0 <? i then Ready (Ok i) else Ready (Err err), buffer, s)
      | (Pending, s) => (if 0 <? i then Ready (Ok i) else Pending, buffer, s)
      end
  end.

Definition poll_recv_datagrams (buffer : list DgramBuffer) (dgram_limit : nat) (s : T)
    : poll (io_result nat) * list DgramBuffer * T :=
  recv_datagrams 0 dgram_limit buffer s.
End RawPool.

(** ** [MaybeConnectedSocket] *)

Record MaybeConnectedSocket (T : Type) : Type := mkMaybe { mc_inner : T; mc_peer : option SocketAddr }.
Arguments mkMaybe {T}.
Arguments mc_inner {T}.
Arguments mc_peer {T}.

Section MaybeConnected.
Context {T : Type} `{!DatagramSocketSend T}.

Definition maybe_new (inner : T) : MaybeConnectedSocket T := mkMaybe inner (peer_addr inner).

Definition forward_send_to (buf : bytes) (addr : SocketAddr) (s : MaybeConnectedSocket T)
    : poll (io_result nat) * MaybeConnectedSocket T :=
  let '(p, i) :=
    match mc_peer s with
    | Some _ => poll_send buf (mc_inner s)
    | None => poll_send_to buf addr (mc_inner s)
    end in
  (p, mkMaybe i (mc_peer s)).

(** With [debug_assertions] another address than the peer's is a panic ([None]). *)
Definition mc_poll_send_to (debug_assertions : bool) (buf : bytes) (addr : SocketAddr)
    (s : MaybeConnectedSocket T) : option (poll (io_result nat) * MaybeConnectedSocket T) :=
  if debug_assertions && match mc_peer s with Some peer => bool_decide (peer <> addr) | None => false end
  then None else Some (forward_send_to buf addr s).

(** The socket of a release build. *)
#[local] Instance mc_as_socket : AsDatagramSocket (MaybeConnectedSocket T) T :=
  {| as_socket := mc_inner; with_socket := fun s i => mkMaybe i (mc_peer s) |}.

#[export] Instance MaybeConnected_send : DatagramSocketSend (MaybeConnectedSocket T) := {|
  poll_send := fun buf => forward (poll_send buf);
  poll_send_to := forward_send_to;
  poll_send_many := fun bufs => forward (poll_send_many bufs);
  peer_addr := mc_peer
|}.
End MaybeConnected.

(** [UnixDatagram]: it has no addresses to send to. *)
Definition unix_poll_send_to {T} (buf : bytes) (addr : SocketAddr) (s : T) : poll (io_result nat) * T :=
  (Ready (Err (mk_io_error Unsupported (str "invalid address family"))), s).

(** [UdpSocket] and [UnixDatagram]: single datagrams are the runtime's, batches
    are the macros'. *)
Section Sockets.
Context {S : Type} `{!Readiness S, !Mmsg S}.
Variable tokio_send : bytes -> S -> poll (io_result nat) * S.
Variable tokio_send_to : bytes -> SocketAddr -> S -> poll (io_result nat) * S.
Variable tokio_peer : S -> io_result SocketAddr.
Variable tokio_recv : ReadBuf -> S -> poll (io_result unit) * ReadBuf * S.
Variable tokio_recv_from : ReadBuf -> S -> poll (io_result SocketAddr) * ReadBuf * S.

Definition UdpSocket_send : DatagramSocketSend S := {|
  poll_send := tokio_send;
  poll_send_to := tokio_send_to;
  poll_send_many := poll_sendmmsg;
  peer_addr := fun s => match tokio_peer s with Ok a => Some a | Err _ => None end
|}.

Definition UnixDatagram_send : DatagramSocketSend S := {|
  poll_send := tokio_send;
  poll_send_to := unix_poll_send_to;
  poll_send_many := poll_sendmmsg;
  peer_addr := fun _ => None
|}.

(** [UdpSocket] and [UnixDatagram] keep the default [poll_recv_from]; of the
    shared sockets [Arc<UdpSocket>] has its own. *)
Definition socket_recv : DatagramSocketRecv S := {|
  poll_recv := tokio_recv;
  poll_recv_from := default_recv_from tokio_recv;
  poll_recv_many := poll_recvmmsg
|}.

Definition ArcUdpSocket_recv : DatagramSocketRecv S := {|
  poll_recv := tokio_recv;
  poll_recv_from := tokio_recv_from;
  poll_recv_many := poll_recvmmsg
|}.

(** So an owned socket never tells where a datagram came from. *)
Lemma socket_recv_from_unspecified size s len data addr s' :
  poll_recv_len_from (DatagramSocketRecv0 := socket_recv) size s = (Ready (Ok (len, data, addr)), s') ->
  addr = SocketAddr_new (V4 (IPv4addr 0 0 0 0)) 0.
Proof.
  unfold poll_recv_len_from. simpl. unfold default_recv_from.
  destruct (tokio_recv _ s) as [[[|[u|e]] b] s1]; try done. by intros [= _ _ <- _].
Qed.
End Sockets.

(** [is_nonblocking]: [flags] is what [fcntl(fd, F_GETFL)] returned. *)
Definition is_nonblocking (o_nonblock flags : Z) (last_os_error : io_error) : io_result bool :=
  if (flags =? -1)%Z then Err last_os_error
  else Ok (negb (Z.land flags o_nonblock =? 0)%Z).

(** ** What the default batches promise *)

Section BatchSpec.
Context {T : Type} (poll_send : bytes -> T -> poll (io_result nat) * T)
  (poll_recv : ReadBuf -> T -> poll (io_result unit) * ReadBuf * T).

(** [out]: the datagrams sent; [inq]: those still to be received. *)
Context (out inq : T -> list bytes).
Context (send_law : forall b s p s', poll_send b s = (p, s') ->
  out s' = out s ++ match p with Ready (Ok _) => [b] | _ => [] end).
Context (recv_law : forall buf s p buf' s', poll_recv buf s = (p, buf', s') ->
  match p with
  | Ready (Ok _) => exists d, inq s = d :: inq s' /\ buf' = fill_buf buf (take (room buf) d)
  | _ => inq s' = inq s /\ buf' = buf
  end).

Lemma poll_send_from_spec k bufs s p s' :
  poll_send_from poll_send k bufs s = (p, s') ->
  exists n, n <= length bufs /\ out s' = out s ++ map filled (take n bufs)
    /\ match p with Ready (Ok m) => m = k + n /\ (n < length bufs -> 0 < k + n) | _ => k + n = 0 end.
Proof.
  revert k s. induction bufs as [|b bufs IH]; intros k s; simpl.
  { intros [= <- <-]. exists 0. rewrite app_nil_r. split_and!; lia || done. }
  destruct (poll_send (filled b) s) as [q s1] eqn:E. apply send_law in E.
  destruct q as [|[m|e]].
  - rewrite app_nil_r in E. destruct (k =? 0) eqn:Ek; intros [= <- <-]; bool_facts;
      exists 0; rewrite app_nil_r; split_and!; lia || done.
  - intros H. apply IH in H as (n & Hn & Ho & Hp). exists (Datatypes.S n). rewrite Ho, E, <- app_assoc.
    split_and!; [lia|done|]. destruct p as [|[m'|e]]; lia || split; lia.
  - rewrite app_nil_r in E. destruct (k =? 0) eqn:Ek; intros [= <- <-]; bool_facts;
      exists 0; rewrite app_nil_r; split_and!; lia || done.
Qed.

Lemma poll_recv_from_nth_spec k bufs s p bufs' s' :
  poll_recv_from_nth poll_recv k bufs s = (p, bufs', s') ->
  exists ds, inq s = ds ++ inq s' /\ length ds <= length bufs /\ bufs' = fill_all bufs (cut bufs ds)
    /\ match p with
       | Ready (Ok n) => n = k + length ds
       | Pending => k + length ds = 0
       | Ready (Err _) => length ds < length bufs
       end.
Proof.
  revert k s p bufs' s'. induction bufs as [|b bufs IH]; intros k s p bufs' s'; simpl.
  { intros [= <- <- <-]. exists []. split_and!; simpl; lia || done. }
  destruct (poll_recv b s) as [[q b1] s1] eqn:E. apply recv_law in E. destruct q as [|[u|e]].
  - destruct E as [E ->]. intros [= <- <- <-]. exists []. simpl. destruct (k =? 0) eqn:Ek; bool_facts;
      split_and!; lia || done.
  - destruct E as (d & Hq & ->). destruct (poll_recv_from_nth poll_recv (k + 1) bufs s1) as [[p2 bufs2] s2] eqn:E2.
    intros [= <- <- <-]. apply IH in E2 as (ds & Hq2 & Hl & -> & Hp). exists (d :: ds).
    unfold cut in *. simpl. split_and!; [by rewrite Hq, Hq2|lia|done|].
    destruct p2 as [|[n|e]]; lia.
  - destruct E as [E ->]. intros [= <- <- <-]. exists []. simpl. split_and!; lia || done.
Qed.

(** The default batches neither lose nor reorder datagrams; [default_send_many]
    reports an error or waits only when nothing was sent.  [default_recv_many],
    though, reports an error that follows datagrams without their number. *)
Lemma default_batches :
  (forall bufs s p s', default_send_many poll_send bufs s = (p, s') ->
    exists n, n <= length bufs /\ out s' = out s ++ map filled (take n bufs)
    /\ match p with Ready (Ok m) => m = n | _ => n = 0 end)
  /\ (forall bufs s p bufs' s', default_recv_many poll_recv bufs s = (p, bufs', s') ->
    exists ds, inq s = ds ++ inq s' /\ length ds <= length bufs /\ bufs' = fill_all bufs (cut bufs ds)
    /\ match p with Ready (Ok n) => n = length ds | Pending => ds = [] | Ready (Err _) => True end).
Proof.
  split.
  - intros bufs s p s' H. apply poll_send_from_spec in H as (n & ? & ? & Hp). exists n. split_and!; try done.
    destruct p as [|[m|e]]; lia.
  - intros bufs s p bufs' s' H. apply poll_recv_from_nth_spec in H as (ds & ? & ? & ? & Hp). exists ds.
    split_and!; try done. destruct p as [|[n|e]]; [|lia|done]. apply length_zero_nil. lia.
Qed.
End BatchSpec.

(** A connected socket ignores the address of [send_to], which a debug build
    refuses: the datagram goes to its peer. *)
Lemma send_to_connected {T} `{!DatagramSocketSend T} buf addr (i : T) peer :
  peer_addr i = Some peer ->
  mc_poll_send_to false buf addr (maybe_new i)
    = Some ((poll_send buf i).1, mkMaybe (poll_send buf i).2 (Some peer))
  /\ (addr <> peer -> mc_poll_send_to true buf addr (maybe_new i) = None).
Proof.
  intros Hp. unfold mc_poll_send_to, forward_send_to, maybe_new. simpl. rewrite Hp. split.
  - by destruct (poll_send buf i).
  - intros Hne. by rewrite bool_decide_eq_true_2.
Qed.

