(* ===== verification/SocketStats.v ===== *)
(** * [patches/datagram-socket/src/socket_stats.rs] and [shutdown.rs]

    The audit record of a QUIC connection: atomics that its tasks set through a
    shared reference, and an [OnceLock].  Every method is one atomic access, so
    a history of the record is a sequence of them, whatever the tasks. *)

From S2P Require Import Prelude.
Open Scope Z_scope.

Definition i64_max : Z := 9223372036854775807.

Inductive StartupExitReason : Type := Loss | BandwidthPlateau | PersistentQueue | ConservativeSlowStartRounds.

Record QuicAuditStats (Err : Type) : Type := mkStats {
  recvd_conn_close_transport_error_code : Z;
  sent_conn_close_transport_error_code : Z;
  recvd_conn_close_application_error_code : Z;
  sent_conn_close_application_error_code : Z;
  transport_handshake_duration_us : Z;
  transport_handshake_start : option Z;
  connection_close_reason : option Err;
  max_bandwidth : Z;
  max_loss_pct : Z;
  initial_so_mark : option bytes;
  quic_connection_id : bytes
}.
Arguments mkStats {Err}.
Arguments recvd_conn_close_transport_error_code {Err}.
Arguments sent_conn_close_transport_error_code {Err}.
Arguments recvd_conn_close_application_error_code {Err}.
Arguments sent_conn_close_application_error_code {Err}.
Arguments transport_handshake_duration_us {Err}.
Arguments transport_handshake_start {Err}.
Arguments connection_close_reason {Err}.
Arguments max_bandwidth {Err}.
Arguments max_loss_pct {Err}.
Arguments initial_so_mark {Err}.
Arguments quic_connection_id {Err}.

Section Stats.
Context {Err : Type}.

Definition stats_new (id : bytes) : QuicAuditStats Err := mkStats (-1) (-1) (-1) (-1) (-1) None None 0 0 None id.

(** [i64::try_from(duration.as_micros()).unwrap_or(-1)], for a duration of
    [nanos] nanoseconds. *)
Definition handshake_micros (nanos : Z) : Z :=
  let us := nanos / 1000 in if us <=? i64_max then us else -1.

Inductive stats_op : Type :=
  | SetRecvdTransport (code : Z)
  | SetSentTransport (code : Z)
  | SetRecvdApplication (code : Z)
  | SetSentApplication (code : Z)
  | SetHandshakeStart (time : Z)
  | SetHandshakeDuration (nanos : Z)
  | SetCloseReason (e : Err)
  | SetMaxBandwidth (n : Z)
  | SetMaxLossPct (n : Z)
  | SetSoMark (value : option bytes).

Definition run_stats_op (o : stats_op) (s : QuicAuditStats Err) : QuicAuditStats Err :=
  let '(mkStats rt st ra sa dur start reason bw loss mark id) := s in
  match o with
  | SetRecvdTransport c => mkStats c st ra sa dur start reason bw loss mark id
  | SetSentTransport c => mkStats rt c ra sa dur start reason bw loss mark id
  | SetRecvdApplication c => mkStats rt st c sa dur start reason bw loss mark id
  | SetSentApplication c => mkStats rt st ra c dur start reason bw loss mark id
  | SetHandshakeStart t => mkStats rt st ra sa dur (Some t) reason bw loss mark id
  | SetHandshakeDuration n => mkStats rt st ra sa (handshake_micros n) start reason bw loss mark id
  | SetCloseReason e => mkStats rt st ra sa dur start (Some e) bw loss mark id
  | SetMaxBandwidth n => mkStats rt st ra sa dur start reason n loss mark id
  | SetMaxLossPct n => mkStats rt st ra sa dur start reason bw n mark id
  | SetSoMark v =>
      mkStats rt st ra sa dur start reason bw loss
        (match v, mark with Some inner, None => Some inner | _, _ => mark end) id
  end.

Definition run_stats (ops : list stats_op) (s : QuicAuditStats Err) : QuicAuditStats Err :=
  fold_left (fun s o => run_stats_op o s) ops s.

(** The marks given to [set_initial_so_mark_data]. *)
Definition marks (ops : list stats_op) : list bytes :=
  omap (fun o => match o with SetSoMark v => v | _ => None end) ops.

Lemma stats_mark ops s :
  initial_so_mark (run_stats ops s) = match initial_so_mark s with Some m => Some m | None => head (marks ops) end.
Proof.
  unfold run_stats. revert s. induction ops as [|o ops IH]; intros s; simpl; [by destruct (initial_so_mark s)|].
  rewrite IH. destruct s as [rt st ra sa dur start reason bw loss mark id].
  destruct o as [| | | | | | | | |[v|]], mark; done.
Qed.

(** The mark of a connection is the first one it was given, whichever tasks
    set it and however often; and a handshake's duration is exact or -1. *)
Lemma stats_audit id ops :
  initial_so_mark (run_stats ops (stats_new id)) = head (marks ops)
  /\ (forall n, 0 <= n -> handshake_micros n = -1 \/ (0 <= handshake_micros n <= i64_max
        /\ handshake_micros n * 1000 <= n < (handshake_micros n + 1) * 1000)).
Proof.
  split; [by rewrite stats_mark|]. intros n Hn. unfold handshake_micros.
  destruct (Z.leb_spec (n / 1000) i64_max); [right|by left].
  pose proof (Z.div_mod n 1000). pose proof (Z.mod_pos_bound n 1000). pose proof (Z.div_pos n 1000). lia.
Qed.
End Stats.

(** [ShutdownConnection] of the sockets: there is nothing to do. *)
Definition socket_poll_shutdown {T} (s : T) : poll (io_result unit) * T := (Ready (Ok tt), s).
