(* ===== verification/TestsCore.v ===== *)
(** * The repository's tests of src/src/core, error.rs and business/mod.rs

    Every unit test is a boolean definition with the test's name: the value of
    its assertions in the model, the mock resolver, authenticator and collector
    of the test being instances of the classes; an example per module evaluates
    them.  Tests that only look at Rust's ownership are left out. *)

From S2P Require Import Prelude RustStr RustNet Address IpFilter Routing Acl Config Connection Server.
Open Scope Z_scope.

(** ** core/address.rs *)

Module AddressTests.
Definition test_from_authority_domain : bool :=
  match from_authority (str "example.com:443") with
  | Some (Domain d 443) => str_eqb d (str "example.com")
  | _ => false
  end.

Definition test_from_authority_ipv4 : bool :=
  match from_authority (str "1.2.3.4:80") with
  | Some (IPv4 [1; 2; 3; 4] 80) => true
  | _ => false
  end.

Definition test_from_authority_ipv6 : bool :=
  match from_authority (str "[::1]:443") with
  | Some (IPv6 _ 443) => true
  | _ => false
  end.

Definition test_display_domain : bool :=
  str_eqb (Address_fmt (Domain (str "example.com") 443)) (str "example.com:443").

Definition test_display_ipv4 : bool :=
  str_eqb (Address_fmt (IPv4 [8; 8; 8; 8] 53)) (str "8.8.8.8:53").

Definition test_from_authority_invalid_port : bool :=
  bool_decide (from_authority (str "example.com:99999") = None)
  && bool_decide (from_authority (str "example.com") = None).

Example address_tests_pass :
  forallb id [test_from_authority_domain; test_from_authority_ipv4; test_from_authority_ipv6;
    test_display_domain; test_display_ipv4; test_from_authority_invalid_port] = true.
Proof. vm_compute. reflexivity. Qed.
End AddressTests.

(** ** core/ip_filter.rs *)

Module IpFilterTests.
Definition v6 (s : string) : bytes :=
  match parse_ipv6 (str s) with Some o => o | None => [] end.

Definition test_private_ipv4 : bool :=
  is_private_ipv4 (IPv4addr 127 0 0 1)
  && is_private_ipv4 (IPv4addr 10 0 0 1)
  && is_private_ipv4 (IPv4addr 192 168 1 1)
  && negb (is_private_ipv4 (IPv4addr 8 8 8 8)).

Definition test_private_ipv6 : bool :=
  is_private_ipv6 v6_localhost
  && is_private_ipv6 (v6 "fc00::1")
  && is_private_ipv6 (v6 "fe80::1")
  && negb (is_private_ipv6 (v6 "2001:4860:4860::8888")).

Example ip_filter_tests_pass : forallb id [test_private_ipv4; test_private_ipv6] = true.
Proof. vm_compute. reflexivity. Qed.
End IpFilterTests.

(** ** core/dns.rs and core/hooks.rs

    The mock resolver answers for the host it was given, and [NotFound] for the
    others. *)

Definition mock_cache_with (host : rstr) (r : result (list IpAddr) DnsError) : DnsCache :=
  fun _ h port =>
    if str_eqb h host
    then match r with Ok ips => Ok (map (fun ip => SocketAddr_new ip port) ips) | Err e => Err e end
    else Err (DnsNotFound h).

(** One that was given no host. *)
Definition mock_cache : DnsCache := fun _ h _ => Err (DnsNotFound h).


(** The text of a duration. *)
Definition no_debug : DebugDuration := fun _ => [].

Module DnsTests.
(** The number of queries after the call is that of before. *)
Definition resolve_ipv4_literal_bypasses_cache : bool :=
  let '(got, calls) :=
    resolve_socket_addr (cache := mock_cache) (fmt := no_debug) 0 (IPv4 [127; 0; 0; 1] 8080) in
  bool_decide (got = Ok (SocketAddr_new (V4 (IPv4addr 127 0 0 1)) 8080)) && Nat.eqb calls 0.

Definition resolve_domain_returns_first_address : bool :=
  let cache := mock_cache_with (str "example.com") (Ok [V4 (IPv4addr 93 184 216 34)]) in
  let '(got, _) :=
    resolve_socket_addr (cache := cache) (fmt := no_debug) 0 (Domain (str "example.com") 8080) in
  bool_decide (got = Ok (SocketAddr_new (V4 (IPv4addr 93 184 216 34)) 8080)).

Definition check_private_ipv4_loopback : bool :=
  let '((is_private, resolved), _) :=
    check_private_and_resolve (cache := mock_cache) 0 (IPv4 [127; 0; 0; 1] 80) in
  is_private && negb (bool_decide (is_Some resolved)).

Definition check_private_domain_resolving_to_private : bool :=
  let cache := mock_cache_with (str "internal.example") (Ok [V4 (IPv4addr 10 0 0 5)]) in
  let '((is_private, _), _) :=
    check_private_and_resolve (cache := cache) 0 (Domain (str "internal.example") 443) in
  is_private.

Definition check_private_domain_resolving_to_public : bool :=
  let cache := mock_cache_with (str "example.com") (Ok [V4 (IPv4addr 93 184 216 34)]) in
  let '((is_private, resolved), _) :=
    check_private_and_resolve (cache := cache) 0 (Domain (str "example.com") 443) in
  negb is_private && bool_decide (is_Some resolved).

Example dns_tests_pass :
  forallb id [resolve_ipv4_literal_bypasses_cache; resolve_domain_returns_first_address;
    check_private_ipv4_loopback; check_private_domain_resolving_to_private;
    check_private_domain_resolving_to_public] = true.
Proof. vm_compute. reflexivity. Qed.
End DnsTests.

Module HooksTests.
(** [DirectRouter::with_cache(block, cache).route(&addr)]. *)
Definition routed (block : bool) (cache : DnsCache) (addr : Address) : OutboundType unit :=
  (route {| dr_block_private_ip := block |} 0 addr).1.

Definition test_direct_router_blocks_loopback : bool :=
  match routed true mock_cache (IPv4 [127; 0; 0; 1] 80) with Reject => true | _ => false end.

Definition test_direct_router_allows_public_ip : bool :=
  match routed true mock_cache (IPv4 [8; 8; 8; 8] 80) with Direct None None => true | _ => false end.

Definition test_direct_router_allows_private_when_disabled : bool :=
  match routed false mock_cache (IPv4 [127; 0; 0; 1] 80) with Direct None None => true | _ => false end.

Definition test_direct_router_blocks_domain_resolving_to_private : bool :=
  let cache := mock_cache_with (str "internal.example") (Ok [V4 (IPv4addr 10 0 0 5)]) in
  match routed true cache (Domain (str "internal.example") 80) with Reject => true | _ => false end.

Definition test_direct_router_public_domain : bool :=
  let cache := mock_cache_with (str "example.com") (Ok [V4 (IPv4addr 93 184 216 34)]) in
  match routed true cache (Domain (str "example.com") 80) with Direct (Some _) _ => true | _ => false end.

Definition test_direct_router_rejects_unresolvable_domain_under_block : bool :=
  let cache := mock_cache_with (str "flaky.example") (Err (DnsNotFound (str "flaky.example"))) in
  match routed true cache (Domain (str "flaky.example") 80) with Reject => true | _ => false end.

Example hooks_tests_pass :
  forallb id [test_direct_router_blocks_loopback; test_direct_router_allows_public_ip;
    test_direct_router_allows_private_when_disabled;
    test_direct_router_blocks_domain_resolving_to_private; test_direct_router_public_domain;
    test_direct_router_rejects_unresolvable_domain_under_block] = true.
Proof. vm_compute. reflexivity. Qed.
End HooksTests.

(** ** core/connection.rs *)

Module ConnectionTests.
Definition local (port : Z) : SocketAddr := SocketAddr_new (V4 (IPv4addr 127 0 0 1)) port.

Definition test_register_and_unregister : bool :=
  let manager := Manager_new in
  let '((conn_id, _), manager) := register 1 (local 1234) 0 manager in
  let one := Nat.eqb (connection_count manager) 1 in
  let manager := unregister conn_id manager in
  one && Nat.eqb (connection_count manager) 0 && Nat.eqb (user_count manager) 0.

Definition test_kick_user : bool :=
  let manager := Manager_new in
  let '((_, token1), manager) := register 1 (local 1234) 0 manager in
  let '((_, token2), manager) := register 1 (local 1235) 0 manager in
  let '((_, token3), manager) := register 2 (local 1236) 0 manager in
  let '(kicked, manager) := kick_user 1 manager in
  Nat.eqb kicked 2 && is_cancelled token1 manager && is_cancelled token2 manager
  && negb (is_cancelled token3 manager).

Definition test_cancel_all : bool :=
  let manager := Manager_new in
  let '((_, token1), manager) := register 1 (local 1234) 0 manager in
  let '((_, token2), manager) := register 2 (local 1235) 0 manager in
  let '(n, manager) := cancel_all manager in
  Nat.eqb n 2 && is_cancelled token1 manager && is_cancelled token2 manager.

(** The tasks that the loop spawns: each, once its token is cancelled, takes its
    connection out.  They run before the second look at the count. *)
Fixpoint registered (n : nat) (manager : ConnectionManager)
    : list (ConnectionId * Token) * ConnectionManager :=
  match n with
  | O => ([], manager)
  | S n =>
      let '(tasks, manager) := registered n manager in
      let '(t, manager) := register (Z.of_nat n) (local (1000 + Z.of_nat n)) 0 manager in
      (tasks ++ [t], manager)
  end.

Definition test_shutdown_drain : bool :=
  let '(tasks, manager) := registered 10 Manager_new in
  let '(_, manager) := cancel_all manager in
  let manager := fold_left (fun m '(conn_id, token) =>
    if is_cancelled token m then unregister conn_id m else m) tasks manager in
  Nat.eqb (connection_count manager) 0.

Example connection_tests_pass :
  forallb id [test_register_and_unregister; test_kick_user; test_cancel_all; test_shutdown_drain] = true.
Proof. vm_compute. reflexivity. Qed.
End ConnectionTests.

(** ** error.rs *)

Module ErrorTests.
Definition test_io_error_display : bool :=
  contains (str "IO error") (NaiveError_fmt (ErrIo (mk_io_error NotFound (str "file not found")))).

Definition test_config_error_display : bool :=
  contains (str "Configuration error") (NaiveError_fmt (ErrConfig (str "invalid port"))).

Definition test_authentication_error_display : bool :=
  contains (str "Authentication error") (NaiveError_fmt (ErrAuthentication (str "invalid password"))).

Definition test_from_anyhow_error : bool :=
  contains (str "some anyhow error") (NaiveError_fmt (NaiveError_from_anyhow (str "some anyhow error"))).

Example error_tests_pass :
  forallb id [test_io_error_display; test_config_error_display; test_authentication_error_display;
    test_from_anyhow_error] = true.
Proof. vm_compute. reflexivity. Qed.
End ErrorTests.

(** ** core/server.rs *)

Module ServerTests.
(** [TestAuthenticator] and [TestStatsCollector], whose state is its counter. *)
Definition TestAuthenticator : Authenticator unit := fun _ _ => Some 1.

Definition TestStatsCollector : StatsCollector Z := {|
  record_request := fun _ n => n + 1;
  record_upload := fun _ _ n => n;
  record_download := fun _ _ n => n
|}.

Definition test_conn_config : ConnConfig := {|
  cc_idle_timeout := from_secs 300;
  cc_uplink_only_timeout := from_secs 2;
  cc_downlink_only_timeout := from_secs 5;
  cc_connect_timeout := from_secs 5;
  cc_request_timeout := from_secs 5;
  cc_tls_handshake_timeout := from_secs 10;
  cc_buffer_size := 32 * 1024;
  cc_tcp_backlog := 1024;
  cc_tcp_nodelay := true;
  cc_max_connections := 65535
|}.

(** [build] does not panic. *)
Definition test_server_builder : bool :=
  let b := @builder plain_rule unit Z unit in
  let b := authenticator tt b in
  let b := stats 0 b in
  let b := conn_config test_conn_config b in
  let b := dns_cache tt b in
  negb (is_err (build b)).

Definition test_server_builder_with_conn_manager : bool :=
  let manager := Manager_new in
  let b := @builder plain_rule unit Z unit in
  let b := authenticator tt b in
  let b := stats 0 b in
  let b := conn_manager manager b in
  let b := conn_config test_conn_config b in
  let b := dns_cache tt b in
  negb (is_err (build b)).

Example server_tests_pass :
  forallb id [test_server_builder; test_server_builder_with_conn_manager] = true.
Proof. vm_compute. reflexivity. Qed.
End ServerTests.

(** ** business/mod.rs

    The panel's managers: users by credential, and the three counters of a user. *)

Module BusinessTests.
Definition users : UserManager (list (rstr * UserId)) := fun us credential =>
  match find (fun u => str_eqb u.1 credential) us with Some u => Some u.2 | None => None end.

Record Snapshot : Type := mkSnapshot { request_count : Z; upload_bytes : Z; download_bytes : Z }.

Definition counted (user : UserId) (f : Snapshot -> Snapshot) (p : gmap UserId Snapshot) : gmap UserId Snapshot :=
  <[user := f (default (mkSnapshot 0 0 0) (p !! user))]> p.

Definition panel_stats_collector : PanelStats (gmap UserId Snapshot) := {|
  ps_record_request := fun u => counted u (fun s => mkSnapshot (request_count s + 1) (upload_bytes s) (download_bytes s));
  ps_record_upload := fun u n => counted u (fun s => mkSnapshot (request_count s) (upload_bytes s + n) (download_bytes s));
  ps_record_download := fun u n => counted u (fun s => mkSnapshot (request_count s) (upload_bytes s) (download_bytes s + n))
|}.

#[local] Existing Instance users.
#[local] Existing Instance panel_stats_collector.

Definition test_naive_authenticator_empty : bool :=
  let auth := mkAuthenticator [] in
  bool_decide (authenticate auth (str "some-uuid-that-doesnt-exist") = None).

Definition test_naive_authenticator_with_users : bool :=
  let auth := mkAuthenticator [(str "test-uuid-123", 42)] in
  bool_decide (authenticate auth (str "test-uuid-123") = Some 42)
  && bool_decide (authenticate auth (str "wrong-uuid") = None).

Definition test_naive_stats_collector : bool :=
  let stats := mkCollector ∅ in
  let stats := record_request 1 stats in
  let stats := record_upload 1 100 stats in
  let stats := record_download 1 200 stats in
  match panel_stats stats !! 1 with
  | Some s => (request_count s =? 1) && (upload_bytes s =? 100) && (download_bytes s =? 200)
  | None => false
  end.

Example business_tests_pass :
  forallb id [test_naive_authenticator_empty; test_naive_authenticator_with_users;
    test_naive_stats_collector] = true.
Proof. vm_compute. reflexivity. Qed.
End BusinessTests.
