(* ===== verification/TestsConfig.v ===== *)
(** * The repository's tests of config.rs, config_auto.rs, logger.rs and acl.rs

    As in [TestsCore].  JSON documents, humantime and the rule engine are given
    by instances for what the tests use of them. *)

From S2P Require Import Prelude RustStr RustNet Address IpFilter Routing ConfigAuto Config Acl TestsCore.
Open Scope Z_scope.

(** ** config.rs *)

Module ConfigTests.
Definition create_test_cli_args : CliArgs := {|
  api := str "http://127.0.0.1:8080";
  token := str "";
  node := 1;
  cert_file := str "/path/to/cert.pem";
  key_file := str "/path/to/key.pem";
  fetch_users_interval := from_secs 60;
  report_traffics_interval := from_secs 100;
  heartbeat_interval := from_secs 180;
  api_timeout := 15;
  log_mode := str "info";
  data_dir := DEFAULT_DATA_DIR;
  acl_conf_file := None;
  Config.block_private_ip := true;
  refresh_geodata := false;
  panel_ip_version := IpV4;
  conn_idle_timeout := from_secs 300;
  tcp_connect_timeout := from_secs 5;
  request_timeout := from_secs 5;
  tls_handshake_timeout := from_secs 10;
  buffer_size := 32 * 1024;
  tcp_backlog := 1024;
  Config.tcp_nodelay := true;
  uplink_only_timeout := from_secs 2;
  downlink_only_timeout := from_secs 5;
  max_connections := Fixed 10000
|}.

Definition with_api (api' : rstr) (node' : Z) (log_mode' : rstr) (c : CliArgs) : CliArgs :=
  Build_CliArgs api' (token c) node' (cert_file c) (key_file c) (fetch_users_interval c)
    (report_traffics_interval c) (heartbeat_interval c) (api_timeout c) log_mode' (data_dir c)
    (acl_conf_file c) (Config.block_private_ip c) (refresh_geodata c) (panel_ip_version c)
    (conn_idle_timeout c) (tcp_connect_timeout c) (request_timeout c) (tls_handshake_timeout c)
    (buffer_size c) (tcp_backlog c) (Config.tcp_nodelay c) (uplink_only_timeout c)
    (downlink_only_timeout c) (max_connections c).

(** The temporary files exist; those of [create_test_cli_args] do not. *)
Definition temp_files : FileSystem := fun p => str_eqb p (str "/tmp/cert.pem") || str_eqb p (str "/tmp/key.pem").

Definition create_test_cli_args_with_temp_certs : CliArgs :=
  let c := create_test_cli_args in
  Build_CliArgs (api c) (token c) (node c) (str "/tmp/cert.pem") (str "/tmp/key.pem") (fetch_users_interval c)
    (report_traffics_interval c) (heartbeat_interval c) (api_timeout c) (log_mode c) (data_dir c)
    (acl_conf_file c) (Config.block_private_ip c) (refresh_geodata c) (panel_ip_version c)
    (conn_idle_timeout c) (tcp_connect_timeout c) (request_timeout c) (tls_handshake_timeout c)
    (buffer_size c) (tcp_backlog c) (Config.tcp_nodelay c) (uplink_only_timeout c)
    (downlink_only_timeout c) (max_connections c).

Definition test_cli_args_validate_success : bool :=
  let cli := create_test_cli_args_with_temp_certs in
  negb (is_err (validate (fs := temp_files) cli)).

Definition test_cli_args_validate_empty_api : bool :=
  let cli := with_api (str "") 1 (str "info") create_test_cli_args in
  is_err (validate (fs := temp_files) cli).

Definition test_cli_args_validate_invalid_node_id : bool :=
  let cli := with_api (api create_test_cli_args) 0 (str "info") create_test_cli_args in
  is_err (validate (fs := temp_files) cli).

(** [serde_json] on objects without nesting, escapes and blanks; a literal is
    written with single quotes. *)
Definition json (s : string) : rstr := map (fun c => if c =? 39 then 34 else c) (str s).

Fixpoint after (p s : rstr) : option rstr :=
  match strip_prefix p s with
  | Some r => Some r
  | None => match s with [] => None | _ :: s => after p s end
  end.

Fixpoint until_end (s : rstr) : rstr :=
  match s with
  | [] => []
  | c :: s => if (c =? 44) || (c =? 125) then [] else c :: until_end s
  end.

Definition field (name : string) (j : rstr) : option rstr :=
  match after ([34] ++ str name ++ [34; 58]) j with Some r => Some (until_end r) | None => None end.

Definition unquote (v : rstr) : option rstr :=
  match v with 34 :: v => Some (take (length v - 1) v) | _ => None end.

Definition flat_json : SerdeJson := fun j =>
  match match field "server_port" j with Some v => parse_u16 v | None => None end with
  | None => Err (str "server_port")
  | Some port =>
      let cc := match field "server_quic_congestion_control" j with
                | Some v => Some (unquote v) | None => None end in
      match field "network" j with
      | None => Ok (port, None, cc)
      | Some v =>
          if str_eqb v (json "'tcp'") then Ok (port, Some Tcp, cc)
          else if str_eqb v (json "'udp'") then Ok (port, Some Udp, cc)
          else Err (str "network")
      end
  end.

Definition parsed (c : NodeConfigEnum) : option NaiveConfig :=
  result_ok (parse_naive_config (sj := flat_json) c).

Definition test_parse_naive_config_success : bool :=
  match parsed (NaiveNode (json "{'server_port':443}")) with
  | Some config => (server_port config =? 443) && bool_decide (network config = Tcp)
  | None => false
  end.

Definition test_parse_naive_config_with_network : bool :=
  match parsed (NaiveNode (json "{'server_port':443,'network':'udp'}")) with
  | Some config => (server_port config =? 443) && bool_decide (network config = Udp)
  | None => false
  end.

Definition test_parse_naive_config_wrong_variant : bool :=
  is_err (parse_naive_config (sj := flat_json) (OtherNode (str "Trojan"))).

Definition test_congestion_control_default_is_bbr : bool :=
  bool_decide (CongestionControl_default = Bbr).

Definition test_congestion_control_accepts_aliases : bool :=
  let cc wire := CongestionControl_deserialize (Some (str wire)) in
  forallb (fun wire => bool_decide (cc wire = Bbr)) ["bbr"; "bbr2"; "bbrv2"; "BBR"; "BBR2"]%string
  && forallb (fun wire => bool_decide (cc wire = Cubic)) ["cubic"; "CUBIC"; "Cubic"]%string
  && forallb (fun wire => bool_decide (cc wire = NewReno))
       ["new_reno"; "newreno"; "reno"; "NewReno"; "RENO"]%string.

Definition test_congestion_control_unknown_value_falls_back_to_bbr : bool :=
  forallb (fun wire => bool_decide (CongestionControl_deserialize (Some (str wire)) = Bbr))
    ["vegas"; "bbr3"; "garbage"]%string.

Definition test_congestion_control_null_or_empty_is_bbr : bool :=
  bool_decide (CongestionControl_deserialize None = Bbr)
  && bool_decide (CongestionControl_deserialize (Some (str "")) = Bbr).

Definition test_parse_naive_config_picks_up_panel_field_name : bool :=
  forallb (fun '(wire, expected) =>
    let j := json "{'server_port':443,'network':'udp','server_quic_congestion_control':'" ++ str wire ++ json "'}" in
    match parsed (NaiveNode j) with
    | Some config => bool_decide (congestion_control config = expected)
    | None => false
    end)
    [("bbr", Bbr); ("bbr2", Bbr); ("cubic", Cubic); ("reno", NewReno); ("new_reno", NewReno)]%string.

Definition test_parse_naive_config_unknown_cc_does_not_fail : bool :=
  match parsed (NaiveNode (json "{'server_port':443,'network':'udp','server_quic_congestion_control':'bbr3'}")) with
  | Some config => (server_port config =? 443) && bool_decide (congestion_control config = Bbr)
  | None => false
  end.

Definition test_parse_naive_config_legacy_field_name_is_ignored : bool :=
  match parsed (NaiveNode (json "{'server_port':443,'network':'udp','congestion_control':'cubic'}")) with
  | Some config => bool_decide (congestion_control config = Bbr)
  | None => false
  end.

Definition test_server_config_from_remote : bool :=
  let remote := {| server_port := 443; network := Tcp; congestion_control := Bbr |} in
  match from_remote remote create_test_cli_args with
  | Ok config => (sc_port config =? 443) && bool_decide (is_Some (sc_cert config))
                 && bool_decide (is_Some (sc_key config))
  | Err _ => false
  end.

Definition test_conn_config_from_cli : bool :=
  let config := from_cli create_test_cli_args 10000 in
  (cc_max_connections config =? 10000) && (idle_timeout_secs config =? 300)
  && (uplink_only_timeout_secs config =? 2) && (downlink_only_timeout_secs config =? 5).

(** [humantime] on the words of the test. *)
Definition human : Humantime := fun s =>
  if str_eqb s (str "60s") then Some (from_secs 60)
  else if str_eqb s (str "2m") then Some (from_secs 120) else None.

Definition test_parse_duration : bool :=
  let parse s := parse_duration (ht := human) (str s) in
  bool_decide (parse "60s" = Ok (from_secs 60)) && bool_decide (parse "2m" = Ok (from_secs 120))
  && bool_decide (parse "60" = Ok (from_secs 60)) && is_err (parse "invalid").

Definition test_parse_ip_version_valid : bool :=
  match parse_ip_version (str "v4"), parse_ip_version (str "v6"), parse_ip_version (str "auto") with
  | Ok IpV4, Ok IpV6, Ok IpAuto => true
  | _, _, _ => false
  end.

Definition test_parse_ip_version_invalid : bool := is_err (parse_ip_version (str "invalid")).

Definition test_validate_rejects_invalid_log_mode : bool :=
  let cli := create_test_cli_args_with_temp_certs in
  is_err (validate (fs := temp_files) (with_api (api cli) (node cli) (str "foobar") cli)).

Definition test_validate_accepts_valid_log_modes : bool :=
  let cli := create_test_cli_args_with_temp_certs in
  forallb (fun mode => negb (is_err (validate (fs := temp_files) (with_api (api cli) (node cli) (str mode) cli))))
    ["trace"; "debug"; "info"; "warn"; "error"]%string.

Example config_tests_pass :
  forallb id [test_cli_args_validate_success; test_cli_args_validate_empty_api;
    test_cli_args_validate_invalid_node_id; test_parse_naive_config_success;
    test_parse_naive_config_with_network; test_parse_naive_config_wrong_variant;
    test_congestion_control_default_is_bbr; test_congestion_control_accepts_aliases;
    test_congestion_control_unknown_value_falls_back_to_bbr; test_congestion_control_null_or_empty_is_bbr;
    test_parse_naive_config_picks_up_panel_field_name; test_parse_naive_config_unknown_cc_does_not_fail;
    test_parse_naive_config_legacy_field_name_is_ignored; test_server_config_from_remote;
    test_conn_config_from_cli; test_parse_duration; test_parse_ip_version_valid;
    test_parse_ip_version_invalid; test_validate_rejects_invalid_log_mode;
    test_validate_accepts_valid_log_modes] = true.
Proof. vm_compute. reflexivity. Qed.
End ConfigTests.

(** ** config_auto.rs *)

Module ConfigAutoTests.
Definition gb_to_kb (gb : Z) : Z := gb * 1024 * 1024.

Definition parses_auto_case_insensitive : bool :=
  match MaxConnections_from_str (str "auto"), MaxConnections_from_str (str "AUTO") with
  | Ok ConfigAuto.Auto, Ok ConfigAuto.Auto => true
  | _, _ => false
  end.

Definition parses_fixed_integer : bool :=
  match MaxConnections_from_str (str "5000") with Ok (Fixed n) => n =? 5000 | _ => false end.

Definition zero_is_rejected : bool := is_err (MaxConnections_from_str (str "0")).

(** On a machine of the witnesses of [ConfigAuto]. *)
Definition resolve_auto_smokes : bool :=
  let r := resolve (sys := machine) ConfigAuto.Auto in
  match rm_mode r with ModeAuto => 1 <=? rm_value r | ModeFixed => false end.

Definition degenerate_zero_inputs_floor_to_one : bool := value (compute_auto 1 0 0) =? 1.

Definition large_cpu_huge_ram_is_cpu_bound : bool :=
  let bd := compute_auto 4 (gb_to_kb 16) 65536 in
  match limiting bd with Cpu => value bd =? 30000 | _ => false end.

Example config_auto_tests_pass :
  forallb id [parses_auto_case_insensitive; parses_fixed_integer; zero_is_rejected; resolve_auto_smokes;
    degenerate_zero_inputs_floor_to_one; large_cpu_huge_ram_is_cpu_bound] = true.
Proof. vm_compute. reflexivity. Qed.
End ConfigAutoTests.

(** ** logger.rs *)

Module LoggerTests.
Definition level (s : string) : option LogLevel := LogLevel_from_str (str s).

Definition test_log_level_from_str_valid : bool :=
  match level "trace", level "debug", level "info", level "warn", level "error" with
  | Some Trace, Some Debug, Some Info, Some Warn, Some Error => true
  | _, _, _, _, _ => false
  end.

Definition test_log_level_from_str_case_insensitive : bool :=
  match level "TRACE", level "DEBUG", level "INFO" with
  | Some Trace, Some Debug, Some Info => true
  | _, _, _ => false
  end.

Definition test_log_level_from_str_invalid : bool :=
  match level "invalid", level "" with None, None => true | _, _ => false end.

Definition test_log_level_default : bool := match LogLevel_default with Info => true | _ => false end.

Example logger_tests_pass :
  forallb id [test_log_level_from_str_valid; test_log_level_from_str_case_insensitive;
    test_log_level_from_str_invalid; test_log_level_default] = true.
Proof. vm_compute. reflexivity. Qed.
End LoggerTests.

(** ** acl.rs

    The engine of the tests: its rules are lines [name(all)], the first of which
    with an outbound decides for every host. *)

Module AclTests.
Fixpoint lines (s : rstr) (line : rstr) : list rstr :=
  match s with
  | [] => [line]
  | c :: s => if c =? 10 then line :: lines s [] else lines s (line ++ [c])
  end.

(** The name before [(all)]. *)
Definition rule_name (line : rstr) : option rstr :=
  let n := (length line - 5)%nat in
  if str_eqb (drop n line) (str "(all)") then Some (take n line) else None.

Abbreviation TestHandler := (OutboundHandler DirectOptions rstr rstr unit).

Fixpoint first_outbound (rules : list rstr) (m : gmap rstr TestHandler) : option TestHandler :=
  match rules with
  | [] => None
  | r :: rules =>
      match rule_name r ≫= (fun n => m !! n) with
      | Some h => Some h
      | None => first_outbound rules m
      end
  end.

Definition rules_for_all : AclEngineRs := {|
  DirectT := DirectOptions;
  Socks5T := rstr;
  HttpT := rstr;
  RejectT := unit;
  RuleSet := list rstr;
  Compiled := list rstr * gmap rstr TestHandler;
  Direct_new := plain_options;
  Direct_with_options := fun o => Ok o;
  Socks5_new := fun a => a;
  Socks5_with_auth := fun a _ _ => Ok a;
  Http_new := fun a => a;
  Http_try_new := fun a _ => Ok a;
  Http_with_auth := fun h _ _ => h;
  Reject_new := tt;
  parse_rules := fun t => Ok (lines t []);
  compile := fun rs m _ _ => Ok (rs, m);
  compiled_match_host := fun c _ _ _ => first_outbound c.1 c.2;
  compiled_rule_count := fun c => length c.1
|}.

#[local] Existing Instance rules_for_all.
#[local] Existing Instance no_sockets.

(** [DirectConfig { .. }] with the options that the tests set. *)
Definition direct_config (mode : rstr) (bind_ipv4 : option rstr) (fast_open tcp_nodelay : bool)
    (connect_timeout_secs : Z) : DirectConfig :=
  let d := DirectConfig_default in
  Build_DirectConfig mode bind_ipv4 (d_bind_ipv6 d) (d_bind_device d) fast_open tcp_nodelay
    (d_tcp_keepalive_secs d) connect_timeout_secs.

Definition bound_config : DirectConfig :=
  direct_config default_ip_mode (Some (str "127.0.0.1")) false default_tcp_nodelay 0.

Definition test_outbound_handler_from_entry_direct : bool :=
  let entry := {| name := str "direct"; outbound_type := str "direct"; socks5 := None; http := None;
                  direct := Some (direct_config (str "auto") None false default_tcp_nodelay 0) |} in
  match from_entry entry with Ok (HDirect _ _) => true | _ => false end.

Definition test_outbound_handler_from_entry_reject : bool :=
  let entry := {| name := str "block"; outbound_type := str "reject"; socks5 := None; http := None;
                  direct := None |} in
  match from_entry entry with Ok handler => is_reject handler | Err _ => false end.

Definition test_acl_engine_default : bool :=
  match AclEngine_new_default with
  | Ok engine =>
      match match_host engine (str "example.com") 80 TCP with
      | Some handler => negb (is_reject handler)
      | None => false
      end
  | Err _ => false
  end.

(** [AclRouter::with_cache(engine, block, cache).route(&addr)]; [None] if the
    engine is not built. *)
Definition routed (engine : result AclEngine rstr) (block : bool) (cache : DnsCache) (addr : Address)
    : option (OutboundType Handler) :=
  match engine with
  | Ok engine => Some (route (Build_AclRouter engine block) 0 addr).1
  | Err _ => None
  end.

Definition test_acl_router_blocks_private : bool :=
  match routed AclEngine_new_default true mock_cache (IPv4 [127; 0; 0; 1] 80) with
  | Some Reject => true
  | _ => false
  end.

Definition test_acl_router_allows_public : bool :=
  match routed AclEngine_new_default true mock_cache (IPv4 [8; 8; 8; 8] 80) with
  | Some (Direct _ _) => true
  | _ => false
  end.

Definition engine_with_bound_direct (direct : DirectConfig) : result AclEngine rstr :=
  AclEngine_new
    {| outbounds := [{| name := str "bound"; outbound_type := str "direct"; socks5 := None;
                        http := None; direct := Some direct |}];
       inline := [str "bound(all)"] |} None false.

Definition custom_bind_direct_carries_dialer : bool :=
  match routed (engine_with_bound_direct bound_config) true mock_cache (IPv4 [1; 2; 3; 4] 443) with
  | Some (Direct _ (Some _)) => true
  | _ => false
  end.

Definition custom_dial_direct_domain_carries_checked_ips : bool :=
  let public_ip := V4 (IPv4addr 1 2 3 4) in
  let cache := mock_cache_with (str "target.test") (Ok [public_ip]) in
  match routed (engine_with_bound_direct bound_config) true cache (Domain (str "target.test") 443) with
  | Some (Direct (Some ips) (Some _)) => bool_decide (ips = [public_ip])
  | _ => false
  end.

Definition custom_dial_direct_dual_stack_carries_both_families : bool :=
  let v6 := V6 [38; 6; 71; 0; 0; 0; 0; 0; 0; 0; 0; 0; 0; 0; 0; 1] in
  let v4 := V4 (IPv4addr 1 2 3 4) in
  let cache := mock_cache_with (str "dual.test") (Ok [v6; v4]) in
  let engine := engine_with_bound_direct (direct_config (str "64") None false default_tcp_nodelay 0) in
  match routed engine true cache (Domain (str "dual.test") 443) with
  | Some (Direct (Some ips) (Some _)) => bool_decide (v4 ∈ ips) && bool_decide (v6 ∈ ips)
  | _ => false
  end.

Definition custom_dial_direct_rejects_private_resolution : bool :=
  let cache := mock_cache_with (str "evil.test") (Ok [V4 (IPv4addr 10 0 0 1)]) in
  match routed (engine_with_bound_direct bound_config) true cache (Domain (str "evil.test") 443) with
  | Some Reject => true
  | _ => false
  end.

Definition direct_with_non_default_tcp_options_carries_dialer : bool :=
  forallb (fun direct =>
    match routed (engine_with_bound_direct direct) true mock_cache (IPv4 [1; 2; 3; 4] 443) with
    | Some (Direct _ (Some _)) => true
    | _ => false
    end)
    [direct_config default_ip_mode None true default_tcp_nodelay 0;
     direct_config default_ip_mode None false false 0;
     direct_config (str "4") None false default_tcp_nodelay 0].

Definition direct_with_custom_connect_timeout_carries_dialer : bool :=
  let direct := direct_config default_ip_mode None false default_tcp_nodelay 5 in
  match routed (engine_with_bound_direct direct) true mock_cache (IPv4 [1; 2; 3; 4] 443) with
  | Some (Direct _ (Some _)) => true
  | _ => false
  end.

Definition plain_direct_carries_no_dialer : bool :=
  match routed AclEngine_new_default true mock_cache (IPv4 [1; 2; 3; 4] 443) with
  | Some (Direct _ None) => true
  | _ => false
  end.

Definition flaky : DnsCache :=
  mock_cache_with (str "flaky.test") (Err (DnsNotFound (str "flaky.test"))).

Definition direct_domain_dns_failure_rejected_under_block : bool :=
  match routed AclEngine_new_default true flaky (Domain (str "flaky.test") 443) with
  | Some Reject => true
  | _ => false
  end.

Definition direct_domain_dns_failure_allowed_when_block_disabled : bool :=
  match routed AclEngine_new_default false flaky (Domain (str "flaky.test") 443) with
  | Some (Direct _ _) => true
  | _ => false
  end.

Definition proxy_domain_dns_failure_still_proxied : bool :=
  let cache := mock_cache_with (str "proxied.test") (Err (DnsNotFound (str "proxied.test"))) in
  let engine := AclEngine_new
    {| outbounds := [{| name := str "warp"; outbound_type := str "socks5";
                        socks5 := Some {| s5_addr := str "127.0.0.1:40000"; s5_username := None;
                                          s5_password := None; s5_allow_udp := true |};
                        http := None; direct := None |}];
       inline := [str "warp(all)"] |} None false in
  match routed engine true cache (Domain (str "proxied.test") 443) with
  | Some (Proxy _) => true
  | _ => false
  end.

Example acl_tests_pass :
  forallb id [test_outbound_handler_from_entry_direct; test_outbound_handler_from_entry_reject;
    test_acl_engine_default; test_acl_router_blocks_private; test_acl_router_allows_public;
    custom_bind_direct_carries_dialer; custom_dial_direct_domain_carries_checked_ips;
    custom_dial_direct_dual_stack_carries_both_families; custom_dial_direct_rejects_private_resolution;
    direct_with_non_default_tcp_options_carries_dialer; direct_with_custom_connect_timeout_carries_dialer;
    plain_direct_carries_no_dialer; direct_domain_dns_failure_rejected_under_block;
    direct_domain_dns_failure_allowed_when_block_disabled; proxy_domain_dns_failure_still_proxied] = true.
Proof. vm_compute. reflexivity. Qed.
End AclTests.
