(* ===== verification/TestsDgram.v ===== *)
(** * The tests of the crate under src/patches/datagram-socket

    As in [TestsCore]; a test whose operation must panic asks for [None].  The
    capacity of a vector is not part of the model, so that the assertions on
    [spare_capacity] have no counterpart. *)

From S2P Require Import Prelude RustStr DgramBuffer Datagram.
Open Scope Z_scope.

(** ** buffer.rs *)

Module BufferTests.
(** The profile of tests. *)
Definition checks : bool := true.

(** An operation that does not panic, and an assertion on what it leaves. *)
Definition after (o : option DgramBuffer) (f : DgramBuffer -> bool) : bool :=
  match o with Some b => f b | None => false end.

Definition reads (b : DgramBuffer) (bs : bytes) : bool := bool_decide (as_slice b = bs).

Definition new_is_empty : bool :=
  let b := buffer_new in
  reads b [] && (buffer_len b =? 0) && buffer_is_empty b.

Definition from_slice_copies_data : bool :=
  let b := from_slice [1; 2; 3] in
  reads b [1; 2; 3] && (buffer_len b =? 3) && negb (buffer_is_empty b).

Definition from_vec_with_headroom_exposes_payload : bool :=
  let v := [0; 0; 0; 1; 2; 3] in
  after (from_vec_with_headroom v 3) (fun b => reads b [1; 2; 3] && (buffer_len b =? 3)).

Definition truncate_shortens_readable_view : bool :=
  let b := from_slice [1; 2; 3; 4; 5] in
  after (truncate checks 3 b) (fun b => reads b [1; 2; 3] && (buffer_len b =? 3)).

Definition advance_moves_cursor : bool :=
  let b := from_slice [1; 2; 3; 4] in
  after (advance checks 2 b) (fun b => reads b [3; 4] && (buffer_len b =? 2)).

Definition advance_past_end_panics : bool :=
  let b := from_slice [1; 2] in
  bool_decide (advance checks 3 b = None).

Definition test_try_add_prefix : bool :=
  after (with_capacity_and_headroom 8 4) (fun b =>
  after (put_slice [170; 187] b) (fun b =>
    let '(r1, b) := try_add_prefix [1; 2] b in
    let first := reads b [1; 2; 170; 187] && (buffer_len b =? 4) in
    let '(r2, b) := try_add_prefix [66; 35] b in
    let second := reads b [66; 35; 1; 2; 170; 187] && (buffer_len b =? 6) in
    negb (is_err r1) && first && negb (is_err r2) && second && is_err (try_add_prefix [1] b).1)).

Definition try_add_prefix_fails_when_headroom_insufficient : bool :=
  after (with_capacity_and_headroom 8 1) (fun b => is_err (try_add_prefix [1; 2] b).1).

Definition clear_resets_to_empty : bool :=
  let b := from_slice [1; 2; 3] in
  let b := clear b in
  reads b [] && (buffer_len b =? 0) && buffer_is_empty b.

Definition into_parts_returns_data_and_pos : bool :=
  after (with_capacity_and_headroom 8 3) (fun b =>
  after (put_slice [1; 2; 3] b) (fun b =>
    let '(data, pos) := into_parts b in
    (pos =? 3) && bool_decide (data = [0; 0; 0; 1; 2; 3]))).

Definition bufmut_put_slice_appends : bool :=
  let b := buffer_new in
  after (put_slice [10; 11; 12] b) (fun b => reads b [10; 11; 12]).

Definition debug_empty : bool := str_eqb (buffer_debug buffer_new) (str "[]").

Definition debug_payload_hex_with_group_separator : bool :=
  let b := from_slice [0; 1; 2; 3; 4; 5; 6; 7; 8] in
  str_eqb (buffer_debug b) (str "[0x00010203_04050607_08, len=9]").

Definition debug_payload_exact_group_boundary : bool :=
  let b := from_slice [170; 187; 204; 221] in
  str_eqb (buffer_debug b) (str "[0xaabbccdd, len=4]").

Definition splice_headroom_noop : bool :=
  after (with_capacity_and_headroom 16 4) (fun b =>
  after (put_slice [1; 2; 3] b) (fun b =>
    let '(data_before, pos_before) := into_parts b in
    after (from_vec_with_headroom data_before pos_before) (fun b =>
    after (splice_headroom 3 b) (fun b =>
      let '(data_after, pos_after) := into_parts b in
      let noop := (pos_after =? pos_before) && bool_decide (data_after = data_before) in
      after (splice_headroom 4 b) (fun _ => noop))))).

Definition splice_headroom_inserts_headroom_when_none_exists : bool :=
  let b := from_slice [1; 2; 3] in
  after (splice_headroom 4 b) (fun b =>
    let '(data, pos) := into_parts b in
    reads b [1; 2; 3] && (pos =? 4) && bool_decide (data = [0; 0; 0; 0; 1; 2; 3])).

Definition splice_headroom_grows_insufficient_headroom : bool :=
  after (with_capacity_and_headroom 16 2) (fun b =>
  after (put_slice [10; 20; 30] b) (fun b =>
  after (splice_headroom 6 b) (fun b =>
    let '(data, pos) := into_parts b in
    reads b [10; 20; 30] && (pos =? 6) && bool_decide (take 6 data = replicate 6 0)
    && bool_decide (drop 6 data = [10; 20; 30])))).

Example buffer_tests_pass :
  forallb id [new_is_empty; from_slice_copies_data; from_vec_with_headroom_exposes_payload;
    truncate_shortens_readable_view; advance_moves_cursor; advance_past_end_panics;
    test_try_add_prefix; try_add_prefix_fails_when_headroom_insufficient; clear_resets_to_empty;
    into_parts_returns_data_and_pos; bufmut_put_slice_appends; debug_empty;
    debug_payload_hex_with_group_separator; debug_payload_exact_group_boundary; splice_headroom_noop;
    splice_headroom_inserts_headroom_when_none_exists; splice_headroom_grows_insufficient_headroom] = true.
Proof. vm_compute. reflexivity. Qed.
End BufferTests.

(** ** mmsg.rs

    A pair of sockets is the queue from one to the other, ready when it is
    polled; a system call takes as many datagrams as it is given buffers for. *)

Module MmsgTests.
Definition packet (i : nat) : bytes := replicate 128 (Z.of_nat i).

Definition queued (n : nat) : Polled := mkPolled (mkSock (map packet (seq 0 n)) [] 128) 1.

(** Each of the first buffers holds its packet. *)
Fixpoint holds (i n : nat) (bufs : list ReadBuf) : bool :=
  match n, bufs with
  | O, _ => true
  | S n, b :: bufs => bool_decide (filled b = packet i) && holds (S i) n bufs
  | S _, [] => false
  end.

Definition received (n : nat) : bool :=
  let bufs := replicate 128 (mkBuf 128 []) in
  match poll_recvmmsg bufs (queued n) with
  | (Ready (Ok k), rbufs, _) => Nat.eqb k n && holds 0 n rbufs
  | _ => false
  end.

Definition test_recvmmsg : bool := received 5 && received 92.

Definition test_sendmmsg : bool :=
  let wbufs := map (fun i => mkBuf 128 (packet i)) (seq 0 128) in
  match poll_sendmmsg (take 5 wbufs) (mkPolled (mkSock [] [] 128) 1) with
  | (Ready (Ok k), s) => Nat.eqb k 5 && bool_decide (outbox (kernel s) = map packet (seq 0 5))
  | _ => false
  end.

Example mmsg_tests_pass : forallb id [test_recvmmsg; test_sendmmsg] = true.
Proof. vm_compute. reflexivity. Qed.
End MmsgTests.
