(* ===== verification/TestsStreams.v ===== *)
(** * The repository's tests of padding.rs and relay.rs

    As in [TestsCore].  The tasks of a test are run one after the other on the
    two halves of a pipe, a poll at a time; a test that advances the clock polls
    the relay at the times, in milliseconds, at which its task is woken. *)

From S2P Require Import Prelude RustStr AsyncIo Padding PaddingStream Relay.
Open Scope nat_scope.

(** A half of [tokio::io::duplex(size)]: what the other half has written and
    this one has not read, and what this one has written; [peer] is the other
    half. *)
Record Half : Type := mkHalf {
  size : nat;
  incoming : bytes;
  in_shut : bool;
  outgoing : bytes;
  out_shut : bool;
  peer_gone : bool
}.

Definition duplex (n : nat) : Half := mkHalf n [] false [] false false.

Definition peer (h : Half) : Half :=
  mkHalf (size h) (outgoing h) (out_shut h) (incoming h) (in_shut h) false.

#[local] Instance Half_read : AsyncRead Half := fun n h =>
  match incoming h with
  | [] => (if in_shut h then Ready (Ok []) else Pending, h)
  | _ => (Ready (Ok (take n (incoming h))),
          mkHalf (size h) (drop n (incoming h)) (in_shut h) (outgoing h) (out_shut h) (peer_gone h))
  end.

#[local] Instance Half_write : AsyncWrite Half := {|
  poll_write := fun buf h =>
    let k := length buf `min` (size h - length (outgoing h)) in
    if peer_gone h || out_shut h then (Ready (Err (mk_io_error BrokenPipe [])), h)
    else if (k =? 0) && negb (length buf =? 0) then (Pending, h)
    else (Ready (Ok k),
          mkHalf (size h) (incoming h) (in_shut h) (outgoing h ++ take k buf) (out_shut h) false);
  poll_flush := fun h => (Ready (Ok tt), h);
  poll_shutdown := fun h =>
    (Ready (Ok tt), mkHalf (size h) (incoming h) (in_shut h) (outgoing h) true (peer_gone h))
|}.

(** More than a test writes before the other end reads, as the pipes of one
    megabyte and more that the tests make for that. *)
Definition roomy : nat := 64 * 1024.

(** ** padding.rs *)

Module PaddingTests.
(** The clock when the thread's generator is first used. *)
Definition nanos : Z := 123456789.

Fixpoint draws {A} (f : Z -> A * Z) (n : nat) (cell : Z) : list A :=
  match n with O => [] | S n => let '(x, cell) := f cell in x :: draws f n cell end.

Definition padding_header_length : bool :=
  forallb (fun h => (30 <=? length h) && (length h <=? 61))
    (draws (Rng.generate_padding_header nanos) 100 0%Z).

Definition VALID_LEAD : rstr := str "!#$()+<>?@[]^`{}".

Definition padding_header_chars : bool :=
  forallb (fun h => forallb (fun c => bool_decide (c ∈ VALID_LEAD)) (take 16 h)
                    && forallb (Z.eqb 126) (drop 16 h))
    (draws (Rng.generate_padding_header nanos) 20 0%Z).

Definition random_u8_varies : bool :=
  let vals := draws (Rng.random_u8 nanos) 20 0%Z in
  negb (forallb (fun '(x, y) => (x =? y)%Z) (zip vals (tl vals))).

Section Polls.
Context {T : Type}.
Implicit Types st : NaivePaddedTransport T.

(** [write_all], which gives up ([None]) on an error and where it would wait. *)
Fixpoint write_all `{!AsyncWrite T} (fuel : nat) (data : bytes) (cell : Z) st
    : option (NaivePaddedTransport T * Z) :=
  match data, fuel with
  | [], _ => Some (st, cell)
  | _, O => None
  | _, S fuel =>
      match npt_poll_write nanos cell data st with
      | (Ready (Ok (S n)), st, cell) => write_all fuel (drop (S n) data) cell st
      | _ => None
      end
  end.

Fixpoint write_each `{!AsyncWrite T} (chunks : list bytes) (cell : Z) st
    : option (NaivePaddedTransport T * Z) :=
  match chunks with
  | [] => Some (st, cell)
  | c :: cs => match write_all 64 c cell st with Some (st, cell) => write_each cs cell st | None => None end
  end.

(** [read_to_end], in reads of [n] bytes. *)
Fixpoint read_to_end `{!AsyncRead T} (fuel n : nat) st : option bytes :=
  match fuel with
  | O => None
  | S fuel =>
      match npt_poll_read n st with
      | (Ready (Ok []), _) => Some []
      | (Ready (Ok bs), st) => app bs <$> read_to_end fuel n st
      | _ => None
      end
  end.
End Polls.

Definition cap_writer (n : nat) : NaivePaddedTransport CapWriter := npt_new (Build_CapWriter n [] false).

Definition test_poll_write_partial_write_no_stall : bool :=
  let payload := replicate 100 0xAB%Z in
  bool_decide (is_Some (write_each [payload; payload] 0%Z (cap_writer 50))).

Definition test_poll_write_partial_write_byte_by_byte : bool :=
  bool_decide (is_Some (write_each (replicate 8 (replicate 5 0xCD%Z)) 0%Z (cap_writer 1))).

(** [shutdown], the reader of the other half taking all there is whenever the
    shutdown waits; the bytes the reader counts. *)
Fixpoint shutdown_read (fuel : nat) (st : NaivePaddedTransport Half) (total : nat) : option nat :=
  match fuel with
  | O => None
  | S fuel =>
      let '(p, st) := npt_poll_shutdown st in
      let h := inner st in
      let total := total + length (outgoing h) in
      let st := set_inner st (mkHalf (size h) (incoming h) (in_shut h) [] (out_shut h) false) in
      match p with
      | Ready (Ok _) => if out_shut h then Some total else None
      | Ready (Err _) => None
      | Pending => shutdown_read fuel st total
      end
  end.

Definition test_poll_shutdown_flushes_write_pending : bool :=
  match write_each [str "hello"] 0%Z (npt_new (duplex 4)) with
  | Some (enc, _) => from_option (Nat.leb 8) false (shutdown_read 100 enc 0)
  | None => false
  end.

(** The chunks written and shut down by one end, read to the end by the other. *)
Definition decoded (pipe n : nat) (chunks : list bytes) : option bytes :=
  match write_each chunks 0%Z (npt_new (duplex pipe)) with
  | Some (enc, _) =>
      match npt_poll_shutdown enc with
      | (Ready (Ok _), enc) => read_to_end 300 n (npt_new (peer (inner enc)))
      | _ => None
      end
  | None => None
  end.

Definition original : bytes := str "hello naive proxy roundtrip".

Definition test_roundtrip_single_frame : bool :=
  bool_decide (decoded roomy 32 [original] = Some original).

Definition nine_chunks : list bytes := map (fun i => replicate 128 (Z.of_nat i)) (seq 0 9).

Definition test_roundtrip_nine_frames : bool :=
  bool_decide (decoded roomy 32 nine_chunks = Some (concat nine_chunks)).

(** The bytes of the direction from [t] to [t'], and [t'] after reading them. *)
Definition transfer (data : bytes) (t t' : NaivePaddedTransport Half)
    : option (NaivePaddedTransport Half * NaivePaddedTransport Half) :=
  match write_all 64 data 0%Z t with
  | Some (t, _) =>
      match npt_poll_read (length data) (set_inner t' (peer (inner t))) with
      | (Ready (Ok bs), t') =>
          if bool_decide (bs = data) then Some (set_inner t (peer (inner t')), t') else None
      | _ => None
      end
  | None => None
  end.

Definition test_roundtrip_bidirectional : bool :=
  match transfer (str "transport A sends this") (npt_new (duplex roomy)) (npt_new (duplex roomy)) with
  | Some (ta, tb) => bool_decide (is_Some (transfer (str "transport B sends this") tb ta))
  | None => false
  end.

Definition slow_original : bytes := str "byte-by-byte decoding".

Definition test_decode_byte_by_byte_arrival : bool :=
  let frame := build_frame slow_original (replicate 4 0xAA%Z) in
  bool_decide (read_to_end 300 32 (npt_new (mem (map (fun b => [b]) frame) [])) = Some slow_original).

Definition test_roundtrip_small_frame_large_read_buf : bool :=
  bool_decide (decoded roomy 4096 [str "first"; str "second"] = Some (str "first" ++ str "second")).

Definition DATA_SIZE : nat := 32 * 1024.
Definition large_frame (b : Z) : bytes := build_frame (replicate DATA_SIZE b) [].

Definition red_phase1_large_frame_not_capped_at_4096 : bool :=
  match npt_poll_read (DATA_SIZE * 2) (npt_new (mem [large_frame 0xAB] [])) with
  | (Ready (Ok bs), _) => 4096 <? length bs
  | _ => false
  end.

(** [CountingReader]. *)
Record CountingReader : Type := mkCounting { counted : Half; calls : nat }.

#[local] Instance CountingReader_read : AsyncRead CountingReader := fun n s =>
  let '(p, h) := poll_read n (counted s) in (p, mkCounting h (S (calls s))).

Fixpoint consume (fuel total : nat) (st : NaivePaddedTransport CountingReader) : option (nat * nat) :=
  match fuel with
  | O => None
  | S fuel =>
      match npt_poll_read (DATA_SIZE * 2) st with
      | (Ready (Ok bs), st) =>
          let total := total + length bs in
          if (length bs =? 0) || (DATA_SIZE <=? total) then Some (total, calls (inner st))
          else consume fuel total st
      | _ => None
      end
  end.

(** The first read finds nothing; then the writer's task runs. *)
Definition red_phase1_large_frame_inner_read_count : bool :=
  match npt_poll_read (DATA_SIZE * 2) (npt_new (mkCounting (duplex roomy) 0)) with
  | (Pending, st) =>
      let sent := mkHalf roomy (large_frame 0xCD) true [] false false in
      match consume 20 0 (set_inner st (mkCounting sent (calls (inner st)))) with
      | Some (total, reads) => (total =? DATA_SIZE) && (reads <=? 5)
      | None => false
      end
  | _ => false
  end.

Example padding_tests_pass :
  forallb id [padding_header_length; padding_header_chars; random_u8_varies;
    test_poll_write_partial_write_no_stall; test_poll_write_partial_write_byte_by_byte;
    test_poll_shutdown_flushes_write_pending; test_roundtrip_single_frame; test_roundtrip_nine_frames;
    test_roundtrip_bidirectional; test_decode_byte_by_byte_arrival;
    test_roundtrip_small_frame_large_read_buf; red_phase1_large_frame_not_capped_at_4096;
    red_phase1_large_frame_inner_read_count] = true.
Proof. vm_compute. reflexivity. Qed.
End PaddingTests.

(** ** relay.rs *)

Module RelayTests.
(** [std::io::Cursor<Vec<u8>>]: reads and writes move one position, and a
    write replaces the bytes there. *)
Record Cursor : Type := mkCursor { vec : bytes; at_ : nat }.

Definition cursor (data : bytes) : Cursor := mkCursor data 0.

#[local] Instance Cursor_read : AsyncRead Cursor := fun n c =>
  let bs := take n (drop (at_ c) (vec c)) in (Ready (Ok bs), mkCursor (vec c) (at_ c + length bs)).

#[local] Instance Cursor_write : AsyncWrite Cursor := {|
  poll_write := fun buf c =>
    (Ready (Ok (length buf)),
     mkCursor (take (at_ c) (vec c) ++ buf ++ drop (at_ c + length buf) (vec c)) (at_ c + length buf));
  poll_flush := fun c => (Ready (Ok tt), c);
  poll_shutdown := fun c => (Ready (Ok tt), c)
|}.

(** [NeverEofSink] and [PendingFlushWriter]: whether the flush is ready. *)
Record Sink : Type := mkSink { flushes : bool }.

Definition NeverEofSink : Sink := mkSink true.
Definition PendingFlushWriter : Sink := mkSink false.

#[local] Instance Sink_read : AsyncRead Sink := fun _ s => (Pending, s).

#[local] Instance Sink_write : AsyncWrite Sink := {|
  poll_write := fun buf s => (Ready (Ok (length buf)), s);
  poll_flush := fun s => (if flushes s then Ready (Ok tt) else Pending, s);
  poll_shutdown := fun s => (Ready (Ok tt), s)
|}.

Record ShutdownRecorder : Type := mkRecorder { recorded : Half; shutdown_called : bool }.

#[local] Instance Recorder_read : AsyncRead ShutdownRecorder := fun n s =>
  let '(p, h) := poll_read n (recorded s) in (p, mkRecorder h (shutdown_called s)).

#[local] Instance Recorder_write : AsyncWrite ShutdownRecorder := {|
  poll_write := fun buf s =>
    let '(p, h) := poll_write buf (recorded s) in (p, mkRecorder h (shutdown_called s));
  poll_flush := fun s =>
    let '(p, h) := poll_flush (recorded s) in (p, mkRecorder h (shutdown_called s));
  poll_shutdown := fun s =>
    let '(p, h) := poll_shutdown (recorded s) in (p, mkRecorder h true)
|}.

(** A task of the test changes the two streams; the others are in the relay. *)
Definition on_sides {A B} (fa : A -> A) (fb : B -> B) (st : Relay A B) : Relay A B :=
  mkRelay (a_to_b st) (b_to_a st) (fa (side_a st)) (fb (side_b st)) (idle_sleep st).

(** The relay polled after each change of its streams: how it ended, [None]
    while it is running.  The change that comes with the last poll is made once
    more after it: the other tasks see what the relay left. *)
Section Drive.
Context {A B : Type} `{!AsyncRead A, !AsyncWrite A, !AsyncRead B, !AsyncWrite B}.

Fixpoint drive (idle : Z) (script : list (Z * (A -> A) * (B -> B))) (st : Relay A B)
    : option (io_result bool * RelayTermination) * Relay A B :=
  match script with
  | [] => (None, st)
  | (now, fa, fb) :: script =>
      match relay_poll at_deadline 100 idle now (on_sides fa fb st) with
      | Some (Ready r, t, st) => (Some (r, t), on_sides fa fb st)
      | Some (Pending, _, st) => drive idle script st
      | None => (None, st)
      end
  end.
End Drive.

Definition test_basic_bidirectional_copy : bool :=
  let st := relay_new 1024 false 300000 0 (cursor (str "hello world")) (cursor []) in
  match drive 300000 [(0%Z, id, id)] st with
  | (Some (r, t), st) =>
      match relay_result r t st with
      | Ok res => cr_completed res && (0 <? cr_a_to_b res)%Z
      | Err _ => false
      end
  | _ => false
  end.

Definition test_no_half_close_timer_after_client_eof : bool :=
  let st := relay_new 1024 false 300000 0 (cursor (str "hello")) NeverEofSink in
  match drive 300000 [(0%Z, id, id); (60000%Z, id, id)] st with
  | (None, st) => is_done (a_to_b st)
  | _ => false
  end.

Definition test_idle_timeout_fires : bool :=
  match drive 3000 [(0%Z, id, id); (3000%Z, id, id)] (relay_new 1024 false 3000 0 NeverEofSink NeverEofSink) with
  | (Some (Ok _, IdleTimeout), _) => true
  | _ => false
  end.

Definition test_stats_recorded : bool :=
  let st := relay_new 1024 false 300000 0 (cursor (str "upload")) (cursor (str "download")) in
  match drive 300000 [(0%Z, id, id)] st with
  | (Some (r, t), st) =>
      match relay_result r t st, record_stats st with
      | Ok res, (Some upload, Some download) =>
          (0 <? cr_a_to_b res)%Z && (0 <? cr_b_to_a res)%Z
          && (upload =? cr_a_to_b res)%Z && (download =? cr_b_to_a res)%Z
      | _, _ => false
      end
  | _ => false
  end.

(** The other end of a half writes, shuts down, or is dropped. *)
Definition peer_writes (data : bytes) (h : Half) : Half :=
  mkHalf (size h) (incoming h ++ data) (in_shut h) (outgoing h) (out_shut h) (peer_gone h).
Definition peer_shuts (h : Half) : Half :=
  mkHalf (size h) (incoming h) true (outgoing h) (out_shut h) (peer_gone h).
Definition peer_drops (h : Half) : Half :=
  mkHalf (size h) (incoming h) true (outgoing h) (out_shut h) true.
Definition peer_takes (h : Half) : Half :=
  mkHalf (size h) (incoming h) (in_shut h) [] (out_shut h) (peer_gone h).

Definition red_idle_timer_not_reset_when_flush_always_pending : bool :=
  let st := relay_new 1024 false 1000 0 (duplex (8 * 1024)) PendingFlushWriter in
  match drive 1000 [(0%Z, id, id); (500%Z, peer_writes (replicate 64 0%Z), id); (1200%Z, id, id)] st with
  | (None, st) => (bytes_transferred (a_to_b st) =? 64)%Z
  | _ => false
  end.

Definition GET : bytes := str "GET /download HTTP/1.1" ++ [13; 10]%Z ++ str "Host: test" ++ [13; 10; 13; 10]%Z.

Definition on_recorded (f : Half -> Half) (s : ShutdownRecorder) : ShutdownRecorder :=
  mkRecorder (f (recorded s)) (shutdown_called s).

(** The client writes and closes its upload; the server reads and drops its
    half. *)
Definition test_relay_propagates_client_eof_as_fin_when_suppress_disabled : bool :=
  let a := peer_shuts (peer_writes GET (duplex (8 * 1024))) in
  let st := relay_new 4096 false 5000 0 a (mkRecorder (duplex (8 * 1024)) false) in
  match drive 5000 [(0%Z, id, id); (0%Z, id, on_recorded (peer_drops ∘ peer_takes))] st with
  | (Some _, st) => shutdown_called (side_b st)
  | _ => false
  end.

Definition HEADER : bytes :=
  str "HTTP/1.1 200 OK" ++ [13; 10]%Z ++ str "Content-Length: 100000" ++ [13; 10; 13; 10]%Z.
Definition BODY : bytes := replicate (Z.to_nat 100000) 88%Z.

(** The client's half with the bytes the client has read so far. *)
Record Reading : Type := mkReading { half : Half; received : nat }.

#[local] Instance Reading_read : AsyncRead Reading := fun n s =>
  let '(p, h) := poll_read n (half s) in (p, mkReading h (received s)).

#[local] Instance Reading_write : AsyncWrite Reading := {|
  poll_write := fun buf s => let '(p, h) := poll_write buf (half s) in (p, mkReading h (received s));
  poll_flush := fun s => let '(p, h) := poll_flush (half s) in (p, mkReading h (received s));
  poll_shutdown := fun s => let '(p, h) := poll_shutdown (half s) in (p, mkReading h (received s))
|}.

Definition client_reads (s : Reading) : Reading :=
  mkReading (peer_takes (half s)) (received s + length (outgoing (half s))).

(** The server answers once it has the request; the client reads on. *)
Definition test_suppress_flag_prevents_fin_and_delivers_full_download : bool :=
  let a := mkReading (peer_shuts (peer_writes GET (duplex (8 * 1024)))) 0 in
  let b := mkRecorder (duplex (128 * 1024)) false in
  let answer := on_recorded (fun h => peer_shuts (peer_writes (HEADER ++ BODY) (peer_takes h))) in
  match drive 60000 ((0%Z, id, id) :: (0%Z, id, answer) :: replicate 20 (1%Z, client_reads, id))
          (relay_new 4096 true 60000 0 a b) with
  | (Some (Ok _, Completed), st) =>
      negb (shutdown_called (side_b st)) && (received (side_a st) =? length (HEADER ++ BODY))
  | _ => false
  end.

(** The server drains the upload, then is silent for 90 seconds. *)
Definition test_long_post_upload_server_pause_is_not_truncated : bool :=
  let POST := str "POST /upload HTTP/1.1" ++ [13; 10]%Z ++ str "Content-Length: 4096" ++ [13; 10; 13; 10]%Z in
  let ack := str "HTTP/1.1 200 OK" ++ [13; 10]%Z ++ str "Content-Length: 0" ++ [13; 10; 13; 10]%Z in
  let a := mkReading (peer_shuts (peer_writes (POST ++ replicate 4096 0%Z) (duplex roomy))) 0 in
  let second (k : nat) := (Z.of_nat (1000 * k),
    client_reads, if k =? 90 then peer_shuts ∘ peer_writes ack else peer_takes) in
  match drive 300000 (map second (seq 0 120)) (relay_new 4096 false 300000 0 a (duplex roomy)) with
  | (Some (Ok _, Completed), st) => 0 <? received (side_a st)
  | _ => false
  end.

Example relay_tests_pass :
  forallb id [test_basic_bidirectional_copy; test_no_half_close_timer_after_client_eof;
    test_idle_timeout_fires; test_stats_recorded;
    red_idle_timer_not_reset_when_flush_always_pending;
    test_relay_propagates_client_eof_as_fin_when_suppress_disabled;
    test_suppress_flag_prevents_fin_and_delivers_full_download;
    test_long_post_upload_server_pause_is_not_truncated] = true.
Proof. vm_compute. reflexivity. Qed.
End RelayTests.
